(* ===== verification/_CoqProject ===== *)
-Q . S2P
Prelude.v
RangeBase.v
RangeSet.v
RangeSetOps.v
RangeCut.v
RangeText.v
BlockCache.v
BlockRange.v
BlockSet.v
Sparsify.v
Errors.v
Resources.v
ResourceSpec.v
Checkpoint.v
Intervals.v
IntervalSpec.v
CheckpointCtrl.v
Sinks.v
EntityValue.v
EntityHistory.v
EntityMerge.v
EntityTyping.v
EntityCtrl.v
EntityRich.v
EntityStruct.v
LikePattern.v
EntityFilter.v
EntitySql.v
ChainStore.v
EntityTable.v
EntitySpec.v
ChainStoreSpec.v
ChainStoreList.v
EntityList.v
TableRows.v
TableSpec.v
TableRead.v
TableWrite.v
TableReorg.v
ChainStack.v
EntityWrite.v
EntityCommit.v
EntityRefine.v
EntityPages.v
EntitySamples.v
CheckpointSave.v
CheckpointOps.v
CheckpointTemplates.v
SinkSafety.v
SinkWorld.v
CheckpointStore.v
Progress.v
ProgressSys.v
BlockBuilder.v
Fetcher.v
FetcherSpec.v
Transfer.v
FetcherStack.v
EvmChain.v
EvmData.v
EvmFilter.v
EvmSpec.v
EvmBlock.v
EvmHandler.v
EvmConfig.v
EvmBlockSpec.v
EvmTasks.v
Samples.v
RangeProps.v
ControllerProps.v
RunProps.v
FetcherProps.v
SinkProps.v
EntityProps.v
StackProps.v
UtilProps.v
EvmProps.v
