(* ===== verification/Prelude.v ===== *)
(** * Verification of the sentio-core driver

    The driver of sentio-core indexes a chain: it walks the blocks, fetches their data,
    runs the user's handlers on them and from time to time saves a checkpoint from which
    a later run goes on. This library models the control core of the driver
    ([src/driver/controller]) and the range arithmetic it rests on
    ([src/common/range], [src/common/sparsify]), and proves what makes them correct.

    ** The program and its parts

    - A _main loop_ ([MainController.Main]) restarts a _run_ until the chain is done. In a
      run a producer gets block after block from the _block builder_, workers execute the
      tasks of the blocks, and one goroutine makes the checkpoints, in block order.
    - The _block builder_ takes the data of a block from a _fetcher_, checks that the block
      links to the ones before it, and reports a reorganisation otherwise.
    - The _fetchers_ read ahead: the plain one queries ranges of blocks, the transfer
      fetcher maps an upstream fetcher's blocks concurrently, the merged one joins several.
    - The _checkpoint controller_ keeps the checkpoints (a saved prefix and unsaved ones
      behind it) and the template instances; it saves through the _checkpoint store_,
      which writes a row of the processor service.
    - _Ranges_ and _range sets_ say which blocks a handler or a template instance wants;
      _sparsification_ keeps the number of checkpoints and headers logarithmic.

    ** Files

    - [Prelude] (this file): wrapping [uint64] arithmetic, the outcome type with panics and
      divergence, a state monad with its Hoare rules, tactics and hints.
    - [RangeBase], [RangeSet], [RangeSetOps], [RangeCut]: [common/range]: [utils.go] and
      [range.go]; the operations of a set with a range in [set.go]; the constructors and
      the operations on two sets; [cutter.go] and [CutRangeSet].
    - [BlockRange]: [driver/controller/range.go], a second implementation of the same
      data, with each operation proved equal to the first. [BlockSet]: the interface
      [NumSet] of a set of numbers, which both implement; replaying additions and removals.
    - [Sparsify]: [common/sparsify/sparsify.go] and the in-place loops of
      [common/utils/array.go].
    - [Errors]: [driver/controller/errors.go]. [Checkpoint]: the data types of
      [driver/controller/checkpoint.go].
    - [CheckpointCtrl]: the record [Ctrl] has the fields of [checkpointController]; one
      definition per method, in the state monad over the fields and a world [W] whose
      operations are the class [Services]: store, quota service, the three sinks, clock.
      [CheckpointSave], [CheckpointOps], [CheckpointTemplates]: the invariant [ctrl_ok], the
      laws [StoreLaws] asked of the store, what each method does on every path, and the
      transition system [step] of calls in any order.
    - [CheckpointStore]: [driver/controller/startup/checkpoint.go]; it satisfies
      [StoreLaws].
    - [Progress], [ProgressSys]: [driver/controller/main.go]: the retry loop and the message
      handler; the goroutines of a run as the transition system [sys_step].
    - [BlockBuilder]: [driver/controller/block_builder.go].
    - [Fetcher], [FetcherSpec]: [driver/controller/fetcher/fetcher.go]; [Transfer]:
      [transfer.go], its own state; [FetcherStack]: the interface [Fetching], the transfer
      fetcher with its upstream, [merge.go].
    - [Samples]: a concrete codec, store and controller. [RangeProps], [ControllerProps],
      [RunProps], [FetcherProps]: the main theorems, C1 to C40, each on a concrete case too.

    ** What the theorems show

    - A run (C1 to C4): checkpoints are made block by block, each once and after all its
      tasks; no nil panel is dereferenced; there is no deadlock, and every run is finite.
    - The controller and its store (C5 to C12): every method returns; the saved
      checkpoints are a prefix in block order; the store holds exactly the saved
      checkpoints; a reorganisation removes exactly what it has to; a template instance
      is refused exactly when the enabled blocks would have a hole.
    - The block builder (C13, C14) reports the right block of a reorganisation and walks
      the range block by block.
    - The fetchers (C15 to C19): whatever the interleaving, a reader gets the data of the
      source and nothing else; the retry loop ends; the window of concurrent transfers is
      bounded.
    - Ranges (C20 to C31): the operations compute intersection, union and difference,
      keep sets well formed, and cut ranges into tiles; representation and meaning
      determine each other. Sparsification (C32, C33) is logarithmic. The retry loop
      and the error classes (C34, C35).
    - C36 to C40 are concrete behaviours at the edges: failed saves, instances of one call,
      a broken fetcher, and ranges that end at the largest [uint64].

    ** Bounds and fuel

    [uint64] values are integers with wrapping operations written out; theorems have
    the bounds they need as hypotheses, mostly that no finite end is [2^64 - 1].
    Block numbers of the fetchers are below [2^62], so that a start plus a window does not
    wrap. Loops that are not structural take fuel and return [Diverge] without it;
    theorems say that the fuel given is enough: [cut_fuel] is the length of the range,
    [save_fuel] is 64 because the multiplier doubles below [2^64], the inner loop of the
    checkpoint goroutine takes one more round than blocks are waiting, and the retry
    loop of a query ends within the retries plus the logarithm of the range. Times are
    nanoseconds as integers; [time.Sub] saturates as in Go. Sizes of data and Go's [int]
    counters are unbounded integers.

    ** What is not modelled

    Logging, metrics, statistics windows, snapshots and the text of messages; the chain
    clients, handlers, query and transfer functions, which are parameters; JSON, gzip and
    gRPC, which are an encoding with a round-trip law and a call that may fail; the three
    floating-point conversions that grow a query, which are parameters no theorem
    depends on. The mutex of an object makes its methods atomic; where the source
    unlocks in the middle ([growth], [transfer]) the model has a step on each side. The
    capacity of the message channel is not bounded in [sys_step]: a full channel only
    delays a sender, and the receiver is never blocked. Slices are values: the sharing of
    a backing array between sets is not modelled.

    ** What comes next

    The run, the controller and the store composed into one system, from the first block
    to the last saved checkpoint; the text format of ranges ([common/range/parser.go]); the cache of uncommitted entities
    ([driver/entity/persistent]); the handler controller's ranges; the queues and token
    buckets of [common]. *)
From Stdlib Require Import ZArith Lia.
From stdpp Require Import base numbers option sorting gmap list.

Open Scope Z_scope.

(** ** Machine integers

    Go's [uint64] is a [Z] in [0, 2^64); every addition, subtraction and
    multiplication of the source wraps, so it is written with the wrapping
    operations below and a side condition is needed to read it as the exact one. *)
Definition two64 : Z := 18446744073709551616.
Definition maxU64 : Z := 18446744073709551615.

Definition wrap (z : Z) : Z := z mod two64.
Definition add64 (a b : Z) : Z := wrap (a + b).
Definition sub64 (a b : Z) : Z := wrap (a - b).
Definition mul64 (a b : Z) : Z := wrap (a * b).

(** [int64(x)] of a [uint64]. *)
Definition to_int64 (x : Z) : Z := if x <? 2 ^ 63 then x else x - two64.

(** [Time.UnixMicro]. *)
Definition UnixMicro (t : Z) : Z := t / 1000.

Declare Scope u64_scope.
Delimit Scope u64_scope with u64.
Infix "+!" := add64 (at level 50, left associativity) : u64_scope.
Infix "-!" := sub64 (at level 50, left associativity) : u64_scope.
Infix "*!" := mul64 (at level 40, left associativity) : u64_scope.
Open Scope u64_scope.

(** A value that fits in a [uint64]. *)
Definition u64 (z : Z) : Prop := 0 <= z < two64.

(** ** Panics

    A Go function that may panic (an explicit [panic], an index out of range, a
    nil dereference) returns an [Outcome]. [Diverge] is the value of a loop whose
    fuel ran out; theorems show the fuel chosen is enough. *)
Inductive Outcome (A : Type) : Type :=
| Ok (a : A)
| Panic
| Diverge.
Arguments Ok {A} a.
Arguments Panic {A}.
Arguments Diverge {A}.

Definition obind {A B} (x : Outcome A) (f : A -> Outcome B) : Outcome B :=
  match x with
  | Ok a => f a
  | Panic => Panic
  | Diverge => Diverge
  end.

Declare Scope outcome_scope.
Delimit Scope outcome_scope with outcome.
Notation "'let!' x ':=' c 'in' k" := (obind c (fun x => k))
  (at level 10, x pattern, c at level 100, k at level 200) : outcome_scope.
Open Scope outcome_scope.

(** [*p] for a pointer [p] that the code has just tested to be non-nil. *)
Definition deref (p : option Z) : Z := default 0 p.

(** [arr[i:]] and [arr[:i]] for an [i] within bounds are [drop] and [take]. *)

(** ** Lemmas on the wrapping operations *)
Lemma wrap_small z : u64 z -> wrap z = z.
Proof. unfold u64, wrap. intros H. apply Z.mod_small. exact H. Qed.

Lemma wrap_u64 z : u64 (wrap z).
Proof. unfold u64, wrap. apply Z.mod_pos_bound. reflexivity. Qed.

Lemma add64_small a b : 0 <= a -> 0 <= b -> a + b < two64 -> a +! b = a + b.
Proof. intros. apply wrap_small. unfold u64. lia. Qed.

Lemma sub64_small a b : 0 <= b -> b <= a -> a < two64 -> a -! b = a - b.
Proof. intros. apply wrap_small. unfold u64. lia. Qed.

Lemma wrap_add_l a b : wrap (wrap a + b) = wrap (a + b).
Proof. apply Zplus_mod_idemp_l. Qed.

Lemma wrap_add_r a b : wrap (a + wrap b) = wrap (a + b).
Proof. apply Zplus_mod_idemp_r. Qed.

Lemma wrap_sub_l a b : wrap (wrap a - b) = wrap (a - b).
Proof. apply Zminus_mod_idemp_l. Qed.

Lemma wrap_sub_r a b : wrap (a - wrap b) = wrap (a - b).
Proof. apply Zminus_mod_idemp_r. Qed.

Lemma add64_max_1 : maxU64 +! 1 = 0.
Proof. reflexivity. Qed.

Lemma u64_add64 a b : u64 (a +! b).
Proof. apply wrap_u64. Qed.

Lemma u64_sub64 a b : u64 (a -! b).
Proof. apply wrap_u64. Qed.

Lemma two64_maxU64 : two64 = maxU64 + 1.
Proof. reflexivity. Qed.

(** ** Tactics *)

(** Boolean tests of the source, in every hypothesis and in the goal, as the
    propositions they decide. *)
Ltac breflect :=
  repeat match goal with
  | H : (_ && _)%bool = true |- _ => apply andb_true_iff in H; destruct H
  | H : (_ || _)%bool = false |- _ => apply orb_false_iff in H; destruct H
  | H : negb _ = true |- _ => apply negb_true_iff in H
  | H : negb _ = false |- _ => apply negb_false_iff in H
  | H : (_ <? _) = true |- _ => apply Z.ltb_lt in H
  | H : (_ <? _) = false |- _ => apply Z.ltb_ge in H
  | H : (_ <=? _) = true |- _ => apply Z.leb_le in H
  | H : (_ <=? _) = false |- _ => apply Z.leb_gt in H
  | H : (_ =? _) = true |- _ => apply Z.eqb_eq in H
  | H : (_ =? _) = false |- _ => apply Z.eqb_neq in H
  end.

(** Splits the boolean tests of the goal. *)
Ltac bcase :=
  match goal with
  | |- context [Z.ltb ?a ?b] => destruct (Z.ltb_spec a b)
  | |- context [Z.leb ?a ?b] => destruct (Z.leb_spec a b)
  | |- context [Z.eqb ?a ?b] => destruct (Z.eqb_spec a b)
  end.

Ltac bcase_in H :=
  match type of H with
  | context [Z.ltb ?a ?b] => destruct (Z.ltb_spec a b)
  | context [Z.leb ?a ?b] => destruct (Z.leb_spec a b)
  | context [Z.eqb ?a ?b] => destruct (Z.eqb_spec a b)
  end.

(** Normalises nested wrapping sums to one wrap, and removes it where the exact
    value fits. *)
Create Rewrite HintDb wrap_push.
#[export] Hint Rewrite wrap_add_l wrap_add_r wrap_sub_l wrap_sub_r : wrap_push.

Ltac u64lia := unfold u64, two64, maxU64 in *; lia.

Ltac u64norm :=
  unfold add64, sub64 in *; autorewrite with wrap_push in *;
  repeat match goal with
  | |- context [wrap ?z] => rewrite (wrap_small z) by u64lia
  | H : context [wrap ?z] |- _ => rewrite (wrap_small z) in H by u64lia
  end.

(** ** Signed integers *)

(** The int64 a number is, modulo 2^64. *)
Definition wrap_int64 (x : Z) : Z := (x + 2 ^ 63) mod 2 ^ 64 - 2 ^ 63.

Lemma wrap_int64_id x : - 2 ^ 63 <= x < 2 ^ 63 -> wrap_int64 x = x.
Proof. intros Hx. unfold wrap_int64. rewrite Z.mod_small; lia. Qed.

Lemma wrap_int64_succ x : to_int64 (wrap_int64 x + 1) = wrap_int64 (x + 1).
Proof.
  unfold to_int64, wrap_int64, two64. pose proof (Z.mod_pos_bound (x + 2 ^ 63) (2 ^ 64) ltac:(lia)) as Hb.
  pose proof (Z.div_mod (x + 2 ^ 63) (2 ^ 64) ltac:(lia)) as Hd. set (q := (x + 2 ^ 63) / 2 ^ 64) in *.
  bcase.
  - assert ((x + 1 + 2 ^ 63) mod 2 ^ 64 = (x + 2 ^ 63) mod 2 ^ 64 + 1) as ->; [|lia].
    symmetry. apply (Z.mod_unique _ _ q); lia.
  - assert ((x + 1 + 2 ^ 63) mod 2 ^ 64 = 0) as ->; [|lia]. symmetry. apply (Z.mod_unique _ _ (q + 1)); lia.
Qed.

Lemma wrap_int64_inj x i j : 0 <= i < 2 ^ 64 -> 0 <= j < 2 ^ 64 -> wrap_int64 (x + i) = wrap_int64 (x + j) -> i = j.
Proof.
  intros Hi Hj Heq. unfold wrap_int64 in Heq.
  assert (Hm : (x + i + 2 ^ 63) mod 2 ^ 64 = (x + j + 2 ^ 63) mod 2 ^ 64) by lia.
  assert (Hz : (i - j) mod 2 ^ 64 = 0).
  { replace (i - j) with ((x + i + 2 ^ 63) - (x + j + 2 ^ 63)) by lia.
    rewrite Zminus_mod, Hm, Z.sub_diag. done. }
  apply Z.mod_divide in Hz as [k Hk]; [|lia]. nia.
Qed.

Create HintDb sentio.
#[export] Hint Resolve wrap_u64 u64_add64 u64_sub64 : sentio.

(** ** Stateful code

    A method that changes a shared object is a function from the state before to an
    outcome with its result and the state after. *)
Definition SM (S A : Type) : Type := S -> Outcome (A * S).

#[global] Instance SM_ret S : MRet (SM S) := fun A a s => Ok (a, s).
#[global] Instance SM_bind S : MBind (SM S) := fun A B f m s => let! (a, s') := m s in f a s'.

Section SM.
Context {S : Type}.

Definition sget : SM S S := fun s => Ok (s, s).
Definition smodify (f : S -> S) : SM S unit := fun s => Ok (tt, f s).
Definition slift {A} (o : Outcome A) : SM S A := fun s => let! a := o in Ok (a, s).

(** Total correctness: from a state in [P], [m] returns, in [Q]. *)
Definition triple {A} (P : S -> Prop) (m : SM S A) (Q : A -> S -> Prop) : Prop :=
  forall s, P s -> exists a s', m s = Ok (a, s') /\ Q a s'.

Lemma triple_ret {A} (a : A) (P : S -> Prop) (Q : A -> S -> Prop) :
  (forall s, P s -> Q a s) -> triple P (mret a) Q.
Proof. intros H s Hs. exists a, s. auto. Qed.

Lemma triple_bind {A B} (m : SM S A) (f : A -> SM S B) P R Q :
  triple P m R -> (forall a, triple (R a) (f a) Q) -> triple P (mbind f m) Q.
Proof.
  intros Hm Hf s Hs. destruct (Hm s Hs) as (a & s' & E & Ha).
  destruct (Hf a s' Ha) as (b & s2 & E2 & Hb). exists b, s2. split; [|done].
  unfold mbind, SM_bind. rewrite E. exact E2.
Qed.

Lemma triple_conseq {A} (m : SM S A) (P P' : S -> Prop) (Q Q' : A -> S -> Prop) :
  triple P' m Q' -> (forall s, P s -> P' s) -> (forall a s, Q' a s -> Q a s) -> triple P m Q.
Proof. intros H HP HQ s Hs. destruct (H s (HP s Hs)) as (a & s' & ? & ?). eauto. Qed.

Lemma triple_get (P : S -> Prop) (Q : S -> S -> Prop) :
  (forall s, P s -> Q s s) -> triple P sget Q.
Proof. intros H s Hs. exists s, s. auto. Qed.

Lemma triple_modify f (P : S -> Prop) (Q : unit -> S -> Prop) :
  (forall s, P s -> Q tt (f s)) -> triple P (smodify f) Q.
Proof. intros H s Hs. exists tt, (f s). auto. Qed.

Lemma triple_lift {A} (o : Outcome A) (a : A) (P : S -> Prop) (Q : A -> S -> Prop) :
  (forall s, P s -> o = Ok a /\ Q a s) -> triple P (slift o) Q.
Proof. intros H s Hs. destruct (H s Hs) as [-> ?]. exists a, s. auto. Qed.

Lemma triple_if {A} (b : bool) (m1 m2 : SM S A) P Q :
  triple (fun s => b = true /\ P s) m1 Q -> triple (fun s => b = false /\ P s) m2 Q ->
  triple P (if b then m1 else m2) Q.
Proof. intros H1 H2 s Hs. destruct b; [apply H1|apply H2]; auto. Qed.

(** Facts that do not depend on the state can be moved out of a precondition. *)
Lemma triple_pure {A} (X : Prop) (m : SM S A) P Q :
  (X -> triple P m Q) -> triple (fun s => X /\ P s) m Q.
Proof. intros H s [HX Hs]. by apply H. Qed.

End SM.

(** ** Filtered lists *)

Lemma map_omap {A B C} (f : A -> option B) (g : B -> C) (l : list A) : map g (omap f l) = omap (fun x => g <$> f x) l.
Proof. induction l as [|x l IH]; [done|]. cbn. by destruct (f x); cbn; rewrite IH. Qed.

Lemma omap_ext_in {A B} (f g : A -> option B) (l : list A) : (forall x, x ∈ l -> f x = g x) -> omap f l = omap g l.
Proof.
  induction l as [|x l IH]; intros H; [done|]. cbn. rewrite H by (by left). rewrite IH; [done|]. intros y Hy. apply H. by right.
Qed.

Lemma omap_filter {A B} (f : A -> option B) (g : A -> B) (P : A -> Prop) `{!forall x, Decision (P x)} (l : list A) :
  (forall x, x ∈ l -> f x = if decide (P x) then Some (g x) else None) -> omap f l = map g (filter P l).
Proof.
  induction l as [|x l IH]; intros Hf; [done|]. rewrite filter_cons. cbn [omap list_omap]. rewrite Hf by (by left).
  specialize (IH (fun y Hy => Hf y (list_elem_of_further _ _ _ Hy))). case_decide; cbn; by rewrite <- IH.
Qed.

Lemma filter_map {A B} (f : A -> B) (P : B -> Prop) `{!forall x, Decision (P x)} (l : list A) :
  filter P (map f l) = map f (filter (fun x => P (f x)) l).
Proof. induction l as [|x l IH]; [done|]. cbn [map]. rewrite !filter_cons. case_decide; cbn [map]; by rewrite IH. Qed.

Lemma filter_in {A} (P Q : A -> Prop) `{!forall x, Decision (P x)} `{!forall x, Decision (Q x)} (l : list A) :
  (forall x, x ∈ l -> P x <-> Q x) -> filter P l = filter Q l.
Proof.
  induction l as [|x l IH]; intros Hpq; [done|]. rewrite !filter_cons. rewrite IH by (intros y Hy; apply Hpq; by right).
  specialize (Hpq x ltac:(by left)). by repeat case_decide; try tauto.
Qed.

Lemma omap_some_filter {A B} (f : A -> option B) (l : list A) : omap f (filter (fun x => is_Some (f x)) l) = omap f l.
Proof.
  induction l as [|x l IH]; [done|]. rewrite filter_cons. case_decide as Hd; cbn [omap list_omap]; rewrite IH; [done|].
  by destruct (f x) as [b|]; [destruct Hd; exists b|].
Qed.

Lemma sublist_omap {A B} (f : A -> option B) (l l' : list A) : l' `sublist_of` l -> omap f l' `sublist_of` omap f l.
Proof. induction 1 as [|x l1 l2 Hs IH|x l1 l2 Hs IH]; [done|..]; cbn; destruct (f x); by try constructor. Qed.

Lemma filter_omap {A B} (f : A -> option B) (P : B -> bool) (l : list A) :
  filter (fun y => P y = true) (omap f l) = omap (fun x => f x ≫= fun y => if P y then Some y else None) l.
Proof.
  induction l as [|x l IH]; [done|]. cbn [omap list_omap]. destruct (f x) as [y|]; cbn [mbind option_bind]; [|exact IH].
  rewrite filter_cons, IH. destruct (P y); [by rewrite decide_True|by rewrite decide_False].
Qed.

(** ** Sorted lists *)

Lemma Forall_sublist {A} (P : A -> Prop) l l' : l' `sublist_of` l -> Forall P l -> Forall P l'.
Proof. induction 1; rewrite ?Forall_cons; intuition. Qed.

Lemma sublist_map {A B} (f : A -> B) l l' : l' `sublist_of` l -> map f l' `sublist_of` map f l.
Proof. induction 1; simpl; by constructor. Qed.

Lemma StronglySorted_sublist {A} (R : A -> A -> Prop) l l' :
  l' `sublist_of` l -> StronglySorted R l -> StronglySorted R l'.
Proof.
  induction 1 as [|x l1 l2 Hs IH|x l1 l2 Hs IH]; intros H; [done|..];
    apply StronglySorted_inv in H as [H1 H2]; [|auto].
  constructor; [auto|]. eapply Forall_sublist; eauto.
Qed.

Lemma StronglySorted_lookup_lt {A} (R : A -> A -> Prop) l i j x y :
  StronglySorted R l -> (i < j)%nat -> l !! i = Some x -> l !! j = Some y -> R x y.
Proof.
  intros H. revert i j. induction H as [|a l Hs IH Hf]; intros i j Hij Hi Hj; [done|].
  destruct j as [|j]; [lia|]. simpl in Hj. destruct i as [|i]; simpl in Hi.
  - injection Hi as ->. rewrite Forall_lookup in Hf. eauto.
  - eapply (IH i j); [lia|done|done].
Qed.
