(* ===== verification/RangeBase.v ===== *)
(** * Block ranges: [common/range/utils.go] and [common/range/range.go]

    A [Range] is an interval of block numbers with an optional (nil = infinite)
    end. The file holds the nil-as-infinity helpers, every method of [Range] that
    computes on numbers, and their exact meaning as sets of numbers. *)
From Stdlib Require Import ZArith Lia.
From stdpp Require Import base numbers option list.
From S2P Require Import Prelude.

(** ** Pointers read as numbers with nil for infinity *)

Definition EqualNilAsInf (a b : option Z) : bool :=
  match a, b with
  | None, None => true
  | Some x, Some y => x =? y
  | _, _ => false
  end.

(** The loops of [MinNilAsInf] and [MaxNilAsInf], with their loop variables. *)
Fixpoint MinNilAsInf_loop (r : Z) (has : bool) (ns : list (option Z)) : option Z :=
  match ns with
  | [] => if has then Some r else None
  | None :: t => MinNilAsInf_loop r has t
  | Some n :: t => MinNilAsInf_loop (if has then Z.min r n else n) true t
  end.

Definition MinNilAsInf (ns : list (option Z)) : option Z :=
  MinNilAsInf_loop 0 false ns.

Fixpoint MaxNilAsInf_loop (r : Z) (ns : list (option Z)) : option Z :=
  match ns with
  | [] => Some r
  | None :: _ => None
  | Some n :: t => MaxNilAsInf_loop (Z.max r n) t
  end.

Definition MaxNilAsInf (ns : list (option Z)) : option Z := MaxNilAsInf_loop 0 ns.

Definition LessNilAsInf (a b : option Z) : bool :=
  match a with
  | None => false
  | Some x => match b with None => true | Some y => x <? y end
  end.

Definition LessEqualNilAsInf (a b : option Z) : bool :=
  match a with
  | None => match b with None => true | Some _ => false end
  | Some x => match b with None => true | Some y => x <=? y end
  end.

Definition GreaterNilAsInf (a b : option Z) : bool := negb (LessEqualNilAsInf a b).
Definition GreaterEqualNilAsInf (a b : option Z) : bool := negb (LessNilAsInf a b).

(** ** Ranges *)

(** [REnd] is the source's [End] (a Rocq keyword). *)
Record Range : Type := mkRange { Start : Z; REnd : option Z }.

Definition EmptyRange : Range := mkRange maxU64 (Some 0).

Definition NewSingleRange (n : Z) : Range := mkRange n (Some n).
Definition NewRange (s e : Z) : Range := mkRange s (Some e).

Definition NewRangeBySize (start : Z) (size : option Z) : Range :=
  match size with
  | None => mkRange start None
  | Some sz =>
      if sz =? 0 then EmptyRange
      else let e := start +! sz -! 1 in mkRange start (Some e)
  end.

Arguments NewRangeBySize : simpl never.

Definition NewRangeByEndAndSize (e size : Z) : Range :=
  if size =? 0 then EmptyRange
  else if e +! 1 <? size then mkRange 0 (Some e)
  else mkRange (e +! 1 -! size) (Some e).

Definition EndOr (r : Range) (nullValue : Z) : Z :=
  match REnd r with None => nullValue | Some e => e end.
Definition EndOrZero (r : Range) : Z := EndOr r 0.
Definition EndOrMaxUInt64 (r : Range) : Z := EndOr r maxU64.

Definition IsEmpty (r : Range) : bool :=
  match REnd r with None => false | Some e => e <? Start r end.

Definition Size (r : Range) : option Z :=
  match REnd r with
  | None => None
  | Some e => Some (if negb (IsEmpty r) then e -! Start r +! 1 else 0)
  end.

Definition Range_Contains (r : Range) (n : Z) : bool :=
  if IsEmpty r then false
  else (Start r <=? n) && LessEqualNilAsInf (Some n) (REnd r).

Definition Range_Include (r a : Range) : bool :=
  if IsEmpty a then true
  else if IsEmpty r then false
  else (Start r <=? Start a) && LessEqualNilAsInf (REnd a) (REnd r).

Definition Range_Equal (r a : Range) : bool :=
  Range_Include r a && Range_Include a r.

Definition GetDistance (r a : Range) : Z :=
  if IsEmpty r || IsEmpty a then 0
  else
    let second :=
      match REnd a with
      | Some ae => if ae +! 1 <? Start r then Start r -! ae -! 1 else 0
      | None => 0
      end in
    match REnd r with
    | Some re => if re +! 1 <? Start a then Start a -! re -! 1 else second
    | None => second
    end.

Definition MoveLeftBorder (r : Range) (x : Z) : Range :=
  if x <=? Start r then mkRange (Start r -! x) (REnd r)
  else mkRange 0 (REnd r).

Definition Range_Intersection (r a : Range) : Range :=
  if IsEmpty a || IsEmpty r then EmptyRange
  else mkRange (Z.max (Start r) (Start a)) (MinNilAsInf [REnd r; REnd a]).

Definition Cover (r a : Range) : Range :=
  if IsEmpty r then a
  else if IsEmpty a then r
  else mkRange (Z.min (Start r) (Start a)) (MaxNilAsInf [REnd r; REnd a]).

(** The loop of [CutByFixedSize] over [p], with the pieces appended so far. *)
Fixpoint CutByFixedSize_loop (fuel : nat) (r : Range) (size num p : Z)
    (result : list Range) : Outcome (list Range) :=
  match fuel with
  | O => Diverge
  | S fuel' =>
      if (match REnd r with None => true | Some e => p <=? e end)
         && ((num =? 0) || (Z.of_nat (length result) <? num))
      then
        if p +! size <=? p then (* overflow *)
          match REnd r with
          | None => Panic
          | Some e => Ok (result ++ [NewRange p e])
          end
        else CutByFixedSize_loop fuel' r size num (p +! size)
               (result ++ [Range_Intersection (NewRangeBySize p (Some size)) r])
      else Ok result
  end.

(** A piece is produced per round: [num] rounds when a count is given, else as
    many as fit between [base] and the end, and one more round to leave the loop. *)
Definition cut_fuel (r : Range) (base size num : Z) : nat :=
  S (S (Z.to_nat (if num =? 0 then (EndOr r 0 - base) / size else num))).

Arguments cut_fuel : simpl never.

Definition Range_CutByFixedSize (r : Range) (base size num : Z) : Outcome (list Range) :=
  if (match REnd r with None => true | Some _ => false end) && (num =? 0) then Panic
  else if IsEmpty r then Ok []
  else if size =? 0 then Ok [r]
  else
    let base' := if base <? Start r
                 then base +! ((Start r -! base) / size) *! size else base in
    CutByFixedSize_loop (cut_fuel r base' size num) r size num base' [].

(** ** Meaning *)

Definition below_end (n : Z) (e : option Z) : Prop :=
  match e with None => True | Some x => n <= x end.

(** The numbers of a range. *)
Definition in_range (r : Range) (n : Z) : Prop :=
  Start r <= n /\ below_end n (REnd r).

(** A range whose ends are [uint64] values. *)
Definition wf_range (r : Range) : Prop :=
  u64 (Start r) /\ from_option u64 True (REnd r).

(** Case analysis on ranges and on the tests made on them. *)
Ltac range_cases :=
  repeat match goal with
  | r : Range |- _ => destruct r as [? [?|]]
  end; simpl in *.

Ltac range_solve :=
  repeat (progress (breflect; simpl in *)
          || bcase
          || match goal with
             | H : context [Z.ltb _ _] |- _ => bcase_in H
             | H : context [Z.leb _ _] |- _ => bcase_in H
             | H : context [Z.eqb _ _] |- _ => bcase_in H
             end);
  try u64lia; try (intuition (first [congruence | u64lia])).

Lemma LessNilAsInf_Some a b : LessNilAsInf a b = true -> exists x, a = Some x.
Proof. destruct a; simpl; [eauto | discriminate]. Qed.

Lemma IsEmpty_true r : IsEmpty r = true <-> forall n, ~ in_range r n.
Proof.
  unfold IsEmpty, in_range. destruct r as [s [e|]]; simpl.
  - split; intros H; breflect; [lia|].
    apply Z.ltb_lt. specialize (H s). lia.
  - split; [discriminate|]. intros H. exfalso. apply (H s). lia.
Qed.

Lemma IsEmpty_false r : IsEmpty r = false <-> in_range r (Start r).
Proof.
  unfold IsEmpty, in_range. destruct r as [s [e|]]; simpl; split; intros H; range_solve; auto.
Qed.

Lemma not_in_EmptyRange n : ~ in_range EmptyRange n.
Proof. unfold in_range, EmptyRange; simpl. u64lia. Qed.

(** [Contains] decides membership. *)
Lemma Range_Contains_spec r n : Range_Contains r n = true <-> in_range r n.
Proof.
  unfold Range_Contains. destruct (IsEmpty r) eqn:E.
  - apply IsEmpty_true with (n := n) in E. split; [discriminate | tauto].
  - unfold in_range. destruct r as [s [e|]]; simpl in *; rewrite andb_true_iff, ?Z.leb_le; tauto.
Qed.

(** [Include] decides set inclusion. *)
Lemma Range_Include_spec r a :
  Range_Include r a = true <-> forall n, in_range a n -> in_range r n.
Proof.
  unfold Range_Include. destruct (IsEmpty a) eqn:Ea.
  { rewrite IsEmpty_true in Ea. split; [|done]. intros _ n Hn. by destruct (Ea n). }
  apply IsEmpty_false in Ea. destruct (IsEmpty r) eqn:Er.
  { rewrite IsEmpty_true in Er. split; [discriminate|]. intros H. by destruct (Er (Start a)); apply H. }
  apply IsEmpty_false in Er. unfold in_range in *.
  destruct r as [s [e|]], a as [s' [e'|]]; simpl in *; rewrite andb_true_iff, ?Z.leb_le.
  - split; [lia|]. intros H. pose proof (H s'). pose proof (H e'). lia.
  - split; [intros [_ [=]]|]. intros H.
    pose proof (H (Z.max s' e + 1)). lia.
  - split; [lia|]. intros H. pose proof (H s'). lia.
  - split; [lia|]. intros H. pose proof (H s'). lia.
Qed.

Lemma Range_Equal_spec r a :
  Range_Equal r a = true <-> forall n, in_range r n <-> in_range a n.
Proof.
  unfold Range_Equal. rewrite andb_true_iff, !Range_Include_spec. firstorder.
Qed.

Lemma Range_Intersection_spec r a n :
  in_range (Range_Intersection r a) n <-> in_range r n /\ in_range a n.
Proof.
  unfold Range_Intersection.
  destruct (IsEmpty a) eqn:Ea; simpl.
  { rewrite IsEmpty_true in Ea. pose proof (not_in_EmptyRange n). specialize (Ea n). tauto. }
  destruct (IsEmpty r) eqn:Er; simpl.
  { rewrite IsEmpty_true in Er. pose proof (not_in_EmptyRange n). specialize (Er n). tauto. }
  unfold in_range, MinNilAsInf. destruct r as [s [e|]], a as [s' [e'|]]; simpl; lia.
Qed.

Lemma wf_EmptyRange : wf_range EmptyRange.
Proof. unfold wf_range, EmptyRange; simpl. split; u64lia. Qed.

Lemma wf_Range_Intersection r a :
  wf_range r -> wf_range a -> wf_range (Range_Intersection r a).
Proof.
  intros Hr Ha. unfold Range_Intersection.
  destruct (IsEmpty a || IsEmpty r); [apply wf_EmptyRange|].
  unfold wf_range, MinNilAsInf in *. range_cases; u64lia.
Qed.

(** [Cover] contains both ranges. *)
Lemma Cover_contains r a n :
  wf_range r -> wf_range a ->
  in_range r n \/ in_range a n -> in_range (Cover r a) n.
Proof.
  unfold Cover, wf_range, in_range, MaxNilAsInf, IsEmpty. intros Hr Ha.
  range_cases; repeat bcase; simpl; u64lia.
Qed.

(** [Cover] is the least range containing both. *)
Lemma Cover_least r a c :
  wf_range r -> wf_range a ->
  Range_Include c r = true -> Range_Include c a = true ->
  Range_Include c (Cover r a) = true.
Proof.
  intros Hr Ha. rewrite !Range_Include_spec. intros Hcr Hca n.
  pose proof (IsEmpty_false r) as Er. pose proof (IsEmpty_false a) as Ea.
  unfold Cover. destruct (IsEmpty r); [apply Hca|]. destruct (IsEmpty a); [apply Hcr|].
  destruct Er as [Er _], Ea as [Ea _]. specialize (Er eq_refl). specialize (Ea eq_refl).
  pose proof (Hcr _ Er). pose proof (Hca _ Ea).
  pose proof (Hcr n) as Hcr'. pose proof (Hca n) as Hca'.
  pose proof (Hcr (EndOr r 0)) as Hr1. pose proof (Hca (EndOr a 0)) as Ha1.
  pose proof (Hcr (EndOr c 0 + 1 + Start r)) as Hr2.
  pose proof (Hca (EndOr c 0 + 1 + Start a)) as Ha2.
  unfold in_range, wf_range, MaxNilAsInf, EndOr in *. range_cases; u64lia.
Qed.

(** [Size] counts the numbers of a finite range, except that the full range of
    [uint64] has 2^64 of them, which wraps to 0. *)
Lemma Size_spec r e :
  wf_range r -> REnd r = Some e ->
  Size r = Some (if (Start r =? 0) && (e =? maxU64) then 0 else Z.max 0 (e - Start r + 1)).
Proof.
  intros [Hs He] E. unfold Size, IsEmpty. rewrite E in *. simpl in He. f_equal.
  destruct (Z.ltb_spec e (Start r)); simpl.
  - destruct (Z.eqb_spec (Start r) 0), (Z.eqb_spec e maxU64); simpl; u64lia.
  - rewrite sub64_small by u64lia.
    destruct (Z.eqb_spec (Start r) 0) as [E0|], (Z.eqb_spec e maxU64) as [E1|]; simpl;
      rewrite ?add64_small by u64lia; try u64lia.
    rewrite E0, E1. reflexivity.
Qed.

(** [GetDistance] counts the numbers strictly between two non-empty ranges; it is
    exact as soon as no finite end is the largest [uint64]. *)
Lemma GetDistance_spec r a :
  wf_range r -> wf_range a ->
  REnd r <> Some maxU64 -> REnd a <> Some maxU64 ->
  IsEmpty r = false -> IsEmpty a = false ->
  GetDistance r a =
    Z.max 0 (Z.max (match REnd r with Some e => Start a - e - 1 | None => 0 end)
                   (match REnd a with Some e => Start r - e - 1 | None => 0 end)).
Proof.
  intros [Hr1 Hr2] [Ha1 Ha2] Mr Ma Er Ea. unfold GetDistance. rewrite Er, Ea. simpl.
  unfold IsEmpty in *.
  destruct r as [s [e|]], a as [s' [e'|]]; simpl in *; breflect;
    try (assert (e <> maxU64) by congruence); try (assert (e' <> maxU64) by congruence);
    rewrite ?add64_small by u64lia; repeat bcase;
    u64norm; u64lia.
Qed.

(** Without that proviso the sum [*r.End+1] wraps to 0 and a range that overlaps
    is reported at a distance. *)
Lemma GetDistance_wraps :
  GetDistance (NewRange 0 maxU64) (mkRange 5 None) = 5 /\
  in_range (NewRange 0 maxU64) 7 /\ in_range (mkRange 5 None) 7.
Proof. repeat split; vm_compute; congruence. Qed.

Lemma NewRangeBySize_spec start size n :
  u64 start -> 0 <= size -> start + size <= two64 ->
  in_range (NewRangeBySize start (Some size)) n <-> start <= n < start + size.
Proof.
  intros Hs Hz Ho. unfold NewRangeBySize. destruct (Z.eqb_spec size 0) as [->|Hnz].
  - pose proof (not_in_EmptyRange n). split; [tauto | lia].
  - unfold in_range; simpl. destruct (Z.eq_dec (start + size) two64) as [Hm|].
    + unfold add64. rewrite Hm. change (wrap two64) with 0.
      change (0 -! 1) with maxU64. u64lia.
    + rewrite add64_small by u64lia. rewrite sub64_small by u64lia. lia.
Qed.

Lemma NewRangeByEndAndSize_spec e size n :
  u64 e -> e < maxU64 -> 0 <= size -> 0 <= n ->
  in_range (NewRangeByEndAndSize e size) n <-> e - size < n <= e.
Proof.
  intros He Hm Hz Hn. unfold NewRangeByEndAndSize. destruct (Z.eqb_spec size 0) as [->|Hnz].
  - pose proof (not_in_EmptyRange n). split; [tauto | lia].
  - rewrite add64_small by u64lia. bcase; unfold in_range; simpl; [lia|].
    rewrite sub64_small by u64lia. lia.
Qed.

Lemma MoveLeftBorder_spec r x n :
  wf_range r -> 0 <= x -> 0 <= n ->
  in_range (MoveLeftBorder r x) n <-> Start r - x <= n /\ below_end n (REnd r).
Proof.
  intros [Hs _] Hx Hn. unfold MoveLeftBorder, in_range. bcase; simpl.
  - rewrite sub64_small by u64lia. tauto.
  - split; intros [? ?]; split; auto; lia.
Qed.

(** ** Cutting a range into pieces of a fixed size *)

(** [l] is a sequence of adjacent non-empty ranges that starts at [s] and ends at [e]. *)
Fixpoint tiles (s e : Z) (l : list Range) : Prop :=
  match l with
  | [] => s = e + 1
  | r :: t => Start r = s /\ exists x, REnd r = Some x /\ s <= x <= e /\ tiles (x + 1) e t
  end.

(** Both ends of a piece lie in one slot [base + k*size, base + (k+1)*size). *)
Definition in_slot (base size : Z) (r : Range) : Prop :=
  (Start r - base) / size = (EndOr r 0 - base) / size.

Lemma tiles_member s e l n :
  tiles s e l -> (s <= n <= e <-> exists r, r ∈ l /\ in_range r n).
Proof.
  revert s. induction l as [|r t IH]; simpl; intros s.
  - intros ->. split; [lia|]. intros (r & Hr & _). by apply not_elem_of_nil in Hr.
  - intros (<- & x & Hx & Hb & Ht). specialize (IH _ Ht). split.
    + intros Hn. destruct (Z_le_gt_dec n x).
      * exists r. split; [left|]. unfold in_range, below_end. rewrite Hx. lia.
      * destruct IH as [IH _]. destruct IH as (q & ? & ?); [lia|]. exists q. split; [by right | done].
    + intros (q & Hq & Hn). apply elem_of_cons in Hq as [->|Hq].
      * unfold in_range, below_end in Hn. rewrite Hx in Hn. lia.
      * destruct IH as [_ IH]. assert (x + 1 <= n <= e) by (apply IH; eauto). lia.
Qed.

(** The last number of the slot that holds [s]. *)
Definition slot_end (base size s : Z) : Z := base + (s - base) / size * size + size - 1.

(** [l] is the cutting of [s..e] at the slot boundaries, which determines it. *)
Fixpoint cuts (base size s e : Z) (l : list Range) : Prop :=
  match l with
  | [] => e < s
  | r :: t => s <= e /\ r = mkRange s (Some (Z.min (slot_end base size s) e)) /\
              cuts base size (slot_end base size s + 1) e t
  end.

Lemma slot_end_bounds base size s :
  0 < size -> s <= slot_end base size s < s + size.
Proof.
  intros H. unfold slot_end. pose proof (Z.mod_pos_bound (s - base) size H).
  pose proof (Z.div_mod (s - base) size). lia.
Qed.

Lemma slot_end_unique base size k s :
  base + k * size <= s < base + k * size + size ->
  slot_end base size s = base + k * size + size - 1.
Proof.
  intros H. unfold slot_end.
  assert ((s - base) / size = k) as ->; [|lia].
  symmetry. apply Z.div_unique with (r := s - base - k * size); lia.
Qed.

Lemma cuts_unique base size s e l l' :
  cuts base size s e l -> cuts base size s e l' -> l = l'.
Proof.
  revert s l'. induction l as [|r t IH]; intros s [|r' t']; simpl; try lia; [done|].
  intros (_ & -> & H) (_ & -> & H'). f_equal. by eapply IH.
Qed.

Lemma cuts_tiles base size s e l :
  0 < size -> s <= e + 1 -> cuts base size s e l ->
  tiles s e l /\ Forall (in_slot base size) l.
Proof.
  intros Hz. revert s. induction l as [|r t IH]; simpl; intros s Hs; [split; [lia|constructor]|].
  intros (He & -> & Ht). pose proof (slot_end_bounds base size s Hz).
  assert (Hslot : in_slot base size (mkRange s (Some (Z.min (slot_end base size s) e)))).
  { unfold in_slot, EndOr; simpl.
    apply Z.div_unique with (r := Z.min (slot_end base size s) e - base - (s - base) / size * size);
      unfold slot_end in *; lia. }
  destruct (Z.le_gt_cases (slot_end base size s) e).
  - destruct (IH (slot_end base size s + 1)) as [IH1 IH2]; [lia|done|].
    rewrite Z.min_l in * by lia.
    split; [|by constructor]. split; [done|]. eexists. split; [reflexivity|]. split; [lia|done].
  - assert (t = []) as ->.
    { destruct t as [|q t]; [done|]. simpl in Ht. lia. }
    split; [|constructor; [done|constructor]]. split; [done|]. eexists.
    split; [reflexivity|]. simpl. lia.
Qed.

Section Cut.
Context (r : Range) (e size base : Z).
Context (Hend : REnd r = Some e) (Hwf : wf_range r) (Hsize : 0 < size).
Context (Hover : e + size < two64).

(** One round of the loop from an aligned position [p] whose slot meets the range. *)
Lemma cut_piece p :
  0 <= p <= e -> Start r < p + size -> Start r <= e ->
  Range_Intersection (NewRangeBySize p (Some size)) r
  = mkRange (Z.max p (Start r)) (Some (Z.min (p + size - 1) e)).
Proof.
  destruct r as [s re]. simpl in *. subst re. intros Hp Hs He.
  destruct Hwf as [Hw1 Hw2]; simpl in *.
  assert (Hn : p +! size -! 1 = p + size - 1) by (u64norm; lia).
  unfold NewRangeBySize. destruct (Z.eqb_spec size 0) as [E|_]; [lia|]. rewrite Hn.
  unfold Range_Intersection, IsEmpty; simpl. destruct (Z.ltb_spec e s); [lia|]. simpl.
  destruct (Z.ltb_spec (p + size - 1) p); [lia|]. simpl. reflexivity.
Qed.

Lemma CutByFixedSize_loop_cuts fuel k p result :
  p = base + k * size -> 0 <= p -> Start r < p + size -> Start r <= e ->
  (Z.to_nat ((e - p) / size + 1) < fuel)%nat ->
  exists l,
    CutByFixedSize_loop fuel r size 0 p result = Ok (result ++ l) /\
    cuts base size (Z.max p (Start r)) e l.
Proof.
  revert k p result. induction fuel as [|fuel IH]; [lia|]. intros k p result Hk Hp Hs He Hf.
  cbn [CutByFixedSize_loop]. rewrite Hend. simpl.
  destruct (Z.leb_spec p e) as [Hpe|Hpe]; simpl; cycle 1.
  { exists []. rewrite app_nil_r. split; [done|]. simpl; lia. }
  rewrite add64_small by u64lia. destruct (Z.leb_spec (p + size) p); [lia|].
  rewrite cut_piece by lia.
  assert (Hdiv : (e - (p + size)) / size + 1 = (e - p) / size).
  { replace (e - (p + size)) with (e - p + (-1) * size) by lia.
    rewrite Z.div_add by lia. lia. }
  assert (0 <= (e - p) / size) by (apply Z.div_pos; lia).
  edestruct (IH (k + 1) (p + size)) as (l & Hl & Ht);
    [lia|lia|lia|lia|rewrite Hdiv; lia|].
  rewrite Hl. eexists. rewrite <- app_assoc. split; [reflexivity|]. simpl.
  rewrite (slot_end_unique base size k) by lia. subst p.
  split; [lia|]. split; [done|].
  replace (base + k * size + size - 1 + 1) with (Z.max (base + k * size + size) (Start r)) by lia.
  exact Ht.
Qed.

(** With a count, the loop stops after the same first pieces. *)
Lemma CutByFixedSize_loop_num fuel num k p result l :
  0 < num -> p = base + k * size -> 0 <= p -> Start r < p + size -> Start r <= e ->
  (Z.to_nat num - length result < fuel)%nat ->
  cuts base size (Z.max p (Start r)) e l ->
  CutByFixedSize_loop fuel r size num p result
  = Ok (result ++ take (Z.to_nat num - length result) l).
Proof.
  intros Hn. revert k p result l.
  induction fuel as [|fuel IH]; [lia|]. intros k p result l Hk Hp Hs He Hf Hc.
  cbn [CutByFixedSize_loop]. rewrite Hend. simpl. destruct (Z.eqb_spec num 0); [lia|]. simpl.
  destruct (Z.leb_spec p e); simpl; cycle 1.
  { destruct l as [|q l]; simpl in Hc; [|lia]. by rewrite take_nil, app_nil_r. }
  destruct (Z.ltb_spec (Z.of_nat (length result)) num); simpl; cycle 1.
  { replace (Z.to_nat num - length result)%nat with O by lia. by rewrite take_0, app_nil_r. }
  rewrite add64_small by u64lia. destruct (Z.leb_spec (p + size) p); [lia|].
  rewrite cut_piece by lia. destruct l as [|q l]; simpl in Hc; [lia|].
  rewrite (slot_end_unique base size k) in Hc by lia. rewrite <- Hk in Hc.
  destruct Hc as (_ & -> & Hc).
  rewrite (IH (k + 1) (p + size) _ l);
    [ | lia | lia | lia | lia | rewrite length_app; simpl; lia
      | by replace (Z.max (p + size) (Start r)) with (p + size - 1 + 1) by lia ].
  rewrite <- app_assoc, length_app; simpl.
  replace (Z.to_nat num - length result)%nat with (S (Z.to_nat num - (length result + 1))) by lia.
  done.
Qed.
End Cut.

Lemma cut_base_aligned r e base size :
  REnd r = Some e -> wf_range r -> 0 < size -> 0 <= base -> base <= Start r -> Start r <= e ->
  exists k, (if base <? Start r then base +! ((Start r -! base) / size) *! size else base)
            = base + k * size /\
            base + k * size <= Start r < base + k * size + size /\ 0 <= k.
Proof.
  intros Hend [Hs He] Hz Hb Hbs Hse. rewrite Hend in He. simpl in He.
  destruct (Z.ltb_spec base (Start r)).
  - exists ((Start r - base) / size).
    pose proof (Z.div_mod (Start r - base) size). pose proof (Z.mod_pos_bound (Start r - base) size Hz).
    assert (0 <= (Start r - base) / size) by (apply Z.div_pos; lia).
    rewrite sub64_small by u64lia.
    assert (base + (Start r - base) / size * size <= Start r) by lia.
    unfold mul64. rewrite wrap_small by u64lia. rewrite add64_small by u64lia. lia.
  - exists 0. lia.
Qed.

Lemma cuts_exists base size s e : 0 < size -> exists l, cuts base size s e l.
Proof.
  intros Hz. remember (Z.to_nat (e + 1 - s)) as n eqn:Hn.
  revert s Hn. induction n as [n IH] using lt_wf_ind. intros s ->.
  destruct (Z.le_gt_cases s e); [|exists []; simpl; lia].
  pose proof (slot_end_bounds base size s Hz).
  edestruct (IH (Z.to_nat (e + 1 - (slot_end base size s + 1)))) as [l Hl]; [|reflexivity|]; [lia|].
  eexists (_ :: l). simpl. eauto.
Qed.

(** The two forms of the cut of a finite range: all the pieces, or the first [num]. *)
Lemma Range_CutByFixedSize_cuts r e base size :
  REnd r = Some e -> wf_range r -> 0 < size -> 0 <= base -> base <= Start r -> Start r <= e ->
  e + size < two64 ->
  exists l, cuts base size (Start r) e l /\
    Range_CutByFixedSize r base size 0 = Ok l /\
    forall num, 0 < num -> Range_CutByFixedSize r base size num = Ok (take (Z.to_nat num) l).
Proof.
  intros Hend Hwf Hz Hb Hbs Hse Hov.
  destruct (cut_base_aligned r e base size) as (k & Hk & Hka & Hk0); auto.
  assert (IsEmpty r = false) as Hemp by (unfold IsEmpty; rewrite Hend; apply Z.ltb_ge; lia).
  unfold Range_CutByFixedSize. rewrite Hend, Hemp. cbv beta iota zeta delta [andb].
  destruct (Z.eqb_spec size 0); [lia|]. rewrite Hk.
  destruct (CutByFixedSize_loop_cuts r e size base Hend Hwf Hz Hov
              (cut_fuel r (base + k * size) size 0) k (base + k * size) []) as (l & Hl & Hc);
    [lia|lia|lia|lia| |].
  { unfold cut_fuel, EndOr. rewrite Hend. simpl.
    assert (0 <= (e - (base + k * size)) / size) by (apply Z.div_pos; lia). lia. }
  rewrite Z.max_r in Hc by lia.
  exists l. split; [done|]. split; [done|]. intros num Hn.
  rewrite (CutByFixedSize_loop_num r e size base Hend Hwf Hz Hov _ num k _ [] l);
    [|lia|lia|lia|lia|lia| |by rewrite Z.max_r by lia].
  - simpl. by rewrite Nat.sub_0_r.
  - unfold cut_fuel. destruct (Z.eqb_spec num 0); [lia|]. simpl. lia.
Qed.
