(* ===== verification/RangeSet.v ===== *)
(** * Sets of block numbers: the single-range operations of [common/range/set.go]

    A [RangeSet] is a range with holes. The file models [Range.Remove] and the
    methods [Contains], [Include], [First], [Last], [Intersection], [Remove] and
    [Union] of [RangeSet] branch by branch, states the representation invariant
    that the source gives in a comment ([wf_set]), and proves that the operations
    preserve it and compute exactly the set they are named after. *)
From Stdlib Require Import ZArith Lia.
From stdpp Require Import base numbers option list.
From S2P Require Import Prelude RangeBase.

(** [rng] is the embedded [Range]. *)
Record RangeSet : Type := mkRangeSet { rng : Range; Holes : list (Z * Z) }.

Definition EmptyRangeSet : RangeSet := mkRangeSet EmptyRange [].

Definition hole_range (h : Z * Z) : Range := mkRange h.1 (Some h.2).

Definition Range_Remove (r a : Range) : RangeSet :=
  if IsEmpty r then EmptyRangeSet
  else if IsEmpty a then mkRangeSet r []
  else if Start a <=? Start r then
    if LessNilAsInf (REnd a) (Some (Start r)) then mkRangeSet r []
    else if LessNilAsInf (REnd a) (REnd r) then
      mkRangeSet (mkRange (deref (REnd a) +! 1) (REnd r)) []
    else EmptyRangeSet
  else if LessNilAsInf (REnd r) (Some (Start a)) then mkRangeSet r []
  else if LessNilAsInf (REnd a) (REnd r) then
    mkRangeSet r [(Start a, deref (REnd a))]
  else mkRangeSet (mkRange (Start r) (Some (Start a -! 1))) [].

Definition RangeSet_Equal (rs a : RangeSet) : bool :=
  if negb (Range_Equal (rng rs) (rng a)) then false
  else bool_decide (length (Holes rs) = length (Holes a))
       && forallb (fun p => bool_decide (p.1 = p.2)) (zip (Holes rs) (Holes a)).

Definition RangeSet_Contains (rs : RangeSet) (n : Z) : bool :=
  if negb (Range_Contains (rng rs) n) then false
  else forallb (fun h => negb ((h.1 <=? n) && (n <=? h.2))) (Holes rs).

Definition RangeSet_Include (rs : RangeSet) (a : Range) : bool :=
  if negb (Range_Include (rng rs) a) then false
  else forallb (fun h => IsEmpty (Range_Intersection a (hole_range h))) (Holes rs).

Definition First (rs : RangeSet) : Range :=
  if IsEmpty (rng rs) then EmptyRange
  else match Holes rs with
       | [] => rng rs
       | h :: _ => mkRange (Start (rng rs)) (Some (h.1 -! 1))
       end.

Definition Last (rs : RangeSet) : Range :=
  if IsEmpty (rng rs) then EmptyRange
  else match last (Holes rs) with
       | None => rng rs
       | Some h => mkRange (h.2 +! 1) (REnd (rng rs))
       end.

(** *** Intersection

    The first loop of [Intersection]: [r.Holes[pl:]] once [pl] has passed the
    holes that end left of the start. *)
Fixpoint skip_left (start : Z) (hs : list (Z * Z)) : list (Z * Z) :=
  match hs with
  | [] => []
  | h :: t => if h.2 <? start then skip_left start t else hs
  end.

(** The second loop walks down from the last hole: it runs on the reversed list
    and leaves [r.Holes[:pr+1]] reversed. *)
Fixpoint skip_right (end_ : option Z) (hs_rev : list (Z * Z)) : list (Z * Z) :=
  match hs_rev with
  | [] => []
  | h :: t => if LessNilAsInf end_ (Some h.1) then skip_right end_ t else hs_rev
  end.

Definition trim_left (start : Z) (hs : list (Z * Z)) : Z * list (Z * Z) :=
  match skip_left start hs with
  | [] => (start, [])
  | h :: t => if start <? h.1 then (start, h :: t) else (h.2 +! 1, t)
  end.

Definition trim_right (end_ : option Z) (hs : list (Z * Z)) : option Z * list (Z * Z) :=
  match skip_right end_ (rev hs) with
  | [] => (end_, [])
  | h :: t => if LessNilAsInf (Some h.2) end_ then (end_, rev (h :: t))
              else (Some (h.1 -! 1), rev t)
  end.

Definition RangeSet_Intersection (rs : RangeSet) (a : Range) : RangeSet :=
  let r := Range_Intersection (rng rs) a in
  if IsEmpty r then EmptyRangeSet
  else
    let '(start, holes1) := trim_left (Start r) (Holes rs) in
    let '(end_, holes2) := trim_right (REnd r) holes1 in
    let r' := mkRange start end_ in
    if IsEmpty r' then EmptyRangeSet else mkRangeSet r' holes2.

(** *** Remove

    The loop that looks for the part left of [a]; [pre] is [rs.Holes[:i]]. *)
Fixpoint Remove_left_loop (start astart : Z) (pre hs : list (Z * Z)) : RangeSet :=
  match hs with
  | [] => EmptyRangeSet
  | h :: t =>
      if astart <? h.1 then mkRangeSet (mkRange start (Some (astart -! 1))) pre
      else if astart <=? h.2 +! 1 then mkRangeSet (mkRange start (Some (h.1 -! 1))) pre
      else Remove_left_loop start astart (pre ++ [h]) t
  end.

Definition Remove_left (rs : RangeSet) (a : Range) : RangeSet :=
  if Start (rng rs) <? Start a then
    let left := Remove_left_loop (Start (rng rs)) (Start a) [] (Holes rs) in
    if IsEmpty (rng left)
    then mkRangeSet (mkRange (Start (rng rs)) (Some (Start a -! 1))) (Holes rs)
    else left
  else EmptyRangeSet.

(** The loop that looks for the part right of [a]; [hs] is [rs.Holes[i:]]. *)
Fixpoint Remove_right_loop (aend : Z) (end_ : option Z) (hs : list (Z * Z)) : RangeSet :=
  match hs with
  | [] => EmptyRangeSet
  | h :: t =>
      if aend <? h.1 -! 1 then mkRangeSet (mkRange (aend +! 1) end_) (h :: t)
      else if aend <=? h.2 then mkRangeSet (mkRange (h.2 +! 1) end_) t
      else Remove_right_loop aend end_ t
  end.

Definition Remove_right (rs : RangeSet) (a : Range) : RangeSet :=
  if LessNilAsInf (REnd a) (REnd (rng rs)) then
    let right := Remove_right_loop (deref (REnd a)) (REnd (rng rs)) (Holes rs) in
    if IsEmpty (rng right)
    then mkRangeSet (mkRange (deref (REnd a) +! 1) (REnd (rng rs))) []
    else right
  else EmptyRangeSet.

Definition RangeSet_Remove (rs : RangeSet) (a : Range) : RangeSet :=
  if IsEmpty a || IsEmpty (rng rs) then rs
  else if LessNilAsInf (REnd a) (Some (Start (rng rs))) then rs
  else if LessNilAsInf (REnd (rng rs)) (Some (Start a)) then rs
  else
    let left := Remove_left rs a in
    let right := Remove_right rs a in
    let result :=
      if negb (IsEmpty (rng left)) && negb (IsEmpty (rng right)) then
        mkRangeSet (rng rs)
          (Holes left
           ++ [(deref (REnd (rng left)) +! 1, Start (rng right) -! 1)]
           ++ Holes right)
      else if IsEmpty (rng left) then right
      else left in
    if IsEmpty (rng result) then EmptyRangeSet else result.

(** *** Union

    The loop over the holes when [a] meets the range of the set. *)
Fixpoint Union_loop (a : Range) (hs : list (Z * Z)) : list (Z * Z) :=
  match hs with
  | [] => []
  | h :: t =>
      let remain := Range_Remove (hole_range h) a in
      if IsEmpty (rng remain) then Union_loop a t
      else match Holes remain with
           | [x] => (h.1, x.1 -! 1) :: (x.2 +! 1, h.2) :: t
           | _ => (Start (rng remain), deref (REnd (rng remain))) :: Union_loop a t
           end
  end.

Definition RangeSet_Union (rs : RangeSet) (a : Range) : RangeSet :=
  if IsEmpty a then rs
  else if IsEmpty (rng rs) then mkRangeSet a []
  else if LessNilAsInf (REnd (rng rs)) (Some (Start a)) then
    if deref (REnd (rng rs)) +! 1 =? Start a
    then mkRangeSet (mkRange (Start (rng rs)) (REnd a)) (Holes rs)
    else mkRangeSet (mkRange (Start (rng rs)) (REnd a))
           (Holes rs ++ [(deref (REnd (rng rs)) +! 1, Start a -! 1)])
  else if LessNilAsInf (REnd a) (Some (Start (rng rs))) then
    if deref (REnd a) +! 1 =? Start (rng rs)
    then mkRangeSet (mkRange (Start a) (REnd (rng rs))) (Holes rs)
    else mkRangeSet (mkRange (Start a) (REnd (rng rs)))
           ((deref (REnd a) +! 1, Start (rng rs) -! 1) :: Holes rs)
  else mkRangeSet (Cover a (rng rs)) (Union_loop a (Holes rs)).

(** ** Meaning and representation invariant *)

Definition outside (n : Z) (h : Z * Z) : Prop := n < h.1 \/ h.2 < n.

(** The numbers of a set. *)
Definition in_set (rs : RangeSet) (n : Z) : Prop :=
  in_range (rng rs) n /\ Forall (outside n) (Holes rs).

(** The holes [hs] of a set that starts at [s] and ends at [e]: ascending, none
    overlapping or adjacent, with numbers of the set on both sides of each. *)
Fixpoint holes_ok (s : Z) (hs : list (Z * Z)) (e : option Z) : Prop :=
  match hs with
  | [] => below_end s e
  | h :: t => s < h.1 /\ h.1 <= h.2 < maxU64 /\ holes_ok (h.2 + 1) t e
  end.

Definition wf_set (rs : RangeSet) : Prop :=
  wf_range (rng rs) /\
  if IsEmpty (rng rs) then Holes rs = []
  else holes_ok (Start (rng rs)) (Holes rs) (REnd (rng rs)).

(** ** Elementary facts *)

Lemma in_set_EmptyRangeSet n : ~ in_set EmptyRangeSet n.
Proof. intros [H _]. by apply not_in_EmptyRange in H. Qed.

Lemma wf_EmptyRangeSet : wf_set EmptyRangeSet.
Proof. split; [apply wf_EmptyRange | reflexivity]. Qed.

Lemma IsEmpty_mkRange s e : IsEmpty (mkRange s e) = false <-> below_end s e.
Proof. rewrite IsEmpty_false. unfold in_range; simpl. intuition lia. Qed.

Lemma wf_set_empty rs n : IsEmpty (rng rs) = true -> ~ in_set rs n.
Proof. intros H [Hn _]. apply IsEmpty_true with (n := n) in H. tauto. Qed.

(** A non-empty set is given by its range and well-placed holes. *)
Lemma wf_set_intro s hs e :
  u64 s -> from_option u64 True e -> holes_ok s hs e -> below_end s e ->
  wf_set (mkRangeSet (mkRange s e) hs).
Proof.
  intros Hs He Hh Hb. split; [done|]. simpl.
  by apply IsEmpty_mkRange in Hb as ->.
Qed.

Lemma holes_ok_below s hs e : holes_ok s hs e -> below_end s e.
Proof.
  revert s. induction hs as [|h t IH]; simpl; intros s; [done|].
  intros (H1 & H2 & H3). apply IH in H3. destruct e; simpl in *; lia.
Qed.

Lemma holes_ok_app s h1 h h2 e :
  holes_ok s (h1 ++ h :: h2) e <->
  holes_ok s h1 (Some (h.1 - 1)) /\ h.1 <= h.2 < maxU64 /\ holes_ok (h.2 + 1) h2 e.
Proof.
  revert s. induction h1 as [|x t IH]; simpl; intros s; [intuition lia|].
  rewrite IH. tauto.
Qed.

Lemma holes_ok_mono s s' hs e e' :
  holes_ok s hs e -> s' <= s -> (forall n, below_end n e -> below_end n e') ->
  holes_ok s' hs e'.
Proof.
  revert s s'. induction hs as [|h t IH]; simpl; intros s s' H Hs He.
  - apply He in H. destruct e'; simpl in *; lia.
  - destruct H as (? & ? & ?). split; [lia|]. split; [lia|]. eapply IH; eauto; lia.
Qed.

(** Every hole lies right of the start. *)
Lemma holes_ok_right s hs e :
  holes_ok s hs e -> Forall (fun h => s < h.1 <= h.2) hs.
Proof.
  revert s. induction hs as [|h t IH]; simpl; intros s H; [constructor|].
  destruct H as (? & ? & H). constructor; [lia|]. apply IH in H.
  eapply Forall_impl; [exact H|]. simpl. lia.
Qed.

Lemma outside_left n s hs e :
  holes_ok s hs e -> n <= s -> Forall (outside n) hs.
Proof.
  intros H Hn. apply holes_ok_right in H. eapply Forall_impl; [exact H|].
  intros h Hh. left. simpl in Hh. lia.
Qed.

(** ** Queries *)

Lemma forallb_outside n hs :
  forallb (fun h => negb ((h.1 <=? n) && (n <=? h.2))) hs = true <-> Forall (outside n) hs.
Proof.
  rewrite forallb_forall, Forall_forall. setoid_rewrite list_elem_of_In.
  split; intros H x Hx; specialize (H x Hx); unfold outside in *.
  - apply negb_true_iff, andb_false_iff in H as [H|H]; breflect; lia.
  - apply negb_true_iff, andb_false_iff. rewrite !Z.leb_gt. lia.
Qed.

(** [Contains] decides membership in the set. *)
Lemma RangeSet_Contains_iff rs n : RangeSet_Contains rs n = true <-> in_set rs n.
Proof.
  unfold RangeSet_Contains, in_set. rewrite <- forallb_outside, <- Range_Contains_spec.
  destruct (Range_Contains (rng rs) n); simpl; intuition discriminate.
Qed.

Lemma disjoint_holes a hs :
  forallb (fun h => IsEmpty (Range_Intersection a (hole_range h))) hs = true <->
  forall n, in_range a n -> Forall (outside n) hs.
Proof.
  rewrite forallb_forall. split.
  - intros H n Hn. apply Forall_forall. intros h Hh. apply list_elem_of_In, H in Hh.
    apply IsEmpty_true with (n := n) in Hh. rewrite Range_Intersection_spec in Hh.
    unfold outside, in_range, hole_range in *; simpl in *.
    destruct (Z_lt_ge_dec n h.1); [by left|]. right. destruct (Z_lt_ge_dec h.2 n); [done|].
    exfalso. apply Hh. split; [done|lia].
  - intros H h Hh. apply IsEmpty_true. intros n. rewrite Range_Intersection_spec. intros [Ha Hb].
    specialize (H n Ha). rewrite Forall_forall in H. apply list_elem_of_In, H in Hh.
    unfold outside, in_range, hole_range in *; simpl in *. lia.
Qed.

(** [Include] decides whether every number of the range is in the set. *)
Lemma RangeSet_Include_iff rs a :
  RangeSet_Include rs a = true <-> forall n, in_range a n -> in_set rs n.
Proof.
  unfold RangeSet_Include, in_set. pose proof (Range_Include_spec (rng rs) a) as Hi.
  pose proof (disjoint_holes a (Holes rs)) as Hd.
  destruct (Range_Include (rng rs) a); simpl.
  - rewrite Hd. destruct Hi as [Hi _]. specialize (Hi eq_refl). firstorder.
  - split; [discriminate|]. intros H. destruct Hi as [_ Hi]. apply Hi. firstorder.
Qed.

(** ** Intersection *)

(** [n] is a number of the range [s..e] outside the holes [hs]. *)
Definition in_seg (s : Z) (hs : list (Z * Z)) (e : option Z) (n : Z) : Prop :=
  s <= n /\ below_end n e /\ Forall (outside n) hs.

Lemma in_set_seg rs n :
  in_set rs n <-> in_seg (Start (rng rs)) (Holes rs) (REnd (rng rs)) n.
Proof. unfold in_set, in_seg, in_range. tauto. Qed.

Lemma skip_left_spec s0 s hs e0 :
  holes_ok s0 hs e0 -> s0 <= s ->
  (forall n, s <= n -> Forall (outside n) (skip_left s hs) <-> Forall (outside n) hs) /\
  match skip_left s hs with
  | [] => True
  | h :: t => s <= h.2 /\ h.1 <= h.2 < maxU64 /\ holes_ok (h.2 + 1) t e0
  end.
Proof.
  revert s0. induction hs as [|h t IH]; simpl; intros s0 H Hs; [done|].
  destruct H as (H1 & H2 & H3). destruct (Z.ltb_spec h.2 s).
  - destruct (IH _ H3) as [IH1 IH2]; [lia|]. split; [|done].
    intros n Hn. rewrite IH1, Forall_cons by done.
    assert (outside n h) by (right; lia). tauto.
  - split; [done|]. split; [lia|]. done.
Qed.

Lemma trim_left_spec s0 s hs e0 :
  holes_ok s0 hs e0 -> s0 <= s -> below_end s e0 -> 0 <= s ->
  holes_ok (trim_left s hs).1 (trim_left s hs).2 e0 /\ s <= (trim_left s hs).1 /\
  (u64 s -> u64 (trim_left s hs).1) /\
  forall e n, in_seg (trim_left s hs).1 (trim_left s hs).2 e n <-> in_seg s hs e n.
Proof.
  intros H Hs He Hp. destruct (skip_left_spec s0 s hs e0 H Hs) as [Hf Hm].
  unfold trim_left, in_seg in *. destruct (skip_left s hs) as [|h t] eqn:E; simpl in *.
  { split; [done|]. split; [lia|]. split; [u64lia|]. intros e n.
    split; intros (? & ? & ?); repeat split; auto; by apply Hf. }
  destruct Hm as (Hm1 & Hm2 & Hm3). destruct (Z.ltb_spec s h.1); simpl.
  { split; [auto|]. split; [lia|]. split; [u64lia|]. intros e n.
    split; intros (? & ? & ?); repeat split; auto; by apply Hf. }
  rewrite add64_small by u64lia. split; [done|]. split; [lia|]. split; [u64lia|]. intros e n.
  split; intros (Hn1 & Hn2 & Hn3).
  - repeat split; [lia|done|]. apply Hf; [lia|]. constructor; [right; lia|done].
  - apply Hf in Hn3; [|done]. apply Forall_cons in Hn3 as [[?|?] ?]; [lia|]. repeat split; auto; lia.
Qed.

Lemma skip_right_spec s e hs e0 :
  holes_ok s (rev hs) e0 ->
  (forall n, below_end n e ->
     Forall (outside n) (rev (skip_right e hs)) <-> Forall (outside n) (rev hs)) /\
  match skip_right e hs with
  | [] => True
  | h :: t => below_end h.1 e /\ h.1 <= h.2 < maxU64 /\ holes_ok s (rev t) (Some (h.1 - 1))
  end.
Proof.
  revert e0. induction hs as [|h t IH]; simpl; intros e0 H; [done|].
  apply (holes_ok_app s (rev t) h []) in H as (H1 & H2 & H3).
  destruct e as [e|]; simpl; [|done]. destruct (Z.ltb_spec e h.1); [|done].
  destruct (IH _ H1) as [IH1 IH2]. split; [|done].
  intros n Hn. simpl in Hn. rewrite IH1 by done. rewrite Forall_app, Forall_singleton.
  assert (outside n h) by (left; lia). tauto.
Qed.

Lemma trim_right_spec s e hs e0 :
  holes_ok s hs e0 -> 0 <= s ->
  let r := trim_right e hs in
  (below_end s r.1 -> holes_ok s r.2 r.1) /\
  (from_option u64 True e -> from_option u64 True r.1) /\
  forall n, in_seg s r.2 r.1 n <-> in_seg s hs e n.
Proof.
  intros H Hp r.
  destruct (skip_right_spec s e (rev hs) e0) as [Hf Hm]; [by rewrite rev_involutive|].
  rewrite rev_involutive in Hf. subst r. unfold trim_right, in_seg.
  destruct (skip_right e (rev hs)) as [|h t] eqn:E; simpl in *.
  { split; [auto|]. split; [done|]. intros n.
    split; intros (? & ? & ?); repeat split; auto; by apply Hf. }
  destruct Hm as (Hm1 & Hm2 & Hm3). pose proof (holes_ok_below _ _ _ Hm3) as Hb. simpl in Hb.
  destruct e as [e|]; simpl in *.
  2: { split; [intros _; apply holes_ok_app; split; [done|]; split; [lia|done]|].
       split; [done|]. intros n. specialize (Hf n I). rewrite Hf. tauto. }
  destruct (Z.ltb_spec h.2 e); simpl.
  { split; [intros _; apply holes_ok_app; split; [done|]; split; [lia|simpl; lia]|].
    split; [done|]. intros n. split; intros (? & ? & ?); repeat split; auto; by apply Hf. }
  rewrite sub64_small by u64lia. split; [done|]. split; [u64lia|]. intros n.
  split; intros (Hn1 & Hn2 & Hn3).
  - repeat split; [done|lia|]. apply Hf; [lia|]. apply Forall_app. split; [done|].
    apply Forall_singleton. left. lia.
  - apply Hf in Hn3; [|done]. apply Forall_app in Hn3 as [Hn3 Hn4].
    apply Forall_singleton in Hn4 as [?|?]; [|lia]. repeat split; auto; lia.
Qed.

Lemma below_end_min n e e' :
  below_end n (MinNilAsInf [e; e']) <-> below_end n e /\ below_end n e'.
Proof. destruct e, e'; simpl; lia. Qed.

(** [Intersection] keeps the invariant and computes the intersection. *)
Lemma RangeSet_Intersection_correct rs a :
  wf_set rs -> wf_range a ->
  wf_set (RangeSet_Intersection rs a) /\
  forall n, in_set (RangeSet_Intersection rs a) n <-> in_set rs n /\ in_range a n.
Proof.
  intros [Hw Hh] Ha. unfold RangeSet_Intersection.
  pose proof (Range_Intersection_spec (rng rs) a) as Hi.
  pose proof (wf_Range_Intersection _ _ Hw Ha) as [Hwi1 Hwi2].
  destruct (IsEmpty (Range_Intersection (rng rs) a)) eqn:Ei.
  { split; [apply wf_EmptyRangeSet|]. intros n. pose proof (in_set_EmptyRangeSet n).
    apply IsEmpty_true with (n := n) in Ei. specialize (Hi n). unfold in_set at 2. tauto. }
  assert (Hne : IsEmpty a = false /\ IsEmpty (rng rs) = false).
  { unfold Range_Intersection in Ei.
    destruct (IsEmpty a), (IsEmpty (rng rs)); simpl in Ei; try discriminate; done. }
  destruct Hne as [Hne1 Hne2]. rewrite Hne2 in Hh.
  unfold Range_Intersection in *. rewrite Hne1, Hne2 in *. simpl in *.
  apply IsEmpty_mkRange in Ei. apply below_end_min in Ei as [Ei1 Ei2].
  destruct (trim_left_spec (Start (rng rs)) (Start (rng rs) `max` Start a) (Holes rs)
              (REnd (rng rs))) as (Hl1 & Hl2 & Hl3 & Hl4); [done|lia|done|u64lia|].
  destruct (trim_left _ _) as [s hs1] eqn:El. simpl in *.
  destruct (trim_right_spec s (MinNilAsInf [REnd (rng rs); REnd a]) hs1 (REnd (rng rs)))
    as (Hr1 & Hr2 & Hr3); [done|u64lia|].
  destruct (trim_right _ hs1) as [e hs2] eqn:Er. simpl in *.
  assert (Hmem : forall n, in_seg s hs2 e n <-> in_set rs n /\ in_range a n).
  { intros n. rewrite Hr3, Hl4, in_set_seg. unfold in_seg, in_range. rewrite below_end_min.
    intuition lia. }
  destruct (IsEmpty (mkRange s e)) eqn:Ee.
  - split; [apply wf_EmptyRangeSet|]. intros n. rewrite <- Hmem.
    pose proof (in_set_EmptyRangeSet n). apply IsEmpty_true with (n := n) in Ee.
    unfold in_seg, in_range in *. simpl in Ee. tauto.
  - apply IsEmpty_mkRange in Ee. split; [|intros n; rewrite in_set_seg; apply Hmem].
    apply wf_set_intro; auto.
Qed.

(** ** Removing a range from a range *)

(** The unwrapped case analysis of [Range_Remove] on two non-empty ranges. *)
Lemma Range_Remove_correct r a :
  wf_range r -> wf_range a -> (REnd r = None -> REnd a <> Some maxU64) ->
  wf_set (Range_Remove r a) /\
  forall n, in_set (Range_Remove r a) n <-> in_range r n /\ ~ in_range a n.
Proof.
  intros [Hr1 Hr2] [Ha1 Ha2] Hm. unfold Range_Remove.
  destruct (IsEmpty r) eqn:Er.
  { split; [apply wf_EmptyRangeSet|]. intros n. pose proof (in_set_EmptyRangeSet n).
    apply IsEmpty_true with (n := n) in Er. tauto. }
  pose proof Er as Er'. apply IsEmpty_false in Er as Hr. destruct (IsEmpty a) eqn:Ea.
  { split; [split; simpl; [done|]; rewrite Er'; simpl; apply Hr|].
    intros n. apply IsEmpty_true with (n := n) in Ea. unfold in_set; simpl.
    rewrite Forall_nil. tauto. }
  apply IsEmpty_false in Ea as Ha. clear Er Er' Ea.
  unfold in_range, in_set, wf_set, wf_range in *.
  destruct r as [s [e|]], a as [s' [e'|]]; simpl in *;
    try (assert (e' <> maxU64) by (specialize (Hm eq_refl); congruence)); clear Hm;
    repeat (bcase; simpl);
    rewrite ?add64_small, ?sub64_small by u64lia; simpl;
    unfold IsEmpty; simpl; repeat bcase; simpl;
    setoid_rewrite Forall_nil || setoid_rewrite Forall_singleton || idtac;
    unfold outside, in_range; simpl; (split; [repeat split; u64lia|intros n; u64lia]).
Qed.

(** ** Remove *)

(** What the left and right loops of [Remove] have to find: a non-empty
    well-formed set with the given numbers. *)
Definition finds (rs : RangeSet) (s : Z) (e : option Z) (P : Z -> Prop) : Prop :=
  Start (rng rs) = s /\ REnd (rng rs) = e /\
  holes_ok s (Holes rs) e /\ forall n, in_set rs n <-> P n.

Lemma finds_nonempty rs s e P : finds rs s e P -> IsEmpty (rng rs) = false.
Proof.
  intros (<- & <- & H & _). apply holes_ok_below in H. destruct rs as [[s e'] hs]; simpl in *.
  by apply IsEmpty_mkRange.
Qed.

Lemma finds_wf rs s e P :
  u64 s -> from_option u64 True e -> finds rs s e P -> wf_set rs.
Proof.
  intros Hs He Hf. pose proof (finds_nonempty _ _ _ _ Hf) as E. destruct Hf as (H1 & H2 & H3 & _).
  split; [split; by rewrite ?H1, ?H2|]. by rewrite E, H1, H2.
Qed.

Lemma finds_intro s hs e P :
  holes_ok s hs e -> (forall n, in_seg s hs e n <-> P n) ->
  finds (mkRangeSet (mkRange s e) hs) s e P.
Proof. intros H1 H2. do 3 (split; [done|]). intros n. rewrite in_set_seg. apply H2. Qed.

(** Holes that end left of [x] leave room for the set to end there. *)
Lemma holes_ok_end s hs e x :
  holes_ok s hs e -> Forall (fun h => h.2 < x) hs -> s <= x -> holes_ok s hs (Some x).
Proof.
  revert s. induction hs as [|h t IH]; simpl; intros s H Hf Hs; [done|].
  apply Forall_cons in Hf as [? ?]. destruct H as (? & ? & ?).
  repeat split; try lia. apply IH; auto. lia.
Qed.

(** A number left of the hole [h] is outside it and the holes after it. *)
Lemma outside_before n h t e :
  holes_ok (h.2 + 1) t e -> h.1 <= h.2 -> n < h.1 -> Forall (outside n) (h :: t).
Proof.
  intros Ht Hh Hn. constructor; [by left|]. eapply outside_left; [exact Ht|lia].
Qed.

Lemma Remove_left_loop_spec s sa pre hs e :
  u64 s -> u64 sa -> s < sa -> holes_ok s (pre ++ hs) e ->
  Forall (fun h => h.2 < sa - 1) pre ->
  (Forall (fun h => h.2 < sa - 1) hs /\ Remove_left_loop s sa pre hs = EmptyRangeSet) \/
  exists x, s <= x < sa /\
    finds (Remove_left_loop s sa pre hs) s (Some x)
      (fun n => s <= n < sa /\ Forall (outside n) (pre ++ hs)).
Proof.
  revert pre. induction hs as [|h t IH]; simpl; intros pre Hu Hua Hs Hok Hpre; [by left; split|].
  pose proof Hok as Hok'. apply holes_ok_app in Hok' as (Hp & Hh & Ht).
  pose proof (holes_ok_below _ _ _ Hp) as Hb. simpl in Hb.
  destruct (Z.ltb_spec sa h.1).
  - right. exists (sa - 1). rewrite sub64_small by u64lia. split; [lia|].
    apply finds_intro; [eapply holes_ok_end; eauto; lia|]. intros n. unfold in_seg; simpl. rewrite Forall_app.
    split; [|intuition lia]. intros (? & ? & ?). repeat split; try lia; [done|].
    eapply outside_before; eauto; lia.
  - destruct (Z.leb_spec sa (h.2 +! 1)) as [Hle|Hle]; rewrite add64_small in Hle by u64lia.
    + right. exists (h.1 - 1). rewrite sub64_small by u64lia. split; [lia|].
      apply finds_intro; [done|]. intros n. unfold in_seg; simpl. rewrite Forall_app. split.
      * intros (? & ? & ?). repeat split; try lia; [done|]. eapply outside_before; eauto; lia.
      * rewrite Forall_cons. unfold outside at 2. intuition lia.
    + destruct (IH (pre ++ [h])) as [[H1 H2]|(x & Hx & Hf)]; auto.
      * by rewrite <- app_assoc.
      * apply Forall_app. split; [done|]. apply Forall_singleton. lia.
      * left. split; [|done]. constructor; [lia|done].
      * right. exists x. split; [done|]. rewrite <- app_assoc in Hf. exact Hf.
Qed.

Lemma Remove_left_spec rs a e :
  wf_range (rng rs) -> wf_range a ->
  holes_ok (Start (rng rs)) (Holes rs) e -> Start (rng rs) < Start a ->
  exists x, Start (rng rs) <= x < Start a /\
    finds (Remove_left rs a) (Start (rng rs)) (Some x)
      (fun n => Start (rng rs) <= n < Start a /\ Forall (outside n) (Holes rs)).
Proof.
  intros [Hr _] [Ha _] Hok Hlt. unfold Remove_left. apply Z.ltb_lt in Hlt as Hltb. rewrite Hltb.
  destruct (Remove_left_loop_spec (Start (rng rs)) (Start a) [] (Holes rs) e)
    as [[Hf ->]|(x & Hx & Hf)]; auto; simpl.
  - exists (Start a - 1). rewrite sub64_small by u64lia. split; [lia|].
    apply finds_intro; [eapply holes_ok_end; eauto; lia|]. intros n. unfold in_seg; simpl.
    intuition lia.
  - rewrite (finds_nonempty _ _ _ _ Hf). eauto.
Qed.

Lemma Remove_right_loop_spec s ea hs e :
  0 <= s -> s <= ea -> ea < maxU64 -> holes_ok s hs e -> LessNilAsInf (Some ea) e = true ->
  (Forall (fun h => h.2 < ea) hs /\ Remove_right_loop ea e hs = EmptyRangeSet) \/
  exists x, ea < x <= maxU64 /\
    finds (Remove_right_loop ea e hs) x e
      (fun n => ea < n /\ below_end n e /\ Forall (outside n) hs).
Proof.
  intros Hs0 Hs Hea Hok He. revert s Hs0 Hs Hok.
  induction hs as [|h t IH]; simpl; intros s Hs0 Hs Hok; [by left|].
  destruct Hok as (Hh1 & Hh2 & Ht). rewrite (sub64_small h.1 1) by u64lia.
  destruct (Z.ltb_spec ea (h.1 - 1)).
  - right. exists (ea + 1). rewrite add64_small by u64lia. split; [u64lia|].
    apply finds_intro; [simpl; split; [lia|]; split; [lia|done]|]. intros n. unfold in_seg.
    intuition lia.
  - destruct (Z.leb_spec ea h.2).
    + right. exists (h.2 + 1). rewrite add64_small by u64lia. split; [lia|].
      apply finds_intro; [done|]. intros n. unfold in_seg. rewrite Forall_cons.
      unfold outside at 2. intuition lia.
    + destruct (IH (h.2 + 1)) as [[H1 H2]|(x & Hx & Hf)]; [lia|lia|done| |].
      * left. split; [|done]. by constructor.
      * right. exists x. split; [done|]. destruct Hf as (? & ? & ? & Hf). do 3 (split; [done|]).
        intros n. rewrite Hf, Forall_cons. unfold outside at 2. intuition lia.
Qed.

Lemma Remove_right_spec rs a ea :
  wf_range (rng rs) -> wf_range a -> REnd a = Some ea -> ea < maxU64 ->
  holes_ok (Start (rng rs)) (Holes rs) (REnd (rng rs)) -> Start (rng rs) <= ea ->
  LessNilAsInf (Some ea) (REnd (rng rs)) = true ->
  exists x, ea < x <= maxU64 /\
    finds (Remove_right rs a) x (REnd (rng rs))
      (fun n => ea < n /\ below_end n (REnd (rng rs)) /\ Forall (outside n) (Holes rs)).
Proof.
  intros [Hr1 Hr2] _ Ea Hm Hok Hs Hlt. unfold Remove_right. rewrite Ea, Hlt. simpl.
  destruct (Remove_right_loop_spec (Start (rng rs)) ea (Holes rs) (REnd (rng rs)))
    as [[Hf ->]|(x & Hx & Hf)]; auto; [u64lia| |]; simpl.
  - exists (ea + 1). rewrite add64_small by u64lia. split; [u64lia|].
    apply finds_intro.
    + destruct (REnd (rng rs)); simpl in *; breflect; lia.
    + intros n. unfold in_seg. split; [|intuition (auto; lia)].
      intros (? & ? & _). repeat split; auto; [lia|].
      eapply Forall_impl; [exact Hf|]. intros h Hh. right. simpl in Hh. lia.
  - rewrite (finds_nonempty _ _ _ _ Hf). eauto.
Qed.

Lemma deref_Some x : deref (Some x) = x.
Proof. reflexivity. Qed.

(** Joining the parts found left and right of the removed range. *)
Lemma Remove_join s x y e hl hr :
  u64 s -> from_option u64 True e -> 0 <= x < y - 1 -> y <= maxU64 ->
  holes_ok s hl (Some x) -> holes_ok y hr e ->
  wf_set (mkRangeSet (mkRange s e) (hl ++ [(x +! 1, y -! 1)] ++ hr)) /\
  forall n, in_set (mkRangeSet (mkRange s e) (hl ++ [(x +! 1, y -! 1)] ++ hr)) n <->
            in_seg s hl (Some x) n \/ in_seg y hr e n.
Proof.
  intros Hs He Hxy Hy Hl Hr. rewrite add64_small, sub64_small by u64lia. simpl app.
  pose proof (holes_ok_below _ _ _ Hl) as Hbl. pose proof (holes_ok_below _ _ _ Hr) as Hbr.
  simpl in Hbl.
  assert (Hok : holes_ok s (hl ++ (x + 1, y - 1) :: hr) e).
  { apply holes_ok_app. simpl. replace (x + 1 - 1) with x by lia. replace (y - 1 + 1) with y by lia.
    split; [done|]. split; [lia|done]. }
  split; [apply wf_set_intro; auto; by apply holes_ok_below in Hok|].
  intros n. rewrite in_set_seg. unfold in_seg; simpl. rewrite Forall_app, Forall_cons.
  unfold outside at 2; simpl. split; [intuition lia|].
  intros [(H1 & H2 & H3)|(H1 & H2 & H3)]; repeat split; auto; try lia.
  - destruct e; simpl in *; lia.
  - eapply outside_left; [exact Hr|lia].
  - assert (Hf : Forall (fun h => h.2 < x) hl).
    { clear - Hl. revert s Hl. induction hl as [|h t IH]; simpl; intros s H; [constructor|].
      destruct H as (? & ? & H). constructor; [apply holes_ok_below in H; simpl in H; lia|eauto]. }
    eapply Forall_impl; [exact Hf|]. intros h Hh. right. simpl in Hh. lia.
Qed.

(** The situations of [Remove] once [a] is known to meet the range of the set:
    there is a part to its left or there is none, and likewise on the right. *)
Definition has_left (rs : RangeSet) (a : Range) : Prop := Start (rng rs) < Start a.

Definition has_right (rs : RangeSet) (a : Range) (ea : Z) : Prop :=
  REnd a = Some ea /\ Start (rng rs) <= ea < maxU64 /\
  LessNilAsInf (Some ea) (REnd (rng rs)) = true.

Lemma Remove_left_cases rs a :
  has_left rs a \/ Remove_left rs a = EmptyRangeSet /\ Start a <= Start (rng rs).
Proof. unfold has_left, Remove_left. bcase; [by left|by right]. Qed.

Lemma Remove_right_cases rs a :
  wf_range a -> (REnd (rng rs) = None -> REnd a <> Some maxU64) -> wf_range (rng rs) ->
  LessNilAsInf (REnd a) (Some (Start (rng rs))) = false ->
  (exists ea, has_right rs a ea) \/
  Remove_right rs a = EmptyRangeSet /\ forall n, below_end n (REnd (rng rs)) -> below_end n (REnd a).
Proof.
  intros [_ Ha] Hm [_ Hw] E. unfold has_right, Remove_right.
  destruct (REnd a) as [ea|], (REnd (rng rs)) as [e|]; simpl in *; auto.
  - destruct (Z.ltb_spec ea e); breflect; [left; exists ea|right]; repeat split; auto; u64lia.
  - left. exists ea. breflect. assert (ea <> maxU64) by (specialize (Hm eq_refl); congruence).
    repeat split; auto; u64lia.
Qed.

Section RemoveParts.
Context (rs : RangeSet) (a : Range).
Context (Hw : wf_range (rng rs)) (Ha : wf_range a).
Context (Hok : holes_ok (Start (rng rs)) (Holes rs) (REnd (rng rs))).
Context (Ea : in_range a (Start a)).

Lemma Remove_both ea :
  has_left rs a -> has_right rs a ea ->
  IsEmpty (rng (Remove_left rs a)) = false /\ IsEmpty (rng (Remove_right rs a)) = false /\
  let res := mkRangeSet (rng rs)
    (Holes (Remove_left rs a)
     ++ [(deref (REnd (rng (Remove_left rs a))) +! 1, Start (rng (Remove_right rs a)) -! 1)]
     ++ Holes (Remove_right rs a)) in
  wf_set res /\ forall n, in_set res n <-> in_set rs n /\ ~ in_range a n.
Proof.
  intros Hl (Hea & Heb & Hlt).
  destruct (Remove_left_spec rs a (REnd (rng rs))) as (x & Hx & Fl); auto.
  destruct (Remove_right_spec rs a ea) as (y & Hy & Fr); auto; [lia|lia|].
  split; [eapply finds_nonempty, Fl|]. split; [eapply finds_nonempty, Fr|].
  destruct Fl as (L1 & L2 & L3 & L4), Fr as (R1 & R2 & R3 & R4), Hw as [Hw1 Hw2].
  assert (Start a <= ea) by (unfold in_range in Ea; rewrite Hea in Ea; simpl in Ea; lia).
  destruct (Remove_join (Start (rng rs)) x y (REnd (rng rs)) (Holes (Remove_left rs a))
              (Holes (Remove_right rs a))) as [J1 J2]; auto; [u64lia|lia|].
  rewrite L2, R1, deref_Some. destruct (rng rs) as [s e] eqn:Ers; simpl in *.
  split; [done|]. intros n. rewrite J2, (in_set_seg rs), Ers. simpl.
  specialize (L4 n). specialize (R4 n). rewrite in_set_seg, L1, L2 in L4.
  rewrite in_set_seg, R1, R2 in R4. rewrite L4, R4. unfold in_seg, in_range.
  rewrite Hea. destruct (Z_lt_ge_dec n (Start a)), (Z_le_gt_dec n ea), e; simpl in *; breflect;
    intuition lia.
Qed.

Lemma Remove_only_left :
  has_left rs a -> LessNilAsInf (REnd (rng rs)) (Some (Start a)) = false ->
  (forall n, below_end n (REnd (rng rs)) -> below_end n (REnd a)) ->
  IsEmpty (rng (Remove_left rs a)) = false /\ wf_set (Remove_left rs a) /\
  forall n, in_set (Remove_left rs a) n <-> in_set rs n /\ ~ in_range a n.
Proof.
  intros Hl Hn0 Hr. destruct (Remove_left_spec rs a (REnd (rng rs))) as (x & Hx & Fl); auto.
  pose proof Hw as [Hw1 Hw2]. pose proof Ha as [Ha1 _].
  split; [eapply finds_nonempty, Fl|]. split.
  { eapply finds_wf; [..|exact Fl]; auto. simpl. u64lia. }
  intros n. destruct Fl as (_ & _ & _ & ->). rewrite in_set_seg. unfold in_seg, in_range.
  specialize (Hr n). destruct (Z_lt_le_dec n (Start a)), (REnd (rng rs)); simpl in *; breflect;
    intuition lia.
Qed.

Lemma Remove_only_right ea :
  Start a <= Start (rng rs) -> has_right rs a ea ->
  IsEmpty (rng (Remove_right rs a)) = false /\ wf_set (Remove_right rs a) /\
  forall n, in_set (Remove_right rs a) n <-> in_set rs n /\ ~ in_range a n.
Proof.
  intros Hl (Hea & Heb & Hlt).
  destruct (Remove_right_spec rs a ea) as (y & Hy & Fr); auto; [lia|lia|].
  pose proof Hw as [Hw1 Hw2].
  split; [eapply finds_nonempty, Fr|]. split; [eapply finds_wf; [..|exact Fr]; auto; u64lia|].
  intros n. destruct Fr as (_ & _ & _ & ->). rewrite in_set_seg. unfold in_seg, in_range.
  rewrite Hea; simpl. destruct (Z_le_gt_dec n ea); intuition lia.
Qed.
End RemoveParts.

(** [Remove] keeps the invariant and computes the set difference. The only
    proviso concerns a set without end: the removed range must not end at the
    largest [uint64], as [*a.End + 1] would wrap. *)
Lemma RangeSet_Remove_correct rs a :
  wf_set rs -> wf_range a -> (REnd (rng rs) = None -> REnd a <> Some maxU64) ->
  wf_set (RangeSet_Remove rs a) /\
  forall n, in_set (RangeSet_Remove rs a) n <-> in_set rs n /\ ~ in_range a n.
Proof.
  intros Hwf Ha Hm. unfold RangeSet_Remove. pose proof Hwf as [Hw Hh].
  destruct (IsEmpty a) eqn:Ea; simpl.
  { split; [done|]. intros n. apply IsEmpty_true with (n := n) in Ea. tauto. }
  destruct (IsEmpty (rng rs)) eqn:Er; simpl.
  { split; [done|]. intros n. pose proof (wf_set_empty rs n Er). tauto. }
  apply IsEmpty_false in Ea.
  destruct (LessNilAsInf (REnd a) (Some (Start (rng rs)))) eqn:E1.
  { split; [done|]. intros n. unfold in_set, in_range.
    destruct (REnd a); simpl in *; breflect; intuition lia. }
  destruct (LessNilAsInf (REnd (rng rs)) (Some (Start a))) eqn:E2.
  { split; [done|]. intros n. unfold in_set, in_range.
    destruct (REnd (rng rs)); simpl in *; breflect; intuition lia. }
  destruct (Remove_right_cases rs a Ha Hm Hw E1) as [[ea Hr]|[Er' Hr]];
    destruct (Remove_left_cases rs a) as [Hl|[El' Hl]].
  - destruct (Remove_both rs a Hw Ha Hh Ea ea Hl Hr) as (-> & -> & Hres). simpl.
    by rewrite Er.
  - destruct (Remove_only_right rs a Hw Ha Hh ea Hl Hr) as (E & ?).
    rewrite El', E. simpl. by rewrite E.
  - destruct (Remove_only_left rs a Hw Ha Hh Hl E2 Hr) as (E & ?).
    rewrite Er', E. simpl. by rewrite E.
  - rewrite Er', El'. simpl. split; [apply wf_EmptyRangeSet|].
    intros n. pose proof (in_set_EmptyRangeSet n). unfold in_set at 2, in_range.
    specialize (Hr n). assert (Start (rng rs) <= n -> Start a <= n) by lia. tauto.
Qed.

(** ** Union *)

(** What becomes of the hole [lo..hi] when the numbers of [a] are added: the
    cases of the loop body of [Union]. *)
Lemma Union_hole lo hi a :
  u64 lo -> lo <= hi < maxU64 -> wf_range a -> in_range a (Start a) ->
  let remain := Range_Remove (hole_range (lo, hi)) a in
  (IsEmpty (rng remain) = true /\ forall n, lo <= n <= hi -> in_range a n) \/
  (exists x y, remain = mkRangeSet (mkRange lo (Some hi)) [(x, y)] /\
     lo < x <= y /\ y < hi /\ Start a = x /\ REnd a = Some y) \/
  (exists x y, remain = mkRangeSet (mkRange x (Some y)) [] /\ lo <= x <= y /\ y <= hi /\
     (forall n, lo <= n <= hi -> (in_range a n <-> ~ x <= n <= y))).
Proof.
  intros Hlo Hhi [Ha1 Ha2] Ha. unfold Range_Remove, hole_range, in_range in *. simpl in *.
  assert (IsEmpty (mkRange lo (Some hi)) = false) as -> by (apply IsEmpty_mkRange; simpl; lia).
  assert (IsEmpty a = false) as -> by by apply IsEmpty_false.
  destruct a as [s [e|]]; simpl in *; repeat bcase; simpl;
    rewrite ?add64_small, ?sub64_small by u64lia.
  all: try (left; split; [reflexivity|lia]).
  all: try (right; right; eexists _, _; split; [reflexivity|]; repeat split; intros; lia).
  all: try (right; left; eexists _, _; split; [reflexivity|]; repeat split; lia).
Qed.

Lemma outside_pair n lo hi : outside n (lo, hi) <-> n < lo \/ hi < n.
Proof. reflexivity. Qed.

Lemma Union_loop_spec a s S' hs e E :
  wf_range a -> in_range a (Start a) -> 0 <= s -> holes_ok s hs e -> S' <= s ->
  (forall n, below_end n e -> below_end n E) ->
  holes_ok S' (Union_loop a hs) E /\
  forall n, Forall (outside n) (Union_loop a hs) <-> Forall (outside n) hs \/ in_range a n.
Proof.
  intros Ha Hne. revert s S'.
  induction hs as [|[lo hi] t IH]; intros s S' Hs Hok HS HE.
  { split; [by eapply holes_ok_mono|]. intros n. simpl. rewrite !Forall_nil. tauto. }
  cbn [Union_loop]. destruct Hok as (H1 & H2 & H3). cbn [fst snd] in *.
  assert (Hstep : forall S2, S2 <= hi + 1 -> holes_ok S2 (Union_loop a t) E /\
    forall n, Forall (outside n) (Union_loop a t) <-> Forall (outside n) t \/ in_range a n)
    by (intros S2 HS2; apply (IH (hi + 1)); auto; lia).
  setoid_rewrite Forall_cons.
  destruct (Union_hole lo hi a) as [[Hr Hc]|[(x & y & Hr & Hx & Hy & Hxa & Hya)|
    (x & y & Hr & Hx & Hy & Hc)]]; [u64lia|lia|done|done|..]; cbv zeta.
  - rewrite Hr. destruct (Hstep S' ltac:(lia)) as [G1 G2]. split; [done|]. intros n. rewrite G2.
    specialize (Hc n). rewrite outside_pair.
    destruct (Z_lt_le_dec n lo), (Z_lt_le_dec hi n); intuition lia.
  - rewrite Hr. simpl. unfold IsEmpty; simpl. destruct (Z.ltb_spec hi lo); [lia|].
    rewrite sub64_small, add64_small by u64lia. split.
    + simpl. repeat split; try lia. eapply holes_ok_mono; eauto. lia.
    + intros n. unfold in_range. rewrite Hxa, Hya. rewrite !Forall_cons, !outside_pair. simpl.
      assert (n <= y -> Forall (outside n) t) by (intros; eapply outside_left; eauto; lia).
      destruct (Z_lt_le_dec n lo), (Z_lt_le_dec hi n), (Z_lt_le_dec n x), (Z_lt_le_dec y n);
        intuition lia.
  - rewrite Hr. simpl. unfold IsEmpty; simpl. destruct (Z.ltb_spec y x); [lia|].
    destruct (Hstep (y + 1) ltac:(lia)) as [G1 G2]. split.
    + simpl. repeat split; try lia. done.
    + intros n. rewrite Forall_cons, G2, !outside_pair. specialize (Hc n).
      destruct (Z_lt_le_dec n lo), (Z_lt_le_dec hi n), (Z_lt_le_dec n x), (Z_lt_le_dec y n);
        intuition lia.
Qed.

Lemma below_end_max n e e' :
  0 <= n -> from_option u64 True e -> from_option u64 True e' ->
  below_end n (MaxNilAsInf [e; e']) <-> below_end n e \/ below_end n e'.
Proof. destruct e, e'; simpl; u64lia. Qed.

Lemma wf_Cover r a : wf_range r -> wf_range a -> wf_range (Cover r a).
Proof.
  intros Hr Ha. unfold Cover. destruct (IsEmpty r); [done|]. destruct (IsEmpty a); [done|].
  unfold wf_range, MaxNilAsInf in *. range_cases; u64lia.
Qed.

(** The last branch of [Union]: the two ranges meet. *)
Lemma Union_overlap rs a :
  wf_range (rng rs) -> wf_range a ->
  holes_ok (Start (rng rs)) (Holes rs) (REnd (rng rs)) ->
  in_range a (Start a) -> in_range (rng rs) (Start (rng rs)) ->
  LessNilAsInf (REnd (rng rs)) (Some (Start a)) = false ->
  LessNilAsInf (REnd a) (Some (Start (rng rs))) = false ->
  let res := mkRangeSet (Cover a (rng rs)) (Union_loop a (Holes rs)) in
  wf_set res /\ forall n, in_set res n <-> in_set rs n \/ in_range a n.
Proof.
  intros Hw Ha Hok Ea Er E1 E2. pose proof (wf_Cover a (rng rs) Ha Hw) as Hc.
  pose proof Hw as [Hw1 Hw2]. pose proof Ha as [Ha1 Ha2].
  assert (Hcov : Cover a (rng rs) = mkRange (Z.min (Start a) (Start (rng rs)))
                                      (MaxNilAsInf [REnd a; REnd (rng rs)])).
  { unfold Cover. apply IsEmpty_false in Ea, Er. by rewrite Ea, Er. }
  destruct (Union_loop_spec a (Start (rng rs)) (Z.min (Start a) (Start (rng rs))) (Holes rs)
              (REnd (rng rs)) (MaxNilAsInf [REnd a; REnd (rng rs)])) as [G1 G2];
    [done|done|u64lia|done|lia| |].
  { intros n. destruct (REnd a), (REnd (rng rs)); simpl; u64lia. }
  cbv zeta. rewrite Hcov in *. destruct Hc as [Hc1 Hc2]. split.
  - apply wf_set_intro; auto. by apply holes_ok_below in G1.
  - intros n. unfold in_set at 1. cbn [rng Holes]. rewrite G2. unfold in_set, in_range in *.
    cbn [Start REnd]. destruct (Z_lt_le_dec n 0).
    { split; [intros [[? _] _]|intros [[[? _] _]|[? _]]]; u64lia. }
    rewrite below_end_max by auto.
    destruct (Z_lt_le_dec n (Start a)), (Z_lt_le_dec n (Start (rng rs)));
      destruct (REnd a) as [ea|], (REnd (rng rs)) as [er|]; simpl in *; breflect;
      try destruct (Z_lt_le_dec ea n); try destruct (Z_lt_le_dec er n); intuition lia.
Qed.

(** The range is added to the right of the set. *)
Lemma Union_right rs a :
  wf_range (rng rs) -> wf_range a ->
  holes_ok (Start (rng rs)) (Holes rs) (REnd (rng rs)) -> in_range a (Start a) ->
  LessNilAsInf (REnd (rng rs)) (Some (Start a)) = true ->
  let res :=
    if deref (REnd (rng rs)) +! 1 =? Start a
    then mkRangeSet (mkRange (Start (rng rs)) (REnd a)) (Holes rs)
    else mkRangeSet (mkRange (Start (rng rs)) (REnd a))
           (Holes rs ++ [(deref (REnd (rng rs)) +! 1, Start a -! 1)]) in
  wf_set res /\ forall n, in_set res n <-> in_set rs n \/ in_range a n.
Proof.
  intros [Hw1 Hw2] [Ha1 Ha2] Hok [_ Ea] E1. destruct rs as [[s [e|]] hs]; [|discriminate].
  simpl in *. breflect. rewrite add64_small, sub64_small by u64lia.
  pose proof (holes_ok_below _ _ _ Hok) as Hb. simpl in Hb.
  assert (Hout : forall n, e < n -> Forall (outside n) hs).
  { intros n Hn. clear - Hok Hn. revert s Hok. induction hs as [|h t IH]; simpl; intros s H;
      [constructor|]. destruct H as (? & ? & H). constructor; [|eauto].
    right. apply holes_ok_below in H. simpl in H. lia. }
  assert (Hend : below_end e (REnd a)) by (destruct (REnd a); simpl in *; lia).
  destruct (Z.eqb_spec (e + 1) (Start a)) as [Heq|Heq]; cbv zeta; split.
  - apply wf_set_intro; auto; [eapply holes_ok_mono; eauto; [lia|]|];
      intros; destruct (REnd a); simpl in *; lia.
  - intros n. rewrite !in_set_seg. unfold in_seg, in_range; simpl. specialize (Hout n).
    destruct (Z_lt_le_dec n (Start a)), (Z_lt_le_dec e n), (REnd a); simpl in *; intuition lia.
  - apply wf_set_intro; auto; [|destruct (REnd a); simpl in *; lia].
    apply holes_ok_app. simpl. replace (e + 1 - 1) with e by lia.
    split; [done|]. split; [u64lia|]. destruct (REnd a); simpl in *; lia.
  - intros n. rewrite !in_set_seg. unfold in_seg, in_range; simpl.
    rewrite Forall_app, Forall_singleton, outside_pair. specialize (Hout n).
    destruct (Z_lt_le_dec n (Start a)), (Z_lt_le_dec e n), (REnd a); simpl in *; intuition lia.
Qed.

(** The range is added to the left of the set. *)
Lemma Union_left rs a :
  wf_range (rng rs) -> wf_range a ->
  holes_ok (Start (rng rs)) (Holes rs) (REnd (rng rs)) -> in_range a (Start a) ->
  LessNilAsInf (REnd a) (Some (Start (rng rs))) = true ->
  let res :=
    if deref (REnd a) +! 1 =? Start (rng rs)
    then mkRangeSet (mkRange (Start a) (REnd (rng rs))) (Holes rs)
    else mkRangeSet (mkRange (Start a) (REnd (rng rs)))
           ((deref (REnd a) +! 1, Start (rng rs) -! 1) :: Holes rs) in
  wf_set res /\ forall n, in_set res n <-> in_set rs n \/ in_range a n.
Proof.
  intros [Hw1 Hw2] [Ha1 Ha2] Hok [_ Ea] E1. destruct a as [sa [ea|]]; [|discriminate].
  simpl in *. breflect. rewrite add64_small, sub64_small by u64lia.
  pose proof (holes_ok_below _ _ _ Hok) as Hb.
  assert (Hout : forall n, n < Start (rng rs) -> Forall (outside n) (Holes rs))
    by (intros n Hn; eapply outside_left; eauto; lia).
  destruct (Z.eqb_spec (ea + 1) (Start (rng rs))) as [Heq|Heq]; cbv zeta; split.
  - apply wf_set_intro; auto; [eapply holes_ok_mono; eauto; lia|].
    destruct (REnd (rng rs)); simpl in *; lia.
  - intros n. rewrite !in_set_seg. unfold in_seg, in_range; simpl. specialize (Hout n).
    destruct (Z_lt_le_dec n (Start (rng rs))), (Z_lt_le_dec ea n), (REnd (rng rs)); simpl in *;
      intuition lia.
  - apply wf_set_intro; auto; [|destruct (REnd (rng rs)); simpl in *; lia].
    simpl. replace (Start (rng rs) - 1 + 1) with (Start (rng rs)) by lia.
    split; [lia|]. split; [u64lia|done].
  - intros n. rewrite !in_set_seg. unfold in_seg, in_range; simpl.
    rewrite Forall_cons, outside_pair. specialize (Hout n).
    destruct (Z_lt_le_dec n (Start (rng rs))), (Z_lt_le_dec ea n), (REnd (rng rs)); simpl in *;
      intuition lia.
Qed.

(** [Union] keeps the invariant and computes the union. *)
Lemma RangeSet_Union_correct rs a :
  wf_set rs -> wf_range a ->
  wf_set (RangeSet_Union rs a) /\
  forall n, in_set (RangeSet_Union rs a) n <-> in_set rs n \/ in_range a n.
Proof.
  intros Hwf Ha. unfold RangeSet_Union. pose proof Hwf as [Hw Hh].
  destruct (IsEmpty a) eqn:Ea.
  { split; [done|]. intros n. apply IsEmpty_true with (n := n) in Ea. tauto. }
  apply IsEmpty_false in Ea as Ea'. destruct (IsEmpty (rng rs)) eqn:Er.
  { split; [split; [done|]; simpl; rewrite Ea; apply Ea'|]. intros n.
    pose proof (wf_set_empty rs n Er). unfold in_set at 1. simpl. rewrite Forall_nil. tauto. }
  apply IsEmpty_false in Er.
  destruct (LessNilAsInf (REnd (rng rs)) (Some (Start a))) eqn:E1; [by apply Union_right|].
  destruct (LessNilAsInf (REnd a) (Some (Start (rng rs)))) eqn:E2; [by apply Union_left|].
  by apply Union_overlap.
Qed.
