(* ===== verification/RangeSetOps.v ===== *)
(** * Set-to-set operations of [common/range/set.go] and the cutter of [cutter.go]

    [NewRangeSet] normalises a list of ranges; [IntersectionSet], [UnionSet],
    [RemoveSet], [FindContains], [GetRanges], [Equal] and the cutting functions
    work on the sequence of maximal ranges of a set. The proofs go through one
    notion, a [chain] of separated ranges, which [GetRanges] produces and
    [of_ranges] turns back into a set. *)
From Stdlib Require Import ZArith Lia.
From stdpp Require Import base numbers option sorting list.
From S2P Require Import Prelude RangeBase RangeSet.

(** ** Definitions *)

Fixpoint GetRanges_loop (start : Z) (hs : list (Z * Z)) (end_ : option Z) : list Range :=
  match hs with
  | [] => [mkRange start end_]
  | h :: t => mkRange start (Some (h.1 -! 1)) :: GetRanges_loop (h.2 +! 1) t end_
  end.

Definition GetRanges (rs : RangeSet) : list Range :=
  if IsEmpty (rng rs) then []
  else GetRanges_loop (Start (rng rs)) (Holes rs) (REnd (rng rs)).

(** The comparison given to [sort.Slice]: by start, the longer range first. *)
Definition range_less (a b : Range) : bool :=
  if negb (Start a =? Start b) then Start a <? Start b
  else GreaterNilAsInf (REnd a) (REnd b).

Fixpoint insert_range (r : Range) (l : list Range) : list Range :=
  match l with
  | [] => [r]
  | x :: t => if range_less r x then r :: l else x :: insert_range r t
  end.

Definition sort_ranges (l : list Range) : list Range := foldr insert_range [] l.

(** The compaction loop of [NewRangeSet]: [cur] is [rs[n]], the ranges before it
    are final. *)
Fixpoint merge_loop (cur : Range) (rest : list Range) : list Range :=
  match rest with
  | [] => [cur]
  | r :: t =>
      if Range_Include cur r then merge_loop cur t
      else if GetDistance cur r =? 0 then merge_loop (mkRange (Start cur) (REnd r)) t
      else cur :: merge_loop r t
  end.

(** The last loop of [NewRangeSet]: a hole between every two kept ranges. *)
Fixpoint holes_between (l : list Range) : list (Z * Z) :=
  match l with
  | r1 :: (r2 :: _) as t => (deref (REnd r1) +! 1, Start r2 -! 1) :: holes_between t
  | _ => []
  end.

(** [rs[n].End], the end of the last kept range. *)
Fixpoint last_end (r : Range) (t : list Range) : option Z :=
  match t with
  | [] => REnd r
  | q :: t' => last_end q t'
  end.

Definition of_ranges (l : list Range) : RangeSet :=
  match l with
  | [] => EmptyRangeSet
  | r :: t => mkRangeSet (mkRange (Start r) (last_end r t)) (holes_between l)
  end.

Definition NewRangeSet (rs : list Range) : RangeSet :=
  match rs with
  | [] => EmptyRangeSet
  | [r] => mkRangeSet r []
  | _ => match sort_ranges rs with
         | [] => EmptyRangeSet
         | x :: t => of_ranges (merge_loop x t)
         end
  end.

(** The two-pointer loop of [IntersectionSet] over the remaining ranges. *)
Fixpoint IntersectionSet_loop (l1 : list Range) : list Range -> list Range :=
  fix go (l2 : list Range) : list Range :=
    match l1, l2 with
    | x :: t1, y :: t2 =>
        let inter := Range_Intersection x y in
        (if IsEmpty inter then [] else [inter]) ++
        (if LessNilAsInf (REnd x) (REnd y) then IntersectionSet_loop t1 (y :: t2)
         else if LessNilAsInf (REnd y) (REnd x) then go t2
         else IntersectionSet_loop t1 t2)
    | _, _ => []
    end.

Definition IntersectionSet (rs a : RangeSet) : RangeSet :=
  if IsEmpty (rng rs) || IsEmpty (rng a) then EmptyRangeSet
  else NewRangeSet (IntersectionSet_loop (GetRanges rs) (GetRanges a)).

Definition UnionSet (rs a : RangeSet) : RangeSet :=
  foldl RangeSet_Union rs (GetRanges a).

Definition RemoveSet (rs a : RangeSet) : RangeSet :=
  foldl RangeSet_Remove rs (GetRanges a).

(** The zero value [Range{}] returned beside [false]. *)
Definition ZeroRange : Range := mkRange 0 None.

Fixpoint FindContains_loop (r : Range) (items : list Range) : Range * bool :=
  match items with
  | [] => (ZeroRange, false)
  | item :: t =>
      if Range_Include item r then (item, true)
      else if deref (REnd r) <? Start item then (ZeroRange, false)
      else FindContains_loop r t
  end.

Definition FindContains (rs : RangeSet) (r : Range) : Range * bool :=
  match REnd r with
  | None =>
      match REnd (rng rs) with
      | Some _ => (ZeroRange, false)
      | None => if Range_Include (Last rs) r then (Last rs, true) else (ZeroRange, false)
      end
  | Some _ => FindContains_loop r (GetRanges rs)
  end.

Definition GetSetsIntersection (sets : list RangeSet) : Outcome RangeSet :=
  match sets with
  | [] => Panic
  | s :: t => Ok (foldl IntersectionSet s t)
  end.

Fixpoint CutByFixedSize_ranges (size : Z) (alignZero : bool) (l : list Range)
    : Outcome (list Range) :=
  match l with
  | [] => Ok []
  | r :: t =>
      let base := if negb alignZero then Start r else 0 in
      let! x := Range_CutByFixedSize r base size 0 in
      let! y := CutByFixedSize_ranges size alignZero t in
      Ok (x ++ y)
  end.

Definition RangeSet_CutByFixedSize (rs : RangeSet) (size : Z) (alignZero : bool)
    : Outcome (list Range) :=
  match REnd (rng rs) with
  | None => Panic
  | Some _ => CutByFixedSize_ranges size alignZero (GetRanges rs)
  end.

(** ** Chains of separated ranges *)

(** Non-empty ranges in ascending order, the first after [lb] and each starting
    at least two past the end of the one before. *)
Fixpoint chain (lb : Z) (l : list Range) : Prop :=
  match l with
  | [] => True
  | r :: t =>
      lb < Start r /\ below_end (Start r) (REnd r) /\
      match REnd r with Some e => chain (e + 1) t | None => t = [] end
  end.

(** [n] belongs to one of the ranges. *)
Definition in_ranges (l : list Range) (n : Z) : Prop := Exists (fun r => in_range r n) l.

Lemma chain_weaken lb lb' l : chain lb l -> lb' <= lb -> chain lb' l.
Proof. destruct l; simpl; [done|]. intros (? & ? & ?) ?. split; [lia|done]. Qed.

Lemma chain_lb lb l n : chain lb l -> in_ranges l n -> lb < n.
Proof.
  intros Hc Hn. revert lb Hc. induction Hn as [r t Hr|r t Ht IH]; simpl; intros lb (H1 & H2 & H3).
  - unfold in_range in Hr. lia.
  - destruct (REnd r) as [e|]; simpl in *; [|subst; by apply Exists_nil in Ht].
    apply IH in H3. lia.
Qed.

Lemma GetRanges_loop_chain s hs e :
  0 <= s -> holes_ok s hs e -> chain (s - 1) (GetRanges_loop s hs e) /\
  forall n, in_ranges (GetRanges_loop s hs e) n <-> in_seg s hs e n.
Proof.
  revert s. induction hs as [|h t IH]; simpl; intros s Hs Hok.
  - split; [destruct e; simpl in *; repeat split; auto; lia|]. intros n. unfold in_ranges, in_seg, in_range.
    rewrite Exists_cons, Exists_nil, Forall_nil. simpl. tauto.
  - destruct Hok as (H1 & H2 & H3). rewrite sub64_small, add64_small by u64lia.
    destruct (IH (h.2 + 1)) as [IH1 IH2]; [lia|done|]. split.
    + split; [lia|]. split; [lia|]. eapply chain_weaken; [exact IH1|lia].
    + intros n. unfold in_ranges in *. rewrite Exists_cons, IH2. unfold in_range, in_seg; simpl.
      rewrite Forall_cons. unfold outside at 2.
      assert (n < h.1 -> Forall (outside n) t) by (intros; eapply outside_left; eauto; lia).
      apply holes_ok_below in H3.
      assert (n < h.1 -> below_end n e) by (destruct e; simpl in *; lia).
      destruct (Z_lt_le_dec n h.1), (Z_lt_le_dec h.2 n); intuition lia.
Qed.

(** [GetRanges] lists the maximal ranges of the set. *)
Lemma GetRanges_chain rs :
  wf_set rs -> chain (-1) (GetRanges rs) /\ forall n, in_ranges (GetRanges rs) n <-> in_set rs n.
Proof.
  intros [[Hw1 Hw2] Hh]. unfold GetRanges. destruct (IsEmpty (rng rs)) eqn:E.
  - split; [done|]. intros n. pose proof (wf_set_empty rs n E). unfold in_ranges.
    rewrite Exists_nil. tauto.
  - destruct (GetRanges_loop_chain _ _ _ ltac:(destruct Hw1; done) Hh) as [G1 G2].
    split; [eapply chain_weaken; [exact G1|u64lia]|]. intros n. rewrite G2. by rewrite in_set_seg.
Qed.

Lemma GetRanges_loop_wf s hs e :
  u64 s -> from_option u64 True e -> holes_ok s hs e ->
  Forall wf_range (GetRanges_loop s hs e).
Proof.
  revert s. induction hs as [|h t IH]; simpl; intros s Hs He Hok.
  - constructor; [by split|constructor].
  - destruct Hok as (H1 & H2 & H3). rewrite sub64_small, add64_small by u64lia.
    constructor; [split; simpl; u64lia|]. apply IH; auto. u64lia.
Qed.

Lemma GetRanges_wf rs : wf_set rs -> Forall wf_range (GetRanges rs).
Proof.
  intros [[Hw1 Hw2] Hh]. unfold GetRanges. destruct (IsEmpty (rng rs)); [constructor|].
  by apply GetRanges_loop_wf.
Qed.

Lemma chain_cons_head lb r t :
  chain lb (r :: t) -> forall r', r' ∈ t -> exists e, REnd r = Some e /\ e + 1 < Start r'.
Proof.
  simpl. intros (H1 & H2 & H3) r' Hr'.
  destruct (REnd r) as [e|]; [|subst; by apply not_elem_of_nil in Hr'].
  exists e. split; [done|]. apply list_elem_of_split in Hr' as (l1 & l2 & ->).
  clear H1 H2. revert e H3. induction l1 as [|x l1 IH]; simpl; intros e (H1 & H2 & H3); [done|].
  destruct (REnd x) as [ex|]; simpl in *; [|by destruct l1].
  apply IH in H3. lia.
Qed.

(** The set built from a non-empty chain has the numbers of the chain. *)
Lemma of_ranges_loop lb r t :
  chain lb (r :: t) -> Forall wf_range (r :: t) ->
  holes_ok (Start r) (holes_between (r :: t)) (last_end r t) /\
  from_option u64 True (last_end r t) /\
  forall n, in_seg (Start r) (holes_between (r :: t)) (last_end r t) n <-> in_ranges (r :: t) n.
Proof.
  revert lb r. induction t as [|q t IH]; intros lb r Hc Hw.
  { simpl in *. apply Forall_cons in Hw as [[_ Hw] _]. split; [tauto|]. split; [done|].
    intros n. unfold in_seg, in_ranges, in_range. rewrite Exists_cons, Exists_nil, Forall_nil. tauto. }
  destruct (chain_cons_head lb r (q :: t) Hc q) as (e & He & Hq); [by left|].
  apply Forall_cons in Hw as [[Hw1 Hw2] Hw]. pose proof Hw as [[Hq1 Hq2] _]%Forall_cons.
  simpl in Hc. rewrite He in *. destruct Hc as (H1 & H2 & H3).
  destruct (IH (e + 1) q) as (G1 & Gu & G2); [done|done|].
  change (holes_between (r :: q :: t))
    with ((deref (REnd r) +! 1, Start q -! 1) :: holes_between (q :: t)).
  cbn [last_end]. rewrite He. simpl deref. rewrite add64_small, sub64_small by (simpl in *; u64lia).
  simpl in Hw2, H2. split; [|split; [done|]].
  - cbn [holes_ok fst snd]. replace (Start q - 1 + 1) with (Start q) by lia.
    repeat split; try u64lia. exact G1.
  - intros n. unfold in_ranges in *. rewrite Exists_cons, <- G2. unfold in_seg, in_range.
    rewrite He, Forall_cons, outside_pair. simpl below_end at 2.
    assert (n < Start q -> Forall (outside n) (holes_between (q :: t)))
      by (intros; eapply outside_left; eauto; lia).
    apply holes_ok_below in G1.
    assert (n < Start q -> below_end n (last_end q t))
      by (intros; destruct (last_end q t); simpl in *; lia).
    destruct (Z_lt_le_dec n (Start q)), (Z_lt_le_dec e n); intuition lia.
Qed.

Lemma of_ranges_correct lb l :
  chain lb l -> Forall wf_range l ->
  wf_set (of_ranges l) /\ forall n, in_set (of_ranges l) n <-> in_ranges l n.
Proof.
  intros Hc Hw. destruct l as [|r t].
  { split; [apply wf_EmptyRangeSet|]. intros n. pose proof (in_set_EmptyRangeSet n).
    unfold in_ranges. rewrite Exists_nil. tauto. }
  destruct (of_ranges_loop lb r t Hc Hw) as (G1 & Gu & G2). unfold of_ranges. split.
  - apply wf_set_intro; auto; [apply Forall_cons in Hw; apply Hw|by apply holes_ok_below in G1].
  - intros n. rewrite in_set_seg. apply G2.
Qed.

(** A set is rebuilt from its ranges. *)
Lemma of_ranges_GetRanges_loop s hs e :
  u64 s -> holes_ok s hs e ->
  exists r t, GetRanges_loop s hs e = r :: t /\ Start r = s /\ last_end r t = e /\
              holes_between (r :: t) = hs.
Proof.
  revert s. induction hs as [|[lo hi] h IH]; intros s Hs Hok; [by eexists _, []|].
  destruct Hok as (H1 & H2 & H3). simpl in *. rewrite (sub64_small lo), add64_small by u64lia.
  destruct (IH (hi + 1)) as (r & t & -> & Hr & He & Hb); [u64lia|done|].
  eexists _, _. split; [reflexivity|]. split; [done|]. split; [done|].
  cbn [holes_between]. f_equal; [|done]. rewrite Hr. simpl. f_equal; u64norm; lia.
Qed.

Lemma of_ranges_GetRanges rs :
  wf_set rs -> IsEmpty (rng rs) = false -> of_ranges (GetRanges rs) = rs.
Proof.
  intros [[Hw1 Hw2] Hh] E. rewrite E in Hh. unfold GetRanges. rewrite E.
  destruct (of_ranges_GetRanges_loop _ _ _ Hw1 Hh) as (r & t & -> & Hs & He & Hb).
  unfold of_ranges. rewrite Hs, He, Hb. by destruct rs as [[? ?] ?].
Qed.

(** ** Sorting *)

(** The order that [range_less] tests, as the relation the sorted list satisfies. *)
Definition rle (a b : Range) : Prop :=
  Start a < Start b \/ (Start a = Start b /\ LessEqualNilAsInf (REnd b) (REnd a) = true).

Lemma range_less_false a b : range_less a b = false <-> rle b a.
Proof.
  unfold range_less, rle, GreaterNilAsInf. rewrite <- (negb_false_iff (LessEqualNilAsInf _ _)).
  repeat bcase; simpl; intuition (try lia; try congruence).
Qed.

Lemma range_less_rle a b : range_less a b = true -> rle a b.
Proof.
  unfold range_less, rle, GreaterNilAsInf. repeat bcase; simpl; intros Hl; try lia; try discriminate.
  right. split; [done|]. destruct (REnd a), (REnd b); simpl in *; breflect; try done.
  apply Z.leb_le. lia.
Qed.

#[export] Instance rle_antisymm : AntiSymm (=) rle.
Proof.
  intros [s [e|]] [s' [e'|]]; unfold rle; simpl; intros [?|[? ?]] [?|[? ?]]; breflect;
    try lia; try discriminate; f_equal; try f_equal; lia.
Qed.

Lemma rle_trans a b c : rle a b -> rle b c -> rle a c.
Proof.
  unfold rle. destruct a as [s [e|]], b as [s' [e'|]], c as [s'' [e''|]]; simpl;
    rewrite ?Z.leb_le; intuition lia.
Qed.

Lemma insert_range_perm r l : insert_range r l ≡ₚ r :: l.
Proof.
  induction l as [|x t IH]; simpl; [done|]. destruct (range_less r x); [done|].
  rewrite IH. by constructor.
Qed.

Lemma sort_ranges_perm l : sort_ranges l ≡ₚ l.
Proof. induction l as [|r l IH]; simpl; [done|]. by rewrite insert_range_perm, IH. Qed.

Lemma insert_range_sorted r l : StronglySorted rle l -> StronglySorted rle (insert_range r l).
Proof.
  induction 1 as [|x t Hs IH Hf]; simpl; [by repeat constructor|].
  destruct (range_less r x) eqn:E.
  - apply range_less_rle in E. constructor; [by constructor|]. constructor; [done|].
    eapply Forall_impl; [exact Hf|]. intros y Hy. by eapply rle_trans.
  - apply range_less_false in E. constructor; [done|]. rewrite insert_range_perm. by constructor.
Qed.

Lemma sort_ranges_sorted l : StronglySorted rle (sort_ranges l).
Proof. induction l as [|r l IH]; simpl; [constructor|]. by apply insert_range_sorted. Qed.

(** Sorting is determined by the comparison: whatever algorithm [sort.Slice]
    uses, a sorted rearrangement of the ranges is [sort_ranges] of them. *)
Lemma sort_ranges_unique l l' : l' ≡ₚ l -> StronglySorted rle l' -> l' = sort_ranges l.
Proof.
  intros Hp Hs. eapply (StronglySorted_unique rle); [done|apply sort_ranges_sorted|].
  by rewrite sort_ranges_perm.
Qed.

Lemma chain_sorted lb l : chain lb l -> StronglySorted rle l.
Proof.
  revert lb. induction l as [|r t IH]; intros lb Hc; constructor.
  - destruct Hc as (_ & _ & H). destruct (REnd r); [eauto|]. subst. constructor.
  - apply Forall_forall. intros r' Hr'. destruct (chain_cons_head _ _ _ Hc r' Hr') as (e & He & Hlt).
    destruct Hc as (_ & Hb & _). rewrite He in Hb. left. simpl in Hb. lia.
Qed.

(** ** [NewRangeSet] *)

(** No finite end is the largest [uint64]. *)
Definition no_max (l : list Range) : Prop := Forall (fun r => REnd r <> Some maxU64) l.

(** One step of the compaction: the next range starts no earlier than [cur] and
    is not included in it. *)
Lemma merge_step cur r :
  wf_range cur -> wf_range r -> IsEmpty cur = false -> Start cur <= Start r ->
  REnd cur <> Some maxU64 -> REnd r <> Some maxU64 -> Range_Include cur r = false ->
  exists e, REnd cur = Some e /\ below_end (Start r) (REnd r) /\
    LessNilAsInf (Some e) (REnd r) = true /\
    ((GetDistance cur r =? 0) = true -> Start r <= e + 1) /\
    ((GetDistance cur r =? 0) = false -> e + 1 < Start r).
Proof.
  intros Hc Hr Hne Hle Hm1 Hm2 Hinc. unfold Range_Include in Hinc. rewrite Hne in Hinc.
  destruct (IsEmpty r) eqn:Er; [discriminate|]. rewrite GetDistance_spec by done.
  apply IsEmpty_false in Er as [_ Er]. apply IsEmpty_false in Hne as [_ Hne].
  destruct (Z.leb_spec (Start cur) (Start r)); [simpl in Hinc|lia].
  destruct (REnd cur) as [e|]; [|by destruct (REnd r)].
  exists e. do 2 (split; [done|]). split.
  - destruct (REnd r); simpl in *; [breflect; apply Z.ltb_lt; lia|done].
  - split; intros H'; breflect; destruct (REnd r); simpl in *; breflect; lia.
Qed.

Lemma merge_loop_correct lb cur rest :
  lb < Start cur -> IsEmpty cur = false -> wf_range cur -> Forall wf_range rest ->
  Forall (fun r => Start cur <= Start r) rest ->
  StronglySorted rle rest -> no_max (cur :: rest) ->
  chain lb (merge_loop cur rest) /\ Forall wf_range (merge_loop cur rest) /\
  forall n, in_ranges (merge_loop cur rest) n <-> in_range cur n \/ in_ranges rest n.
Proof.
  revert lb cur. induction rest as [|r t IH]; intros lb cur Hlb Hne Hw Hwt Hst Hss Hm.
  { apply IsEmpty_false in Hne as [_ Hne]. simpl. split; [by destruct (REnd cur)|].
    split; [by constructor|]. intros n. unfold in_ranges. by rewrite Exists_cons. }
  simpl. apply Forall_cons in Hwt as [Hwr Hwt]. apply Forall_cons in Hst as [Hsr Hst].
  apply StronglySorted_inv in Hss as [Hss Hsr'].
  apply Forall_cons in Hm as [Hm1 [Hm2 Hm]%Forall_cons].
  assert (Hun : forall n, in_ranges (r :: t) n <-> in_range r n \/ in_ranges t n)
    by (intros n; unfold in_ranges; by rewrite Exists_cons).
  destruct (Range_Include cur r) eqn:Hinc.
  { destruct (IH lb cur) as (G1 & G2 & G3); auto; [by constructor|]. split; [done|]. split; [done|].
    intros n. rewrite G3, Hun. rewrite Range_Include_spec in Hinc. specialize (Hinc n). tauto. }
  destruct (merge_step cur r) as (e & He & Hb & Hlt & Hd0 & Hd1); auto.
  apply IsEmpty_false in Hne as [_ Hne]. rewrite He in Hne. simpl in Hne.
  destruct (GetDistance cur r =? 0).
  - specialize (Hd0 eq_refl). destruct Hw as [Hw1 _], Hwr as [_ Hwr2].
    destruct (IH lb (mkRange (Start cur) (REnd r))) as (G1 & G2 & G3); auto.
    + apply IsEmpty_mkRange. destruct (REnd r); simpl in *; [breflect; lia|done].
    + by split.
    + by constructor.
    + split; [done|]. split; [done|]. intros n. rewrite G3, Hun. unfold in_range. rewrite He.
      simpl. destruct (Z_lt_le_dec n (Start r)), (REnd r); simpl in *; breflect; intuition lia.
  - specialize (Hd1 eq_refl). destruct (IH (e + 1) r) as (G1 & G2 & G3); auto.
    + by apply IsEmpty_false.
    + eapply Forall_impl; [exact Hsr'|]. intros x [?|[? _]]; lia.
    + by constructor.
    + simpl. rewrite He. split; [done|]. split; [by constructor|].
      intros n. rewrite Hun, <- G3. unfold in_ranges. by rewrite Exists_cons.
Qed.

(** A list already separated is taken over as it is. *)
Lemma merge_loop_chain lb cur rest :
  chain lb (cur :: rest) -> Forall wf_range (cur :: rest) -> merge_loop cur rest = cur :: rest.
Proof.
  revert lb cur. induction rest as [|r t IH]; intros lb cur Hc Hw; [done|]. simpl.
  destruct (chain_cons_head _ _ _ Hc r) as (e & He & Hlt); [by left|].
  apply Forall_cons in Hw as [[Hc1 Hc2] Hw]. pose proof Hw as [[Hr1 Hr2] _]%Forall_cons.
  destruct Hc as (_ & Hb & Hct). rewrite He in *. simpl in Hb, Hc2.
  pose proof Hct as (_ & Hbr & _).
  assert (IsEmpty r = false) as Er by by (apply IsEmpty_false; split; [lia|]).
  assert (IsEmpty cur = false) as Ec by (apply IsEmpty_false; split; [lia|]; by rewrite He).
  assert (Range_Include cur r = false) as ->.
  { unfold Range_Include. rewrite Er, Ec, He. destruct (REnd r); simpl in *; [|apply andb_false_r].
    apply andb_false_iff. right. apply Z.leb_gt. lia. }
  assert ((GetDistance cur r =? 0) = false) as ->.
  { unfold GetDistance. rewrite Er, Ec, He. simpl. rewrite add64_small by u64lia.
    destruct (Z.ltb_spec (e + 1) (Start r)); [|lia]. u64norm. apply Z.eqb_neq. lia. }
  f_equal. by eapply IH.
Qed.

Lemma NewRangeSet_chain lb l :
  chain lb l -> Forall wf_range l -> NewRangeSet l = of_ranges l.
Proof.
  intros Hc Hw. destruct l as [|x [|y t]]; [done|by destruct x|].
  unfold NewRangeSet. rewrite <- (sort_ranges_unique (x :: y :: t) (x :: y :: t)); [|done|].
  - by erewrite merge_loop_chain.
  - by eapply chain_sorted.
Qed.

(** An empty range of a list given to [NewRangeSet] has to be [EmptyRange], which
    sorts behind every other range. *)
Definition canonical (r : Range) : Prop := IsEmpty r = false \/ r = EmptyRange.

Lemma rle_EmptyRange r : wf_range r -> canonical r -> rle EmptyRange r -> r = EmptyRange.
Proof.
  intros [Hw1 Hw2] [Hne|] Hle; [|done]. exfalso. apply IsEmpty_false in Hne as [_ Hne].
  unfold rle, EmptyRange in Hle. destruct r as [s [e|]]; simpl in *; rewrite ?Z.leb_le in Hle;
    [u64lia|]. destruct Hle as [?|[_ [=]]]. u64lia.
Qed.

Lemma merge_loop_empty rest : Forall (eq EmptyRange) rest -> merge_loop EmptyRange rest = [EmptyRange].
Proof. induction 1 as [|r t <- Ht IH]; [done|]. exact IH. Qed.

(** The core of [NewRangeSet], on the sorted list. *)
Lemma of_ranges_merge cur rest :
  Forall wf_range (cur :: rest) -> Forall canonical (cur :: rest) -> no_max (cur :: rest) ->
  StronglySorted rle (cur :: rest) ->
  wf_set (of_ranges (merge_loop cur rest)) /\
  forall n, in_set (of_ranges (merge_loop cur rest)) n <-> in_ranges (cur :: rest) n.
Proof.
  intros Hw Hcan Hm Hs. apply StronglySorted_inv in Hs as [Hs Hcr].
  apply Forall_cons in Hw as [Hwc Hw]. apply Forall_cons in Hcan as [[Hne| ->] Hcan].
  - pose proof Hwc as [Hc1 _].
    destruct (merge_loop_correct (-1) cur rest) as (G1 & G2 & G3);
      [u64lia|done|done|done| |done|done|].
    { eapply Forall_impl; [exact Hcr|]. intros x [?|[? _]]; lia. }
    destruct (of_ranges_correct _ _ G1 G2) as [K1 K2]. split; [done|].
    intros n. rewrite K2, G3. unfold in_ranges. by rewrite Exists_cons.
  - assert (Hall : Forall (eq EmptyRange) rest).
    { rewrite Forall_forall in *. intros r Hr. symmetry. apply rle_EmptyRange; auto. }
    rewrite merge_loop_empty by done. split; [apply wf_EmptyRangeSet|]. intros n.
    pose proof (in_set_EmptyRangeSet n) as Hn. split; [intros H; by destruct Hn|].
    unfold in_ranges. rewrite Exists_cons, Exists_exists. intros [H|(r & Hr & H)].
    + by apply not_in_EmptyRange in H.
    + rewrite Forall_forall in Hall. rewrite <- (Hall r Hr) in H. by apply not_in_EmptyRange in H.
Qed.

(** [NewRangeSet] turns a list of ranges, in any order and overlapping or not,
    into the set of their numbers. *)
Lemma NewRangeSet_correct l :
  Forall wf_range l -> Forall canonical l -> no_max l ->
  wf_set (NewRangeSet l) /\ forall n, in_set (NewRangeSet l) n <-> in_ranges l n.
Proof.
  intros Hw Hcan Hm. destruct l as [|x [|y t]].
  - apply (of_ranges_correct 0 []); [done|constructor].
  - assert (NewRangeSet [x] = of_ranges (merge_loop x [])) as -> by by destruct x.
    apply of_ranges_merge; auto. by repeat constructor.
  - unfold NewRangeSet. generalize dependent (x :: y :: t). clear. intros l Hw Hcan Hm.
    pose proof (sort_ranges_perm l) as Hp. pose proof (sort_ranges_sorted l) as Hs.
    assert (Hin : forall n, in_ranges (sort_ranges l) n <-> in_ranges l n)
      by (intros n; unfold in_ranges; by rewrite Hp).
    unfold no_max in Hm. rewrite <- Hp in Hw, Hcan, Hm.
    setoid_rewrite <- Hin. destruct (sort_ranges l) as [|cur rest].
    + apply (of_ranges_correct 0 []); [done|constructor].
    + by apply of_ranges_merge.
Qed.

(** With an end at the largest [uint64], [GetDistance] wraps and two ranges that
    overlap are kept apart: the hole between them covers numbers of both. *)
Lemma NewRangeSet_max_wraps :
  NewRangeSet [mkRange 0 (Some maxU64); mkRange 5 None]
  = mkRangeSet (mkRange 0 None) [(0, 4)].
Proof. reflexivity. Qed.

(** An empty range other than [EmptyRange] at the front is extended by the next
    one instead of being dropped: 5 and 6 belong to neither range. *)
Lemma NewRangeSet_empty_front :
  NewRangeSet [mkRange 5 (Some 3); mkRange 7 (Some 9)] = mkRangeSet (mkRange 5 (Some 9)) [].
Proof. reflexivity. Qed.

(** ** [IntersectionSet] *)

Lemma IntersectionSet_loop_nil_r l : IntersectionSet_loop l [] = [].
Proof. by destruct l. Qed.

Lemma IntersectionSet_loop_cons x t1 y t2 :
  IntersectionSet_loop (x :: t1) (y :: t2) =
  (if IsEmpty (Range_Intersection x y) then [] else [Range_Intersection x y]) ++
  (if LessNilAsInf (REnd x) (REnd y) then IntersectionSet_loop t1 (y :: t2)
   else if LessNilAsInf (REnd y) (REnd x) then IntersectionSet_loop (x :: t1) t2
   else IntersectionSet_loop t1 t2).
Proof. reflexivity. Qed.

(** What the loop continues with keeps clear of the piece just produced. *)
Lemma IntersectionSet_loop_chain lb1 lb2 l1 l2 :
  chain lb1 l1 -> chain lb2 l2 -> chain (Z.max lb1 lb2) (IntersectionSet_loop l1 l2).
Proof.
  revert lb1 lb2 l2. induction l1 as [|x t1 IH1]; intros lb1 lb2 l2 H1; [by destruct l2|].
  revert lb2. induction l2 as [|y t2 IH2]; intros lb2 H2; [done|].
  rewrite IntersectionSet_loop_cons.
  pose proof H1 as (X1 & X2 & X3). pose proof H2 as (Y1 & Y2 & Y3).
  set (rest := if LessNilAsInf (REnd x) (REnd y) then _ else _).
  assert (Hrest : match MinNilAsInf [REnd x; REnd y] with
                  | Some e => chain (Z.max (e + 1) (Z.max lb1 lb2)) rest | None => rest = [] end).
  { subst rest. destruct (REnd x) as [ex|] eqn:Ex, (REnd y) as [ey|] eqn:Ey; simpl in *;
      [repeat bcase| | |subst; apply IntersectionSet_loop_nil_r];
      (eapply chain_weaken; [first [by apply (IH1 (ex + 1) (ey + 1)) | apply (IH1 (ex + 1) lb2)
         | by apply (IH2 (ey + 1))]; simpl; by rewrite ?Ey|lia]). }
  assert (Hend : REnd (Range_Intersection x y) = MinNilAsInf [REnd x; REnd y] \/
                 IsEmpty (Range_Intersection x y) = true).
  { unfold Range_Intersection. destruct (IsEmpty y || IsEmpty x); [by right|by left]. }
  destruct (IsEmpty (Range_Intersection x y)) eqn:Ei; simpl.
  - destruct (MinNilAsInf _); [eapply chain_weaken; [exact Hrest|lia]|by rewrite Hrest].
  - destruct Hend as [Hend|[=]]. apply IsEmpty_false in Ei. rewrite Hend.
    pose proof (Range_Intersection_spec x y (Start (Range_Intersection x y))) as Hi.
    apply Hi in Ei as Hi'. destruct Hi' as [Hx Hy]. destruct Ei as [_ Hb]. rewrite Hend in Hb.
    split; [unfold in_range in *; lia|]. split; [done|].
    destruct (MinNilAsInf _); [eapply chain_weaken; [exact Hrest|lia]|done].
Qed.

Lemma IntersectionSet_loop_member lb1 lb2 l1 l2 n :
  chain lb1 l1 -> chain lb2 l2 ->
  in_ranges (IntersectionSet_loop l1 l2) n <-> in_ranges l1 n /\ in_ranges l2 n.
Proof.
  revert lb1 lb2 l2. unfold in_ranges.
  induction l1 as [|x t1 IH1]; intros lb1 lb2 l2 H1.
  { destruct l2; simpl; rewrite ?Exists_nil; tauto. }
  revert lb2. induction l2 as [|y t2 IH2]; intros lb2 H2; [simpl; rewrite ?Exists_nil; tauto|].
  rewrite IntersectionSet_loop_cons, Exists_app.
  assert (Hh : Exists (fun r => in_range r n)
                 (if IsEmpty (Range_Intersection x y) then [] else [Range_Intersection x y])
               <-> in_range x n /\ in_range y n).
  { rewrite <- Range_Intersection_spec. destruct (IsEmpty _) eqn:E.
    - apply IsEmpty_true with (n := n) in E. rewrite Exists_nil. tauto.
    - rewrite Exists_cons, Exists_nil. tauto. }
  rewrite Hh. clear Hh. pose proof H1 as (X1 & X2 & X3). pose proof H2 as (Y1 & Y2 & Y3).
  assert (HX : forall ex, REnd x = Some ex -> chain (ex + 1) t1) by (intros ex E; by rewrite E in X3).
  assert (HY : forall ey, REnd y = Some ey -> chain (ey + 1) t2) by (intros ey E; by rewrite E in Y3).
  assert (BX : forall ex, REnd x = Some ex -> Exists (fun r => in_range r n) t1 -> ex + 1 < n)
    by (intros ex E Hn; eapply chain_lb; [apply HX, E|exact Hn]).
  assert (BY : forall ey, REnd y = Some ey -> Exists (fun r => in_range r n) t2 -> ey + 1 < n)
    by (intros ey E Hn; eapply chain_lb; [apply HY, E|exact Hn]).
  assert (EX : forall ex, REnd x = Some ex -> in_range x n -> n <= ex)
    by (intros ex E [_ Hn]; by rewrite E in Hn).
  assert (EY : forall ey, REnd y = Some ey -> in_range y n -> n <= ey)
    by (intros ey E [_ Hn]; by rewrite E in Hn).
  rewrite !Exists_cons.
  destruct (REnd x) as [ex|] eqn:Ex, (REnd y) as [ey|] eqn:Ey; simpl in *;
    try specialize (HX _ eq_refl); try specialize (HY _ eq_refl);
    try specialize (BX _ eq_refl); try specialize (BY _ eq_refl);
    try specialize (EX _ eq_refl); try specialize (EY _ eq_refl).
  - repeat bcase; [rewrite (IH1 (ex + 1) lb2) by (auto; simpl; by rewrite Ey)
                  |rewrite (IH2 (ey + 1)) by done
                  |rewrite (IH1 (ex + 1) (ey + 1)) by done];
      rewrite ?Exists_cons; intuition lia.
  - rewrite (IH1 (ex + 1) lb2) by (auto; simpl; by rewrite Ey). subst.
    rewrite Exists_cons, Exists_nil. tauto.
  - rewrite (IH2 (ey + 1)) by done. rewrite Exists_cons. subst. rewrite !Exists_nil. tauto.
  - subst. rewrite IntersectionSet_loop_nil_r, !Exists_nil. tauto.
Qed.

Lemma IntersectionSet_loop_wf l1 l2 :
  Forall wf_range l1 -> Forall wf_range l2 -> Forall wf_range (IntersectionSet_loop l1 l2).
Proof.
  intros H1. revert l2. induction H1 as [|x t1 Hx H1 IH1]; intros l2 H2; [by destruct l2|].
  induction H2 as [|y t2 Hy H2 IH2]; [done|]. rewrite IntersectionSet_loop_cons.
  apply Forall_app. split.
  - destruct (IsEmpty _); repeat constructor; by apply wf_Range_Intersection.
  - repeat case_match; auto.
Qed.

(** [IntersectionSet] keeps the invariant and computes the intersection. *)
Lemma IntersectionSet_correct rs a :
  wf_set rs -> wf_set a ->
  wf_set (IntersectionSet rs a) /\
  forall n, in_set (IntersectionSet rs a) n <-> in_set rs n /\ in_set a n.
Proof.
  intros Hr Ha. unfold IntersectionSet.
  destruct (IsEmpty (rng rs)) eqn:Er; [|destruct (IsEmpty (rng a)) eqn:Ea]; simpl;
    try (split; [apply wf_EmptyRangeSet|]; intros n; pose proof (in_set_EmptyRangeSet n);
         try pose proof (wf_set_empty rs n Er); try pose proof (wf_set_empty a n Ea); tauto).
  destruct (GetRanges_chain rs Hr) as [Cr Mr], (GetRanges_chain a Ha) as [Ca Ma].
  pose proof (IntersectionSet_loop_chain _ _ _ _ Cr Ca) as Hc.
  pose proof (IntersectionSet_loop_wf _ _ (GetRanges_wf rs Hr) (GetRanges_wf a Ha)) as Hw.
  rewrite (NewRangeSet_chain _ _ Hc Hw). destruct (of_ranges_correct _ _ Hc Hw) as [G1 G2].
  split; [done|]. intros n. rewrite G2, <- Mr, <- Ma. by eapply IntersectionSet_loop_member.
Qed.

(** ** [UnionSet] and [RemoveSet] *)

Lemma foldl_Union_correct l rs :
  wf_set rs -> Forall wf_range l ->
  wf_set (foldl RangeSet_Union rs l) /\
  forall n, in_set (foldl RangeSet_Union rs l) n <-> in_set rs n \/ in_ranges l n.
Proof.
  intros Hr Hl. revert rs Hr. induction Hl as [|r t Hw Ht IH]; simpl; intros rs Hr.
  { split; [done|]. intros n. unfold in_ranges. rewrite Exists_nil. tauto. }
  destruct (RangeSet_Union_correct rs r Hr Hw) as [U1 U2].
  destruct (IH _ U1) as [G1 G2]. split; [done|]. intros n. rewrite G2, U2.
  unfold in_ranges. rewrite Exists_cons. tauto.
Qed.

Lemma foldl_Remove_correct l rs :
  wf_set rs -> Forall wf_range l -> no_max l ->
  wf_set (foldl RangeSet_Remove rs l) /\
  forall n, in_set (foldl RangeSet_Remove rs l) n <-> in_set rs n /\ ~ in_ranges l n.
Proof.
  intros Hr Hl Hm. revert rs Hr. induction Hl as [|r t Hw Ht IH]; simpl; intros rs Hr.
  { split; [done|]. intros n. unfold in_ranges. rewrite Exists_nil. tauto. }
  apply Forall_cons in Hm as [Hm1 Hm2].
  destruct (RangeSet_Remove_correct rs r Hr Hw) as [U1 U2]; [done|].
  destruct (IH Hm2 _ U1) as [G1 G2]. split; [done|]. intros n. rewrite G2, U2.
  unfold in_ranges. rewrite Exists_cons. tauto.
Qed.

Lemma UnionSet_correct rs a :
  wf_set rs -> wf_set a ->
  wf_set (UnionSet rs a) /\ forall n, in_set (UnionSet rs a) n <-> in_set rs n \/ in_set a n.
Proof.
  intros Hr Ha. destruct (foldl_Union_correct (GetRanges a) rs Hr (GetRanges_wf a Ha)) as [G1 G2].
  split; [done|]. intros n. unfold UnionSet. rewrite G2. by rewrite (proj2 (GetRanges_chain a Ha)).
Qed.

Lemma GetRanges_loop_no_max s hs e :
  holes_ok s hs e -> 0 <= s -> e <> Some maxU64 -> no_max (GetRanges_loop s hs e).
Proof.
  revert s. induction hs as [|h t IH]; simpl; intros s Hok Hs He; [by repeat constructor|].
  destruct Hok as (H1 & H2 & H3). constructor; simpl.
  - rewrite sub64_small by u64lia. intros [= ?]. u64lia.
  - rewrite add64_small by u64lia. apply IH; auto. lia.
Qed.

Lemma GetRanges_no_max rs :
  wf_set rs -> REnd (rng rs) <> Some maxU64 -> no_max (GetRanges rs).
Proof.
  intros [[Hw _] Hh] He. unfold GetRanges. destruct (IsEmpty (rng rs)); [constructor|].
  apply GetRanges_loop_no_max; auto. u64lia.
Qed.

Lemma RemoveSet_correct rs a :
  wf_set rs -> wf_set a -> REnd (rng a) <> Some maxU64 ->
  wf_set (RemoveSet rs a) /\ forall n, in_set (RemoveSet rs a) n <-> in_set rs n /\ ~ in_set a n.
Proof.
  intros Hr Ha Hm.
  destruct (foldl_Remove_correct (GetRanges a) rs Hr (GetRanges_wf a Ha) (GetRanges_no_max a Ha Hm))
    as [G1 G2].
  split; [done|]. intros n. unfold RemoveSet. rewrite G2. by rewrite (proj2 (GetRanges_chain a Ha)).
Qed.

(** ** [First], [Last] and [FindContains] *)

Lemma GetRanges_loop_last s hs e :
  last (GetRanges_loop s hs e)
  = Some (match last hs with None => mkRange s e | Some h => mkRange (h.2 +! 1) e end).
Proof.
  revert s. induction hs as [|h t IH]; intros s; [done|]. cbn [GetRanges_loop].
  rewrite last_cons, IH. rewrite last_cons. by destruct (last t).
Qed.

Lemma Last_GetRanges rs : IsEmpty (rng rs) = false -> last (GetRanges rs) = Some (Last rs).
Proof.
  intros E. unfold GetRanges, Last. rewrite E, GetRanges_loop_last.
  destruct (last (Holes rs)); [done|]. by destruct (rng rs).
Qed.

Lemma First_GetRanges rs : IsEmpty (rng rs) = false -> head (GetRanges rs) = Some (First rs).
Proof.
  intros E. unfold GetRanges, First. rewrite E. destruct (Holes rs); simpl; [|done].
  by destruct (rng rs).
Qed.

(** The ranges of a chain are not adjacent, so a range covered by the chain lies
    in one of them. *)
Lemma chain_cover lb l r :
  chain lb l -> IsEmpty r = false -> (forall n, in_range r n -> in_ranges l n) ->
  exists item, item ∈ l /\ Range_Include item r = true.
Proof.
  intros Hc Hne Hcov. apply IsEmpty_false in Hne. revert lb Hc.
  induction l as [|x t IH]; intros lb Hc.
  { apply Hcov in Hne. by apply Exists_nil in Hne. }
  destruct (Range_Include x r) eqn:Ei; [exists x; split; [left|done]|].
  pose proof Hc as (_ & _ & Hct). destruct (REnd x) as [ex|] eqn:Ex.
  - assert (Hbeyond : forall n, in_ranges t n -> ex + 1 < n) by (intros n; by apply chain_lb).
    assert (Hsplit : forall n, in_range r n -> in_range x n \/ in_ranges t n).
    { intros n Hn. apply Hcov in Hn. unfold in_ranges in *. by apply Exists_cons in Hn. }
    destruct (Hsplit _ Hne) as [Hx|Hx].
    + exfalso. assert (Hr : in_range r (ex + 1)).
      { unfold in_range in *. rewrite Ex in Hx. simpl in Hx. split; [lia|].
        destruct (REnd r) as [er|] eqn:Er; simpl; [|done].
        destruct (Z_lt_le_dec er (ex + 1)); [|done]. exfalso.
        assert (Range_Include x r = true); [|congruence].
        apply Range_Include_spec. intros n. unfold in_range. rewrite Ex, Er. simpl. lia. }
      destruct (Hsplit _ Hr) as [Hx'|Hx']; [|apply Hbeyond in Hx'; lia].
      unfold in_range in Hx'. rewrite Ex in Hx'. simpl in Hx'. lia.
    + destruct (IH) with (lb := ex + 1) as (item & Hi & Hinc); [|done|].
      * intros n Hn. destruct (Hsplit n Hn) as [Hxn|]; [|done]. exfalso.
        apply Hbeyond in Hx. unfold in_range in Hn, Hxn. rewrite Ex in Hxn. simpl in Hxn. lia.
      * exists item. split; [by right|done].
  - exfalso. subst t. assert (Range_Include x r = true); [|congruence].
    apply Range_Include_spec. intros n Hn. apply Hcov in Hn. unfold in_ranges in Hn.
    rewrite Exists_cons, Exists_nil in Hn. tauto.
Qed.

Lemma FindContains_loop_spec lb l r e :
  chain lb l -> IsEmpty r = false -> REnd r = Some e ->
  let '(item, found) := FindContains_loop r l in
  if found then item ∈ l /\ Range_Include item r = true
  else forall item, item ∈ l -> Range_Include item r = false.
Proof.
  intros Hc Hne He. revert lb Hc. induction l as [|x t IH]; simpl; intros lb Hc.
  { intros item Hi. by apply not_elem_of_nil in Hi. }
  destruct (Range_Include x r) eqn:Ei; [split; [left|done]|].
  pose proof Hc as (_ & _ & Hct).
  destruct (Z.ltb_spec (deref (REnd r)) (Start x)) as [Hlt|Hlt].
  - rewrite He in Hlt. simpl in Hlt. intros item Hi. apply elem_of_cons in Hi as [->|Hi]; [done|].
    destruct (chain_cons_head lb x t Hc item Hi) as (ex & Hex & Hs).
    destruct (Range_Include item r) eqn:E; [|done]. exfalso.
    apply IsEmpty_false in Hne. rewrite Range_Include_spec in E. pose proof (E _ Hne) as [H1 _].
    destruct Hne as [_ Hne]. rewrite He in Hne. destruct Hc as (_ & Hb & _). rewrite Hex in Hb.
    simpl in *. lia.
  - destruct (REnd x) as [ex|]; [|subst; simpl; intros item Hi; by apply list_elem_of_singleton in Hi as ->].
    specialize (IH _ Hct). destruct (FindContains_loop r t) as [item [|]].
    + destruct IH as [? ?]. split; [by right|done].
    + intros i Hi. apply elem_of_cons in Hi as [->|Hi]; auto.
Qed.

(** Only the last range of a chain has no end. *)
Lemma chain_None_last lb l i :
  chain lb l -> i ∈ l -> REnd i = None -> last l = Some i.
Proof.
  intros Hc Hi Hn. revert lb Hc. induction Hi as [i t|i x t Hi IH]; intros lb Hc.
  - destruct Hc as (_ & _ & Hc). rewrite Hn in Hc. by subst.
  - destruct (chain_cons_head lb x t Hc i Hi) as (e & He & _). destruct Hc as (_ & _ & Hc).
    rewrite He in Hc. rewrite last_cons, (IH Hn _ Hc). done.
Qed.

Lemma Range_Include_None i r :
  IsEmpty r = false -> REnd r = None -> Range_Include i r = true -> REnd i = None.
Proof.
  intros Hne Hr H. unfold Range_Include in H. rewrite Hne, Hr in H.
  destruct (IsEmpty i); [done|]. apply andb_true_iff in H as [_ H]. by destruct (REnd i).
Qed.

(** [FindContains] finds the maximal range that holds [r] exactly when the set
    holds [r]. *)
Lemma FindContains_correct rs r :
  wf_set rs -> IsEmpty r = false ->
  (FindContains rs r).2 = RangeSet_Include rs r /\
  ((FindContains rs r).2 = true ->
   (FindContains rs r).1 ∈ GetRanges rs /\ Range_Include (FindContains rs r).1 r = true).
Proof.
  intros Hwf Hne. destruct (GetRanges_chain rs Hwf) as [Hc Hm].
  assert (Hinc : forall b, (b = true <-> exists item, item ∈ GetRanges rs /\ Range_Include item r = true)
                 -> b = RangeSet_Include rs r).
  { intros b Hb. apply eq_true_iff_eq. rewrite Hb, RangeSet_Include_iff. split.
    - intros (item & Hi & Hincl) n Hn. apply Hm, Exists_exists. exists item.
      split; [done|]. rewrite Range_Include_spec in Hincl. auto.
    - intros H. eapply chain_cover; eauto. intros n Hn. by apply Hm, H. }
  unfold FindContains. destruct (REnd r) as [e|] eqn:Er.
  - pose proof (FindContains_loop_spec (-1) _ r e Hc Hne Er) as Hf.
    destruct (FindContains_loop r (GetRanges rs)) as [item [|]]; simpl in *.
    + split; [apply Hinc; split; eauto|done].
    + split; [apply Hinc; split; [done|]|done]. intros (i & Hi & E). by rewrite (Hf i Hi) in E.
  - destruct (REnd (rng rs)) as [er|] eqn:Ers; simpl.
    + split; [|done]. apply Hinc. split; [done|]. intros (i & Hi & E). exfalso.
      rewrite Range_Include_spec in E. apply IsEmpty_false in Hne as [_ _].
      assert (in_set rs (Z.max er (Start r) + 1)) as [[_ H] _]; [|rewrite Ers in H; simpl in H; lia].
      apply Hm, Exists_exists. exists i. split; [done|]. apply E. unfold in_range. rewrite Er. simpl. lia.
    + assert (Hemp : IsEmpty (rng rs) = false) by (unfold IsEmpty; by rewrite Ers).
      pose proof (Last_GetRanges rs Hemp) as Hl.
      assert (Hlast : forall i, i ∈ GetRanges rs -> Range_Include i r = true -> i = Last rs).
      { intros i Hi E. apply Range_Include_None in E; [|done|done].
        apply (chain_None_last _ _ _ Hc Hi) in E. congruence. }
      destruct (Range_Include (Last rs) r) eqn:E; simpl.
      * apply last_Some_elem_of in Hl. split; [apply Hinc; split; eauto|done].
      * split; [apply Hinc; split; [done|]|done]. intros (i & Hi & Ei).
        rewrite (Hlast i Hi Ei) in Ei. congruence.
Qed.

(** ** [Equal] *)

(** Of two sets with the same numbers, the first hole of one does not start
    before that of the other... *)
Lemma holes_first_le s h t hs' e :
  holes_ok s (h :: t) e -> holes_ok s hs' e ->
  (forall n, in_seg s (h :: t) e n <-> in_seg s hs' e n) ->
  match hs' with [] => False | h' :: _ => h'.1 <= h.1 end.
Proof.
  intros (H1 & H2 & H3) H' Heq.
  apply holes_ok_below in H3. assert (Hb : below_end h.1 e) by (destruct e; simpl in *; lia).
  destruct (Heq h.1) as [_ Hn]. unfold in_seg in Hn. rewrite Forall_cons in Hn.
  unfold outside in Hn at 2. destruct hs' as [|h' t'].
  - destruct Hn as (_ & _ & [?|?] & _); [|lia..]. split; [lia|]. by split; [|constructor].
  - destruct (Z_lt_le_dec h.1 h'.1); [|done]. destruct H' as (? & ? & H').
    destruct Hn as (_ & _ & [?|?] & _); [|lia..]. split; [lia|]. split; [done|].
    eapply outside_before; eauto. lia.
Qed.

(** ... nor does it end before it. *)
Lemma holes_first_end_le s h t h' t' e :
  holes_ok s (h :: t) e -> holes_ok s (h' :: t') e -> h.1 = h'.1 ->
  (forall n, in_seg s (h :: t) e n <-> in_seg s (h' :: t') e n) -> h'.2 <= h.2.
Proof.
  intros (H1 & H2 & H3) (H1' & H2' & H3') Hfst Heq.
  pose proof (holes_ok_below _ _ _ H3) as Hb.
  destruct (Heq (h.2 + 1)) as [Hn _]. unfold in_seg in Hn. rewrite !Forall_cons in Hn.
  unfold outside in Hn at 1 3. destruct Hn as (_ & _ & [?|?] & _); [|lia|lia].
  split; [lia|]. split; [done|]. split; [lia|]. eapply outside_left; eauto. lia.
Qed.

(** The holes of a set are determined by its numbers. *)
Lemma holes_unique s hs hs' e :
  holes_ok s hs e -> holes_ok s hs' e ->
  (forall n, in_seg s hs e n <-> in_seg s hs' e n) -> hs = hs'.
Proof.
  revert s hs'. induction hs as [|h t IH]; intros s hs' H H' Heq.
  { destruct hs' as [|h' t']; [done|]. exfalso. eapply (holes_first_le s h' t' [] e); eauto.
    intros n. symmetry. apply Heq. }
  assert (Heq' : forall n, in_seg s hs' e n <-> in_seg s (h :: t) e n) by (intros; symmetry; auto).
  pose proof (holes_first_le s h t hs' e H H' Heq) as F1. destruct hs' as [|h' t']; [done|].
  pose proof (holes_first_le s h' t' (h :: t) e H' H Heq') as F2. simpl in F2.
  assert (E1 : h.1 = h'.1) by lia.
  pose proof (holes_first_end_le s h t h' t' e H H' E1 Heq) as S1.
  pose proof (holes_first_end_le s h' t' h t e H' H (eq_sym E1) Heq') as S2.
  assert (h = h') as <- by (destruct h, h'; simpl in *; f_equal; lia). f_equal.
  destruct H as (H1 & H2 & H3), H' as (_ & _ & H3').
  apply (IH (h.2 + 1)); auto. intros n. specialize (Heq n). unfold in_seg in *.
  rewrite !Forall_cons in Heq. unfold outside in Heq at 1 3.
  split; intros (? & ? & ?); (split; [done|]); (split; [done|]); apply Heq; repeat split; auto; lia.
Qed.

Lemma in_seg_start s hs e : holes_ok s hs e -> in_seg s hs e s.
Proof.
  intros H. split; [lia|]. split; [by apply holes_ok_below in H|]. eapply outside_left; eauto. lia.
Qed.

Lemma in_seg_end s hs e : holes_ok s hs (Some e) -> in_seg s hs (Some e) e.
Proof.
  intros H. split; [by apply holes_ok_below in H|]. split; [simpl; lia|].
  revert s H. induction hs as [|h t IH]; simpl; intros s H; [constructor|].
  destruct H as (_ & _ & H). constructor; [right; apply holes_ok_below in H; simpl in H; lia|eauto].
Qed.

Lemma in_seg_unbounded s hs m : exists n, m < n /\ in_seg s hs None n.
Proof.
  assert (exists b, Forall (fun h => h.2 < b) hs) as [b Hb].
  { induction hs as [|h t [b IH]]; [exists 0; constructor|].
    exists (Z.max b (h.2 + 1)). constructor; [lia|].
    eapply Forall_impl; [exact IH|]. simpl. lia. }
  exists (Z.max m (Z.max b s) + 1). split; [lia|]. split; [lia|]. split; [done|].
  eapply Forall_impl; [exact Hb|]. intros h Hh. right. simpl in Hh. lia.
Qed.

(** Two non-empty sets with the same numbers have the same range. *)
Lemma seg_range_unique s hs e s' hs' e' :
  holes_ok s hs e -> holes_ok s' hs' e' ->
  (forall n, in_seg s hs e n <-> in_seg s' hs' e' n) -> s = s' /\ e = e'.
Proof.
  intros H H' Heq. split.
  - pose proof (in_seg_start _ _ _ H) as Hs. pose proof (in_seg_start _ _ _ H') as Hs'.
    apply Heq in Hs. apply Heq in Hs'. destruct Hs as [? _], Hs' as [? _]. lia.
  - destruct e as [e|], e' as [e'|]; [|exfalso..|done].
    + pose proof (in_seg_end _ _ _ H) as He. pose proof (in_seg_end _ _ _ H') as He'.
      apply Heq in He. apply Heq in He'. destruct He as (_ & ? & _), He' as (_ & ? & _).
      simpl in *. f_equal. lia.
    + destruct (in_seg_unbounded s' hs' e) as (n & ? & Hn). apply Heq in Hn as (_ & ? & _).
      simpl in *. lia.
    + destruct (in_seg_unbounded s hs e') as (n & ? & Hn). apply Heq in Hn as (_ & ? & _).
      simpl in *. lia.
Qed.

Lemma forallb_zip_refl hs : forallb (fun p : (Z * Z) * (Z * Z) => bool_decide (p.1 = p.2)) (zip hs hs) = true.
Proof. induction hs as [|h t IH]; simpl; [done|]. by rewrite bool_decide_true. Qed.

Lemma forallb_zip_eq (hs hs' : list (Z * Z)) :
  length hs = length hs' ->
  forallb (fun p : (Z * Z) * (Z * Z) => bool_decide (p.1 = p.2)) (zip hs hs') = true -> hs = hs'.
Proof.
  revert hs'. induction hs as [|h t IH]; intros [|h' t'] Hl; try discriminate; [done|].
  simpl. intros [->%bool_decide_eq_true H]%andb_true_iff. f_equal. apply IH; auto.
Qed.

(** [Equal] decides equality of the sets of numbers: the representation is
    canonical. *)
Lemma RangeSet_Equal_correct rs a :
  wf_set rs -> wf_set a ->
  RangeSet_Equal rs a = true <-> forall n, in_set rs n <-> in_set a n.
Proof.
  intros [_ Hr] [_ Ha]. unfold RangeSet_Equal. split.
  - pose proof (Range_Equal_spec (rng rs) (rng a)) as Hs.
    destruct (Range_Equal (rng rs) (rng a)); simpl; [|discriminate].
    intros [Hl%bool_decide_eq_true Hz]%andb_true_iff. apply forallb_zip_eq in Hz; [|done].
    intros n. unfold in_set. rewrite Hz. destruct Hs as [Hs _]. by rewrite (Hs eq_refl).
  - intros Heq. destruct (IsEmpty (rng rs)) eqn:Er, (IsEmpty (rng a)) eqn:Ea.
    + assert (Range_Equal (rng rs) (rng a) = true) as ->
        by (unfold Range_Equal, Range_Include; by rewrite Er, Ea).
      by rewrite Hr, Ha.
    + exfalso. apply (wf_set_empty rs (Start (rng a)) Er). apply Heq, in_set_seg, in_seg_start, Ha.
    + exfalso. apply (wf_set_empty a (Start (rng rs)) Ea). apply Heq, in_set_seg, in_seg_start, Hr.
    + setoid_rewrite in_set_seg in Heq.
      destruct (seg_range_unique _ _ _ _ _ _ Hr Ha Heq) as [Es Ee].
      rewrite Es, Ee in *. rewrite (holes_unique _ _ _ _ Hr Ha Heq).
      assert (rng rs = rng a) as -> by (destruct (rng rs), (rng a); simpl in *; congruence).
      assert (Range_Equal (rng a) (rng a) = true) as -> by by apply Range_Equal_spec.
      simpl. rewrite bool_decide_true by done. apply forallb_zip_refl.
Qed.
