(* ===== verification/RangeCut.v ===== *)
(** * Cutting: [common/range/cutter.go], [RangeSet.CutByFixedSize] and [CutRangeSet]

    The cutter yields the pieces of a range all at once ([CutAll]), the first one
    ([First]) or one by one through a channel ([BuildProducer]); the theorems show
    that the three agree and that the pieces tile the range. [CutRangeSet] cuts at
    the end points of several overlapping ranges. *)
From Stdlib Require Import ZArith Lia.
From stdpp Require Import base numbers option sorting gmap list.
From S2P Require Import Prelude RangeBase RangeSet RangeSetOps.

Record RangeCutter : Type := mkRangeCutter { CutSize : Z; AlignZero : bool }.

Definition Cutter_Cut (c : RangeCutter) (r : Range) (num : Z) : Outcome (list Range) :=
  let base := if negb (AlignZero c) then Start r else 0 in
  Range_CutByFixedSize r base (CutSize c) num.

Definition Cutter_CutAll (c : RangeCutter) (r : Range) : Outcome (list Range) := Cutter_Cut c r 0.

Definition Cutter_First (c : RangeCutter) (r : Range) : Outcome Range :=
  if IsEmpty r then Ok r
  else let! l := Cutter_Cut c r 1 in
       match l with x :: _ => Ok x | [] => Panic end.

Definition Cutter_CutSet (c : RangeCutter) (s : RangeSet) : Outcome (list Range) :=
  RangeSet_CutByFixedSize s (CutSize c) (AlignZero c).

(** The ranges that [BuildProducer] sends, in order, when the receiver takes them
    all; a cancelled context stops it after a prefix of them. *)
Fixpoint BuildProducer (fuel : nat) (c : RangeCutter) (r : Range) : Outcome (list Range) :=
  match fuel with
  | O => Diverge
  | S fuel' =>
      if IsEmpty r then Ok []
      else let! first := Cutter_First c r in
           match REnd first with
           | None => Panic
           | Some e =>
               let! rest := BuildProducer fuel' c (mkRange (e +! 1) (REnd r)) in
               Ok (first :: rest)
           end
  end.

(** One round of the loop of [CutRangeSet] that collects the cut points [sbn]. *)
Definition CutRangeSet_collect (start : Z) (acc : gset Z * bool) (r : Range) : gset Z * bool :=
  let '(sbn, inf) := acc in
  match REnd r with
  | Some e =>
      if e <? start then (sbn, inf)
      else ({[e +! 1]} ∪ ({[Z.max (Start r) start]} ∪ sbn), inf)
  | None => ({[Z.max (Start r) start]} ∪ sbn, true)
  end.

(** [GetOrderedMapKeys]. *)
Definition ordered_keys (s : gset Z) : list Z := merge_sort Z.le (elements s).

Fixpoint pieces_between (ns : list Z) : list Range :=
  match ns with
  | a :: (b :: _) as t => mkRange a (Some (b -! 1)) :: pieces_between t
  | _ => []
  end.

Definition CutRangeSet (start : Z) (rs : list Range) : list Range :=
  match rs with
  | [] => []
  | _ =>
      let '(sbn, inf) := foldl (CutRangeSet_collect start) (∅, false) rs in
      let ns := ordered_keys sbn in
      pieces_between ns ++ (if inf : bool then [mkRange (default 0 (last ns)) None] else [])
  end.

(** ** The cutter *)

Lemma slot_end_shift base size k s :
  0 < size -> slot_end (base + k * size) size s = slot_end base size s.
Proof.
  intros Hz. unfold slot_end.
  replace (s - (base + k * size)) with (s - base + (- k) * size) by lia.
  rewrite Z.div_add by lia. lia.
Qed.

Lemma cuts_shift base size k s e l :
  0 < size -> cuts (base + k * size) size s e l <-> cuts base size s e l.
Proof.
  intros Hz. revert s. induction l as [|r t IH]; simpl; intros s; [done|].
  rewrite slot_end_shift, IH by done. done.
Qed.

(** The base from which the cutter counts its slots. *)
Definition cut_base (c : RangeCutter) (r : Range) : Z := if negb (AlignZero c) then Start r else 0.

Section Cutter.
Context (c : RangeCutter) (e : Z).
Context (Hsize : 0 < CutSize c) (Hover : e + CutSize c < two64).

Lemma Cutter_Cut_cuts s :
  u64 s -> s <= e ->
  exists l, cuts (cut_base c (mkRange s (Some e))) (CutSize c) s e l /\
    Cutter_CutAll c (mkRange s (Some e)) = Ok l /\
    Cutter_Cut c (mkRange s (Some e)) 1 = Ok (take 1 l).
Proof.
  intros Hs Hse.
  destruct (Range_CutByFixedSize_cuts (mkRange s (Some e)) e (cut_base c (mkRange s (Some e))) (CutSize c))
    as (l & Hc & Ha & Hn); auto; unfold cut_base; simpl; try (destruct (AlignZero c); simpl; u64lia).
  - split; simpl; u64lia.
  - exists l. split; [done|]. split; [done|]. apply (Hn 1). lia.
Qed.

(** The producer sends exactly the pieces of [CutAll], and ends. *)
Lemma BuildProducer_CutAll fuel s :
  u64 s -> s <= e -> (Z.to_nat (e + 1 - s) < fuel)%nat ->
  BuildProducer fuel c (mkRange s (Some e)) = Cutter_CutAll c (mkRange s (Some e)).
Proof.
  revert s. induction fuel as [|fuel IH]; [lia|]. intros s Hs Hse Hf.
  destruct (Cutter_Cut_cuts s Hs Hse) as (l & Hc & -> & H1).
  destruct l as [|x t]; [simpl in Hc; lia|]. destruct Hc as (_ & -> & Ht).
  cbn [BuildProducer]. unfold Cutter_First. rewrite H1.
  assert (IsEmpty (mkRange s (Some e)) = false) as -> by (apply IsEmpty_mkRange; simpl; lia).
  simpl. pose proof (slot_end_bounds (cut_base c (mkRange s (Some e))) (CutSize c) s Hsize) as Hb.
  set (b := cut_base c (mkRange s (Some e))) in *. rewrite add64_small by u64lia.
  destruct (Z.le_gt_cases e (slot_end b (CutSize c) s)) as [Hle|Hgt].
  - rewrite Z.min_r by lia. destruct t as [|y t]; [|simpl in Ht; lia].
    destruct fuel; [lia|]. simpl. unfold IsEmpty; simpl. destruct (Z.ltb_spec e (e + 1)); [done|lia].
  - rewrite Z.min_l by lia. rewrite IH; [|u64lia|lia|lia].
    destruct (Cutter_Cut_cuts (slot_end b (CutSize c) s + 1)) as (t' & Hc' & -> & _); [u64lia|lia|].
    simpl. do 2 f_equal. eapply cuts_unique; [exact Hc'|]. revert Ht Hc'. subst b. unfold cut_base.
    destruct (AlignZero c); simpl; [done|]. intros Ht _.
    replace (slot_end s (CutSize c) s + 1) with (s + 1 * CutSize c) in *
      by (unfold slot_end; rewrite Z.sub_diag, Z.div_0_l by lia; lia).
    by apply cuts_shift.
Qed.
End Cutter.

(** A set is cut range by range. *)
Lemma CutByFixedSize_ranges_tiles size alignZero l :
  0 < size -> Forall wf_range l -> Forall (fun r => IsEmpty r = false) l ->
  Forall (fun r => exists e, REnd r = Some e /\ e + size < two64) l ->
  exists ls, CutByFixedSize_ranges size alignZero l = Ok (concat ls) /\
    Forall2 (fun r p => tiles (Start r) (EndOr r 0) p /\
               Forall (in_slot (cut_base (mkRangeCutter size alignZero) r) size) p) l ls.
Proof.
  intros Hz Hw Hne He. induction l as [|r t IH]; [exists []; by split|].
  apply Forall_cons in Hw as [Hw Hwt], Hne as [Hne Hnet], He as [(e & He & Hov) Het].
  destruct (IH Hwt Hnet Het) as (ls & Hls & Hf). apply IsEmpty_false in Hne as [_ Hne].
  rewrite He in Hne. simpl in Hne. pose proof Hw as [Hs _].
  destruct (Range_CutByFixedSize_cuts r e (cut_base (mkRangeCutter size alignZero) r) size)
    as (p & Hc & Hp & _); auto; try (unfold cut_base; destruct alignZero; simpl; u64lia).
  apply cuts_tiles in Hc as [Ht Hsl]; [|done|lia].
  exists (p :: ls). simpl. unfold cut_base in Hp. simpl in Hp. rewrite Hp, Hls. split; [done|].
  constructor; [|done]. unfold EndOr. by rewrite He.
Qed.

(** ** [CutRangeSet] *)

Lemma ordered_keys_elem s n : n ∈ ordered_keys s <-> n ∈ s.
Proof. unfold ordered_keys. by rewrite merge_sort_Permutation, elem_of_elements. Qed.

Lemma ordered_keys_sorted s : StronglySorted Z.lt (ordered_keys s).
Proof.
  assert (Hs : StronglySorted Z.le (ordered_keys s)) by (apply StronglySorted_merge_sort; apply _).
  assert (Hn : NoDup (ordered_keys s))
    by (unfold ordered_keys; rewrite merge_sort_Permutation; apply NoDup_elements).
  induction Hs as [|a l Hs IH Hf]; constructor; apply NoDup_cons in Hn as [Ha Hn]; [by apply IH|].
  rewrite Forall_forall in *. intros x Hx. specialize (Hf x Hx).
  assert (a <> x) by (intros ->; done). lia.
Qed.

(** A piece runs from a cut point to the one after it. *)
Lemma pieces_between_elem ns p :
  StronglySorted Z.lt ns -> Forall u64 ns -> p ∈ pieces_between ns ->
  exists a b, a ∈ ns /\ b ∈ ns /\ a < b /\ p = mkRange a (Some (b - 1)) /\
              forall k, k ∈ ns -> k <= a \/ b <= k.
Proof.
  induction 1 as [|a l Hs IH Hf]; intros Hu Hp; [by apply not_elem_of_nil in Hp|].
  apply Forall_cons in Hu as [Hua Hu]. destruct l as [|b l]; [by apply not_elem_of_nil in Hp|].
  change (p ∈ mkRange a (Some (b -! 1)) :: pieces_between (b :: l)) in Hp.
  pose proof Hu as [Hub _]%Forall_cons. rewrite Forall_forall in Hf.
  apply elem_of_cons in Hp as [->|Hp].
  - assert (a < b) by (apply Hf; left). rewrite sub64_small by u64lia.
    exists a, b. repeat split; auto; [left|right; left|].
    intros k Hk. apply elem_of_cons in Hk as [->|Hk]; [lia|]. right.
    apply elem_of_cons in Hk as [->|Hk]; [lia|].
    apply StronglySorted_inv in Hs as [_ Hs]. rewrite Forall_forall in Hs. specialize (Hs k Hk). lia.
  - destruct (IH Hu Hp) as (x & y & Hx & Hy & Hlt & Hpe & Hk). exists x, y.
    repeat split; auto; [by right|by right|]. intros k Hin.
    apply elem_of_cons in Hin as [->|Hin]; [|auto]. left. specialize (Hf x Hx). lia.
Qed.

(** The pieces cover everything between the first and the last cut point. *)
Lemma pieces_between_cover ns a b n :
  StronglySorted Z.lt ns -> Forall u64 ns -> a ∈ ns -> b ∈ ns -> a <= n < b ->
  in_ranges (pieces_between ns) n.
Proof.
  intros Hs. revert a. induction Hs as [|x l Hs IH Hf]; intros a Hu Ha Hb Hn;
    [by apply not_elem_of_nil in Ha|].
  apply Forall_cons in Hu as [Hux Hu]. rewrite Forall_forall in Hf.
  destruct l as [|y l].
  { apply list_elem_of_singleton in Ha, Hb. subst. lia. }
  change (in_ranges (mkRange x (Some (y -! 1)) :: pieces_between (y :: l)) n).
  pose proof Hu as [Huy _]%Forall_cons. assert (x < y) by (apply Hf; left).
  rewrite sub64_small by u64lia. unfold in_ranges. rewrite Exists_cons.
  apply elem_of_cons in Hb as [->|Hb].
  { apply elem_of_cons in Ha as [->|Ha]; [lia|]. specialize (Hf a Ha). lia. }
  destruct (Z_lt_le_dec n y).
  - left. unfold in_range; simpl. apply elem_of_cons in Ha as [->|Ha]; [lia|].
    specialize (Hf a Ha). lia.
  - right. apply elem_of_cons in Ha as [->|Ha]; [|by apply (IH a)].
    apply (IH y); auto; [left|lia].
Qed.

Lemma pieces_between_disjoint ns :
  StronglySorted Z.lt ns -> Forall u64 ns ->
  StronglySorted (fun p q => exists e, REnd p = Some e /\ e < Start q) (pieces_between ns).
Proof.
  induction 1 as [|a l Hs IH Hf]; intros Hu; [constructor|].
  apply Forall_cons in Hu as [Hua Hu]. destruct l as [|b l]; [constructor|].
  change (pieces_between (a :: b :: l)) with (mkRange a (Some (b -! 1)) :: pieces_between (b :: l)).
  constructor; [by apply IH|]. apply Forall_forall. intros q Hq.
  destruct (pieces_between_elem _ _ Hs Hu Hq) as (x & y & Hx & _ & _ & -> & _). simpl.
  pose proof Hu as [Hub _]%Forall_cons. rewrite Forall_forall in Hf.
  assert (a < b) by (apply Hf; left). rewrite sub64_small by u64lia.
  exists (b - 1). split; [done|]. apply StronglySorted_inv in Hs as [_ Hs]. rewrite Forall_forall in Hs.
  apply elem_of_cons in Hx as [->|Hx]; [lia|]. specialize (Hs x Hx). lia.
Qed.

(** The cut points collected by the loop. *)
Definition cut_point (start : Z) (rs : list Range) (k : Z) : Prop :=
  exists r, r ∈ rs /\ below_end start (REnd r) /\
    (k = Z.max (Start r) start \/ exists e, REnd r = Some e /\ k = e + 1).

Lemma CutRangeSet_collect_spec start rs :
  Forall wf_range rs -> no_max rs ->
  let '(sbn, inf) := foldl (CutRangeSet_collect start) (∅, false) rs in
  (forall k, k ∈ sbn <-> cut_point start rs k) /\
  (inf = true <-> exists r, r ∈ rs /\ REnd r = None).
Proof.
  intros Hw Hm. induction rs as [|r rs IH] using rev_ind; simpl.
  { split; [intros k|]; (split; [by rewrite ?elem_of_empty|]); intros (r & Hr & _);
      by apply not_elem_of_nil in Hr. }
  rewrite foldl_app. simpl. apply Forall_app in Hw as [Hw [[_ Hwr] _]%Forall_cons].
  apply Forall_app in Hm as [Hm [Hmr _]%Forall_cons].
  specialize (IH Hw Hm). destruct (foldl _ _ rs) as [sbn inf]. destruct IH as [IH1 IH2].
  unfold cut_point in *. unfold CutRangeSet_collect.
  destruct (REnd r) as [e|] eqn:Er; [destruct (Z.ltb_spec e start)|].
  all: split; [intros k|]; setoid_rewrite elem_of_app; setoid_rewrite list_elem_of_singleton;
    rewrite ?elem_of_union, ?elem_of_singleton, ?IH1, ?IH2.
  - split; [intros (r' & ? & ? & ?); eauto|]. intros (r' & [?| ->] & Hb & ?); [eauto|].
    rewrite Er in Hb. simpl in Hb. lia.
  - split; [intros (r' & ? & ?); eauto|]. intros (r' & [?| ->] & Hb); [eauto|congruence].
  - simpl in Hwr. rewrite add64_small by (assert (e <> maxU64) by congruence; u64lia). split.
    + intros [->|[->|(r' & ? & ? & ?)]]; [exists r|exists r|eauto]; rewrite Er; simpl; auto.
      split; [by right|]. split; [lia|]. right. by exists e.
    + intros (r' & [?| ->] & Hb & Hk); [right; right; eauto|]. rewrite Er in Hk.
      destruct Hk as [->|(e' & [= <-] & ->)]; auto.
  - split; [intros (r' & ? & ?); eauto|]. intros (r' & [?| ->] & Hb); [eauto|congruence].
  - split.
    + intros [->|(r' & ? & ? & ?)]; [|eauto]. exists r. rewrite Er. simpl. auto.
    + intros (r' & [?| ->] & Hb & Hk); [right; eauto|]. rewrite Er in Hk.
      destruct Hk as [->|(e' & [=] & _)]; auto.
  - split; [intros _; exists r; auto|done].
Qed.

(** A piece runs from the cut point [a] to just before the next one, or without
    end when there is none. *)
Definition is_piece (ns : list Z) (p : Range) : Prop :=
  exists a b, a ∈ ns /\ p = mkRange a (Z.pred <$> b) /\ from_option (fun y => a < y) True b /\
    forall k, k ∈ ns -> k <= a \/ exists y, b = Some y /\ y <= k.

Section CutPoints.
Context (start : Z) (rs : list Range) (ns : list Z) (inf : bool).
Context (Hstart : u64 start) (Hw : Forall wf_range rs) (Hm : no_max rs).
Context (Hns : forall k, k ∈ ns <-> cut_point start rs k) (Hsort : StronglySorted Z.lt ns).
Context (Hinf : inf = true <-> exists r, r ∈ rs /\ REnd r = None).

Let out := pieces_between ns ++ (if inf : bool then [mkRange (default 0 (last ns)) None] else []).

Lemma cut_points_u64 : Forall u64 ns.
Proof.
  apply Forall_forall. intros k Hk. apply Hns in Hk as (r & Hr & _ & Hk).
  assert (wf_range r) as [H1 H2] by exact (proj1 (Forall_forall _ _) Hw r Hr).
  assert (REnd r <> Some maxU64) by exact (proj1 (Forall_forall _ _) Hm r Hr).
  destruct Hk as [->|(e & He & ->)]; [u64lia|]. rewrite He in *. simpl in H2.
  assert (e <> maxU64) by congruence. u64lia.
Qed.

Lemma cut_points_start k : k ∈ ns -> start <= k.
Proof.
  intros Hk. apply Hns in Hk as (r & _ & Hb & [->|(e & He & ->)]); [lia|].
  rewrite He in Hb. simpl in Hb. lia.
Qed.

Lemma cut_points_last : inf = true -> exists a, last ns = Some a /\ a ∈ ns /\ forall k, k ∈ ns -> k <= a.
Proof.
  intros Hi. apply Hinf in Hi as (r & Hr & Er).
  assert (Hk : Z.max (Start r) start ∈ ns) by (apply Hns; exists r; rewrite Er; simpl; auto).
  clear - Hk Hsort. induction Hsort as [|a l Hs IH Hf]; [by apply not_elem_of_nil in Hk|].
  destruct l as [|b l].
  - exists a. split; [done|]. split; [left|]. intros k Hk'. apply list_elem_of_singleton in Hk'. lia.
  - rewrite Forall_forall in Hf. assert (Hb : b ∈ b :: l) by left. clear Hk.
    assert (exists z, z ∈ b :: l) as [z Hz] by eauto.
    destruct (last (b :: l)) as [x|] eqn:El; [|by apply last_None in El].
    apply last_Some_elem_of in El as Hx.
    exists x. split; [by rewrite last_cons, El|]. split; [by right|].
    intros k Hk'. apply elem_of_cons in Hk' as [->|Hk']; [specialize (Hf x Hx); lia|].
    apply last_Some in El as [l' El]. rewrite El in Hs, Hk'.
    apply elem_of_app in Hk' as [Hk'| ->%list_elem_of_singleton]; [|lia].
    apply StronglySorted_app in Hs as (Hlt & _ & _).
    specialize (Hlt k x Hk'). assert (k < x) by (apply Hlt; by left). lia.
Qed.

Lemma out_piece p : p ∈ out -> is_piece ns p.
Proof.
  subst out. intros Hp. apply elem_of_app in Hp as [Hp|Hp].
  - destruct (pieces_between_elem ns p Hsort cut_points_u64 Hp) as (a & b & Ha & Hb & Hlt & -> & Hk).
    exists a, (Some b). repeat split; auto. intros k Hin. destruct (Hk k Hin); eauto.
  - pose proof cut_points_last as Hcl.
    destruct inf; [|by apply not_elem_of_nil in Hp]. apply list_elem_of_singleton in Hp as ->.
    destruct (Hcl eq_refl) as (a & -> & Ha & Hk). exists a, None.
    repeat split; auto.
Qed.

(** No cut point lies inside a piece, so a range that meets a piece contains it. *)
Lemma piece_inside p r n m :
  p ∈ out -> r ∈ rs -> in_range p n -> in_range r n -> in_range p m -> in_range r m.
Proof.
  intros Hp Hr Hpn [Hn1 Hn2] Hpm. apply out_piece in Hp as (a & b & Ha & -> & Hlt & Hk).
  apply cut_points_start in Ha. unfold in_range in Hpn, Hpm. simpl in Hpn, Hpm.
  assert (Hbe : below_end start (REnd r)) by (destruct (REnd r); simpl in *; lia).
  assert (Hs : Z.max (Start r) start ∈ ns) by (apply Hns; exists r; auto). split.
  - apply Hk in Hs as [Hs|(y & -> & Hs)]; simpl in *; lia.
  - destruct (REnd r) as [e|] eqn:Er; simpl in *; [|done].
    assert (He : e + 1 ∈ ns) by (apply Hns; exists r; rewrite Er; simpl; eauto 6).
    apply Hk in He as [He|(y & -> & He)]; simpl in *; lia.
Qed.

Lemma out_sorted : StronglySorted (fun p q => exists e, REnd p = Some e /\ e < Start q) out.
Proof.
  subst out. pose proof (pieces_between_disjoint ns Hsort cut_points_u64) as Hd.
  pose proof cut_points_last as Hcl. pose proof cut_points_u64 as Hu.
  destruct inf; [|by rewrite app_nil_r].
  apply StronglySorted_app. split; [|split; [done|by repeat constructor]].
  intros p q Hp ->%list_elem_of_singleton.
  destruct (Hcl eq_refl) as (a & -> & _ & Hk).
  destruct (pieces_between_elem ns p Hsort Hu Hp) as (x & y & _ & Hy & _ & -> & _).
  simpl. exists (y - 1). split; [done|]. specialize (Hk y Hy). lia.
Qed.

Lemma out_cover r n : r ∈ rs -> start <= n -> in_range r n -> in_ranges out n.
Proof.
  intros Hr Hn [Hn1 Hn2]. subst out. unfold in_ranges. rewrite Exists_app.
  assert (Hbe : below_end start (REnd r)) by (destruct (REnd r); simpl in *; lia).
  assert (Hs : Z.max (Start r) start ∈ ns) by (apply Hns; exists r; auto).
  destruct (REnd r) as [e|] eqn:Er; simpl in *.
  - left. apply (pieces_between_cover ns (Z.max (Start r) start) (e + 1)); auto using cut_points_u64; [|lia].
    apply Hns. exists r. rewrite Er. simpl. eauto 6.
  - assert (Hi : inf = true) by (apply Hinf; eauto). destruct (cut_points_last Hi) as (a & Hl & Ha & Hk).
    rewrite Hi, Hl. simpl. destruct (Z_lt_le_dec n a).
    + left. apply (pieces_between_cover ns (Z.max (Start r) start) a); auto using cut_points_u64. lia.
    + right. rewrite Exists_cons. left. split; simpl; [done|done].
Qed.
End CutPoints.

(** The pieces of [CutRangeSet] are disjoint and ascending, start at [start] or
    later, each lies inside or outside every given range, and together they cover
    the given ranges from [start] on. *)
Lemma CutRangeSet_spec start rs :
  u64 start -> Forall wf_range rs -> no_max rs ->
  let out := CutRangeSet start rs in
  StronglySorted (fun p q => exists e, REnd p = Some e /\ e < Start q) out /\
  (forall p, p ∈ out -> start <= Start p /\ IsEmpty p = false) /\
  (forall p r n m, p ∈ out -> r ∈ rs -> in_range p n -> in_range r n ->
     in_range p m -> in_range r m) /\
  (forall r n, r ∈ rs -> start <= n -> in_range r n -> in_ranges out n).
Proof.
  intros Hst Hw Hm. unfold CutRangeSet. destruct rs as [|r0 rs0].
  { split; [constructor|]. split; [|split]; intros; exfalso; by eapply not_elem_of_nil. }
  remember (r0 :: rs0) as rs eqn:Hrs.
  pose proof (CutRangeSet_collect_spec start rs Hw Hm) as Hc.
  destruct (foldl _ _ rs) as [sbn inf]. destruct Hc as [Hk Hinf]. cbv zeta.
  assert (Hns : forall k, k ∈ ordered_keys sbn <-> cut_point start rs k)
    by (intros k; by rewrite ordered_keys_elem).
  pose proof (ordered_keys_sorted sbn) as Hs.
  split; [by eapply out_sorted|]. split; [|split].
  - intros p Hp. eapply out_piece in Hp as (a & b & Ha & -> & Hlt & _); eauto.
    split; [by eapply cut_points_start|]. apply IsEmpty_mkRange. destruct b; simpl in *; lia.
  - intros p r n m. by eapply piece_inside.
  - intros r n. by eapply out_cover.
Qed.
