(* ===== verification/RangeText.v ===== *)
(** * The text format of ranges: [common/range/parser.go]

    A range is printed as [start,end], as [start,INF] or as [EMPTY]; the ranges of a set
    are separated by a bar. Texts are lists of characters; [strings.TrimSpace] trims the
    white space of ASCII, so the model is meant for ASCII texts. Readers and writers are
    the texts read and written; an error is [None]. *)
From Stdlib Require Import ZArith Lia Ascii String.
From stdpp Require Import base numbers option strings list.
From S2P Require Import Prelude RangeBase RangeSet RangeSetOps.

Abbreviation text := (list ascii).
Definition lit (s : string) : text := list_ascii_of_string s.

(** ** What the source uses of [strings] and [strconv] *)

(** Tab, newline, vertical tab, form feed, carriage return and space. *)
Definition is_space (c : ascii) : bool :=
  let n := nat_of_ascii c in bool_decide (9 <= n <= 13)%nat || bool_decide (n = 32)%nat.

Fixpoint trim_front (s : text) : text :=
  match s with
  | [] => []
  | c :: t => if is_space c then trim_front t else s
  end.

Definition TrimSpace (s : text) : text := rev (trim_front (rev (trim_front s))).

(** [strings.Split] at a character: the parts, at least one. *)
Fixpoint Split (sep : ascii) (s : text) : list text :=
  match s with
  | [] => [[]]
  | c :: t =>
      if bool_decide (c = sep) then [] :: Split sep t
      else match Split sep t with
           | [] => [[c]]
           | p :: ps => (c :: p) :: ps
           end
  end.

Definition digit (d : Z) : ascii := ascii_of_nat (Z.to_nat (48 + d)).

Definition digit_value (c : ascii) : option Z :=
  let n := Z.of_nat (nat_of_ascii c) in if (48 <=? n) && (n <=? 57) then Some (n - 48) else None.

(** [%d] of a [uint64], digit by digit from the end; twenty digits are enough. *)
Fixpoint print_digits (fuel : nat) (n : Z) (acc : text) : text :=
  match fuel with
  | O => acc
  | S f => if n <? 10 then digit n :: acc else print_digits f (n / 10) (digit (n mod 10) :: acc)
  end.

Definition print_uint (n : Z) : text := print_digits 20 n [].

(** [strconv.ParseUint(s, 10, 64)]. *)
Fixpoint parse_digits (n : Z) (s : text) : option Z :=
  match s with
  | [] => Some n
  | c :: t =>
      match digit_value c with
      | None => None
      | Some d => if maxU64 <? n * 10 + d then None else parse_digits (n * 10 + d) t
      end
  end.

Definition ParseUint (s : text) : option Z :=
  match s with [] => None | _ => parse_digits 0 s end.

(** ** The parsers *)

Definition RangeParser_Marshal (r : Range) : text :=
  if IsEmpty r then lit "EMPTY"
  else match REnd r with
       | None => print_uint (Start r) ++ lit ",INF"
       | Some e => print_uint (Start r) ++ lit "," ++ print_uint e
       end.

Definition RangeParser_Unmarshal (d : text) : option Range :=
  if bool_decide (TrimSpace d = lit "EMPTY") then Some EmptyRange
  else
    match Split "," d with
    | s0 :: s1 :: _ =>
        match ParseUint (TrimSpace s0) with
        | None => None
        | Some start =>
            if bool_decide (TrimSpace s1 = lit "INF") then Some (mkRange start None)
            else match ParseUint (TrimSpace s1) with
                 | None => None
                 | Some end_ => Some (NewRange start end_)
                 end
        end
    | _ => None
    end.

Fixpoint Marshal_ranges (l : list Range) : text :=
  match l with
  | [] => []
  | [r] => RangeParser_Marshal r
  | r :: t => RangeParser_Marshal r ++ lit "|" ++ Marshal_ranges t
  end.

Definition SetParser_Marshal (s : RangeSet) : text := Marshal_ranges (GetRanges s).

(** The loop over the parts: blank parts are skipped. *)
Fixpoint Unmarshal_parts (parts : list text) : option (list Range) :=
  match parts with
  | [] => Some []
  | p :: t =>
      match TrimSpace p with
      | [] => Unmarshal_parts t
      | q =>
          match RangeParser_Unmarshal q with
          | None => None
          | Some r => match Unmarshal_parts t with None => None | Some l => Some (r :: l) end
          end
      end
  end.

Definition SetParser_Unmarshal (d : text) : option RangeSet :=
  match Unmarshal_parts (Split "|" d) with
  | None => None
  | Some l => Some (NewRangeSet l)
  end.

(** ** Digits *)

Lemma digit_value_digit d : 0 <= d < 10 -> digit_value (digit d) = Some d.
Proof.
  intros H. assert (In d [0; 1; 2; 3; 4; 5; 6; 7; 8; 9]) as Hin by (simpl; lia).
  simpl in Hin. repeat (destruct Hin as [<-|Hin]; [reflexivity|]). done.
Qed.

Lemma parse_print_digits fuel n acc :
  0 <= n <= maxU64 -> n < 10 ^ Z.of_nat fuel -> (0 < fuel)%nat ->
  parse_digits 0 (print_digits fuel n acc) = parse_digits n acc.
Proof.
  revert n acc. induction fuel as [|f IH]; intros n acc Hn Hf Hpos; [lia|]. cbn [print_digits].
  destruct (Z.ltb_spec n 10) as [Hlt|Hge].
  { cbn [parse_digits]. rewrite digit_value_digit by lia. rewrite (proj2 (Z.ltb_ge _ _)) by (unfold maxU64; lia).
    by rewrite Z.mul_0_l, Z.add_0_l. }
  assert (Hd : 0 <= n / 10 <= maxU64) by (split; [apply Z.div_pos; lia|apply Z.div_le_upper_bound; lia]).
  assert (Hm := Z.mod_pos_bound n 10 ltac:(lia)). assert (Hdm := Z.div_mod n 10 ltac:(lia)).
  assert ((0 < f)%nat) by (destruct f; [simpl in Hf; lia|lia]).
  rewrite IH; [|done| |done].
  - cbn [parse_digits]. rewrite digit_value_digit by done.
    rewrite (proj2 (Z.ltb_ge _ _)) by lia. f_equal. lia.
  - apply Z.div_lt_upper_bound; [lia|]. rewrite Nat2Z.inj_succ, Z.pow_succ_r in Hf by lia. lia.
Qed.

(** A character of a number. *)
Definition is_digit (c : ascii) : Prop := is_Some (digit_value c).

Lemma print_digits_all fuel n acc :
  0 <= n -> Forall is_digit acc -> Forall is_digit (print_digits fuel n acc).
Proof.
  revert n acc. induction fuel as [|f IH]; intros n acc Hn Ha; cbn [print_digits]; [done|].
  destruct (Z.ltb_spec n 10).
  - constructor; [|done]. unfold is_digit. rewrite digit_value_digit by lia. by eexists.
  - apply IH; [apply Z.div_pos; lia|]. constructor; [|done].
    unfold is_digit. rewrite digit_value_digit by (apply Z.mod_pos_bound; lia). by eexists.
Qed.

Lemma print_digits_nonempty fuel n acc : (0 < fuel)%nat \/ acc <> [] -> print_digits fuel n acc <> [].
Proof.
  revert n acc. induction fuel as [|f IH]; intros n acc [?|H]; cbn [print_digits]; try lia; try done;
    bcase; try done; apply IH; by right.
Qed.

Lemma print_uint_digits n : 0 <= n -> Forall is_digit (print_uint n).
Proof. intros. by apply print_digits_all. Qed.

(** Reading back a printed number. *)
Lemma ParseUint_print n : u64 n -> ParseUint (print_uint n) = Some n.
Proof.
  intros Hn. unfold ParseUint. pose proof (print_digits_nonempty 20 n [] ltac:(lia)) as Hne.
  fold (print_uint n) in Hne. destruct (print_uint n) as [|c t] eqn:E; [done|]. rewrite <- E. unfold print_uint.
  rewrite parse_print_digits; [done|unfold u64, two64, maxU64 in *; lia|unfold u64, two64 in *; simpl; lia|lia].
Qed.

(** ** Trimming and splitting printed texts *)

(** Texts without white space and without the separators, such as numbers. *)
Definition plain (c : ascii) : Prop := is_space c = false /\ c <> ","%char /\ c <> "|"%char.

Lemma digit_plain c : is_digit c -> plain c.
Proof. intros [d Hd]. destruct c as [[] [] [] [] [] [] [] []]; try done; by vm_compute in Hd. Qed.

Lemma trim_front_plain s : Forall (fun c => is_space c = false) s -> trim_front s = s.
Proof. intros [|c t Hc _]; simpl; [done|by rewrite Hc]. Qed.

Lemma TrimSpace_solid s : Forall (fun c => is_space c = false) s -> TrimSpace s = s.
Proof.
  intros H. unfold TrimSpace. rewrite (trim_front_plain s) by done.
  rewrite trim_front_plain by (by apply Forall_rev). apply rev_involutive.
Qed.

Lemma Split_app sep a b : Forall (fun c => c <> sep) a -> Split sep (a ++ sep :: b) = a :: Split sep b.
Proof.
  induction 1 as [|c t Hc _ IH]; simpl; [by rewrite bool_decide_eq_true_2|].
  rewrite bool_decide_eq_false_2 by done. by rewrite IH.
Qed.

Lemma Split_none sep a : Forall (fun c => c <> sep) a -> Split sep a = [a].
Proof. induction 1 as [|c t Hc _ IH]; simpl; [done|]. rewrite bool_decide_eq_false_2 by done. by rewrite IH. Qed.

Lemma print_uint_plain n : 0 <= n -> Forall plain (print_uint n).
Proof. intros H. eapply Forall_impl; [by apply print_uint_digits|apply digit_plain]. Qed.

(** A printed range has no white space and no bar, and is not blank. *)
Lemma Marshal_solid r :
  wf_range r -> Forall (fun c => is_space c = false /\ c <> "|"%char) (RangeParser_Marshal r) /\
  RangeParser_Marshal r <> [].
Proof.
  intros [[Hs _] He]. unfold RangeParser_Marshal.
  assert (Hp : forall n, 0 <= n -> Forall (fun c => is_space c = false /\ c <> "|"%char) (print_uint n)).
  { intros n Hn. eapply Forall_impl; [by apply print_uint_plain|]. intros c (? & ? & ?). done. }
  destruct (IsEmpty r); [split; [repeat constructor|]; done|].
  destruct (REnd r) as [e|]; simpl in He.
  - split; [|by destruct (print_uint (Start r))]. apply Forall_app. split; [auto|].
    apply Forall_app. split; [by repeat constructor|]. destruct He. auto.
  - split; [|by destruct (print_uint (Start r))]. apply Forall_app. split; [auto|by repeat constructor].
Qed.

(** A number followed by a comma is not the word for the empty range. *)
Lemma digits_not_EMPTY c t : is_digit c -> c :: t <> lit "EMPTY".
Proof. intros [d Hd] [= -> _]. by vm_compute in Hd. Qed.

Lemma digits_not_INF s : Forall is_digit s -> s <> lit "INF".
Proof. intros H ->. inversion H as [|? ? [d Hd]]. by vm_compute in Hd. Qed.

(** Reading back a printed range. *)
Lemma Unmarshal_Marshal_range r :
  wf_range r -> RangeParser_Unmarshal (RangeParser_Marshal r) = Some (if IsEmpty r then EmptyRange else r).
Proof.
  intros Hw. destruct (Marshal_solid r Hw) as [Hsol _]. pose proof Hw as [Hs He].
  unfold RangeParser_Unmarshal. rewrite TrimSpace_solid by (by eapply Forall_impl; [exact Hsol|intros ? []]).
  unfold RangeParser_Marshal in *. destruct (IsEmpty r); [by rewrite bool_decide_eq_true_2|].
  assert (Hd : forall n, 0 <= n -> TrimSpace (print_uint n) = print_uint n).
  { intros n Hn. apply TrimSpace_solid. eapply Forall_impl; [by apply print_uint_plain|]. by intros c (? & _). }
  assert (Hc : forall n, 0 <= n -> Forall (fun c => c <> ","%char) (print_uint n)).
  { intros n Hn. eapply Forall_impl; [by apply print_uint_plain|]. by intros c (? & ? & _). }
  assert (Hne : forall t, print_uint (Start r) ++ t <> lit "EMPTY").
  { intros t. pose proof (print_uint_digits (Start r) ltac:(destruct Hs; lia)) as Hdg.
    pose proof (print_digits_nonempty 20 (Start r) [] ltac:(lia)) as Hn0. fold (print_uint (Start r)) in Hn0.
    destruct (print_uint (Start r)) as [|c l]; [done|]. inversion Hdg. by apply digits_not_EMPTY. }
  destruct Hs as [Hs0 Hs1]. destruct r as [s [e|]]; cbn [Start REnd] in *.
  - rewrite bool_decide_eq_false_2 by apply Hne. destruct He as [He0 He1].
    change (lit "," ++ print_uint e) with (","%char :: print_uint e). rewrite Split_app by auto. rewrite Split_none by auto. rewrite !Hd by done.
    rewrite !ParseUint_print by (by split). rewrite bool_decide_eq_false_2; [done|].
    by apply digits_not_INF, print_uint_digits.
  - rewrite bool_decide_eq_false_2 by apply Hne. change (lit ",INF") with (","%char :: lit "INF").
    rewrite Split_app by auto. rewrite Hd by done. rewrite ParseUint_print by (by split). reflexivity.
Qed.

(** The parts of a printed list of ranges. *)
Lemma Unmarshal_Marshal_ranges l :
  Forall wf_range l -> Forall (fun r => IsEmpty r = false) l ->
  Unmarshal_parts (Split "|" (Marshal_ranges l)) = Some l.
Proof.
  intros Hw Hne. induction Hw as [|r t Hr Ht IH]; [reflexivity|].
  apply Forall_cons in Hne as [Hre Hte]. specialize (IH Hte).
  destruct (Marshal_solid r Hr) as [Hsol Hnb].
  assert (Hb : Forall (fun c => c <> "|"%char) (RangeParser_Marshal r)) by (by eapply Forall_impl; [exact Hsol|intros ? []]).
  assert (Hone : forall ps, Unmarshal_parts ps = Some t -> Unmarshal_parts (RangeParser_Marshal r :: ps) = Some (r :: t)).
  { intros ps Hps. cbn [Unmarshal_parts]. rewrite TrimSpace_solid by (by eapply Forall_impl; [exact Hsol|intros ? []]).
    destruct (RangeParser_Marshal r) as [|c m] eqn:Em; [done|]. rewrite <- Em, Unmarshal_Marshal_range by done.
    by rewrite Hre, Hps. }
  destruct t as [|r2 t].
  - cbn [Marshal_ranges]. rewrite Split_none by done. by apply Hone.
  - change (Marshal_ranges (r :: r2 :: t)) with (RangeParser_Marshal r ++ "|"%char :: Marshal_ranges (r2 :: t)).
    rewrite Split_app by done. by apply Hone.
Qed.

Lemma chain_nonempty lb l : chain lb l -> Forall (fun r => IsEmpty r = false) l.
Proof.
  revert lb. induction l as [|r t IH]; intros lb Hc; [constructor|]. simpl in Hc. destruct Hc as (_ & Hb & Hc).
  constructor; [apply IsEmpty_false; split; [lia|done]|].
  destruct (REnd r) as [e|]; [by eapply IH|by subst t].
Qed.

(** Reading back a printed set. *)
Lemma Unmarshal_Marshal_set rs :
  wf_set rs -> SetParser_Unmarshal (SetParser_Marshal rs) = Some (if IsEmpty (rng rs) then EmptyRangeSet else rs).
Proof.
  intros Hw. destruct (GetRanges_chain rs Hw) as [Hc _]. pose proof (GetRanges_wf rs Hw) as Hf.
  unfold SetParser_Unmarshal, SetParser_Marshal.
  rewrite Unmarshal_Marshal_ranges by (done || by eapply chain_nonempty). f_equal.
  rewrite (NewRangeSet_chain (-1)) by done. destruct (IsEmpty (rng rs)) eqn:E; [|by apply of_ranges_GetRanges].
  unfold GetRanges. by rewrite E.
Qed.

(** Whatever is read, the ends of the ranges are [uint64] values. *)
Lemma parse_digits_u64 n s m : u64 n -> parse_digits n s = Some m -> u64 m.
Proof.
  revert n. induction s as [|c t IH]; intros n Hn; cbn [parse_digits]; [by intros [= <-]|].
  destruct (digit_value c) as [d|] eqn:Ed; [|done]. destruct (Z.ltb_spec maxU64 (n * 10 + d)); [done|].
  apply IH. unfold digit_value in Ed. destruct (_ && _)%bool eqn:Eb; [|done]. injection Ed as <-.
  unfold u64, two64, maxU64 in *. breflect. lia.
Qed.

Lemma Unmarshal_wf d r : RangeParser_Unmarshal d = Some r -> wf_range r.
Proof.
  assert (Hp : forall s n, ParseUint s = Some n -> u64 n).
  { intros [|c t] n; [done|]. apply (parse_digits_u64 0). unfold u64, two64. lia. }
  unfold RangeParser_Unmarshal. case_bool_decide; [intros [= <-]; apply wf_EmptyRange|].
  destruct (Split "," d) as [|s0 [|s1 l]]; [done..|]. destruct (ParseUint (TrimSpace s0)) as [n|] eqn:E0; [|done].
  case_bool_decide; [intros [= <-]; split; [by eapply Hp|done]|].
  destruct (ParseUint (TrimSpace s1)) as [m|] eqn:E1; [|done]. intros [= <-]. split; by eapply Hp.
Qed.
