(* ===== verification/BlockCache.v ===== *)
(** * What the data sinks keep per block: the two-level maps of [driver/controller/startup]

    The time series and the webhook controller cache what the tasks of a block produce in
    a map from block numbers to task numbers to items, until a checkpoint commits the
    blocks up to it. This file has the map functions of [common/utils/map.go] they use and
    the laws of such a cache. *)
From Stdlib Require Import ZArith Lia.
From stdpp Require Import base numbers option strings sorting gmap list.
From S2P Require Import Prelude RangeBase RangeSet RangeSetOps RangeCut.

(** ** The functions of [common/utils] *)

Section K2.
Context {K1 K2 V : Type} `{Countable K1} `{Countable K2}.

Definition GetFromK2Map (m : gmap K1 (gmap K2 V)) (k1 : K1) (k2 : K2) : option V :=
  match m !! k1 with
  | None => None
  | Some m2 => m2 !! k2
  end.

Definition PutIntoK2Map (m : gmap K1 (gmap K2 V)) (k1 : K1) (k2 : K2) (v : V) : gmap K1 (gmap K2 V) :=
  <[k1 := <[k2 := v]> (default ∅ (m !! k1))]> m.

Lemma Get_Put m k1 k2 v : GetFromK2Map (PutIntoK2Map m k1 k2 v) k1 k2 = Some v.
Proof. unfold GetFromK2Map, PutIntoK2Map. by rewrite lookup_insert_eq, lookup_insert_eq. Qed.

Lemma Get_Put_ne m k1 k2 v j1 j2 :
  (j1, j2) <> (k1, k2) -> GetFromK2Map (PutIntoK2Map m k1 k2 v) j1 j2 = GetFromK2Map m j1 j2.
Proof.
  intros Hne. unfold GetFromK2Map, PutIntoK2Map. destruct (decide (j1 = k1)) as [->|Hn].
  - rewrite lookup_insert_eq. rewrite lookup_insert_ne by congruence. by destruct (m !! k1).
  - by rewrite lookup_insert_ne.
Qed.
End K2.

Definition IncrK2Map {K1 K2} `{Countable K1} `{Countable K2}
    (m : gmap K1 (gmap K2 Z)) (k1 : K1) (k2 : K2) (delta : Z) : gmap K1 (gmap K2 Z) :=
  PutIntoK2Map m k1 k2 (default 0 (GetFromK2Map m k1 k2) + delta).

Definition GetMapValuesOrderByKey {V} (m : gmap Z V) : list V :=
  omap (fun k => m !! k) (ordered_keys (dom m)).

Definition MergeArr {A} (arrs : list (list A)) : list A := concat arrs.

Definition CountMap {A} (m : gmap Z (list A)) : Z :=
  map_fold (fun _ v acc => Z.of_nat (length v) + acc) 0 m.

(** ** Caches *)

Abbreviation CacheOf X := (gmap Z (gmap Z (list X))).

Section Cache.
Context {X : Type}.
Local Abbreviation Cache := (CacheOf X).


(** [Insert]: what a task adds goes behind what it added before. *)
Definition cache_Insert (c : Cache) (blockNumber task : Z) (items : list X) : Cache :=
  let org := default [] (GetFromK2Map c blockNumber task) in
  PutIntoK2Map c blockNumber task (org ++ items).

(** [utils.MapDelete] of the blocks above, and of the blocks up to a number. *)
Definition drop_above (c : Cache) (n : Z) : Cache := filter (fun kv => kv.1 <= n) c.
Definition drop_upto (c : Cache) (n : Z) : Cache := filter (fun kv => n < kv.1) c.

(** The items of a block in the order of the tasks. *)
Definition block_items (m : gmap Z (list X)) : list X := MergeArr (GetMapValuesOrderByKey m).

(** What the cache has for a block. *)
Definition cached_at (c : Cache) (b : Z) : list X := block_items (default ∅ (c !! b)).

(** The loop over the ordered blocks that collects what is to be committed. *)
Definition collect (c : Cache) (n : Z) : list X :=
  concat (map (fun b => if b <=? n then cached_at c b else []) (ordered_keys (dom c))).

Lemma block_items_empty : block_items ∅ = [].
Proof. unfold block_items, GetMapValuesOrderByKey. by rewrite dom_empty_L. Qed.

Lemma values_perm {V} (m : gmap Z V) : GetMapValuesOrderByKey m ≡ₚ (map_to_list m).*2.
Proof.
  unfold GetMapValuesOrderByKey, ordered_keys. rewrite merge_sort_Permutation.
  assert (Hk : elements (dom m) ≡ₚ (map_to_list m).*1).
  { apply NoDup_Permutation; [apply NoDup_elements|apply NoDup_fst_map_to_list|]. intros k.
    rewrite elem_of_elements, elem_of_dom, list_elem_of_fmap. split.
    - intros [v Hv]. exists (k, v). by rewrite elem_of_map_to_list.
    - intros ([k' v] & -> & Hv%elem_of_map_to_list). by exists v. }
  rewrite Hk. clear Hk. assert (Hl : Forall (fun kv => m !! kv.1 = Some kv.2) (map_to_list m)).
  { apply Forall_forall. intros [k v]. apply elem_of_map_to_list. }
  induction Hl as [|[k v] l Hkv Hl IH]; [done|]. simpl in *. rewrite Hkv. simpl. constructor. exact IH.
Qed.

Lemma concat_perm {A} (l l' : list (list A)) : l ≡ₚ l' -> concat l ≡ₚ concat l'.
Proof.
  induction 1 as [| |x y l|]; simpl; [done|by f_equiv| |by etrans].
  by rewrite !app_assoc, (Permutation_app_comm x).
Qed.

Lemma block_items_insert (m : gmap Z (list X)) t l :
  block_items (<[t := l]> m) ≡ₚ l ++ block_items (delete t m).
Proof.
  unfold block_items, MergeArr. rewrite (concat_perm _ _ (values_perm (<[t:=l]> m))).
  rewrite (concat_perm _ _ (values_perm (delete t m))). rewrite <- insert_delete_eq.
  rewrite (concat_perm _ ((t, l) :: map_to_list (delete t m)).*2); [done|].
  by rewrite map_to_list_insert by apply lookup_delete_eq.
Qed.

Lemma block_items_delete (m : gmap Z (list X)) t l :
  m !! t = Some l -> block_items m ≡ₚ l ++ block_items (delete t m).
Proof. intros H. rewrite <- (insert_id m t l H) at 1. apply block_items_insert. Qed.

Lemma cached_at_Insert_ne c b t l b' : b' <> b -> cached_at (cache_Insert c b t l) b' = cached_at c b'.
Proof. intros Hne. unfold cached_at, cache_Insert, PutIntoK2Map. by rewrite lookup_insert_ne. Qed.

Lemma cached_at_drop_above c n b : cached_at (drop_above c n) b = if b <=? n then cached_at c b else [].
Proof.
  unfold cached_at, drop_above. destruct (Z.leb_spec b n) as [Hb|Hb].
  - destruct (c !! b) as [m|] eqn:E.
    + by rewrite (map_lookup_filter_Some_2 _ c b m).
    + rewrite map_lookup_filter_None_2 by (by left). done.
  - rewrite map_lookup_filter_None_2 by (right; simpl; intros; lia). apply block_items_empty.
Qed.

Lemma cached_at_drop_upto c n b : cached_at (drop_upto c n) b = if b <=? n then [] else cached_at c b.
Proof.
  unfold cached_at, drop_upto. destruct (Z.leb_spec b n) as [Hb|Hb].
  - rewrite map_lookup_filter_None_2 by (right; simpl; intros; lia). apply block_items_empty.
  - destruct (c !! b) as [m|] eqn:E.
    + by rewrite (map_lookup_filter_Some_2 _ c b m).
    + rewrite map_lookup_filter_None_2 by (by left). done.
Qed.

(** An item of block [b] is inserted at the place of its task. *)
Lemma ordered_keys_nodup (s : gset Z) : NoDup (ordered_keys s).
Proof. unfold ordered_keys. rewrite merge_sort_Permutation. apply NoDup_elements. Qed.

(** A function of the items, such as a filter, sees of the collected items only those of
    the blocks on which it is not empty. *)
Lemma concat_map_one {A} (f : Z -> list A) (l : list Z) (b : Z) :
  NoDup l -> (forall x, x ∈ l -> x <> b -> f x = []) -> (b ∉ l -> f b = []) -> concat (map f l) = f b.
Proof.
  intros Hn Hz Hb. induction Hn as [|x l Hx Hn IH]; simpl.
  { rewrite Hb; [done|apply not_elem_of_nil]. }
  destruct (decide (b ∈ x :: l)) as [Hin|Hni]; [destruct (decide (x = b)) as [->|Hne]|].
  - assert (concat (map f l) = []) as ->; [|apply app_nil_r].
    assert (Hall : forall y, y ∈ l -> f y = []).
    { intros y Hy. apply Hz; [by constructor|]. intros ->. done. }
    clear -Hall. induction l as [|y l IH]; [done|]. simpl. rewrite Hall by constructor. apply IH.
    intros z Hz. apply Hall. by constructor.
  - rewrite Hz by (done || constructor). apply IH; [intros; apply Hz; [by constructor|done]|].
    intros Hbl. apply elem_of_cons in Hin as [->|Hin]; done.
  - rewrite Hb by done. rewrite Hz; [|constructor|intros ->; apply Hni; constructor].
    simpl. rewrite IH; [by apply Hb|intros; apply Hz; [by constructor|done]|intros _; by apply Hb].
Qed.

Lemma cached_at_not_dom c b : b ∉ ordered_keys (dom c) -> cached_at c b = [].
Proof.
  rewrite ordered_keys_elem, not_elem_of_dom. unfold cached_at. intros ->. apply block_items_empty.
Qed.

Lemma filter_none {A} (P : A -> Prop) `{forall x, Decision (P x)} (l : list A) : (forall x, x ∈ l -> ~ P x) -> filter P l = [].
Proof.
  induction l as [|x l IH]; [done|]. intros Hp. rewrite filter_cons_False by (apply Hp; constructor).
  apply IH. intros y Hy. apply Hp. by constructor.
Qed.

Lemma filter_all {A} (P : A -> Prop) `{forall x, Decision (P x)} (l : list A) : (forall x, x ∈ l -> P x) -> filter P l = l.
Proof.
  induction l as [|x l IH]; [done|]. intros Hp. rewrite filter_cons_True by (apply Hp; constructor).
  rewrite IH; [done|]. intros y Hy. apply Hp. by constructor.
Qed.

Lemma filter_concat {A} (P : A -> Prop) `{forall x, Decision (P x)} (ls : list (list A)) :
  filter P (concat ls) = concat (map (filter P) ls).
Proof. induction ls as [|l ls IH]; [done|]. simpl. by rewrite filter_app, IH. Qed.

(** What the items stand for: the rows [rows_of x] of an item, each with its block. *)
Context {Y : Type} (rows_of : X -> list Y) (at_ : Y -> Z).

Definition flat (l : list X) : list Y := concat (map rows_of l).

Lemma flat_app l1 l2 : flat (l1 ++ l2) = flat l1 ++ flat l2.
Proof. unfold flat. by rewrite map_app, concat_app. Qed.

Lemma flat_concat ls : flat (concat ls) = concat (map flat ls).
Proof. induction ls as [|l ls IH]; [done|]. simpl. by rewrite flat_app, IH. Qed.

Lemma elem_of_flat l y : y ∈ flat l <-> exists x, x ∈ l /\ y ∈ rows_of x.
Proof.
  unfold flat. rewrite list_elem_of_In, in_concat. split.
  - intros (r & Hr & Hy). apply in_map_iff in Hr as (x & <- & Hx). exists x. by rewrite !list_elem_of_In.
  - intros (x & Hx & Hy). exists (rows_of x). split; [apply in_map|]; by apply list_elem_of_In.
Qed.

(** Every cached row is kept under its own block. *)
Definition cache_ok (c : Cache) : Prop := forall b y, y ∈ flat (cached_at c b) -> at_ y = b.

(** The collected rows of a block are the ones cached for it, in their order. *)
Lemma collect_at c n b :
  cache_ok c -> filter (fun y => at_ y = b) (flat (collect c n)) = if b <=? n then flat (cached_at c b) else [].
Proof.
  intros Hc. unfold collect. rewrite flat_concat, filter_concat, !map_map.
  set (f := fun k => filter (fun y => at_ y = b) (flat (if k <=? n then cached_at c k else []))).
  assert (Hf : f b = if b <=? n then flat (cached_at c b) else []).
  { subst f. cbv beta. bcase; [|done]. apply filter_all. intros x Hx. by apply Hc. }
  rewrite <- Hf. apply concat_map_one.
  - apply ordered_keys_nodup.
  - intros k _ Hne. subst f. cbv beta. apply filter_none. bcase; [|intros x Hx; by apply not_elem_of_nil in Hx].
    intros x Hx Ha. apply Hne. by rewrite <- (Hc k x Hx).
  - intros Hb. rewrite Hf, cached_at_not_dom by done. by bcase.
Qed.

Lemma collect_bound c n y : cache_ok c -> y ∈ flat (collect c n) -> at_ y <= n.
Proof.
  intros Hc Hy. unfold collect in Hy. rewrite flat_concat in Hy.
  apply list_elem_of_In, in_concat in Hy as (l & Hl & Hy).
  rewrite map_map in Hl. apply in_map_iff in Hl as (b & <- & Hb). apply list_elem_of_In in Hy.
  destruct (Z.leb_spec b n); [|by apply not_elem_of_nil in Hy]. by rewrite (Hc b y Hy).
Qed.

Lemma cache_ok_drop_above c n : cache_ok c -> cache_ok (drop_above c n).
Proof. intros Hc b x. rewrite cached_at_drop_above. bcase; [apply Hc|intros Hx; by apply not_elem_of_nil in Hx]. Qed.

Lemma cache_ok_drop_upto c n : cache_ok c -> cache_ok (drop_upto c n).
Proof. intros Hc b x. rewrite cached_at_drop_upto. bcase; [intros Hx; by apply not_elem_of_nil in Hx|apply Hc]. Qed.

Lemma cache_ok_empty : cache_ok ∅.
Proof.
  intros b x Hx. unfold cached_at in Hx. rewrite lookup_empty in Hx. simpl in Hx.
  rewrite block_items_empty in Hx. by apply not_elem_of_nil in Hx.
Qed.

Lemma elem_of_block_items (m : gmap Z (list X)) x : x ∈ block_items m <-> exists t l, m !! t = Some l /\ x ∈ l.
Proof.
  unfold block_items, MergeArr, GetMapValuesOrderByKey. rewrite list_elem_of_In, in_concat.
  split.
  - intros (l & Hl & Hx). apply list_elem_of_In, list_elem_of_omap in Hl as (t & _ & Ht). apply list_elem_of_In in Hx. eauto.
  - intros (t & l & Ht & Hx). exists l. rewrite <- !list_elem_of_In. split; [|done].
    apply list_elem_of_omap. exists t. split; [|done]. apply ordered_keys_elem, elem_of_dom. by eexists.
Qed.

Lemma elem_of_cached_Insert c b t l x :
  x ∈ cached_at (cache_Insert c b t l) b -> x ∈ cached_at c b \/ x ∈ l.
Proof.
  unfold cached_at, cache_Insert, PutIntoK2Map. rewrite lookup_insert_eq. simpl.
  rewrite !elem_of_block_items. intros (t' & l' & Ht & Hx). destruct (decide (t' = t)) as [->|Hnt].
  - rewrite lookup_insert_eq in Ht. injection Ht as <-. apply elem_of_app in Hx as [Hx|Hx]; [|by right].
    left. unfold GetFromK2Map in Hx. destruct (c !! b) as [m2|]; [|by apply not_elem_of_nil in Hx].
    destruct (m2 !! t) as [org|] eqn:Et; [|by apply not_elem_of_nil in Hx]. eauto.
  - rewrite lookup_insert_ne in Ht by done. eauto.
Qed.

Lemma cache_ok_Insert c b t l :
  cache_ok c -> Forall (fun y => at_ y = b) (flat l) -> cache_ok (cache_Insert c b t l).
Proof.
  intros Hc Hl b' y. destruct (decide (b' = b)) as [->|Hne]; [|rewrite cached_at_Insert_ne by done; apply Hc].
  rewrite elem_of_flat. intros (x & [Hx|Hx]%elem_of_cached_Insert & Hy).
  - apply Hc. apply elem_of_flat. eauto.
  - apply (proj1 (Forall_forall _ _) Hl). apply elem_of_flat. eauto.
Qed.

(** An insertion adds the items to those of the block, at the place of its task. *)
Lemma cached_at_Insert c b t l : cached_at (cache_Insert c b t l) b ≡ₚ cached_at c b ++ l.
Proof.
  unfold cached_at, cache_Insert, PutIntoK2Map, GetFromK2Map. rewrite lookup_insert_eq. simpl.
  destruct (c !! b) as [m|]; simpl; [|by rewrite (block_items_insert ∅), delete_empty, block_items_empty, app_nil_r].
  rewrite block_items_insert. destruct (m !! t) as [org|] eqn:E; simpl.
  - rewrite (block_items_delete m t org E). rewrite <- (app_assoc org), (Permutation_app_comm l).
    by rewrite app_assoc.
  - rewrite delete_id by done. by rewrite Permutation_app_comm.
Qed.

#[local] Instance Zlt_antisymm : AntiSymm eq Z.lt.
Proof. intros x y ? ?. lia. Qed.

(** An insertion for a later block while the blocks up to [n] are being committed
    neither changes what is committed nor gets lost. *)
Lemma Insert_during_commit c n b t l :
  n < b -> collect (cache_Insert c b t l) n = collect c n /\
  drop_upto (cache_Insert c b t l) n = cache_Insert (drop_upto c n) b t l.
Proof.
  intros Hb. split.
  - assert (Hk : forall c' : Cache, collect c' n = concat (map (cached_at c') (filter (fun k => k <= n) (ordered_keys (dom c'))))).
    { intros c'. unfold collect. induction (ordered_keys (dom c')) as [|k ks IH]; [done|]. simpl.
      rewrite filter_cons. destruct (Z.leb_spec k n), (decide (k <= n)); try lia; simpl; by rewrite IH. }
    rewrite !Hk. assert (Hkeys : filter (fun k => k <= n) (ordered_keys (dom (cache_Insert c b t l))) =
                       filter (fun k => k <= n) (ordered_keys (dom c))).
    { apply (StronglySorted_unique Z.lt).
      - eapply StronglySorted_sublist; [apply sublist_filter|apply ordered_keys_sorted].
      - eapply StronglySorted_sublist; [apply sublist_filter|apply ordered_keys_sorted].
      - apply NoDup_Permutation; [apply NoDup_filter, ordered_keys_nodup..|]. intros k.
        rewrite !list_elem_of_filter, !ordered_keys_elem. unfold cache_Insert, PutIntoK2Map.
        rewrite dom_insert_L. set_solver by lia. }
    rewrite Hkeys. f_equal. apply map_ext_in. intros k Hin%list_elem_of_In.
    apply list_elem_of_filter in Hin as [Hle _]. apply cached_at_Insert_ne. lia.
  - unfold cache_Insert, PutIntoK2Map, drop_upto. rewrite map_filter_insert_True by done.
    assert (Hbb : filter (fun kv : Z * gmap Z (list X) => n < kv.1) c !! b = c !! b).
    { destruct (c !! b) as [m|] eqn:E; [by apply map_lookup_filter_Some_2|].
      apply map_lookup_filter_None_2. by left. }
    unfold GetFromK2Map. by rewrite Hbb.
Qed.
End Cache.
