(* ===== verification/BlockRange.v ===== *)
(** * The driver's own copy of the range library: [driver/controller/range.go]

    The controller package does not use [common/range]: it has its own
    [BlockRange] and [BlockRangeSet] with the same algorithms. They are modelled
    here from that file, function by function, and shown to compute what the
    functions of [common/range] compute ([to_range], [to_set]), so the theorems of
    [RangeSet] and [RangeCut] hold of them too. *)
From Stdlib Require Import ZArith Lia.
From stdpp Require Import base numbers option sorting gmap list.
From S2P Require Import Prelude RangeBase RangeSet RangeSetOps RangeCut.

(** ** Pointers read as numbers with nil for infinity *)

Definition BR_EqualNilAsInf (a b : option Z) : bool :=
  match a, b with
  | None, None => true
  | Some x, Some y => x =? y
  | _, _ => false
  end.

Fixpoint BR_MinNilAsInf_loop (r : Z) (has : bool) (ns : list (option Z)) : option Z :=
  match ns with
  | [] => if has then Some r else None
  | None :: t => BR_MinNilAsInf_loop r has t
  | Some n :: t => BR_MinNilAsInf_loop (if has then Z.min r n else n) true t
  end.

Definition BR_MinNilAsInf (ns : list (option Z)) : option Z :=
  BR_MinNilAsInf_loop 0 false ns.

Fixpoint BR_MaxNilAsInf_loop (r : Z) (ns : list (option Z)) : option Z :=
  match ns with
  | [] => Some r
  | None :: _ => None
  | Some n :: t => BR_MaxNilAsInf_loop (Z.max r n) t
  end.

Definition BR_MaxNilAsInf (ns : list (option Z)) : option Z := BR_MaxNilAsInf_loop 0 ns.

Definition BR_LessNilAsInf (a b : option Z) : bool :=
  match a with
  | None => false
  | Some x => match b with None => true | Some y => x <? y end
  end.

Definition BR_LessEqualNilAsInf (a b : option Z) : bool :=
  match a with
  | None => match b with None => true | Some _ => false end
  | Some x => match b with None => true | Some y => x <=? y end
  end.

(** ** Block ranges *)

Record BlockRange : Type := mkBlockRange { StartBlock : Z; EndBlock : option Z }.

Definition EmptyBlockRange : BlockRange := mkBlockRange maxU64 (Some 0).

Definition BR_EndOrZero (r : BlockRange) : Z :=
  match EndBlock r with None => 0 | Some e => e end.

Definition BR_IsEmpty (r : BlockRange) : bool :=
  match EndBlock r with None => false | Some e => e <? StartBlock r end.

Definition BR_Contains (r : BlockRange) (n : Z) : bool :=
  if BR_IsEmpty r then false
  else (StartBlock r <=? n) && BR_LessEqualNilAsInf (Some n) (EndBlock r).

Definition BR_Include (r a : BlockRange) : bool :=
  if BR_IsEmpty a then true
  else if BR_IsEmpty r then false
  else (StartBlock r <=? StartBlock a) && BR_LessEqualNilAsInf (EndBlock a) (EndBlock r).

Definition BR_Equal (r a : BlockRange) : bool :=
  BR_Include r a && BR_Include a r.

Definition BR_Intersection (r a : BlockRange) : BlockRange :=
  if BR_IsEmpty a || BR_IsEmpty r then EmptyBlockRange
  else mkBlockRange (Z.max (StartBlock r) (StartBlock a)) (BR_MinNilAsInf [EndBlock r; EndBlock a]).

Definition BR_Cover (r a : BlockRange) : BlockRange :=
  if BR_IsEmpty r then a
  else if BR_IsEmpty a then r
  else mkBlockRange (Z.min (StartBlock r) (StartBlock a)) (BR_MaxNilAsInf [EndBlock r; EndBlock a]).

(** ** Block range sets *)

(** [brng] is the embedded [BlockRange]. *)
Record BlockRangeSet : Type := mkBlockRangeSet { brng : BlockRange; BHoles : list (Z * Z) }.

Definition EmptyBlockRangeSet : BlockRangeSet := mkBlockRangeSet EmptyBlockRange [].

Definition BR_hole (h : Z * Z) : BlockRange := mkBlockRange h.1 (Some h.2).

Definition BR_Remove (r a : BlockRange) : BlockRangeSet :=
  if BR_IsEmpty r then EmptyBlockRangeSet
  else if BR_IsEmpty a then mkBlockRangeSet r []
  else if StartBlock a <=? StartBlock r then
    if BR_LessNilAsInf (EndBlock a) (Some (StartBlock r)) then mkBlockRangeSet r []
    else if BR_LessNilAsInf (EndBlock a) (EndBlock r) then
      mkBlockRangeSet (mkBlockRange (deref (EndBlock a) +! 1) (EndBlock r)) []
    else EmptyBlockRangeSet
  else if BR_LessNilAsInf (EndBlock r) (Some (StartBlock a)) then mkBlockRangeSet r []
  else if BR_LessNilAsInf (EndBlock a) (EndBlock r) then
    mkBlockRangeSet r [(StartBlock a, deref (EndBlock a))]
  else mkBlockRangeSet (mkBlockRange (StartBlock r) (Some (StartBlock a -! 1))) [].

Definition BRS_Equal (rs a : BlockRangeSet) : bool :=
  if negb (BR_Equal (brng rs) (brng a)) then false
  else bool_decide (length (BHoles rs) = length (BHoles a))
       && forallb (fun p => bool_decide (p.1 = p.2)) (zip (BHoles rs) (BHoles a)).

Definition BRS_Contains (rs : BlockRangeSet) (n : Z) : bool :=
  if negb (BR_Contains (brng rs) n) then false
  else forallb (fun h => negb ((h.1 <=? n) && (n <=? h.2))) (BHoles rs).

Definition BRS_Include (rs : BlockRangeSet) (a : BlockRange) : bool :=
  if negb (BR_Include (brng rs) a) then false
  else forallb (fun h => BR_IsEmpty (BR_Intersection a (BR_hole h))) (BHoles rs).

Definition BRS_Last (rs : BlockRangeSet) : BlockRange :=
  if BR_IsEmpty (brng rs) then EmptyBlockRange
  else match last (BHoles rs) with
       | None => brng rs
       | Some h => mkBlockRange (h.2 +! 1) (EndBlock (brng rs))
       end.

Fixpoint BRS_skip_left (start : Z) (hs : list (Z * Z)) : list (Z * Z) :=
  match hs with
  | [] => []
  | h :: t => if h.2 <? start then BRS_skip_left start t else hs
  end.

Fixpoint BRS_skip_right (end_ : option Z) (hs_rev : list (Z * Z)) : list (Z * Z) :=
  match hs_rev with
  | [] => []
  | h :: t => if BR_LessNilAsInf end_ (Some h.1) then BRS_skip_right end_ t else hs_rev
  end.

Definition BRS_trim_left (start : Z) (hs : list (Z * Z)) : Z * list (Z * Z) :=
  match BRS_skip_left start hs with
  | [] => (start, [])
  | h :: t => if start <? h.1 then (start, h :: t) else (h.2 +! 1, t)
  end.

Definition BRS_trim_right (end_ : option Z) (hs : list (Z * Z)) : option Z * list (Z * Z) :=
  match BRS_skip_right end_ (rev hs) with
  | [] => (end_, [])
  | h :: t => if BR_LessNilAsInf (Some h.2) end_ then (end_, rev (h :: t))
              else (Some (h.1 -! 1), rev t)
  end.

Definition BRS_Intersection (rs : BlockRangeSet) (a : BlockRange) : BlockRangeSet :=
  let r := BR_Intersection (brng rs) a in
  if BR_IsEmpty r then EmptyBlockRangeSet
  else
    let '(start, holes1) := BRS_trim_left (StartBlock r) (BHoles rs) in
    let '(end_, holes2) := BRS_trim_right (EndBlock r) holes1 in
    let r' := mkBlockRange start end_ in
    if BR_IsEmpty r' then EmptyBlockRangeSet else mkBlockRangeSet r' holes2.

Fixpoint BRS_Remove_left_loop (start astart : Z) (pre hs : list (Z * Z)) : BlockRangeSet :=
  match hs with
  | [] => EmptyBlockRangeSet
  | h :: t =>
      if astart <? h.1 then mkBlockRangeSet (mkBlockRange start (Some (astart -! 1))) pre
      else if astart <=? h.2 +! 1 then mkBlockRangeSet (mkBlockRange start (Some (h.1 -! 1))) pre
      else BRS_Remove_left_loop start astart (pre ++ [h]) t
  end.

Definition BRS_Remove_left (rs : BlockRangeSet) (a : BlockRange) : BlockRangeSet :=
  if StartBlock (brng rs) <? StartBlock a then
    let left := BRS_Remove_left_loop (StartBlock (brng rs)) (StartBlock a) [] (BHoles rs) in
    if BR_IsEmpty (brng left)
    then mkBlockRangeSet (mkBlockRange (StartBlock (brng rs)) (Some (StartBlock a -! 1))) (BHoles rs)
    else left
  else EmptyBlockRangeSet.

Fixpoint BRS_Remove_right_loop (aend : Z) (end_ : option Z) (hs : list (Z * Z)) : BlockRangeSet :=
  match hs with
  | [] => EmptyBlockRangeSet
  | h :: t =>
      if aend <? h.1 -! 1 then mkBlockRangeSet (mkBlockRange (aend +! 1) end_) (h :: t)
      else if aend <=? h.2 then mkBlockRangeSet (mkBlockRange (h.2 +! 1) end_) t
      else BRS_Remove_right_loop aend end_ t
  end.

Definition BRS_Remove_right (rs : BlockRangeSet) (a : BlockRange) : BlockRangeSet :=
  if BR_LessNilAsInf (EndBlock a) (EndBlock (brng rs)) then
    let right := BRS_Remove_right_loop (deref (EndBlock a)) (EndBlock (brng rs)) (BHoles rs) in
    if BR_IsEmpty (brng right)
    then mkBlockRangeSet (mkBlockRange (deref (EndBlock a) +! 1) (EndBlock (brng rs))) []
    else right
  else EmptyBlockRangeSet.

Definition BRS_Remove (rs : BlockRangeSet) (a : BlockRange) : BlockRangeSet :=
  if BR_IsEmpty a || BR_IsEmpty (brng rs) then rs
  else if BR_LessNilAsInf (EndBlock a) (Some (StartBlock (brng rs))) then rs
  else if BR_LessNilAsInf (EndBlock (brng rs)) (Some (StartBlock a)) then rs
  else
    let left := BRS_Remove_left rs a in
    let right := BRS_Remove_right rs a in
    let result :=
      if negb (BR_IsEmpty (brng left)) && negb (BR_IsEmpty (brng right)) then
        mkBlockRangeSet (brng rs)
          (BHoles left
           ++ [(deref (EndBlock (brng left)) +! 1, StartBlock (brng right) -! 1)]
           ++ BHoles right)
      else if BR_IsEmpty (brng left) then right
      else left in
    if BR_IsEmpty (brng result) then EmptyBlockRangeSet else result.

Fixpoint BRS_Union_loop (a : BlockRange) (hs : list (Z * Z)) : list (Z * Z) :=
  match hs with
  | [] => []
  | h :: t =>
      let remain := BR_Remove (BR_hole h) a in
      if BR_IsEmpty (brng remain) then BRS_Union_loop a t
      else match BHoles remain with
           | [x] => (h.1, x.1 -! 1) :: (x.2 +! 1, h.2) :: t
           | _ => (StartBlock (brng remain), deref (EndBlock (brng remain))) :: BRS_Union_loop a t
           end
  end.

Definition BRS_Union (rs : BlockRangeSet) (a : BlockRange) : BlockRangeSet :=
  if BR_IsEmpty a then rs
  else if BR_IsEmpty (brng rs) then mkBlockRangeSet a []
  else if BR_LessNilAsInf (EndBlock (brng rs)) (Some (StartBlock a)) then
    if deref (EndBlock (brng rs)) +! 1 =? StartBlock a
    then mkBlockRangeSet (mkBlockRange (StartBlock (brng rs)) (EndBlock a)) (BHoles rs)
    else mkBlockRangeSet (mkBlockRange (StartBlock (brng rs)) (EndBlock a))
           (BHoles rs ++ [(deref (EndBlock (brng rs)) +! 1, StartBlock a -! 1)])
  else if BR_LessNilAsInf (EndBlock a) (Some (StartBlock (brng rs))) then
    if deref (EndBlock a) +! 1 =? StartBlock (brng rs)
    then mkBlockRangeSet (mkBlockRange (StartBlock a) (EndBlock (brng rs))) (BHoles rs)
    else mkBlockRangeSet (mkBlockRange (StartBlock a) (EndBlock (brng rs)))
           ((deref (EndBlock a) +! 1, StartBlock (brng rs) -! 1) :: BHoles rs)
  else mkBlockRangeSet (BR_Cover a (brng rs)) (BRS_Union_loop a (BHoles rs)).

Fixpoint BR_pieces_between (ns : list Z) : list BlockRange :=
  match ns with
  | a :: (b :: _) as t => mkBlockRange a (Some (b -! 1)) :: BR_pieces_between t
  | _ => []
  end.

Definition BR_CutRangeSet_collect (start : Z) (acc : gset Z * bool) (r : BlockRange) : gset Z * bool :=
  let '(sbn, inf) := acc in
  match EndBlock r with
  | Some e =>
      if e <? start then (sbn, inf)
      else ({[e +! 1]} ∪ ({[Z.max (StartBlock r) start]} ∪ sbn), inf)
  | None => ({[Z.max (StartBlock r) start]} ∪ sbn, true)
  end.

Definition BR_CutRangeSet (start : Z) (rs : list BlockRange) : list BlockRange :=
  match rs with
  | [] => []
  | _ =>
      let '(sbn, inf) := foldl (BR_CutRangeSet_collect start) (∅, false) rs in
      let ns := ordered_keys sbn in
      BR_pieces_between ns ++ (if inf : bool then [mkBlockRange (default 0 (last ns)) None] else [])
  end.

(** ** Agreement with [common/range] *)

Definition to_range (r : BlockRange) : Range := mkRange (StartBlock r) (EndBlock r).
Definition to_set (rs : BlockRangeSet) : RangeSet := mkRangeSet (to_range (brng rs)) (BHoles rs).

Lemma BR_MinNilAsInf_loop_eq r has ns : BR_MinNilAsInf_loop r has ns = MinNilAsInf_loop r has ns.
Proof. revert r has. induction ns as [|[n|] t IH]; intros r has; simpl; auto. Qed.

Lemma BR_MinNilAsInf_eq ns : BR_MinNilAsInf ns = MinNilAsInf ns.
Proof. apply BR_MinNilAsInf_loop_eq. Qed.

Lemma BR_MaxNilAsInf_loop_eq r ns : BR_MaxNilAsInf_loop r ns = MaxNilAsInf_loop r ns.
Proof. revert r. induction ns as [|[n|] t IH]; intros r; simpl; auto. Qed.

Lemma BR_MaxNilAsInf_eq ns : BR_MaxNilAsInf ns = MaxNilAsInf ns.
Proof. apply BR_MaxNilAsInf_loop_eq. Qed.

Lemma BR_IsEmpty_eq r : BR_IsEmpty r = IsEmpty (to_range r).
Proof. reflexivity. Qed.

Lemma BR_Include_eq r a : BR_Include r a = Range_Include (to_range r) (to_range a).
Proof. reflexivity. Qed.

Lemma BR_Contains_eq r n : BR_Contains r n = Range_Contains (to_range r) n.
Proof. reflexivity. Qed.

Lemma to_range_if (b : bool) x y : to_range (if b then x else y) = if b then to_range x else to_range y.
Proof. by destruct b. Qed.

Lemma to_set_if (b : bool) x y : to_set (if b then x else y) = if b then to_set x else to_set y.
Proof. by destruct b. Qed.

Lemma to_range_BR_Intersection r a :
  to_range (BR_Intersection r a) = Range_Intersection (to_range r) (to_range a).
Proof.
  unfold BR_Intersection, Range_Intersection.
  rewrite to_range_if, BR_MinNilAsInf_eq. reflexivity.
Qed.

Lemma to_range_BR_Cover r a : to_range (BR_Cover r a) = Cover (to_range r) (to_range a).
Proof.
  unfold BR_Cover, Cover. rewrite !to_range_if, BR_MaxNilAsInf_eq. reflexivity.
Qed.

Lemma to_set_BR_Remove r a : to_set (BR_Remove r a) = Range_Remove (to_range r) (to_range a).
Proof. unfold BR_Remove, Range_Remove. rewrite !to_set_if. reflexivity. Qed.

Lemma BRS_Equal_eq rs a : BRS_Equal rs a = RangeSet_Equal (to_set rs) (to_set a).
Proof. reflexivity. Qed.

Lemma BRS_Contains_eq rs n : BRS_Contains rs n = RangeSet_Contains (to_set rs) n.
Proof. reflexivity. Qed.

Lemma BRS_Include_eq rs a : BRS_Include rs a = RangeSet_Include (to_set rs) (to_range a).
Proof.
  unfold BRS_Include, RangeSet_Include. rewrite BR_Include_eq. simpl.
  destruct (negb _); [done|]. induction (BHoles rs) as [|h t IH]; simpl; [done|].
  rewrite IH, BR_IsEmpty_eq, to_range_BR_Intersection. reflexivity.
Qed.

Lemma to_range_BRS_Last rs : to_range (BRS_Last rs) = Last (to_set rs).
Proof.
  unfold BRS_Last, Last. rewrite to_range_if. destruct rs as [r hs]; simpl.
  destruct (last hs); reflexivity.
Qed.

Lemma BRS_skip_left_eq start hs : BRS_skip_left start hs = skip_left start hs.
Proof. induction hs as [|h t IH]; simpl; [done|]. by rewrite IH. Qed.

Lemma BRS_skip_right_eq e hs : BRS_skip_right e hs = skip_right e hs.
Proof. induction hs as [|h t IH]; simpl; [done|]. by rewrite IH. Qed.

Lemma BRS_trim_left_eq start hs : BRS_trim_left start hs = trim_left start hs.
Proof. unfold BRS_trim_left, trim_left. by rewrite BRS_skip_left_eq. Qed.

Lemma BRS_trim_right_eq e hs : BRS_trim_right e hs = trim_right e hs.
Proof. unfold BRS_trim_right, trim_right. by rewrite BRS_skip_right_eq. Qed.

Lemma to_set_BRS_Intersection rs a :
  to_set (BRS_Intersection rs a) = RangeSet_Intersection (to_set rs) (to_range a).
Proof.
  unfold BRS_Intersection, RangeSet_Intersection.
  change (rng (to_set rs)) with (to_range (brng rs)).
  rewrite <- to_range_BR_Intersection, to_set_if, <- BR_IsEmpty_eq.
  destruct (BR_Intersection (brng rs) a) as [s e]; simpl.
  rewrite BRS_trim_left_eq. destruct (trim_left s _) as [s' hs1].
  rewrite BRS_trim_right_eq. destruct (trim_right e hs1) as [e' hs2].
  rewrite to_set_if. reflexivity.
Qed.

Lemma to_set_BRS_Remove_left_loop start astart pre hs :
  to_set (BRS_Remove_left_loop start astart pre hs) = Remove_left_loop start astart pre hs.
Proof.
  revert pre. induction hs as [|h t IH]; intros pre; simpl; [done|].
  by rewrite !to_set_if, IH.
Qed.

Lemma to_set_BRS_Remove_right_loop aend e hs :
  to_set (BRS_Remove_right_loop aend e hs) = Remove_right_loop aend e hs.
Proof. induction hs as [|h t IH]; simpl; [done|]. by rewrite !to_set_if, IH. Qed.

Lemma to_set_BRS_Remove_left rs a :
  to_set (BRS_Remove_left rs a) = Remove_left (to_set rs) (to_range a).
Proof.
  unfold BRS_Remove_left, Remove_left. simpl.
  rewrite <- to_set_BRS_Remove_left_loop, !to_set_if. reflexivity.
Qed.

Lemma to_set_BRS_Remove_right rs a :
  to_set (BRS_Remove_right rs a) = Remove_right (to_set rs) (to_range a).
Proof.
  unfold BRS_Remove_right, Remove_right. simpl.
  rewrite <- to_set_BRS_Remove_right_loop, !to_set_if. reflexivity.
Qed.

Lemma to_set_BRS_Remove rs a :
  to_set (BRS_Remove rs a) = RangeSet_Remove (to_set rs) (to_range a).
Proof.
  unfold BRS_Remove, RangeSet_Remove.
  rewrite <- to_set_BRS_Remove_left, <- to_set_BRS_Remove_right.
  destruct (BRS_Remove_left rs a) as [rl hl], (BRS_Remove_right rs a) as [rr hr].
  rewrite !to_set_if. change (rng (to_set (mkBlockRangeSet ?r ?h))) with (to_range r).
  rewrite <- !BR_IsEmpty_eq. simpl.
  destruct (BR_IsEmpty rl), (BR_IsEmpty rr); reflexivity.
Qed.

Lemma BRS_Union_loop_eq a hs : BRS_Union_loop a hs = Union_loop (to_range a) hs.
Proof.
  induction hs as [|h t IH]; simpl; [done|].
  change (hole_range h) with (to_range (BR_hole h)). rewrite <- to_set_BR_Remove, IH.
  reflexivity.
Qed.

Lemma to_set_BRS_Union rs a : to_set (BRS_Union rs a) = RangeSet_Union (to_set rs) (to_range a).
Proof.
  unfold BRS_Union, RangeSet_Union. simpl.
  rewrite <- to_range_BR_Cover, <- BRS_Union_loop_eq, !to_set_if. reflexivity.
Qed.

Lemma BR_pieces_between_eq ns : map to_range (BR_pieces_between ns) = pieces_between ns.
Proof.
  induction ns as [|a [|b t] IH]; simpl; [done..|]. f_equal. apply IH.
Qed.

Lemma BR_CutRangeSet_collect_eq start rs acc :
  foldl (BR_CutRangeSet_collect start) acc rs = foldl (CutRangeSet_collect start) acc (map to_range rs).
Proof. revert acc. induction rs as [|r t IH]; intros acc; simpl; [done|]. apply IH. Qed.

Lemma BR_CutRangeSet_eq start rs :
  map to_range (BR_CutRangeSet start rs) = CutRangeSet start (map to_range rs).
Proof.
  unfold BR_CutRangeSet, CutRangeSet. destruct rs as [|r t]; [done|].
  rewrite (BR_CutRangeSet_collect_eq start (r :: t) (∅, false)).
  change (map to_range (r :: t)) with (to_range r :: map to_range t).
  destruct (foldl _ _ _) as [sbn inf].
  rewrite map_app, BR_pieces_between_eq. by destruct inf.
Qed.
