(* ===== verification/BlockSet.v ===== *)
(** * The interface of the range sets

    The code has two range-set types, [RangeSet] of [common/range] and
    [BlockRangeSet] of [driver/controller]. [NumSet] states what both promise to
    their clients: the operations compute union, difference and intersection of sets
    of numbers. The client theorem here, on replaying a list of switch-on and
    switch-off events, is proved against the interface; the two instances discharge
    it. *)
From Stdlib Require Import ZArith Lia.
From stdpp Require Import base numbers option sorting gmap list.
From S2P Require Import Prelude RangeBase RangeSet RangeSetOps RangeCut BlockRange.

Class NumSet (R S : Type) : Type := {
  ns_range_mem : R -> Z -> Prop;
  ns_range_wf : R -> Prop;
  ns_mem : S -> Z -> Prop;
  ns_wf : S -> Prop;
  ns_empty : S;
  ns_remove : S -> R -> S;
  ns_union : S -> R -> S;
  ns_intersection : S -> R -> S;
  ns_include : S -> R -> bool;
  ns_range_dec r n : Decision (ns_range_mem r n);
  ns_wf_empty : ns_wf ns_empty;
  ns_mem_empty n : ~ ns_mem ns_empty n;
  ns_remove_wf s r : ns_wf s -> ns_range_wf r -> ns_wf (ns_remove s r);
  ns_remove_mem s r n :
    ns_wf s -> ns_range_wf r -> ns_mem (ns_remove s r) n <-> ns_mem s n /\ ~ ns_range_mem r n;
  ns_union_wf s r : ns_wf s -> ns_range_wf r -> ns_wf (ns_union s r);
  ns_union_mem s r n :
    ns_wf s -> ns_range_wf r -> ns_mem (ns_union s r) n <-> ns_mem s n \/ ns_range_mem r n;
  ns_intersection_wf s r : ns_wf s -> ns_range_wf r -> ns_wf (ns_intersection s r);
  ns_intersection_mem s r n :
    ns_wf s -> ns_range_wf r -> ns_mem (ns_intersection s r) n <-> ns_mem s n /\ ns_range_mem r n;
  ns_include_iff s r :
    ns_include s r = true <-> forall n, ns_range_mem r n -> ns_mem s n
}.
#[global] Existing Instance ns_range_dec.

(** ** Replaying events *)

Section Replay.
Context {R S : Type} `{NumSet R S}.

(** An event switches the numbers of a range off ([true]) or on ([false]). *)
Definition replay_step (on : S) (ev : bool * R) : S :=
  if ev.1 then ns_remove on ev.2 else ns_union on ev.2.

Definition replay (evs : list (bool * R)) : S := foldl replay_step ns_empty evs.

(** The last event whose range has [n] decides. *)
Definition decided (evs : list (bool * R)) (n : Z) : bool :=
  foldl (fun b (ev : bool * R) => if decide (ns_range_mem ev.2 n) then negb ev.1 else b) false evs.

Lemma replay_wf evs : Forall (fun ev : bool * R => ns_range_wf ev.2) evs -> ns_wf (replay evs).
Proof.
  unfold replay. induction evs as [|[off r] evs IH] using rev_ind; intros Hw; simpl; [apply ns_wf_empty|].
  apply Forall_app in Hw as [Hw [Hr _]%Forall_cons]. rewrite foldl_app. simpl. unfold replay_step at 1. simpl.
  destruct off; [apply ns_remove_wf|apply ns_union_wf]; auto.
Qed.

Lemma replay_mem evs n :
  Forall (fun ev : bool * R => ns_range_wf ev.2) evs -> ns_mem (replay evs) n <-> decided evs n = true.
Proof.
  unfold decided. induction evs as [|[off r] evs IH] using rev_ind; intros Hw.
  { unfold replay. simpl. split; [intros Hn; by apply ns_mem_empty in Hn|done]. }
  apply Forall_app in Hw as [Hw [Hr _]%Forall_cons]. simpl in Hr.
  pose proof (replay_wf evs Hw) as Hwf. specialize (IH Hw).
  unfold replay in *. rewrite !foldl_app. simpl. unfold replay_step at 1. simpl. destruct off; simpl.
  - rewrite ns_remove_mem, IH by done. case_decide; simpl; intuition done.
  - rewrite ns_union_mem, IH by done. case_decide; simpl; intuition done.
Qed.

End Replay.

(** ** The two implementations *)

(** A range the sets can take: its end is not the last [uint64]. *)
Definition usable (r : Range) : Prop := wf_range r /\ REnd r <> Some maxU64.

Lemma in_range_dec r n : Decision (in_range r n).
Proof.
  refine (cast_if (decide (Range_Contains r n = true))); by rewrite <- Range_Contains_spec.
Defined.

#[refine, global] Instance RangeSet_NumSet : NumSet Range RangeSet := {
  ns_range_mem := in_range;
  ns_range_wf := usable;
  ns_mem := in_set;
  ns_wf := wf_set;
  ns_empty := EmptyRangeSet;
  ns_remove := RangeSet_Remove;
  ns_union := RangeSet_Union;
  ns_intersection := RangeSet_Intersection;
  ns_include := RangeSet_Include;
  ns_range_dec := in_range_dec
}.
Proof.
  - apply wf_EmptyRangeSet.
  - apply in_set_EmptyRangeSet.
  - intros s r Hs [Hr Hm]. by apply RangeSet_Remove_correct.
  - intros s r n Hs [Hr Hm]. by apply RangeSet_Remove_correct.
  - intros s r Hs [Hr Hm]. by apply RangeSet_Union_correct.
  - intros s r n Hs [Hr Hm]. by apply RangeSet_Union_correct.
  - intros s r Hs [Hr Hm]. by apply RangeSet_Intersection_correct.
  - intros s r n Hs [Hr Hm]. by apply RangeSet_Intersection_correct.
  - apply RangeSet_Include_iff.
Defined.

#[refine, global] Instance BlockRangeSet_NumSet : NumSet BlockRange BlockRangeSet := {
  ns_range_mem r := in_range (to_range r);
  ns_range_wf r := usable (to_range r);
  ns_mem s := in_set (to_set s);
  ns_wf s := wf_set (to_set s);
  ns_empty := EmptyBlockRangeSet;
  ns_remove := BRS_Remove;
  ns_union := BRS_Union;
  ns_intersection := BRS_Intersection;
  ns_include := BRS_Include;
  ns_range_dec r := in_range_dec (to_range r)
}.
Proof.
  - apply wf_EmptyRangeSet.
  - apply in_set_EmptyRangeSet.
  - intros s r Hs [Hr Hm]. rewrite to_set_BRS_Remove. by apply RangeSet_Remove_correct.
  - intros s r n Hs [Hr Hm]. rewrite to_set_BRS_Remove. by apply RangeSet_Remove_correct.
  - intros s r Hs [Hr Hm]. rewrite to_set_BRS_Union. by apply RangeSet_Union_correct.
  - intros s r n Hs [Hr Hm]. rewrite to_set_BRS_Union. by apply RangeSet_Union_correct.
  - intros s r Hs [Hr Hm]. rewrite to_set_BRS_Intersection. by apply RangeSet_Intersection_correct.
  - intros s r n Hs [Hr Hm]. rewrite to_set_BRS_Intersection. by apply RangeSet_Intersection_correct.
  - intros s r. rewrite BRS_Include_eq. apply RangeSet_Include_iff.
Defined.

(** The laws at [BlockRangeSet], as the controller uses them. *)
Section BlockRangeSetLaws.
Context (s : BlockRangeSet) (r : BlockRange) (Hs : wf_set (to_set s)) (Hr : usable (to_range r)).

Lemma BRS_Remove_wf : wf_set (to_set (BRS_Remove s r)).
Proof. exact (ns_remove_wf s r Hs Hr). Qed.

Lemma BRS_Remove_mem n :
  in_set (to_set (BRS_Remove s r)) n <-> in_set (to_set s) n /\ ~ in_range (to_range r) n.
Proof. exact (ns_remove_mem s r n Hs Hr). Qed.

Lemma BRS_Union_wf : wf_set (to_set (BRS_Union s r)).
Proof. exact (ns_union_wf s r Hs Hr). Qed.

Lemma BRS_Union_mem n :
  in_set (to_set (BRS_Union s r)) n <-> in_set (to_set s) n \/ in_range (to_range r) n.
Proof. exact (ns_union_mem s r n Hs Hr). Qed.

Lemma BRS_Intersection_wf : wf_set (to_set (BRS_Intersection s r)).
Proof. exact (ns_intersection_wf s r Hs Hr). Qed.

Lemma BRS_Intersection_mem n :
  in_set (to_set (BRS_Intersection s r)) n <-> in_set (to_set s) n /\ in_range (to_range r) n.
Proof. exact (ns_intersection_mem s r n Hs Hr). Qed.

End BlockRangeSetLaws.

Lemma BRS_Include_iff (s : BlockRangeSet) (r : BlockRange) :
  BRS_Include s r = true <-> forall n, in_range (to_range r) n -> in_set (to_set s) n.
Proof. exact (ns_include_iff s r). Qed.

(** ** Sets without holes *)

(** No number is missing between two that are in. *)
Definition convex (P : Z -> Prop) : Prop := forall a b c, a <= b <= c -> P a -> P c -> P b.

(** A set has no holes exactly when it is an interval. *)
Lemma no_holes_convex rs : wf_set rs -> (Holes rs = [] <-> convex (in_set rs)).
Proof.
  intros [_ Hh]. split.
  - intros E a b c Hb [Ha _] [Hc _]. unfold in_set. rewrite E. split; [|constructor].
    destruct Ha as [Ha _], Hc as [_ Hc]. split; [lia|].
    destruct (REnd (rng rs)); simpl in *; lia.
  - intros Hcv. destruct (IsEmpty (rng rs)) eqn:Ee; [done|].
    destruct (Holes rs) as [|h t] eqn:Eh; [done|]. exfalso.
    simpl in Hh. destruct Hh as (H1 & H2 & H3).
    pose proof (holes_ok_below _ _ _ H3) as Hb. pose proof (holes_ok_right _ _ _ H3) as Hr.
    assert (Hout : in_set rs h.1).
    { apply (Hcv (Start (rng rs)) h.1 (h.2 + 1)); [lia|..]; unfold in_set; rewrite Eh; unfold in_range.
      - split; [split; [lia|]; destruct (REnd (rng rs)); simpl in *; lia|].
        constructor; [left; lia|]. eapply Forall_impl; [exact Hr|]. simpl. unfold outside. lia.
      - split; [split; [lia|done]|]. constructor; [right; lia|].
        eapply Forall_impl; [exact Hr|]. simpl. unfold outside. lia. }
    destruct Hout as [_ Hout]. rewrite Eh in Hout. apply Forall_cons in Hout as [Hout _].
    unfold outside in Hout. lia.
Qed.
