(* ===== verification/Sparsify.v ===== *)
(** * [common/sparsify] and the array helpers it works with

    [RemoveWithMultiplier] walks a list of numbered items from its end and
    collects the indexes that may be dropped so that the gaps between the kept
    items grow geometrically; [RemoveByIndex] and [RemoveSubSeq]
    ([common/utils/array.go]) then compact the array in place. The in-place loops
    are modelled as the writes they do and shown equal to the plain list
    functions. *)
From Stdlib Require Import ZArith Lia.
From stdpp Require Import base numbers option fin_sets gmap list.
From S2P Require Import Prelude.

(** ** Compacting arrays in place *)

Section Arrays.
Context {T : Type}.

(** The loop [for i := range arr]: [k] rounds are left, [n] is the write position. *)
Fixpoint RemoveByIndex_loop (remove : gset nat) (k i n : nat) (arr : list T) : list T * nat :=
  match k with
  | O => (arr, n)
  | S k' =>
      if bool_decide (i ∈ remove) then RemoveByIndex_loop remove k' (S i) n arr
      else match arr !! i with
           | Some x => RemoveByIndex_loop remove k' (S i) (S n) (<[n := x]> arr)
           | None => (arr, n)
           end
  end.

Definition RemoveByIndex (arr : list T) (remove : gset nat) : list T :=
  if bool_decide (size remove = O) then arr
  else let '(arr', n) := RemoveByIndex_loop remove (length arr) 0 0 arr in take n arr'.

(** The loop [for i := from + num; i < len(arr); i++]. *)
Fixpoint RemoveSubSeq_loop (k i n : nat) (arr : list T) : list T * nat :=
  match k with
  | O => (arr, n)
  | S k' =>
      match arr !! i with
      | Some x => RemoveSubSeq_loop k' (S i) (S n) (<[n := x]> arr)
      | None => (arr, n)
      end
  end.

(** [num] is a signed [int]: a negative one panics; [arr[:n]] panics beyond the
    array. *)
Definition RemoveSubSeq (arr : list T) (from : nat) (num : Z) : Outcome (list T) :=
  if num =? 0 then Ok arr
  else if num <? 0 then Panic
  else
    let i := (from + Z.to_nat num)%nat in
    let '(arr', n) := RemoveSubSeq_loop (length arr - i) i from arr in
    if bool_decide (n <= length arr')%nat then Ok (take n arr') else Panic.

(** What [RemoveByIndex] keeps: the items of [l], numbered from [i], whose index is
    not in [remove]. *)
Fixpoint keep (remove : gset nat) (i : nat) (l : list T) : list T :=
  match l with
  | [] => []
  | x :: t => if bool_decide (i ∈ remove) then keep remove (S i) t else x :: keep remove (S i) t
  end.

(** One write of a compacting loop: the write position is behind the read one. *)
Lemma write_behind (arr : list T) (n i : nat) x :
  (n <= i)%nat -> (i < length arr)%nat ->
  take (S n) (<[n := x]> arr) = take n arr ++ [x] /\
  drop (S i) (<[n := x]> arr) = drop (S i) arr /\
  length (<[n := x]> arr) = length arr.
Proof.
  intros Hn Hi. split_and!.
  - rewrite (take_S_r _ _ x) by (apply list_lookup_insert_eq; lia). by rewrite take_insert_ge by lia.
  - apply drop_insert_lt. lia.
  - apply length_insert.
Qed.

Lemma RemoveByIndex_loop_keep remove k i n arr :
  (n <= i)%nat -> (i + k = length arr)%nat ->
  let '(arr', m) := RemoveByIndex_loop remove k i n arr in
  take m arr' = take n arr ++ keep remove i (drop i arr).
Proof.
  revert i n arr. induction k as [|k IH]; intros i n arr Hn Hk; simpl.
  { rewrite drop_ge by lia. simpl. by rewrite app_nil_r. }
  destruct (lookup_lt_is_Some_2 arr i ltac:(lia)) as [x Hx].
  rewrite (drop_S _ _ _ Hx). simpl. case_bool_decide as Hr; [apply IH; lia|].
  rewrite Hx. destruct (write_behind arr n i x) as (Ht & Hd & Hl); [lia..|].
  specialize (IH (S i) (S n) (<[n := x]> arr)). rewrite Hl, Ht, Hd in IH.
  destruct (RemoveByIndex_loop _ _ _ _ _) as [arr' m].
  rewrite IH by lia. by rewrite <- app_assoc.
Qed.

Lemma keep_empty i (l : list T) : keep ∅ i l = l.
Proof.
  revert i. induction l as [|x t IH]; intros i; simpl; [done|].
  rewrite bool_decide_eq_false_2 by set_solver. by rewrite IH.
Qed.

Lemma RemoveByIndex_keep arr remove : RemoveByIndex arr remove = keep remove 0 arr.
Proof.
  unfold RemoveByIndex. case_bool_decide as Hs.
  { apply size_empty_inv in Hs. replace remove with (∅ : gset nat) by set_solver.
    symmetry. apply keep_empty. }
  pose proof (RemoveByIndex_loop_keep remove (length arr) 0 0 arr) as H.
  destruct (RemoveByIndex_loop _ _ _ _ _) as [arr' n]. rewrite H by lia. by rewrite drop_0.
Qed.

Lemma RemoveSubSeq_loop_drop k i n arr :
  (n <= i)%nat -> (i + k = length arr)%nat ->
  let '(arr', m) := RemoveSubSeq_loop k i n arr in
  take m arr' = take n arr ++ drop i arr /\ (m = n + k)%nat /\ length arr' = length arr.
Proof.
  revert i n arr. induction k as [|k IH]; intros i n arr Hn Hk; simpl.
  { rewrite drop_ge by lia. rewrite app_nil_r. split_and!; [done|lia|done]. }
  destruct (lookup_lt_is_Some_2 arr i ltac:(lia)) as [x Hx].
  rewrite Hx, (drop_S _ _ _ Hx). destruct (write_behind arr n i x) as (Ht & Hd & Hl); [lia..|].
  specialize (IH (S i) (S n) (<[n := x]> arr)). rewrite Hl, Ht, Hd in IH.
  destruct (RemoveSubSeq_loop _ _ _ _) as [arr' m].
  destruct IH as (-> & -> & ->); [lia..|]. rewrite <- app_assoc. split_and!; [done|lia|done].
Qed.

Lemma RemoveSubSeq_drop arr from num :
  0 <= num -> (from + Z.to_nat num <= length arr)%nat ->
  RemoveSubSeq arr from num = Ok (take from arr ++ drop (from + Z.to_nat num) arr).
Proof.
  intros Hn Hl. unfold RemoveSubSeq. destruct (Z.eqb_spec num 0) as [->|].
  { simplify_eq. change (Z.to_nat 0) with 0%nat. by rewrite Nat.add_0_r, take_drop. }
  bcase; [lia|].
  pose proof (RemoveSubSeq_loop_drop (length arr - (from + Z.to_nat num)) (from + Z.to_nat num) from arr) as H'.
  destruct (RemoveSubSeq_loop _ _ _ _) as [arr' m]. destruct H' as (Ht & Hm & Hle); [lia..|].
  rewrite bool_decide_eq_true_2 by lia. by rewrite Ht.
Qed.

Lemma keep_sublist remove i (l : list T) : keep remove i l `sublist_of` l.
Proof.
  revert i. induction l as [|x t IH]; intros i; simpl; [done|].
  case_bool_decide; [by apply sublist_cons|by apply sublist_skip].
Qed.

Lemma keep_length remove i (l : list T) :
  (length (keep remove i l)
   = length (filter (fun j => j ∉ remove) (seq i (length l))))%nat.
Proof.
  revert i. induction l as [|x t IH]; intros i; simpl; [done|].
  rewrite filter_cons. case_bool_decide; case_decide; simpl; try done; by rewrite IH.
Qed.

Lemma keep_app remove i (l1 l2 : list T) :
  keep remove i (l1 ++ l2) = keep remove i l1 ++ keep remove (i + length l1) l2.
Proof.
  revert i. induction l1 as [|x t IH]; intros i; simpl; [by rewrite Nat.add_0_r|].
  rewrite IH, <- Nat.add_succ_comm. by case_bool_decide.
Qed.

Lemma keep_beyond remove i (l : list T) :
  (forall j, j ∈ remove -> (j < i)%nat) -> keep remove i l = l.
Proof.
  revert i. induction l as [|x t IH]; intros i H; simpl; [done|].
  rewrite bool_decide_eq_false_2 by (intros ?%H; lia). f_equal. apply IH.
  intros j Hj. specialize (H j Hj). lia.
Qed.

(** Removing marked items of a prefix leaves the rest as it is. *)
Lemma RemoveByIndex_prefix remove (l : list T) n :
  (n <= length l)%nat -> (forall j, j ∈ remove -> (j < n)%nat) ->
  RemoveByIndex l remove = RemoveByIndex (take n l) remove ++ drop n l.
Proof.
  intros Hn Hr. rewrite !RemoveByIndex_keep. rewrite <- (take_drop n l) at 1.
  rewrite keep_app, length_take_le by lia. by rewrite (keep_beyond remove (0 + n) (drop n l)) by exact Hr.
Qed.

Lemma keep_last remove i (l : list T) x :
  last l = Some x -> (i + length l - 1)%nat ∉ remove -> last (keep remove i l) = Some x.
Proof.
  intros Hl Hr. destruct l as [|y t] using rev_ind; [done|].
  rewrite last_snoc in Hl. injection Hl as ->. rewrite length_app in Hr. simpl in Hr.
  rewrite keep_app. simpl. rewrite bool_decide_eq_false_2.
  - apply last_snoc.
  - by replace (i + (length t + 1) - 1)%nat with (i + length t)%nat in Hr by lia.
Qed.

Lemma keep_head remove (l : list T) : 0%nat ∉ remove -> head (keep remove 0 l) = head l.
Proof. intros Hr. destruct l as [|x t]; [done|]. simpl. by rewrite bool_decide_eq_false_2. Qed.

End Arrays.

(** ** Choosing what to remove *)

Section Remove.
Context {T : Type} (getNum : T -> Z).

(** [getNum(origin[i])]; every index the loops use is within [origin]. *)
Definition num_at (origin : list T) (i : nat) : Z := from_option getNum 0 (origin !! i).

(** The inner loop: marks [q] while the item before it is still within [distance]. *)
Fixpoint Remove_inner (origin : list T) (pn distance : Z) (q : nat) (remove : gset nat)
    : nat * gset nat :=
  match q with
  | O => (O, remove)
  | S q' =>
      if pn -! num_at origin q' <=? distance
      then Remove_inner origin pn distance q' ({[q]} ∪ remove)
      else (q, remove)
  end.

Fixpoint Remove_outer (origin : list T) (distMultiplier : Z) (fuel : nat)
    (p : nat) (pn distance : Z) (remove : gset nat) : Outcome (gset nat) :=
  match fuel with
  | O => Diverge
  | S fuel' =>
      if bool_decide (1 < p)%nat then
        let '(q, remove') := Remove_inner origin pn distance (p - 1) remove in
        Remove_outer origin distMultiplier fuel' q (num_at origin q) (distance *! distMultiplier) remove'
      else Ok remove
  end.

Definition RemoveWithMultiplier (origin : list T) (minDist distMultiplier : Z) : Outcome (gset nat) :=
  if bool_decide (length origin <= 2)%nat then Ok ∅
  else
    let p := (length origin - 1)%nat in
    Remove_outer origin distMultiplier (length origin) p (num_at origin p) minDist ∅.

Definition Sparsify_Remove (origin : list T) : Outcome (gset nat) := RemoveWithMultiplier origin 1 2.

Definition Sparsify (origin : list T) : Outcome (list T) :=
  let! remove := Sparsify_Remove origin in Ok (RemoveByIndex origin remove).

Lemma Remove_inner_spec origin pn d q remove :
  let '(q', remove') := Remove_inner origin pn d q remove in
  (q' <= q)%nat /\
  (forall j, j ∈ remove' <-> j ∈ remove \/ (q' < j <= q)%nat) /\
  (forall j, (q' < j <= q)%nat -> pn -! num_at origin (j - 1) <= d) /\
  ((0 < q')%nat -> d < pn -! num_at origin (q' - 1)).
Proof.
  revert remove. induction q as [|q IH]; intros remove; simpl.
  { split_and!; [done|intros j; split; [auto|intros [?|?]; [done|lia]]|intros; lia|lia]. }
  destruct (Z.leb_spec (pn -! num_at origin q) d) as [Hle|Hgt].
  - specialize (IH ({[S q]} ∪ remove)). destruct (Remove_inner _ _ _ _ _) as [q' remove'].
    destruct IH as (Hq & Hr & Hd & Hs). split_and!; [lia| | |done].
    + intros j. rewrite Hr, elem_of_union, elem_of_singleton.
      split; [intros [[->|?]|?]|intros [?|?]]; auto; [right; lia..|].
      destruct (decide (j = S q)); [auto|right; lia].
    + intros j Hj. destruct (decide (j = S q)) as [->|]; [|apply Hd; lia].
      by replace (S q - 1)%nat with q by lia.
  - split_and!; [done|intros j; split; [auto|intros [?|?]; [done|lia]]|intros; lia|].
    intros _. by replace (S q - 1)%nat with q by lia.
Qed.

Lemma Remove_inner_size origin pn d q remove :
  (forall j, (j <= q)%nat -> (0 < j)%nat -> j ∉ remove) ->
  let '(q', remove') := Remove_inner origin pn d q remove in
  (size remove' = size remove + (q - q'))%nat.
Proof.
  revert remove. induction q as [|q IH]; intros remove Hn; simpl; [lia|].
  destruct (Z.leb_spec (pn -! num_at origin q) d) as [Hle|Hgt]; [|lia].
  specialize (IH ({[S q]} ∪ remove)).
  pose proof (Remove_inner_spec origin pn d q ({[S q]} ∪ remove)) as Hs.
  destruct (Remove_inner _ _ _ _ _) as [q' remove']. destruct Hs as (Hs & _).
  assert (S q ∉ remove) by (apply Hn; lia).
  rewrite IH; [rewrite size_union by set_solver; rewrite size_singleton; lia|].
  intros j Hj Hj0. specialize (Hn j). rewrite elem_of_union, elem_of_singleton.
  intros [->|?]; [lia|]. apply Hn; [lia..|done].
Qed.

(** The walk ends within its fuel, and it marks only indexes strictly between the
    first item and the position it starts at. *)
Lemma Remove_outer_ok origin m fuel p pn d remove :
  (p < fuel)%nat ->
  exists remove', Remove_outer origin m fuel p pn d remove = Ok remove' /\
    forall j, j ∈ remove' -> j ∈ remove \/ (0 < j < p)%nat.
Proof.
  revert p pn d remove. induction fuel as [|f IH]; intros p pn d remove Hf; [lia|]. simpl.
  case_bool_decide as Hp; [|eauto].
  pose proof (Remove_inner_spec origin pn d (p - 1) remove) as Hi.
  destruct (Remove_inner _ _ _ _ _) as [q remove']. destruct Hi as (Hq & Hr & _).
  destruct (IH q (num_at origin q) (d *! m) remove') as (r & -> & Hin); [lia|].
  exists r. split; [done|]. intros j Hj. destruct (Hin j Hj) as [Hj'|?]; [|right; lia].
  apply Hr in Hj' as [?|?]; [auto|right; lia].
Qed.

Lemma RemoveWithMultiplier_ok origin d m :
  exists remove, RemoveWithMultiplier origin d m = Ok remove /\
    forall j, j ∈ remove -> (0 < j < length origin - 1)%nat.
Proof.
  unfold RemoveWithMultiplier. case_bool_decide as Hl; [exists ∅; set_solver|].
  destruct (Remove_outer_ok origin m (length origin) (length origin - 1)
              (num_at origin (length origin - 1)) d ∅) as (r & -> & Hr); [lia|].
  exists r. split; [done|]. intros j Hj. destruct (Hr j Hj); [set_solver|lia].
Qed.

(** ** How much is left *)

(** The items are numbered in order, by [uint64] numbers. *)
Definition in_order (origin : list T) : Prop :=
  (forall i, (i < length origin)%nat -> u64 (num_at origin i)) /\
  (forall i j, (i <= j)%nat -> (j < length origin)%nat -> num_at origin i <= num_at origin j).

(** What the numbers spread over below index [p]. *)
Definition span (origin : list T) (p : nat) : Z := num_at origin p - num_at origin 0.

Lemma in_order_sub origin i p :
  in_order origin -> (i <= p)%nat -> (p < length origin)%nat ->
  num_at origin p -! num_at origin i = num_at origin p - num_at origin i.
Proof.
  intros [Hu Ho] Hi Hp. pose proof (Ho i p Hi Hp). pose proof (Hu p Hp).
  pose proof (Hu i ltac:(lia)). apply sub64_small; u64lia.
Qed.

(** A round that stops above the first item has stepped over more than [distance]. *)
Lemma round_stop origin d p :
  in_order origin -> (1 < p)%nat -> (p < length origin)%nat ->
  let '(q, _) := Remove_inner origin (num_at origin p) d (p - 1) (∅ : gset nat) in
  (0 < q)%nat -> d < span origin p.
Proof.
  intros Ho Hp Hl. pose proof (Remove_inner_spec origin (num_at origin p) d (p - 1) ∅) as Hi.
  destruct (Remove_inner _ _ _ _ _) as [q r]. destruct Hi as (Hq & _ & _ & Hs). intros Hq0.
  specialize (Hs Hq0). rewrite in_order_sub in Hs by (done || lia).
  destruct Ho as [_ Ho]. specialize (Ho 0%nat (q - 1)%nat). unfold span. lia.
Qed.

Lemma Remove_inner_fst origin pn d q (r r' : gset nat) :
  (Remove_inner origin pn d q r).1 = (Remove_inner origin pn d q r').1.
Proof. revert r r'. induction q as [|q IH]; intros r r'; simpl; [done|]. bcase; [apply IH|done]. Qed.

(** Of the items strictly between the first one and [p], all but [k] are marked, and
    each kept one past the second doubles the distance stepped over. *)
Lemma Remove_outer_count origin m fuel p d remove :
  in_order origin -> 2 <= m -> 1 <= d -> (p < fuel)%nat -> (p < length origin)%nat ->
  span origin p * m <= two64 ->
  (forall j, (j < p)%nat -> (0 < j)%nat -> j ∉ remove) ->
  exists remove' k, Remove_outer origin m fuel p (num_at origin p) d remove = Ok remove' /\
    (p - 1 + size remove <= size remove' + k)%nat /\
    ((2 <= k)%nat -> d * 2 ^ (Z.of_nat k - 2) < span origin p).
Proof.
  intros Ho Hm. revert p d remove.
  induction fuel as [|f IH]; intros p d remove Hd Hf Hl Hs Hn; [lia|]. simpl.
  case_bool_decide as Hp; [|exists remove, 0%nat; split_and!; [done|lia|lia]].
  pose proof (Remove_inner_spec origin (num_at origin p) d (p - 1) remove) as Hi.
  pose proof (Remove_inner_size origin (num_at origin p) d (p - 1) remove
                ltac:(intros; apply Hn; lia)) as Hz.
  pose proof (round_stop origin d p Ho Hp Hl) as Hst.
  pose proof (Remove_inner_fst origin (num_at origin p) d (p - 1) remove ∅) as Hfst.
  destruct (Remove_inner origin _ d (p - 1) ∅) as [q0 ?].
  destruct (Remove_inner _ _ _ _ _) as [q r]. simpl in Hfst. subst q0.
  destruct Hi as (Hq & Hr & _ & _).
  destruct (decide (q <= 1)%nat) as [Hq1|Hq1].
  { exists r, 1%nat. split_and!; [|lia|lia]. destruct f; [lia|]. simpl.
    by rewrite bool_decide_eq_false_2 by lia. }
  specialize (Hst ltac:(lia)).
  assert (Hdm : d *! m = d * m) by (apply wrap_small; unfold u64; nia).
  assert (Hspan : span origin q <= span origin p)
    by (destruct Ho as [_ Ho]; unfold span; specialize (Ho q p); lia).
  destruct (IH q (d *! m) r) as (r' & k & -> & Hk1 & Hk2); [nia|lia|lia|nia| |].
  { intros j Hj Hj0 [Hin|?]%Hr; [|lia]. by apply (Hn j ltac:(lia) ltac:(lia)). }
  exists r', (S k). split_and!; [done|lia|]. intros Hk.
  destruct (decide (2 <= k)%nat) as [Hk'|Hk'].
  - specialize (Hk2 Hk'). rewrite Hdm in Hk2.
    replace (Z.of_nat (S k) - 2) with (Z.succ (Z.of_nat k - 2)) by lia.
    rewrite Z.pow_succ_r by lia. pose proof (Z.pow_pos_nonneg 2 (Z.of_nat k - 2)). nia.
  - replace k with 1%nat by lia. simpl. lia.
Qed.

Lemma keep_size remove (l : list T) :
  (forall j, j ∈ remove -> (j < length l)%nat) ->
  (length (keep remove 0 l) + size remove = length l)%nat.
Proof.
  intros Hr. rewrite keep_length.
  pose proof (length_seq (length l) 0) as Hl.
  assert (Hsz : size remove = length (filter (fun j => j ∈ remove) (seq 0 (length l)))).
  { unfold size, set_size. simpl. apply Permutation_length, NoDup_Permutation.
    - apply NoDup_elements.
    - apply NoDup_filter, NoDup_seq.
    - intros j. rewrite elem_of_elements, list_elem_of_filter, elem_of_seq.
      split; [|tauto]. intros Hj. split; [done|]. specialize (Hr j Hj). lia. }
  rewrite Hsz. rewrite <- Hl at 3. clear. induction (seq 0 (length l)) as [|x t IH]; [done|].
  rewrite !filter_cons. repeat case_decide; simpl; try done; lia.
Qed.

(** [Sparsify] leaves [O(log)] of the spread of the numbers. *)
Lemma Sparsify_length_bound origin d m remove :
  in_order origin -> 2 <= m -> 1 <= d -> (2 < length origin)%nat ->
  span origin (length origin - 1) * m <= two64 ->
  RemoveWithMultiplier origin d m = Ok remove ->
  Z.of_nat (length (RemoveByIndex origin remove)) <= Z.log2 (span origin (length origin - 1)) + 4.
Proof.
  intros Ho Hm Hd Hl Hs Hr. rewrite RemoveByIndex_keep.
  destruct (RemoveWithMultiplier_ok origin d m) as (r & Hr' & Hin).
  rewrite Hr in Hr'. injection Hr' as <-.
  pose proof (keep_size remove origin ltac:(intros j Hj; specialize (Hin j Hj); lia)) as Hk.
  unfold RemoveWithMultiplier in Hr. rewrite bool_decide_eq_false_2 in Hr by lia.
  destruct (Remove_outer_count origin m (length origin) (length origin - 1) d ∅)
    as (r & k & Hr' & Hk1 & Hk2); [done..|lia|lia|done|set_solver|].
  rewrite Hr in Hr'. injection Hr' as <-. rewrite size_empty in Hk1.
  pose proof (Z.log2_nonneg (span origin (length origin - 1))).
  destruct (decide (2 <= k)%nat) as [H2|H2]; [|lia]. specialize (Hk2 H2).
  assert (2 ^ (Z.of_nat k - 2) <= span origin (length origin - 1))
    by (pose proof (Z.pow_pos_nonneg 2 (Z.of_nat k - 2)); nia).
  assert (Z.of_nat k - 2 <= Z.log2 (span origin (length origin - 1)))
    by (apply Z.log2_le_pow2; lia).
  lia.
Qed.

(** A smallest distance as large as the spread leaves only the first and the last. *)
Lemma Remove_inner_all origin d p remove :
  in_order origin -> (p < length origin)%nat -> span origin p <= d -> forall q, (q <= p)%nat ->
  (Remove_inner origin (num_at origin p) d q remove).1 = 0%nat.
Proof.
  intros Ho Hl Hd q. revert remove. induction q as [|q IH]; intros remove Hq; simpl; [done|].
  rewrite in_order_sub by (done || lia).
  assert (num_at origin 0 <= num_at origin q) by (apply Ho; lia). unfold span in Hd.
  destruct (Z.leb_spec (num_at origin p - num_at origin q) d); [|lia]. apply IH. lia.
Qed.

Lemma RemoveWithMultiplier_two origin d m remove :
  in_order origin -> (2 < length origin)%nat -> span origin (length origin - 1) <= d ->
  RemoveWithMultiplier origin d m = Ok remove -> length (RemoveByIndex origin remove) = 2%nat.
Proof.
  intros Ho Hl Hs Hr. rewrite RemoveByIndex_keep.
  destruct (RemoveWithMultiplier_ok origin d m) as (r & Hr' & Hin).
  rewrite Hr in Hr'. injection Hr' as <-.
  pose proof (keep_size remove origin ltac:(intros j Hj; specialize (Hin j Hj); lia)) as Hk.
  unfold RemoveWithMultiplier in Hr. rewrite bool_decide_eq_false_2 in Hr by lia.
  set (p := (length origin - 1)%nat) in *.
  pose proof (Remove_inner_all origin d p ∅ Ho ltac:(lia) Hs (p - 1) ltac:(lia)) as H0.
  pose proof (Remove_inner_size origin (num_at origin p) d (p - 1) ∅ ltac:(set_solver)) as Hz.
  destruct (length origin) as [|[|f]] eqn:El; [lia..|].
  cbn [Remove_outer] in Hr. rewrite bool_decide_eq_true_2 in Hr by lia.
  destruct (Remove_inner _ _ _ _ _) as [q r]. simpl in H0. subst q.
  rewrite bool_decide_eq_false_2 in Hr by lia. injection Hr as <-.
  rewrite size_empty in Hz. lia.
Qed.

End Remove.
