(* ===== verification/Errors.v ===== *)
(** * The error codes of the controller: [driver/controller/errors.go]

    An [ExternalError] is the error a run of a chain ends with; the class of its
    code decides whether the run is retried ([MainController.Main]) and how a failed
    save is reported. *)
From Stdlib Require Import ZArith Lia.
From stdpp Require Import base numbers option strings pretty list.
From S2P Require Import Prelude.

(** The wrapped error is its text. *)
Record ExternalError : Type := mkExternalError { ecode : Z; etext : string }.

(** [NewExternalError] panics on a nil error. *)
Definition NewExternalError (code : Z) (err : option string) : Outcome ExternalError :=
  match err with
  | None => Panic
  | Some e => Ok (mkExternalError code e)
  end.

(** [%03d]: padded with zeros to three digits. *)
Definition pad3 (s : string) : string :=
  match String.length s with
  | 1%nat => "00" +:+ s
  | 2%nat => "0" +:+ s
  | _ => s
  end.

Definition ExternalError_Error (e : ExternalError) : string :=
  "ERR" +:+ pad3 (pretty (ecode e)) +:+ ": " +:+ etext e.

(** ** Codes ([iota] blocks) *)

Definition ErrCodeSystem : Z := 100.
Definition ErrCodeNeedUpgrade : Z := 101.
Definition ErrCodeOOM : Z := 102.

Definition ErrCodeCallProcessorFailed : Z := 200.
Definition ErrCodeResetWasmInstanceFailed : Z := 201.
Definition ErrCodeWasmError : Z := 202.
Definition ErrCodeGetContractStartBlockFailed : Z := 203.
Definition ErrCodeFetchDataFailed : Z := 204.
Definition ErrCodeSubgraphEthCallFailed : Z := 205.
Definition ErrCodeSubgraphIpfsCatFailed : Z := 206.
Definition ErrCodeInvalidCheckpointData : Z := 207.
Definition ErrCodeSaveCheckpointFailed : Z := 208.
Definition ErrCodeQuotaServiceError : Z := 209.
Definition ErrCodeCleanTimeSeriesDataFailed : Z := 210.
Definition ErrCodeSaveTimeSeriesDataFailed : Z := 211.
Definition ErrCodeSendWebhookDataFailed : Z := 212.
Definition ErrCodeInitEntityFailed : Z := 213.
Definition ErrCodeCleanEntityDataFailed : Z := 214.
Definition ErrCodeSaveEntityDataFailed : Z := 215.
Definition ErrCodeGetEntityFromDBFailed : Z := 216.
Definition ErrCodeListEntityFromDBFailed : Z := 217.
Definition ErrCodeInvalidEntityData : Z := 218.

Definition ErrCodeUnexpectedProcessorConfig : Z := 300.
Definition ErrCodeInvalidEntitySchema : Z := 301.
Definition ErrCodeProcessorConfigsHasDiff : Z := 302.
Definition ErrCodeProcessFailed : Z := 303.
Definition ErrCodeCallWasmExportFunctionFailed : Z := 304.
Definition ErrCodeWasmInitFailed : Z := 305.
Definition ErrCodeWasmStackOverFlow : Z := 306.
Definition ErrCodeCreateTemplateFailed : Z := 307.
Definition ErrCodeInvalidSubgraphManifest : Z := 308.
Definition ErrCodeGetUnknownEntity : Z := 309.
Definition ErrCodeListUnknownEntity : Z := 310.
Definition ErrCodeListRelatedEntityWithInvalidField : Z := 311.
Definition ErrCodeInvalidListEntityFilter : Z := 312.
Definition ErrCodeInvalidUpsertEntityRequest : Z := 313.
Definition ErrCodeUpsertUnknownEntity : Z := 314.
Definition ErrCodeInvalidUpdateEntityRequest : Z := 315.
Definition ErrCodeUpdateUnknownEntity : Z := 316.
Definition ErrCodeInvalidDeleteEntityRequest : Z := 317.
Definition ErrCodeDeleteUnknownEntity : Z := 318.
Definition ErrCodeUpdateImmutableEntity : Z := 319.
Definition ErrCodeInvalidEntityFieldValue : Z := 320.
Definition ErrCodeInvalidTimeSeriesData : Z := 321.
Definition ErrCodeTimeSeriesDataSchemaChanged : Z := 322.
Definition ErrCodeTooManyWebhookMsgEntity : Z := 323.
Definition ErrCodeSubgraphEthCallWithInvalidParam : Z := 324.
Definition ErrCodeProcessorHeapOverflow : Z := 325.
Definition ErrCodeTooManyMetrics : Z := 326.
Definition ErrCodeTooManyEventTypes : Z := 327.
Definition ErrCodeTooManyTimeSeries : Z := 328.
Definition ErrCodeTooManyEntityTypes : Z := 329.

Definition ErrCodeOverQuota : Z := 400.

Definition all_codes : list Z :=
  [ErrCodeSystem; ErrCodeNeedUpgrade; ErrCodeOOM;
   ErrCodeCallProcessorFailed; ErrCodeResetWasmInstanceFailed; ErrCodeWasmError;
   ErrCodeGetContractStartBlockFailed; ErrCodeFetchDataFailed; ErrCodeSubgraphEthCallFailed;
   ErrCodeSubgraphIpfsCatFailed; ErrCodeInvalidCheckpointData; ErrCodeSaveCheckpointFailed;
   ErrCodeQuotaServiceError; ErrCodeCleanTimeSeriesDataFailed; ErrCodeSaveTimeSeriesDataFailed;
   ErrCodeSendWebhookDataFailed; ErrCodeInitEntityFailed; ErrCodeCleanEntityDataFailed;
   ErrCodeSaveEntityDataFailed; ErrCodeGetEntityFromDBFailed; ErrCodeListEntityFromDBFailed;
   ErrCodeInvalidEntityData; ErrCodeUnexpectedProcessorConfig; ErrCodeInvalidEntitySchema;
   ErrCodeProcessorConfigsHasDiff; ErrCodeProcessFailed; ErrCodeCallWasmExportFunctionFailed;
   ErrCodeWasmInitFailed; ErrCodeWasmStackOverFlow; ErrCodeCreateTemplateFailed;
   ErrCodeInvalidSubgraphManifest; ErrCodeGetUnknownEntity; ErrCodeListUnknownEntity;
   ErrCodeListRelatedEntityWithInvalidField; ErrCodeInvalidListEntityFilter; ErrCodeInvalidUpsertEntityRequest;
   ErrCodeUpsertUnknownEntity; ErrCodeInvalidUpdateEntityRequest; ErrCodeUpdateUnknownEntity;
   ErrCodeInvalidDeleteEntityRequest; ErrCodeDeleteUnknownEntity; ErrCodeUpdateImmutableEntity;
   ErrCodeInvalidEntityFieldValue; ErrCodeInvalidTimeSeriesData; ErrCodeTimeSeriesDataSchemaChanged;
   ErrCodeTooManyWebhookMsgEntity; ErrCodeSubgraphEthCallWithInvalidParam; ErrCodeProcessorHeapOverflow;
   ErrCodeTooManyMetrics; ErrCodeTooManyEventTypes; ErrCodeTooManyTimeSeries;
   ErrCodeTooManyEntityTypes; ErrCodeOverQuota].

(** ** Classes *)

Definition IsUserError (e : ExternalError) : bool := 300 <=? ecode e.

Definition IsUserRuntimeError (e : ExternalError) : bool := ecode e =? ErrCodeProcessFailed.

Definition IsSystemError (e : ExternalError) : bool := ecode e <? 200.

Definition IsDriverError (e : ExternalError) : bool := (200 <=? ecode e) && (ecode e <? 300).

Definition IsBillingError (e : ExternalError) : bool := 400 <=? ecode e.

(** The codes are pairwise different. *)
Lemma all_codes_NoDup : NoDup all_codes.
Proof. apply (bool_decide_unpack _). vm_compute. exact I. Qed.

(** Every error belongs to exactly one of the system, driver and user classes;
    run-time and billing errors are user errors. *)
Lemma error_classes e :
  (IsSystemError e || IsDriverError e || IsUserError e = true)%bool /\
  (IsSystemError e && IsDriverError e = false)%bool /\
  (IsSystemError e && IsUserError e = false)%bool /\
  (IsDriverError e && IsUserError e = false)%bool /\
  (IsUserRuntimeError e = true -> IsUserError e = true /\ IsBillingError e = false) /\
  (IsBillingError e = true -> IsUserError e = true).
Proof.
  unfold IsSystemError, IsDriverError, IsUserError, IsUserRuntimeError, IsBillingError,
    ErrCodeProcessFailed.
  repeat bcase; simpl; split_and!; try done; lia.
Qed.
