(* ===== verification/Resources.v ===== *)
(** * The resource manager: [common/concurrency/resource_manager.go]

    A pool of resources that clients apply for. Who cannot be served at once waits in a
    binary heap, ordered by priority and then by arrival; a release serves the first of
    the heap. The clients block in [Apply] between the two halves of it, so [Apply] is a
    transition system: one step up to the wait, one for each way the wait ends. *)
From Stdlib Require Import ZArith Lia.
From stdpp Require Import base numbers option sorting gmap list.
From S2P Require Import Prelude.

(** ** Data *)

(** [make(chan struct{})] is a new channel: its identity is the number of the application. *)
Record resourceMgrWaiter : Type := mkWaiter { wPriority : Z; wIndex : Z; wNum : Z; wCh : Z }.

#[global] Instance resourceMgrWaiter_eq_dec : EqDecision resourceMgrWaiter.
Proof. solve_decision. Defined.

Definition inFront (w a : resourceMgrWaiter) : bool :=
  if negb (wPriority w =? wPriority a) then wPriority w <? wPriority a else wIndex w <? wIndex a.

(** The fields of [ResourceManager], and the channels that have been closed. *)
Record ResourceManager : Type := mkManager {
  maxResource : Z;
  curResource : Z;
  count : Z;
  waiters : list resourceMgrWaiter;
  closed : gset Z
}.

Definition NewResourceManager (resourceCount : Z) : ResourceManager := mkManager resourceCount resourceCount 0 [] ∅.

Definition Cap (q : ResourceManager) : Z := maxResource q.

Definition set_waiters (l : list resourceMgrWaiter) (q : ResourceManager) : ResourceManager :=
  mkManager (maxResource q) (curResource q) (count q) l (closed q).

(** ** The heap *)

Definition up_of (n : nat) : nat := ((n - 1) / 2)%nat.

Fixpoint siftUp_loop (fuel n : nat) (l : list resourceMgrWaiter) : Outcome (list resourceMgrWaiter) :=
  match fuel with
  | O => Diverge
  | S fuel =>
      match n with
      | O => Ok l
      | S _ =>
          match l !! n, l !! up_of n with
          | Some a, Some b => if inFront a b then siftUp_loop fuel (up_of n) (<[up_of n := a]> (<[n := b]> l)) else Ok l
          | _, _ => Panic
          end
      end
  end.

(** The index falls in every round. *)
Definition siftUp (n : nat) (l : list resourceMgrWaiter) : Outcome (list resourceMgrWaiter) := siftUp_loop (S n) n l.

(** The child that is in front of the other. *)
Definition next_child (n : nat) (l : list resourceMgrWaiter) : option nat :=
  let right := ((n + 1) * 2)%nat in
  let left := (right - 1)%nat in
  if (length l <=? left)%nat then None
  else
    match l !! right, l !! left with
    | Some r, Some x => Some (if inFront r x then right else left)
    | _, _ => Some left
    end.

(** The final index and the list. *)
Fixpoint siftDown_loop (fuel n : nat) (l : list resourceMgrWaiter) : Outcome (nat * list resourceMgrWaiter) :=
  match fuel with
  | O => Diverge
  | S fuel =>
      match next_child n l with
      | None => Ok (n, l)
      | Some next =>
          match l !! next, l !! n with
          | Some a, Some b => if inFront a b then siftDown_loop fuel next (<[n := a]> (<[next := b]> l)) else Ok (n, l)
          | _, _ => Panic
          end
      end
  end.

(** The index grows in every round and stays below the length. *)
Definition siftDown (n : nat) (l : list resourceMgrWaiter) : Outcome (bool * list resourceMgrWaiter) :=
  let! (m, l') := siftDown_loop (S (length l)) n l in
  Ok ((n <? m)%nat, l').

Definition removeWaiterAt (i : nat) (l : list resourceMgrWaiter) : Outcome (list resourceMgrWaiter) :=
  match last l with
  | None => Panic
  | Some x =>
      let tail := (length l - 1)%nat in
      let l1 := take tail (if (i =? tail)%nat then l else <[i := x]> l) in
      if (i <? length l1)%nat then
        let! (moved, l2) := siftDown i l1 in
        if moved then Ok l2 else siftUp i l2
      else Ok l1
  end.

Definition addWaiter (priority num : Z) (q : ResourceManager) : Outcome (Z * ResourceManager) :=
  let ch := count q in
  let l := waiters q ++ [mkWaiter priority (count q) num ch] in
  let! l' := siftUp (length l - 1) l in
  Ok (ch, mkManager (maxResource q) (curResource q) (count q + 1) l' (closed q)).

(** ** Giving resources *)

Definition grantLocked (q : ResourceManager) : Outcome ResourceManager :=
  match waiters q with
  | [] => Ok q
  | w :: _ =>
      if curResource q <? wNum w then Ok q
      else
        let! l := removeWaiterAt 0 (waiters q) in
        Ok (mkManager (maxResource q) (curResource q - wNum w) (count q) l ({[ wCh w ]} ∪ closed q))
  end.

Definition releaseLocked (num : Z) (q : ResourceManager) : Outcome ResourceManager :=
  grantLocked (mkManager (maxResource q) (curResource q + num) (count q) (waiters q) (closed q)).

Definition release (num : Z) (q : ResourceManager) : Outcome ResourceManager := releaseLocked num q.

(** The first waiter with the channel. *)
Definition cancelWaiter (ch num : Z) (q : ResourceManager) : Outcome ResourceManager :=
  match list_find (fun w => wCh w = ch) (waiters q) with
  | Some (i, _) => let! l := removeWaiterAt i (waiters q) in grantLocked (set_waiters l q)
  | None => releaseLocked num q
  end.

(** ** [Apply] *)

(** The first half: refused, served at once, or waiting on a channel. *)
Inductive Applied : Type := Refused | Served | Waiting (ch : Z).

Definition Apply_begin (priority num : Z) (q : ResourceManager) : Outcome (Applied * ResourceManager) :=
  if maxResource q <? num then Ok (Refused, q)
  else if num <=? curResource q then
    Ok (Served, mkManager (maxResource q) (curResource q - num) (count q + 1) (waiters q) (closed q))
  else
    let! (ch, q') := addWaiter priority num q in
    Ok (Waiting ch, q').

(** The manager with its clients, by the number of their application: who has resources and
    who waits, each with how many. *)
Record Clients : Type := mkClients {
  mgr : ResourceManager;
  holding : gmap Z Z;
  blocked : gmap Z Z
}.

(** The second half of [Apply] is the wait: the channel is closed, or the context is
    cancelled, whichever the client sees first. A client calls its release function once. *)
Inductive apply_step : Clients -> Clients -> Prop :=
| as_served c p num q :
    0 <= num -> Apply_begin p num (mgr c) = Ok (Served, q) ->
    apply_step c (mkClients q (<[count (mgr c) := num]> (holding c)) (blocked c))
| as_waiting c p num ch q :
    0 <= num -> Apply_begin p num (mgr c) = Ok (Waiting ch, q) ->
    apply_step c (mkClients q (holding c) (<[ch := num]> (blocked c)))
| as_woken c ch num :
    blocked c !! ch = Some num -> ch ∈ closed (mgr c) ->
    apply_step c (mkClients (mgr c) (<[ch := num]> (holding c)) (delete ch (blocked c)))
| as_cancelled c ch num q :
    blocked c !! ch = Some num -> cancelWaiter ch num (mgr c) = Ok q ->
    apply_step c (mkClients q (holding c) (delete ch (blocked c)))
| as_released c id num q :
    holding c !! id = Some num -> release num (mgr c) = Ok q ->
    apply_step c (mkClients q (delete id (holding c)) (blocked c)).

Definition no_clients (resourceCount : Z) : Clients := mkClients (NewResourceManager resourceCount) ∅ ∅.
