(* ===== verification/ResourceSpec.v ===== *)
(** * The resource manager and its clients are sound

    [siftUp], [siftDown] and [removeWaiterAt] end within their bounds, permute the waiters and
    restore the heap order, and the first element of a heap is in front of all others. The
    invariant of the manager with its clients follows: no resource is given twice or lost, and
    while a client waits another one has resources to give back. *)
From Stdlib Require Import ZArith Lia Relations.
From stdpp Require Import base numbers option sorting gmap list.
From S2P Require Import Prelude Resources.

Abbreviation W := resourceMgrWaiter.

Section Heap.
Implicit Types (l : list W) (a b x : W) (i n : nat).

(** ** The order *)

(** [a] need not wait for [b]. *)
Definition before (a b : W) : Prop := inFront b a = false.

Lemma inFront_spec a b : inFront a b = true <-> wPriority a < wPriority b \/ wPriority a = wPriority b /\ wIndex a < wIndex b.
Proof. unfold inFront. destruct (Z.eqb_spec (wPriority a) (wPriority b)); cbn; rewrite Z.ltb_lt; lia. Qed.

Lemma before_spec a b : before a b <-> wPriority a < wPriority b \/ wPriority a = wPriority b /\ wIndex a <= wIndex b.
Proof. unfold before. rewrite <- not_true_iff_false, inFront_spec. lia. Qed.

Lemma inFront_before a b : inFront a b = true -> before a b.
Proof. rewrite inFront_spec, before_spec. lia. Qed.

#[export] Instance before_refl : Reflexive before.
Proof. intros a. rewrite before_spec. lia. Qed.

#[export] Instance before_trans : Transitive before.
Proof. intros a b c. rewrite !before_spec. lia. Qed.

(** ** The order of a heap *)

Lemma up_of_children i n : (0 < i)%nat -> up_of i = n <-> i = (2 * n + 1)%nat \/ i = (2 * n + 2)%nat.
Proof.
  intros Hi. unfold up_of. pose proof (Nat.div_mod_eq (i - 1) 2) as Hd. pose proof (Nat.mod_upper_bound (i - 1) 2). lia.
Qed.

Lemma up_of_lt i : (0 < i)%nat -> (up_of i < i)%nat.
Proof. intros Hi. pose proof (proj1 (up_of_children i _ Hi) eq_refl). lia. Qed.

Definition heap l : Prop := forall i a b, (0 < i)%nat -> l !! i = Some a -> l !! up_of i = Some b -> before b a.

(** The order holds away from [n], and across it. *)
Record hole_ok n l : Prop := mkHoleOk {
  ho_far i a b : (0 < i)%nat -> l !! i = Some a -> l !! up_of i = Some b -> i <> n -> up_of i <> n -> before b a;
  ho_over i a b : (0 < i)%nat -> l !! i = Some a -> up_of i = n -> (0 < n)%nat -> l !! up_of n = Some b -> before b a
}.

Definition above_ok n l : Prop := forall a b, (0 < n)%nat -> l !! n = Some a -> l !! up_of n = Some b -> before b a.
Definition below_ok n l : Prop := forall i a b, (0 < i)%nat -> up_of i = n -> l !! i = Some a -> l !! n = Some b -> before b a.

Lemma heap_of_hole n l : hole_ok n l -> above_ok n l -> below_ok n l -> heap l.
Proof.
  intros [Hf _] Ha Hb i a b Hi Hia Hib. destruct (decide (i = n)) as [->|Hn]; [by apply (Ha a b)|].
  destruct (decide (up_of i = n)) as [E|Hu]; [rewrite E in Hib; by apply (Hb i a b)|by apply (Hf i a b)].
Qed.

Lemma heap_hole n l x : heap l -> hole_ok n (<[n := x]> l).
Proof.
  intros Hh. split.
  - intros i a b Hi Hia Hib Hn Hu. rewrite list_lookup_insert_ne in Hia, Hib by done. by apply (Hh i).
  - intros i a b Hi Hia Hu Hn Hib. pose proof (up_of_lt i Hi). pose proof (up_of_lt n Hn). rewrite list_lookup_insert_ne in Hia, Hib by lia.
    destruct (l !! n) as [c|] eqn:Ec.
    + transitivity c; [by apply (Hh n)|]. apply (Hh i); [done|done|by rewrite Hu].
    + apply lookup_ge_None in Ec. apply lookup_lt_Some in Hia. lia.
Qed.

(** ** Up *)

Lemma insert_two l (i j : nat) a b k : i <> j -> (i < length l)%nat -> (j < length l)%nat ->
  (<[i := a]> (<[j := b]> l)) !! k = if decide (k = i) then Some a else if decide (k = j) then Some b else l !! k.
Proof.
  intros Hij Hi Hj. case_decide; [subst k; by rewrite list_lookup_insert_eq by (by rewrite length_insert)|].
  rewrite list_lookup_insert_ne by done. case_decide; [subst k; by rewrite list_lookup_insert_eq|by rewrite list_lookup_insert_ne].
Qed.

Lemma swap_permutation l i j a b : i <> j -> l !! i = Some a -> l !! j = Some b -> <[i := b]> (<[j := a]> l) ≡ₚ l.
Proof.
  intros Hij Hi Hj. pose proof (lookup_lt_Some _ _ _ Hi). pose proof (lookup_lt_Some _ _ _ Hj).
  apply Permutation_inj. split; [by rewrite !length_insert|]. exists (fun k => if decide (k = i) then j else if decide (k = j) then i else k). split.
  - intros x y. repeat case_decide; intros; subst; done.
  - intros k. rewrite insert_two by done. repeat case_decide; by subst.
Qed.

Lemma siftUp_loop_spec fuel n l :
  (n < fuel)%nat -> (n < length l)%nat -> hole_ok n l -> below_ok n l ->
  exists l', siftUp_loop fuel n l = Ok l' /\ l' ≡ₚ l /\ heap l'.
Proof.
  revert n l. induction fuel as [|fuel IH]; intros n l Hf Hn Hh Hb; [lia|]. cbn [siftUp_loop]. destruct n as [|n'].
  { exists l. split_and!; [done..|]. apply (heap_of_hole 0); [done| |done]. intros a b ?. lia. }
  set (n := S n') in *. assert (H0 : (0 < n)%nat) by lia. pose proof (up_of_lt n H0) as Hup.
  destruct (lookup_lt_is_Some_2 l n Hn) as [a Ha]. destruct (lookup_lt_is_Some_2 l (up_of n) ltac:(lia)) as [b Hbu]. rewrite Ha, Hbu.
  destruct (inFront a b) eqn:Ef.
  2:{ exists l. split_and!; [done..|]. apply (heap_of_hole n); [done| |done]. intros a' b' _ Ha' Hb'. congruence. }
  assert (Hlk : forall k, (<[up_of n := a]> (<[n := b]> l)) !! k = if decide (k = up_of n) then Some a else if decide (k = n) then Some b else l !! k) by (intros k; apply insert_two; lia).
  destruct Hh as [Hfar Hover]. destruct (IH (up_of n) (<[up_of n := a]> (<[n := b]> l))) as (l' & E & Hp & Hheap).
  - lia.
  - rewrite !length_insert. lia.
  - split.
    + intros i c d Hi Hic Hid Hiu Huu. rewrite Hlk in Hic, Hid. rewrite decide_False in Hic by done. rewrite decide_False in Hid by done.
      destruct (decide (i = n)) as [->|Hin]; [congruence|]. case_decide as Hu.
      * injection Hid as <-. by apply (Hover i c b).
      * by apply (Hfar i).
    + intros i c d Hi Hic Hui Hu0 Hd. pose proof (up_of_lt _ Hu0). rewrite Hlk in Hic, Hd. rewrite !decide_False in Hd by lia.
      assert (Hdb : before d b) by (apply (Hfar (up_of n)); [done|done|done|lia|lia]).
      rewrite (decide_False (P := i = up_of n)) in Hic by (pose proof (up_of_lt i Hi); lia). case_decide as Hin; [congruence|].
      transitivity b; [done|]. by apply (Hfar i c b); [|done|rewrite Hui|done|lia].
  - intros i c d Hi Hui Hic Hd. rewrite Hlk in Hic, Hd. rewrite decide_True in Hd by done. injection Hd as <-.
    rewrite (decide_False (P := i = up_of n)) in Hic by (pose proof (up_of_lt i Hi); lia). case_decide as Hin.
    + injection Hic as <-. by apply inFront_before.
    + transitivity b; [by apply inFront_before|]. by apply (Hfar i c b); [|done|rewrite Hui|done|lia].
  - exists l'. split; [done|]. split; [|done]. rewrite Hp. apply swap_permutation; [lia|done|done].
Qed.

Lemma siftUp_spec n l :
  (n < length l)%nat -> hole_ok n l -> below_ok n l -> exists l', siftUp n l = Ok l' /\ l' ≡ₚ l /\ heap l'.
Proof. intros. apply siftUp_loop_spec; [lia|done..]. Qed.

(** ** Down *)

Lemma next_child_spec n l :
  match next_child n l with
  | None => forall i, (0 < i)%nat -> up_of i = n -> l !! i = None
  | Some c => (0 < c)%nat /\ up_of c = n /\ (c < length l)%nat /\
      forall i a b, (0 < i)%nat -> up_of i = n -> l !! i = Some a -> l !! c = Some b -> before b a
  end.
Proof.
  unfold next_child. replace ((n + 1) * 2 - 1)%nat with (2 * n + 1)%nat by lia. replace ((n + 1) * 2)%nat with (2 * n + 2)%nat by lia.
  destruct (Nat.leb_spec (length l) (2 * n + 1)) as [Hlen|Hlen].
  { intros i Hi [->| ->]%up_of_children; [apply lookup_ge_None; lia..|done]. }
  destruct (lookup_lt_is_Some_2 l (2 * n + 1) Hlen) as [x Hx]. rewrite Hx. destruct (l !! (2 * n + 2)%nat) as [r|] eqn:Er.
  - assert (Hlt : (2 * n + 2 < length l)%nat) by (by eapply lookup_lt_Some). destruct (inFront r x) eqn:Ef; split_and!; try lia; try (apply up_of_children; lia).
    + intros i a b Hi [->| ->]%up_of_children Ha Hb; [|assert (a = b) as -> by congruence; done|done]. assert (a = x) as -> by congruence. assert (b = r) as -> by congruence. by apply inFront_before.
    + intros i a b Hi [->| ->]%up_of_children Ha Hb; [assert (a = b) as -> by congruence; done| |done]. assert (a = r) as -> by congruence. assert (b = x) as -> by congruence. done.
  - split_and!; [lia|apply up_of_children; lia|lia|]. intros i a b Hi [->| ->]%up_of_children Ha Hb; [assert (a = b) as -> by congruence; done|congruence|done].
Qed.

(** One step of the element down to a child: it is in order with what is above now. *)
Lemma down_step n c l a b :
  (0 < c)%nat -> up_of c = n -> l !! c = Some a -> l !! n = Some b -> inFront a b = true ->
  (forall i d, (0 < i)%nat -> up_of i = n -> l !! i = Some d -> before a d) -> hole_ok n l ->
  hole_ok c (<[n := a]> (<[c := b]> l)) /\ above_ok c (<[n := a]> (<[c := b]> l)).
Proof.
  intros Hc Hup Ha Hb Hf Hmin [Hfar Hover]. pose proof (up_of_lt c Hc) as Hlt.
  assert (Hlk : forall k, (<[n := a]> (<[c := b]> l)) !! k = if decide (k = n) then Some a else if decide (k = c) then Some b else l !! k)
    by (intros k; apply insert_two; [lia|by eapply lookup_lt_Some..]).
  split; [split|].
  - intros i x y Hi Hx Hy Hic Huc. rewrite Hlk in Hx, Hy. rewrite (decide_False (P := i = c)) in Hx by done. rewrite (decide_False (P := up_of i = c)) in Hy by done.
    pose proof (up_of_lt i Hi). destruct (decide (i = n)) as [Hin|Hin].
    + injection Hx as <-. rewrite decide_False in Hy by lia. subst i. by apply (Hover c a y).
    + case_decide as Hun; [injection Hy as <-; by apply (Hmin i)|]. by apply (Hfar i).
  - intros i x y Hi Hx Hui _ Hy. rewrite Hup, Hlk, decide_True in Hy by done. injection Hy as <-. rewrite Hlk in Hx. pose proof (up_of_lt i Hi).
    rewrite !decide_False in Hx by lia. apply (Hfar i); [done|done|by rewrite Hui|lia|lia].
  - intros x y _ Hx Hy. rewrite Hlk in Hx, Hy. rewrite decide_False, decide_True in Hx by lia. rewrite Hup, decide_True in Hy by done.
    injection Hx as <-. injection Hy as <-. by apply inFront_before.
Qed.

Lemma siftDown_loop_spec fuel n l :
  (length l - n < fuel)%nat -> (n < length l)%nat -> hole_ok n l ->
  exists m l', siftDown_loop fuel n l = Ok (m, l') /\ (n <= m)%nat /\ l' ≡ₚ l /\
    (m = n -> l' = l /\ below_ok n l) /\ ((n < m)%nat \/ above_ok n l -> heap l').
Proof.
  revert n l. induction fuel as [|fuel IH]; intros n l Hf Hn Hh; [lia|]. cbn [siftDown_loop].
  pose proof (next_child_spec n l) as Hnc. destruct (next_child n l) as [c|].
  2:{ exists n, l. assert (Hb : below_ok n l) by (intros i a b Hi Hu Ha; by rewrite (Hnc i Hi Hu) in Ha).
      split_and!; [done|lia|done|done|]. intros [?|Ha]; [lia|by apply (heap_of_hole n)]. }
  destruct Hnc as (Hc & Hup & Hlen & Hmin). pose proof (up_of_lt c Hc).
  destruct (lookup_lt_is_Some_2 l c Hlen) as [a Ha]. destruct (lookup_lt_is_Some_2 l n Hn) as [b Hb]. rewrite Ha, Hb. destruct (inFront a b) eqn:Ef.
  - destruct (down_step n c l a b Hc Hup Ha Hb Ef) as [Hh' Ha']; [intros i d Hi Hu Hd; by apply (Hmin i d a)|done|].
    destruct (IH c (<[n := a]> (<[c := b]> l))) as (m & l' & E & Hm & Hp & _ & Hheap); [rewrite !length_insert; lia..|done|].
    exists m, l'. split_and!; [done|lia| |lia|intros _; apply Hheap; by right]. rewrite Hp. apply swap_permutation; [lia|done|done].
  - assert (Hbo : below_ok n l).
    { intros i x y Hi Hu Hx Hy. assert (y = b) as -> by congruence. transitivity a; [done|by apply (Hmin i x a)]. }
    exists n, l. split_and!; [done|lia|done|done|]. intros [?|Hab]; [lia|by apply (heap_of_hole n)].
Qed.

(** ** Adding and removing *)

Lemma heap_nil : heap [].
Proof. intros i a b _. by rewrite lookup_nil. Qed.

Lemma heap_take l k : heap l -> heap (take k l).
Proof.
  intros Hh i a b Hi Ha Hb. apply lookup_take_Some in Ha as [Ha _]. apply lookup_take_Some in Hb as [Hb _]. by apply (Hh i).
Qed.

(** A new waiter at the end goes up to its place. *)
Lemma heap_add l x : heap l -> exists l', siftUp (length (l ++ [x]) - 1) (l ++ [x]) = Ok l' /\ l' ≡ₚ x :: l /\ heap l'.
Proof.
  intros Hh. rewrite length_app. cbn. replace (length l + 1 - 1)%nat with (length l) by lia.
  assert (Hlk : forall i a, (l ++ [x]) !! i = Some a -> i <> length l -> l !! i = Some a).
  { intros i a Hi Hne. apply lookup_app_Some in Hi as [?|[Hge Hi]]; [done|]. apply lookup_lt_Some in Hi. cbn in Hi. lia. }
  assert (Hno : forall i a, (0 < i)%nat -> up_of i = length l -> (l ++ [x]) !! i = Some a -> False).
  { intros i a Hi Hu Ha. pose proof (up_of_lt i Hi). apply lookup_lt_Some in Ha. rewrite length_app in Ha. cbn in Ha. lia. }
  destruct (siftUp_spec (length l) (l ++ [x])) as (l' & E & Hp & Hheap).
  - rewrite length_app. cbn. lia.
  - split; [|intros i a b Hi Ha Hu; by destruct (Hno i a Hi Hu Ha)]. intros i a b Hi Ha Hb Hn Hu. apply (Hh i); [done|by apply Hlk..].
  - intros i a b Hi Hu Ha. by destruct (Hno i a Hi Hu Ha).
  - exists l'. split; [done|]. split; [|done]. by rewrite Hp, Permutation_app_comm.
Qed.

Lemma heap_remove l i w : heap l -> l !! i = Some w -> exists l', removeWaiterAt i l = Ok l' /\ l ≡ₚ w :: l' /\ heap l'.
Proof.
  intros Hh Hi. pose proof (lookup_lt_Some _ _ _ Hi) as Hlt. unfold removeWaiterAt. destruct (last l) as [x|] eqn:El.
  2:{ apply last_None in El. by subst l. }
  apply last_Some in El as [l0 ->]. rewrite length_app in *. cbn [length] in *. replace (length l0 + 1 - 1)%nat with (length l0) by lia.
  destruct (Nat.eqb_spec i (length l0)) as [->|Hne].
  - rewrite take_app_length. rewrite (proj2 (Nat.ltb_ge _ _)) by lia. rewrite list_lookup_middle in Hi by done. injection Hi as ->.
    exists l0. split_and!; [done|by rewrite Permutation_app_comm|]. rewrite <- (take_app_length l0 [w]). by apply heap_take.
  - assert (Hi0 : (i < length l0)%nat) by lia. rewrite lookup_app_l in Hi by done. rewrite insert_app_l by done.
    rewrite take_app_le, take_ge by (by rewrite length_insert). rewrite length_insert, (proj2 (Nat.ltb_lt _ _)) by lia.
    assert (Hp0 : l0 ++ [x] ≡ₚ w :: <[i := x]> l0).
    { rewrite (Permutation_app_comm l0 [x]). cbn. rewrite <- (take_drop_middle l0 i w Hi) at 1. rewrite (insert_take_drop l0 i x) by done.
      rewrite <- !Permutation_middle. apply Permutation_swap. }
    assert (Hole : hole_ok i (<[i := x]> l0)) by (apply heap_hole; rewrite <- (take_app_length l0 [x]); by apply heap_take).
    unfold siftDown. destruct (siftDown_loop_spec (S (length (<[i := x]> l0))) i (<[i := x]> l0)) as (m & l' & E & Hm & Hp & Hsame & Hheap); [lia|by rewrite length_insert|done|].
    rewrite E. cbn [obind]. destruct (Nat.ltb_spec i m) as [Hgt|Hle].
    + exists l'. split; [done|]. split; [by rewrite Hp|]. apply Hheap. by left.
    + destruct (Hsame ltac:(lia)) as [-> Hb]. destruct (siftUp_spec i (<[i := x]> l0)) as (l2 & E2 & Hp2 & Hh2); [by rewrite length_insert|done|done|].
      exists l2. split; [done|]. split; [by rewrite Hp2|done].
Qed.

(** ** The first of a heap *)

Lemma heap_first l w i a : heap l -> l !! 0%nat = Some w -> l !! i = Some a -> before w a.
Proof.
  intros Hh Hw. revert a. induction i as [i IH] using lt_wf_ind. intros a Ha. destruct (decide (i = 0)%nat) as [->|Hi]; [assert (a = w) as -> by congruence; done|].
  pose proof (up_of_lt i ltac:(lia)) as Hup. destruct (lookup_lt_is_Some_2 l (up_of i)) as [b Hb]; [apply lookup_lt_Some in Ha; lia|].
  transitivity b; [by apply (IH (up_of i))|]. apply (Hh i); [lia|done|done].
Qed.

End Heap.

(** ** Sums *)

Definition total (m : gmap Z Z) : Z := map_fold (fun _ v acc => v + acc) 0 m.

Lemma total_insert m i v : m !! i = None -> total (<[i := v]> m) = v + total m.
Proof. intros Hi. unfold total. rewrite map_fold_insert_L; [done|lia|done]. Qed.

Lemma total_delete m i v : m !! i = Some v -> total m = v + total (delete i m).
Proof. intros Hi. unfold total. by rewrite (map_fold_delete_L _ _ i v m) by (lia || done). Qed.

Lemma total_nonneg m : (forall i v, m !! i = Some v -> 0 <= v) -> 0 <= total m.
Proof.
  induction m as [|i v m Hi IH] using map_ind; intros Hn; [done|]. rewrite total_insert by done.
  assert (0 <= v) by (apply (Hn i); by rewrite lookup_insert_eq). enough (0 <= total m) by lia. apply IH. intros j w Hj.
  apply (Hn j). rewrite lookup_insert_ne; [done|]. congruence.
Qed.

(** ** The invariant *)

(** Clients that have been given resources and have not noticed yet. *)
Definition granted (c : Clients) : gmap Z Z := filter (fun kv => kv.1 ∈ closed (mgr c)) (blocked c).

Record clients_core (c : Clients) : Prop := mkCore {
  cc_sum : curResource (mgr c) + total (holding c) + total (granted c) = maxResource (mgr c);
  cc_cur : 0 <= curResource (mgr c);
  cc_heap : heap (waiters (mgr c));
  cc_nodup : NoDup (map wCh (waiters (mgr c)));
  cc_queue ch num : (exists w, w ∈ waiters (mgr c) /\ wCh w = ch /\ wNum w = num) <-> blocked c !! ch = Some num /\ ch ∉ closed (mgr c);
  cc_wanted w : w ∈ waiters (mgr c) -> 0 < wNum w;
  cc_index w : w ∈ waiters (mgr c) -> wIndex w = wCh w;
  cc_held id num : holding c !! id = Some num -> 0 <= num /\ id < count (mgr c) /\ blocked c !! id = None;
  cc_blocked id num : blocked c !! id = Some num -> 0 <= num <= maxResource (mgr c) /\ id < count (mgr c);
  cc_closed ch : ch ∈ closed (mgr c) -> ch < count (mgr c)
}.

Definition clients_ok (c : Clients) : Prop := clients_core c /\ (waiters (mgr c) <> [] -> curResource (mgr c) < maxResource (mgr c)).

Lemma granted_lookup c ch num : granted c !! ch = Some num <-> blocked c !! ch = Some num /\ ch ∈ closed (mgr c).
Proof. unfold granted. by rewrite map_lookup_filter_Some. Qed.

Lemma granted_none c ch : granted c !! ch = None <-> (blocked c !! ch = None \/ ch ∉ closed (mgr c)).
Proof.
  unfold granted. rewrite map_lookup_filter_None. split.
  - intros [H|H]; [by left|]. destruct (blocked c !! ch) as [num|] eqn:E; [|by left]. right. by apply (H num).
  - intros [H|H]; [by left|]. right. by intros x _.
Qed.

Lemma no_clients_ok n : 0 <= n -> clients_ok (no_clients n).
Proof.
  intros Hn. split; [|done]. split; cbn.
  - unfold granted. cbn. unfold total. rewrite map_filter_empty, !map_fold_empty. lia.
  - done.
  - apply heap_nil.
  - constructor.
  - intros ch num. rewrite lookup_empty. split; [by intros (w & []%not_elem_of_nil & _)|by intros [[=] _]].
  - by intros w ?%not_elem_of_nil.
  - by intros w ?%not_elem_of_nil.
  - intros id num. by rewrite lookup_empty.
  - intros id num. by rewrite lookup_empty.
  - by intros ch ?%not_elem_of_empty.
Qed.

(** Closing the channel of a client that waits. *)
Lemma granted_close q q' h b ch num :
  closed q' = {[ ch ]} ∪ closed q -> b !! ch = Some num -> ch ∉ closed q ->
  granted (mkClients q' h b) = <[ch := num]> (granted (mkClients q h b)).
Proof.
  intros Hq Hb Hn. apply map_eq. intros k. destruct (decide (k = ch)) as [->|Hk].
  - rewrite lookup_insert_eq. apply granted_lookup. cbn. rewrite Hq. set_solver.
  - rewrite lookup_insert_ne by done. apply option_eq. intros v. rewrite !granted_lookup. cbn. rewrite Hq. set_solver.
Qed.

(** Serving the first waiter. *)
Lemma grant_ok c : clients_core c -> exists q, grantLocked (mgr c) = Ok q /\ clients_ok (mkClients q (holding c) (blocked c)).
Proof.
  intros Hc. destruct Hc as [H1 H2 H3 H4 H5 H6 H7 H8 H9 H10]. unfold grantLocked. destruct (waiters (mgr c)) as [|w rest] eqn:Ew.
  { exists (mgr c). split; [done|]. unfold clients_ok. cbn [mgr]. rewrite Ew. split; [|done]. split; cbn; rewrite ?Ew; done. }
  assert (Hw : w ∈ waiters (mgr c)) by (rewrite Ew; by left). destruct (Z.ltb_spec (curResource (mgr c)) (wNum w)) as [Hlt|Hge].
  { exists (mgr c). split; [done|]. split; [split; cbn; rewrite ?Ew; done|]. intros _. cbn.
    destruct (proj1 (H5 (wCh w) (wNum w))) as [Hb _]; [exists w; rewrite Ew in Hw; done|]. destruct (H9 _ _ Hb). lia. }
  destruct (heap_remove (w :: rest) 0 w) as (l & E & Hp & Hh); [done|done|]. rewrite E. cbn [obind]. eexists. split; [reflexivity|].
  destruct (proj1 (H5 (wCh w) (wNum w))) as [Hb Hncl]; [exists w; rewrite Ew in Hw; done|].
  assert (Hin : forall x, x ∈ l -> x ∈ w :: rest /\ wCh x <> wCh w).
  { intros x Hx. split; [rewrite Hp; by right|]. intros Heq. rewrite Hp in H4. cbn in H4. apply NoDup_cons in H4 as [Hnot _].
    apply Hnot. rewrite <- Heq. by apply (list_elem_of_fmap_2 wCh). }
  pose proof (H6 w ltac:(by left)). split; [|intros _; cbn; assert (0 <= total (holding c)) by (apply total_nonneg; intros i v Hi; by apply (H8 i v)); assert (0 <= total (granted c)) by (apply total_nonneg; intros i v [Hi _]%granted_lookup; by apply (H9 i v)); lia].
  split; cbn [mgr holding blocked maxResource curResource count waiters closed]; try done.
  - rewrite (granted_close (mgr c) _ (holding c) (blocked c) (wCh w) (wNum w)) by done. destruct c as [q h b]. cbn in *.
    rewrite total_insert by (apply granted_none; by right). lia.
  - lia.
  - rewrite Hp in H4. by apply NoDup_cons in H4 as [_ ?].
  - intros ch num. split.
    + intros (x & Hx & <- & <-). destruct (Hin x Hx) as [Hx' Hne]. destruct (proj1 (H5 (wCh x) (wNum x))) as [? ?]; [by exists x|]. set_solver.
    + intros [Hbc Hnc]. destruct (proj2 (H5 ch num)) as (x & Hx & Hxc & Hxn); [set_solver|]. exists x. split; [|done]. rewrite Hp in Hx.
      apply elem_of_cons in Hx as [->|Hx]; [|done]. set_solver.
  - intros x Hx. by apply H6, Hin.
  - intros x Hx. by apply H7, Hin.
  - intros ch [->%elem_of_singleton|Hcl]%elem_of_union; [by apply (H9 _ (wNum w))|by apply H10].
Qed.

(** ** Steps *)

Lemma fresh_id c (m : gmap Z Z) : (forall id num, m !! id = Some num -> id < count (mgr c)) -> m !! count (mgr c) = None.
Proof. intros H. destruct (m !! count (mgr c)) as [num|] eqn:E; [|done]. specialize (H _ _ E). lia. Qed.

Lemma core_fresh c : clients_core c -> holding c !! count (mgr c) = None /\ blocked c !! count (mgr c) = None /\ count (mgr c) ∉ closed (mgr c).
Proof.
  intros Hc. split_and!; [apply fresh_id; intros id num Hi; by apply (cc_held _ Hc id num)|apply fresh_id; intros id num Hi; by apply (cc_blocked _ Hc id num)|].
  intros Hcl%(cc_closed _ Hc). lia.
Qed.

(** The three ways [Apply] begins. *)
Lemma Apply_begin_cases p num q :
  heap (waiters q) ->
  (maxResource q < num /\ Apply_begin p num q = Ok (Refused, q)) \/
  (num <= maxResource q /\ num <= curResource q /\
   Apply_begin p num q = Ok (Served, mkManager (maxResource q) (curResource q - num) (count q + 1) (waiters q) (closed q))) \/
  (curResource q < num <= maxResource q /\ exists l, l ≡ₚ mkWaiter p (count q) num (count q) :: waiters q /\ heap l /\
   Apply_begin p num q = Ok (Waiting (count q), mkManager (maxResource q) (curResource q) (count q + 1) l (closed q))).
Proof.
  intros Hh. unfold Apply_begin. destruct (Z.ltb_spec (maxResource q) num); [by left|]. right.
  destruct (Z.leb_spec num (curResource q)); [by left|]. right. split; [lia|].
  unfold addWaiter. destruct (heap_add (waiters q) (mkWaiter p (count q) num (count q)) Hh) as (l & E & Hp & Hl). exists l. by rewrite E.
Qed.

Lemma granted_other q q' h h' b b' : closed q' = closed q -> (forall ch, ch ∈ closed q -> b' !! ch = b !! ch) -> granted (mkClients q' h' b') = granted (mkClients q h b).
Proof.
  intros Hq Hb. apply map_eq. intros k. apply option_eq. intros v. rewrite !granted_lookup. cbn. rewrite Hq. split; intros [H1 H2]; (split; [|done]); [by rewrite <- Hb|by rewrite Hb].
Qed.

Lemma served_ok c p num q :
  clients_ok c -> 0 <= num -> Apply_begin p num (mgr c) = Ok (Served, q) -> clients_ok (mkClients q (<[count (mgr c) := num]> (holding c)) (blocked c)).
Proof.
  intros [Hc Hbusy] Hn E. destruct (core_fresh c Hc) as (F1 & F2 & F3). destruct c as [m h b]. cbn in *. pose proof (cc_heap _ Hc) as Hh. cbn in Hh.
  destruct (Apply_begin_cases p num m Hh) as [[_ E']|[(Hm & Hcur & E')|(_ & l & _ & _ & E')]]; rewrite E' in E; try done. injection E as <-.
  split; [|cbn; intros Hw; specialize (Hbusy Hw); lia]. destruct Hc as [H1 H2 H3 H4 H5 H6 H7 H8 H9 H10]. cbn in *. split; cbn; try done.
  - rewrite (granted_other m _ h _ b b) by done. rewrite total_insert by done. lia.
  - lia.
  - intros id x. destruct (decide (id = count m)) as [->|Hid]; [rewrite lookup_insert_eq; intros [= <-]; by split_and!; [|lia|]|].
    rewrite lookup_insert_ne by done. intros Hi. destruct (H8 id x Hi) as (? & ? & ?). split_and!; [done|lia|done].
  - intros id x Hi. destruct (H9 id x Hi). split; [done|lia].
  - intros ch Hcl. specialize (H10 ch Hcl). lia.
Qed.

Lemma waiting_ok c p num ch q :
  clients_ok c -> 0 <= num -> Apply_begin p num (mgr c) = Ok (Waiting ch, q) -> clients_ok (mkClients q (holding c) (<[ch := num]> (blocked c))).
Proof.
  intros [Hc Hbusy] Hn E. destruct (core_fresh c Hc) as (F1 & F2 & F3). destruct c as [m h b]. cbn in *. pose proof (cc_heap _ Hc) as Hh. cbn in Hh.
  destruct (Apply_begin_cases p num m Hh) as [[_ E']|[(_ & _ & E')|(Hcur & l & Hp & Hl & E')]]; rewrite E' in E; try done. injection E as <- <-.
  split; [|cbn; lia]. destruct Hc as [H1 H2 H3 H4 H5 H6 H7 H8 H9 H10]. cbn in *. split; cbn; try done.
  - rewrite (granted_other m _ h _ b _); [done|done|]. intros ch Hcl. rewrite lookup_insert_ne; [done|]. congruence.
  - rewrite Hp. cbn. apply NoDup_cons. split; [|done]. intros (w & Hw & Hin)%list_elem_of_fmap. destruct (proj1 (H5 (wCh w) (wNum w))) as [Hb _]; [by exists w|].
    rewrite <- Hw, F2 in Hb. done.
  - intros ch x. destruct (decide (ch = count m)) as [->|Hch].
    + rewrite lookup_insert_eq. split; [|intros [[= <-] _]; exists (mkWaiter p (count m) num (count m)); split; [rewrite Hp; by left|done]].
      intros (w & Hw & Hwc & <-). rewrite Hp in Hw. apply elem_of_cons in Hw as [->|Hw]; [done|].
      destruct (proj1 (H5 (wCh w) (wNum w))) as [Hb _]; [by exists w|]. rewrite Hwc, F2 in Hb. done.
    + rewrite lookup_insert_ne by done. rewrite <- H5. split; intros (w & Hw & Hwc & Hwn); exists w; (split; [|done]).
      * rewrite Hp in Hw. apply elem_of_cons in Hw as [->|Hw]; [by cbn in Hwc|done].
      * rewrite Hp. by right.
  - intros w Hw. rewrite Hp in Hw. apply elem_of_cons in Hw as [->|Hw]; [cbn; lia|by apply H6].
  - intros w Hw. rewrite Hp in Hw. apply elem_of_cons in Hw as [->|Hw]; [done|by apply H7].
  - intros id x Hi. destruct (H8 id x Hi) as (? & ? & ?). split_and!; [done|lia|]. rewrite lookup_insert_ne; [done|lia].
  - intros id x. destruct (decide (id = count m)) as [->|Hid]; [rewrite lookup_insert_eq; intros [= <-]; lia|]. rewrite lookup_insert_ne by done.
    intros Hi. destruct (H9 id x Hi). split; [done|lia].
  - intros ch Hcl. specialize (H10 ch Hcl). lia.
Qed.

(** A client that leaves the ones that wait. *)
Lemma granted_delete q q' h h' b ch num : closed q' = closed q -> b !! ch = Some num -> ch ∈ closed q ->
  granted (mkClients q' h' (delete ch b)) = delete ch (granted (mkClients q h b)).
Proof.
  intros Hq Hb Hcl. apply map_eq. intros k. destruct (decide (k = ch)) as [->|Hk].
  - rewrite lookup_delete_eq. apply granted_none. left. cbn. by rewrite lookup_delete_eq.
  - rewrite lookup_delete_ne by done. apply option_eq. intros v. rewrite !granted_lookup. cbn. by rewrite Hq, lookup_delete_ne.
Qed.

Lemma woken_ok c ch num :
  clients_ok c -> blocked c !! ch = Some num -> ch ∈ closed (mgr c) -> clients_ok (mkClients (mgr c) (<[ch := num]> (holding c)) (delete ch (blocked c))).
Proof.
  intros [Hc Hbusy] Hb Hcl. split; [|done]. destruct Hc as [H1 H2 H3 H4 H5 H6 H7 H8 H9 H10]. destruct c as [m h b]. cbn in *.
  assert (Hh : h !! ch = None) by (destruct (h !! ch) as [x|] eqn:E; [destruct (H8 ch x E) as (_ & _ & ?); congruence|done]).
  split; cbn; try done.
  - rewrite (granted_delete m m h _ b ch num) by done. rewrite total_insert by done.
    rewrite (total_delete (granted (mkClients m h b)) ch num) in H1 by (by apply granted_lookup). lia.
  - intros k x. destruct (decide (k = ch)) as [->|Hk].
    + rewrite lookup_delete_eq. split; [|by intros [[=] _]]. intros Hex. by destruct (proj1 (H5 ch x) Hex).
    + by rewrite lookup_delete_ne.
  - intros id x. destruct (decide (id = ch)) as [->|Hid]; [rewrite lookup_insert_eq; intros [= <-]; rewrite lookup_delete_eq; destruct (H9 ch num Hb); split_and!; [lia|lia|done]|].
    rewrite lookup_insert_ne, lookup_delete_ne by done. apply H8.
  - intros id x. destruct (decide (id = ch)) as [->|Hid]; [by rewrite lookup_delete_eq|]. rewrite lookup_delete_ne by done. apply H9.
Qed.

(** Giving resources back, to a manager that has no account of them any more. *)
Lemma release_ok q h b num :
  clients_core (mkClients (mkManager (maxResource q) (curResource q + num) (count q) (waiters q) (closed q)) h b) ->
  exists q', releaseLocked num q = Ok q' /\ clients_ok (mkClients q' h b).
Proof. intros Hc. destruct (grant_ok _ Hc) as (q' & E & Hok). by exists q'. Qed.

Lemma released_ok c id num :
  clients_ok c -> holding c !! id = Some num -> exists q, release num (mgr c) = Ok q /\ clients_ok (mkClients q (delete id (holding c)) (blocked c)).
Proof.
  intros [Hc _] Hi. apply release_ok. destruct Hc as [H1 H2 H3 H4 H5 H6 H7 H8 H9 H10]. destruct c as [m h b]. cbn in *. destruct (H8 id num Hi) as (Hn & _ & _).
  split; cbn; try done.
  - rewrite (granted_other m _ h _ b b) by done. rewrite (total_delete _ _ _ Hi) in H1. lia.
  - lia.
  - intros k x. destruct (decide (k = id)) as [->|Hk]; [by rewrite lookup_delete_eq|]. rewrite lookup_delete_ne by done. apply H8.
Qed.

Lemma cancelled_ok c ch num :
  clients_ok c -> blocked c !! ch = Some num -> exists q, cancelWaiter ch num (mgr c) = Ok q /\ clients_ok (mkClients q (holding c) (delete ch (blocked c))).
Proof.
  intros [Hc _] Hb. destruct Hc as [H1 H2 H3 H4 H5 H6 H7 H8 H9 H10]. destruct c as [m h b]. cbn in *. unfold cancelWaiter.
  assert (Hheld : forall id x, h !! id = Some x -> 0 <= x /\ id < count m /\ delete ch b !! id = None).
  { intros id x Hi. destruct (H8 id x Hi) as (? & ? & ?). split_and!; [done..|]. destruct (decide (id = ch)) as [->|]; [apply lookup_delete_eq|by rewrite lookup_delete_ne]. }
  assert (Hblk : forall id x, delete ch b !! id = Some x -> 0 <= x <= maxResource m /\ id < count m).
  { intros id x. destruct (decide (id = ch)) as [->|Hid]; [by rewrite lookup_delete_eq|]. rewrite lookup_delete_ne by done. apply H9. }
  destruct (list_find (fun w => wCh w = ch) (waiters m)) as [[i w]|] eqn:Ef.
  - apply list_find_Some in Ef as (Hi & Hwc & _). destruct (heap_remove (waiters m) i w H3 Hi) as (l & E & Hp & Hl). rewrite E. cbn [obind].
    destruct (proj1 (H5 ch (wNum w))) as [Hbw Hncl]; [exists w; split; [by eapply list_elem_of_lookup_2|done]|].
    assert (Hin : forall x, x ∈ l -> x ∈ waiters m /\ wCh x <> ch).
    { intros x Hx. split; [rewrite Hp; by right|]. intros Heq. rewrite Hp in H4. cbn in H4. apply NoDup_cons in H4 as [Hnot _]. apply Hnot.
      rewrite Hwc, <- Heq. by apply (list_elem_of_fmap_2 wCh). }
    destruct (grant_ok (mkClients (set_waiters l m) h (delete ch b))) as (q' & E' & Hok); [|by exists q']. split; cbn; try done.
    + rewrite (granted_other m _ h _ b _); [done|done|]. intros k Hk. rewrite lookup_delete_ne; [done|]. congruence.
    + rewrite Hp in H4. by apply NoDup_cons in H4 as [_ ?].
    + intros k x. split.
      * intros (y & Hy & <- & <-). destruct (Hin y Hy) as [Hy' Hne]. rewrite lookup_delete_ne by done. apply H5. by exists y.
      * intros [Hk Hnk]. destruct (decide (k = ch)) as [->|Hne]; [by rewrite lookup_delete_eq in Hk|]. rewrite lookup_delete_ne in Hk by done.
        destruct (proj2 (H5 k x) (conj Hk Hnk)) as (y & Hy & Hyc & Hyn). exists y. split; [|done]. rewrite Hp in Hy. apply elem_of_cons in Hy as [->|Hy]; [congruence|done].
    + intros x Hx. by apply H6, Hin.
    + intros x Hx. by apply H7, Hin.
  - assert (Hcl : ch ∈ closed m).
    { destruct (decide (ch ∈ closed m)) as [?|Hn]; [done|]. destruct (proj2 (H5 ch num) (conj Hb Hn)) as (w & Hw & Hwc & _).
      apply list_find_None in Ef. rewrite Forall_forall in Ef. by destruct (Ef w Hw). }
    apply release_ok. split; cbn; try done.
    + rewrite (granted_delete m _ h _ b ch num) by done. rewrite (total_delete (granted (mkClients m h b)) ch num) in H1 by (by apply granted_lookup). lia.
    + destruct (H9 ch num Hb). lia.
    + intros k x. destruct (decide (k = ch)) as [->|Hk]; [|by rewrite lookup_delete_ne].
      rewrite lookup_delete_eq. split; [|by intros [[=] _]]. intros Hex. by destruct (proj1 (H5 ch x) Hex).
Qed.

Lemma apply_step_ok c c' : clients_ok c -> apply_step c c' -> clients_ok c'.
Proof.
  intros Hok Hs. destruct Hs as [c p num q Hn E|c p num ch q Hn E|c ch num Hb Hcl|c ch num q Hb E|c id num q Hi E].
  - by apply (served_ok c p num q).
  - by apply (waiting_ok c p num ch q).
  - by apply woken_ok.
  - destruct (cancelled_ok c ch num Hok Hb) as (q' & E' & Hok'). rewrite E in E'. by injection E' as <-.
  - destruct (released_ok c id num Hok Hi) as (q' & E' & Hok'). rewrite E in E'. by injection E' as <-.
Qed.

Lemma apply_steps_ok c c' : clients_ok c -> clos_refl_trans_1n _ apply_step c c' -> clients_ok c'.
Proof. intros Hok. induction 1 as [|x y z Hxy _ IH]; [done|]. apply IH. by eapply apply_step_ok. Qed.

(** A client that waits is not alone: others have resources, or have been given some. *)
Lemma somebody_has c : clients_ok c -> waiters (mgr c) <> [] -> holding c <> ∅ \/ granted c <> ∅.
Proof.
  intros [Hc Hb] Hw. specialize (Hb Hw). pose proof (cc_sum _ Hc) as Hs. destruct (decide (holding c = ∅)) as [Eh|Eh]; [|by left].
  right. intros Eg. rewrite Eh, Eg in Hs. unfold total in Hs. rewrite !map_fold_empty in Hs. lia.
Qed.
