(* ===== verification/Checkpoint.v ===== *)
(** * Checkpoints and template instances: the data of [driver/controller/checkpoint.go]

    The records of the controller package that the checkpoint controller, the block
    builder and the progress loop share, with the pure methods on them. *)
From Stdlib Require Import ZArith Lia.
From stdpp Require Import base numbers option strings pretty gmap list.
From S2P Require Import Prelude Errors RangeBase BlockRange.

(** ** Time

    A [time.Time] is a number of nanoseconds, a [time.Duration] an [int64] number of
    them; [Time.Sub] saturates. *)
Definition minI64 : Z := -9223372036854775808.
Definition maxI64 : Z := 9223372036854775807.

Definition time_Sub (t u : Z) : Z := Z.max minI64 (Z.min maxI64 (t - u)).

Definition time_Second : Z := 1000000000.
Definition time_Minute : Z := 60 * time_Second.

Definition WatchingDelay : Z := time_Minute * 5.

(** ** Blocks *)

Record BlockHeader : Type := mkBlockHeader {
  GetBlockNumber : Z;
  GetBlockParentHash : string;
  GetBlockHash : string;
  GetBlockTime : Z
}.

Record ProgressBar : Type := mkProgressBar {
  PB_LatestBlock : BlockHeader;
  PB_FullBlockRange : BlockRange
}.

Record BlockDataSummary : Type := mkBlockDataSummary {
  SummaryHeader : BlockHeader;
  SummaryTaskCount : Z;
  SummaryCheckpointData : gmap string string
}.

(** ** Template instances *)

Record TemplateInstance : Type := mkTemplateInstance {
  TemplateID : Z;
  TemplateName : string;
  Address : string;
  Labels : string;
  Removed : bool;
  tplRange : BlockRange
}.

#[global] Instance BlockRange_eq_dec : EqDecision BlockRange.
Proof. solve_decision. Defined.
#[global] Instance TemplateInstance_eq_dec : EqDecision TemplateInstance.
Proof. solve_decision. Defined.

Definition UniqID (t : TemplateInstance) : string :=
  if bool_decide (Labels t = EmptyString)
  then pretty (TemplateID t) +:+ "/" +:+ Address t
  else pretty (TemplateID t) +:+ "/" +:+ Address t +:+ "/" +:+ Labels t.

(** A Go map from block number to the template instances created at that block. *)
Abbreviation TemplateMap := (gmap Z (list TemplateInstance)).

(** [m[k]] of a map with slice values: nil for a missing key. *)
Definition tpls_at (m : TemplateMap) (bn : Z) : list TemplateInstance := default [] (m !! bn).

Definition CountTemplatesByID (orig : TemplateMap) : gmap Z Z :=
  foldl (fun sum t => <[TemplateID t := default 0 (sum !! TemplateID t) + 1]> sum) ∅
        (concat (map snd (map_to_list orig))).

(** ** Checkpoints *)

Record Checkpoint : Type := mkCheckpoint {
  BlockNumber : Z;
  BlockHash : string;
  BlockParentHash : string;
  BlockTime : Z;
  TotalBindings : Z;
  LatestBlockNumber : Z;
  LatestBlockHash : string;
  LatestBlockParentHash : string;
  LatestBlockTime : Z;
  FullBlockRange : BlockRange;
  CheckpointData : gmap string string
}.

(** The number of a checkpoint a sink is reset to; -1 when there is none. *)
Definition ck_number (k : option Checkpoint) : Z := match k with None => -1 | Some k => BlockNumber k end.

Definition Checkpoint_header (c : Checkpoint) : BlockHeader :=
  mkBlockHeader (BlockNumber c) (BlockParentHash c) (BlockHash c) (BlockTime c).

Definition InWatching (c : Checkpoint) : bool :=
  time_Sub (LatestBlockTime c) (BlockTime c) <? WatchingDelay.

Definition AllDone (c : Checkpoint) : bool :=
  match EndBlock (FullBlockRange c) with
  | None => false
  | Some e => e =? BlockNumber c
  end.

Definition CurrentLastBlockNumber (c : Checkpoint) : Z :=
  match EndBlock (FullBlockRange c) with
  | Some e => if e <? LatestBlockNumber c then e else LatestBlockNumber c
  | None => LatestBlockNumber c
  end.

(** The block to finish at is the smaller of the last block of the range and the
    chain's latest block. *)
Lemma CurrentLastBlockNumber_min c :
  CurrentLastBlockNumber c = match EndBlock (FullBlockRange c) with
                             | Some e => Z.min e (LatestBlockNumber c)
                             | None => LatestBlockNumber c
                             end.
Proof. unfold CurrentLastBlockNumber. destruct (EndBlock _); [bcase; lia|done]. Qed.

(** Block number at which a template instance was created, with the instance. *)
Record TplWithCreated : Type := mkTplWithCreated { created : TemplateInstance; CreatedBlock : Z }.

(** ** Usage handed to the quota service *)
Record Usage : Type := mkUsage {
  UTimeSeries : gmap string (gmap string Z);
  UExport : gmap string Z;
  UEntityCreated : gmap string Z;
  UEntityUpdated : gmap string Z
}.
