(* ===== verification/Intervals.v ===== *)
(** * Intervals: [common/window/window.go] and [driver/controller/data/interval.go]

    A handler may want a block every so many blocks, or the first block of every window of
    time. The first blocks of the windows are found by binary search, since the times of the
    blocks ascend. The function that gets the time of a block is a parameter, and may
    fail. *)
From Stdlib Require Import ZArith Lia String.
From stdpp Require Import base numbers option sorting gmap list strings.
From S2P Require Import Prelude RangeBase RangeSet BlockRange Sparsify Errors Checkpoint.

Section Intervals.
Context {Err : Type}.

(** ** Where a window starts *)

Section Search.
Context (winGetter : Z -> Z + Err).

(** The loop that halves the range; [p] is the window before it. *)
Fixpoint search_loop (fuel : nat) (p start end_ : Z) : Outcome (Z + Err) :=
  match fuel with
  | O => Diverge
  | S fuel =>
      if start <? end_ then
        let mid := Z.quot (wrap_int64 (start + end_)) 2 in
        match winGetter mid with
        | inr err => Ok (inr err)
        | inl t => if t =? p then search_loop fuel p (wrap_int64 (mid + 1)) end_ else search_loop fuel p start mid
        end
      else Ok (inl start)
  end.

(** A range of 64-bit numbers is halved at most 64 times. *)
Definition search_fuel : nat := 65.

Definition FindFirstStartPoint (start end_ : Z) : Outcome (option Z + Err) :=
  if end_ <? start then Ok (inl None)
  else
    match winGetter (wrap_int64 (start - 1)) with
    | inr err => Ok (inr err)
    | inl p =>
        match winGetter end_ with
        | inr err => Ok (inr err)
        | inl t =>
            if p =? t then Ok (inl None)
            else
              let! r := search_loop search_fuel p start end_ in
              Ok (match r with inl x => inl (Some x) | inr err => inr err end)
        end
    end.

Fixpoint points_loop (fuel : nat) (limit i start end_ : Z) (result : list Z) : Outcome (list Z + Err) :=
  match fuel with
  | O => Diverge
  | S fuel =>
      if (limit <=? 0) || (i <? limit) then
        let! r := FindFirstStartPoint start end_ in
        match r with
        | inr err => Ok (inr err)
        | inl None => Ok (inl result)
        | inl (Some x) => points_loop fuel limit (i + 1) (wrap_int64 (x + 1)) end_ (result ++ [x])
        end
      else Ok (inl result)
  end.

(** The start grows in every round. *)
Definition FindStartPoints (start end_ limit : Z) : Outcome (list Z + Err) :=
  points_loop (S (Z.to_nat (end_ - start + 1))) limit 0 start end_ [].
End Search.

(** ** Intervals *)

Record BlockInterval : Type := mkBlockInterval { bBackfill : Z; bWatching : Z }.
Record TimeInterval : Type := mkTimeInterval { tBackfill : Z; tWatching : Z }.

#[global] Instance BlockInterval_eq_dec : EqDecision BlockInterval.
Proof. solve_decision. Defined.
#[global] Instance TimeInterval_eq_dec : EqDecision TimeInterval.
Proof. solve_decision. Defined.

Record IntervalConfig : Type := mkInterval { cBlock : option BlockInterval; cTime : option TimeInterval }.

Definition watchingDiffers (c : IntervalConfig) : bool :=
  match cBlock c, cTime c with
  | Some b, _ => negb (bWatching b =? bBackfill b)
  | None, Some t => negb (tWatching t =? tBackfill t)
  | None, None => false
  end.

Definition Interval_Equal (c a : IntervalConfig) : bool :=
  match cBlock c, cTime c with
  | Some b, _ => match cBlock a with Some b' => (bBackfill b' =? bBackfill b) && (bWatching b' =? bWatching b) | None => false end
  | None, Some t => match cTime a with Some t' => (tBackfill t' =? tBackfill t) && (tWatching t' =? tWatching t) | None => false end
  | None, None => false
  end.

Definition ContainsInterval (l : list IntervalConfig) (target : IntervalConfig) : bool := existsb (fun item => Interval_Equal item target) l.

Record IntervalRequirement : Type := mkRequirement { rRange : BlockRange; rConfig : IntervalConfig }.

Definition requirement_index (r : IntervalRequirement) : Z := match cBlock (rConfig r) with Some _ => 0 | None => 1 end.

(** The search backwards for one that includes the requirement, among those of its kind. *)
Fixpoint included_before (req : IntervalRequirement) (earlier : list IntervalRequirement) : bool :=
  match earlier with
  | [] => false
  | pre :: rest =>
      if requirement_index req =? requirement_index pre then
        if BR_Include (rRange pre) (rRange req) && Interval_Equal (rConfig pre) (rConfig req) then true else included_before req rest
      else false
  end.

(** The loop over the sorted requirements; [earlier] has those before, the last one first. *)
Fixpoint merge_requirements (earlier reqs : list IntervalRequirement) : list IntervalRequirement :=
  match reqs with
  | [] => []
  | req :: rest =>
      let l := merge_requirements (req :: earlier) rest in
      if included_before req earlier then l else req :: l
  end.

(** The comparison is no strict order, so what [sort.Slice] makes of it is a parameter. *)
Definition requirement_less (a b : IntervalRequirement) : bool :=
  if negb (requirement_index a =? requirement_index b) then requirement_index a <? requirement_index b
  else if negb (StartBlock (rRange a) =? StartBlock (rRange b)) then StartBlock (rRange a) <? StartBlock (rRange b)
  else BR_Include (rRange a) (rRange b).

Definition MergeIntervalRequirements (sortSlice : (IntervalRequirement -> IntervalRequirement -> bool) -> list IntervalRequirement -> list IntervalRequirement)
    (reqs : list IntervalRequirement) : list IntervalRequirement :=
  merge_requirements [] (sortSlice requirement_less reqs).

(** ** The blocks of an interval *)

(** The zero [time.Time], the start of the year 1, in nanoseconds of Unix time. *)
Definition zero_time : Z := -62135596800000000000.

(** [Time.Truncate]: down to a multiple of [d] since the zero time. *)
Definition Truncate (t d : Z) : Z := if d <=? 0 then t else t - (t - zero_time) mod d.

Context (timeGetter : Z -> Z + Err).

(** The loop over the blocks; [n] wraps. *)
Fixpoint block_loop (fuel : nat) (itv : BlockInterval) (inWatching : bool) (n end_ : Z) (acc : list Z) : Outcome (list Z) :=
  match fuel with
  | O => Diverge
  | S fuel =>
      if n <=? end_ then
        if bBackfill itv =? 0 then Panic
        else if n mod bBackfill itv =? 0 then block_loop fuel itv inWatching (n +! 1) end_ (acc ++ [n])
        else if inWatching then
          if bWatching itv =? 0 then Panic
          else block_loop fuel itv inWatching (n +! 1) end_ (if n mod bWatching itv =? 0 then acc ++ [n] else acc)
        else block_loop fuel itv inWatching (n +! 1) end_ acc
      else Ok acc
  end.

(** The window of a block; a block before the first one has the zero time. *)
Definition backfill_window (first : Z) (itv : TimeInterval) (n : Z) : Z + Err :=
  if n <? to_int64 first then inl zero_time
  else match timeGetter (wrap n) with inr err => inr err | inl t => inl (Truncate t (tBackfill itv)) end.

Definition watching_window (itv : TimeInterval) (n : Z) : Z + Err :=
  match timeGetter (wrap n) with inr err => inr err | inl t => inl (Truncate t (tWatching itv)) end.

Definition QueryInterval (start end_ first : Z) (latest : BlockHeader) (req : IntervalRequirement) : Outcome (list Z + Err) :=
  let itv := rConfig req in
  match (if watchingDiffers itv then
           match timeGetter end_ with
           | inr err => inr err
           | inl endTime => inl (time_Sub (GetBlockTime latest) endTime <? WatchingDelay)
           end
         else inl false) with
  | inr err => Ok (inr err)
  | inl inWatching =>
      match cBlock itv, cTime itv with
      | Some b, _ => let! l := block_loop (S (S (Z.to_nat (end_ - start)))) b inWatching start end_ [] in Ok (inl l)
      | None, Some t =>
          let! r := FindStartPoints (backfill_window first t) (to_int64 start) (to_int64 end_) 0 in
          match r with
          | inr err => Ok (inr err)
          | inl bns =>
              let! r := (if inWatching then FindStartPoints (watching_window t) (to_int64 start) (to_int64 end_) 0 else Ok (inl [])) in
              match r with
              | inr err => Ok (inr err)
              | inl more => Ok (inl (map wrap (elements (list_to_set bns ∪ list_to_set more : gset Z))))
              end
          end
      | None, None => Ok (inl [])
      end
  end.
End Intervals.
