(* ===== verification/IntervalSpec.v ===== *)
(** * What the interval queries find

    For times that ascend with the blocks, the binary search finds the first block of a new
    window, the points are all of them in order, and a query returns exactly the blocks of
    its interval. Merging requirements keeps every one of them covered. *)
From Stdlib Require Import ZArith Lia String.
From stdpp Require Import base numbers option sorting gmap list strings.
From S2P Require Import Prelude RangeBase RangeSet BlockRange Sparsify Errors Checkpoint Intervals.

Section Spec.
Context {Err : Type}.

(** ** The search *)

(** The windows are known from the block before [lo] to [hi], and ascend. *)
Record ascending_windows (winGetter : Z -> Z + Err) (w : Z -> Z) (lo hi : Z) : Prop := mkAscending {
  aw_lo : 0 <= lo;
  aw_hi : hi < 2 ^ 62;
  aw_get n : lo - 1 <= n <= hi -> winGetter n = inl (w n);
  aw_mono m n : lo - 1 <= m -> m <= n -> n <= hi -> w m <= w n
}.

Lemma ascending_later g w lo lo' hi : ascending_windows g w lo hi -> lo <= lo' -> ascending_windows g w lo' hi.
Proof. intros [H1 H2 H3 H4] Hlo. split; [lia|done|..]; intros; [apply H3; lia|apply H4; lia]. Qed.

(** A new window starts at the block. *)
Definition new_window (w : Z -> Z) (n : Z) : Prop := w (n - 1) <> w n.
#[global] Instance new_window_dec w n : Decision (new_window w n) := _.

Lemma halved start end_ : 0 <= start -> start < end_ < 2 ^ 62 -> Z.quot (wrap_int64 (start + end_)) 2 = (start + end_) / 2 /\ start <= (start + end_) / 2 < end_.
Proof.
  intros H0 H1. rewrite wrap_int64_id by lia. rewrite Z.quot_div_nonneg by lia. pose proof (Z.div_mod (start + end_) 2 ltac:(lia)).
  pose proof (Z.mod_pos_bound (start + end_) 2 ltac:(lia)). split; [done|lia].
Qed.

Lemma search_loop_spec g w lo hi p fuel start end_ :
  ascending_windows g w lo hi -> lo <= start -> start <= end_ -> end_ <= hi -> end_ - start < 2 ^ Z.of_nat fuel ->
  (forall n, lo - 1 <= n < start -> w n = p) -> w end_ <> p ->
  exists x, search_loop g (S fuel) p start end_ = Ok (inl x) /\ start <= x <= end_ /\ w x <> p /\ forall n, lo - 1 <= n < x -> w n = p.
Proof.
  intros [Hlo Hhi Hget Hmono]. revert start end_. induction fuel as [|fuel IH]; intros start end_ Hs Hle He Hf Hp Hne.
  { cbn in Hf. cbn [search_loop]. rewrite (proj2 (Z.ltb_ge _ _)) by lia. assert (start = end_) as -> by lia. exists end_. split_and!; [done|lia|lia|done|done]. }
  change (search_loop g (S (S fuel)) p start end_) with
    (if start <? end_ then
       let mid := Z.quot (wrap_int64 (start + end_)) 2 in
       match g mid with
       | inr err => Ok (inr err)
       | inl t => if t =? p then search_loop g (S fuel) p (wrap_int64 (mid + 1)) end_ else search_loop g (S fuel) p start mid
       end
     else Ok (inl start)).
  destruct (Z.ltb_spec start end_) as [Hlt|Hge].
  2:{ assert (start = end_) as -> by lia. exists end_. split_and!; [done|lia|lia|done|done]. }
  destruct (halved start end_ ltac:(lia) ltac:(lia)) as [-> Hmid]. rewrite Nat2Z.inj_succ, Z.pow_succ_r in Hf by lia.
  pose proof (Z.div_mod (start + end_) 2 ltac:(lia)). pose proof (Z.mod_pos_bound (start + end_) 2 ltac:(lia)). set (mid := (start + end_) / 2) in *.
  cbn zeta. rewrite Hget, wrap_int64_id by lia. destruct (Z.eqb_spec (w mid) p) as [E|E].
  - destruct (IH (mid + 1) end_) as (x & Ex & Hx & Hwx & Hall); [lia..| |done|exists x; split_and!; [done|lia|lia|done|done]].
    intros n Hn. destruct (Z_lt_le_dec n start) as [?|Hns]; [by apply Hp; lia|]. pose proof (Hmono n mid ltac:(lia) ltac:(lia) ltac:(lia)).
    pose proof (Hmono (start - 1) n ltac:(lia) ltac:(lia) ltac:(lia)). rewrite (Hp (start - 1)) in * by lia. lia.
  - destruct (IH start mid) as (x & Ex & Hx & Hwx & Hall); [lia..|done|done|exists x; split_and!; [done|lia|lia|done|done]].
Qed.

Lemma FindFirstStartPoint_spec g w start hi :
  ascending_windows g w start hi ->
  exists r, FindFirstStartPoint g start hi = Ok (inl r) /\
    match r with
    | None => forall n, start <= n <= hi -> ~ new_window w n
    | Some x => start <= x <= hi /\ new_window w x /\ forall n, start <= n < x -> ~ new_window w n
    end.
Proof.
  intros Ha. pose proof Ha as [Hlo Hhi Hget Hmono]. unfold FindFirstStartPoint. destruct (Z.ltb_spec hi start) as [Hlt|Hle]; [exists None; split; [done|lia]|].
  rewrite wrap_int64_id by lia. rewrite !Hget by lia. destruct (Z.eqb_spec (w (start - 1)) (w hi)) as [E|E].
  { exists None. split; [done|]. intros n Hn Hw. pose proof (Hmono (start - 1) (n - 1) ltac:(lia) ltac:(lia) ltac:(lia)).
    pose proof (Hmono (n - 1) n ltac:(lia) ltac:(lia) ltac:(lia)). pose proof (Hmono n hi ltac:(lia) ltac:(lia) ltac:(lia)). unfold new_window in Hw. lia. }
  destruct (search_loop_spec g w start hi (w (start - 1)) 64 start hi Ha) as (x & Ex & Hx & Hwx & Hall); [lia|lia|lia|cbn; lia| |congruence|].
  { intros n Hn. f_equal. lia. }
  change search_fuel with 65%nat. rewrite Ex. cbn [obind]. exists (Some x). split; [done|]. split; [done|]. unfold new_window. split.
  - rewrite (Hall (x - 1)) by lia. congruence.
  - intros n Hn Hw. apply Hw. rewrite (Hall n), (Hall (n - 1)) by lia. done.
Qed.

(** ** All the points *)

Definition starts (w : Z -> Z) (lo hi : Z) : list Z := filter (new_window w) (seqZ lo (hi - lo + 1)).

Lemma elem_of_starts w lo hi n : n ∈ starts w lo hi <-> lo <= n <= hi /\ new_window w n.
Proof. unfold starts. rewrite list_elem_of_filter, elem_of_seqZ. intuition lia. Qed.

Lemma filter_nothing (P : Z -> Prop) `{!forall x, Decision (P x)} (l : list Z) : (forall x, x ∈ l -> ~ P x) -> filter P l = [].
Proof.
  induction l as [|x l IH]; intros Hn; [done|]. rewrite filter_cons_False by (apply Hn; by left). apply IH. intros y Hy. apply Hn. by right.
Qed.

Lemma starts_none w lo hi : (forall n, lo <= n <= hi -> ~ new_window w n) -> starts w lo hi = [].
Proof. intros H. apply filter_nothing. intros n Hn%elem_of_seqZ. apply H. lia. Qed.

Lemma starts_first w lo hi x : lo <= x <= hi -> new_window w x -> (forall n, lo <= n < x -> ~ new_window w n) -> starts w lo hi = x :: starts w (x + 1) hi.
Proof.
  intros Hx Hw Hn. unfold starts. replace (hi - lo + 1) with ((x - lo) + (hi - x + 1)) by lia. rewrite seqZ_app; [|lia..]. rewrite filter_app.
  rewrite filter_nothing by (intros n Hin%elem_of_seqZ; apply Hn; lia). replace (lo + (x - lo)) with x by lia. cbn [app].
  rewrite (seqZ_cons x) by lia. rewrite filter_cons_True by done. f_equal. f_equal. f_equal; lia.
Qed.

Lemma points_loop_spec g w fuel limit i start hi result :
  ascending_windows g w start hi -> (Z.to_nat (hi - start + 1) < fuel)%nat ->
  points_loop g fuel limit i start hi result =
  Ok (inl (result ++ (if limit <=? 0 then starts w start hi else take (Z.to_nat (limit - i)) (starts w start hi)))).
Proof.
  revert i start result. induction fuel as [|fuel IH]; intros i start result Ha Hf; [lia|]. cbn [points_loop].
  destruct ((limit <=? 0) || (i <? limit)) eqn:Eg.
  2:{ apply orb_false_iff in Eg as [E1 E2]. rewrite E1. apply Z.ltb_ge in E2. replace (Z.to_nat (limit - i)) with 0%nat by lia. by rewrite take_0, app_nil_r. }
  destruct (FindFirstStartPoint_spec g w start hi Ha) as (r & -> & Hr). cbn [obind]. destruct r as [x|].
  - destruct Hr as (Hx & Hw & Hn). pose proof (aw_lo _ _ _ _ Ha). pose proof (aw_hi _ _ _ _ Ha). rewrite wrap_int64_id by lia.
    rewrite IH; [|apply (ascending_later _ _ start); [done|lia]|lia]. rewrite (starts_first w start hi x Hx Hw Hn), <- app_assoc.
    destruct (limit <=? 0) eqn:El; [done|]. cbn [orb] in Eg. apply Z.ltb_lt in Eg. replace (Z.to_nat (limit - i)) with (S (Z.to_nat (limit - (i + 1)))) by lia. done.
  - rewrite starts_none by done. rewrite take_nil. destruct (limit <=? 0); by rewrite app_nil_r.
Qed.

Lemma FindStartPoints_spec g w start hi limit :
  ascending_windows g w start hi ->
  FindStartPoints g start hi limit = Ok (inl (if limit <=? 0 then starts w start hi else take (Z.to_nat limit) (starts w start hi))).
Proof. intros Ha. unfold FindStartPoints. rewrite (points_loop_spec g w) by (done || lia). by rewrite Z.sub_0_r. Qed.

(** ** The query *)

Lemma Truncate_mono d t u : t <= u -> Truncate t d <= Truncate u d.
Proof.
  intros Htu. unfold Truncate. bcase; [done|]. pose proof (Z.div_mod (t - zero_time) d ltac:(lia)). pose proof (Z.div_mod (u - zero_time) d ltac:(lia)).
  pose proof (Z.mod_pos_bound (t - zero_time) d ltac:(lia)). pose proof (Z.mod_pos_bound (u - zero_time) d ltac:(lia)).
  pose proof (Z.div_le_mono (t - zero_time) (u - zero_time) d ltac:(lia) ltac:(lia)). nia.
Qed.

Lemma Truncate_zero d t : zero_time <= t -> zero_time <= Truncate t d.
Proof.
  intros Ht. unfold Truncate. bcase; [done|]. pose proof (Z.mod_le (t - zero_time) d ltac:(lia) ltac:(lia)). lia.
Qed.

Definition wanted_block (itv : BlockInterval) (watching : bool) (n : Z) : Prop := n mod bBackfill itv = 0 \/ watching = true /\ n mod bWatching itv = 0.
#[global] Instance wanted_block_dec itv watching n : Decision (wanted_block itv watching n) := _.

Lemma block_loop_spec fuel itv watching n end_ acc :
  0 < bBackfill itv -> 0 < bWatching itv -> 0 <= n -> end_ < maxU64 -> (Z.to_nat (end_ - n + 1) < fuel)%nat ->
  block_loop fuel itv watching n end_ acc = Ok (acc ++ filter (wanted_block itv watching) (seqZ n (end_ - n + 1))).
Proof.
  intros Hb Hw. revert n acc. induction fuel as [|fuel IH]; intros n acc Hn He Hf; [lia|]. cbn [block_loop]. destruct (Z.leb_spec n end_) as [Hle|Hgt].
  2:{ rewrite seqZ_nil by lia. by rewrite app_nil_r. }
  rewrite (proj2 (Z.eqb_neq (bBackfill itv) 0)), (proj2 (Z.eqb_neq (bWatching itv) 0)) by lia. rewrite add64_small by (unfold two64, maxU64 in *; lia).
  rewrite (seqZ_cons n) by lia. replace (Z.pred (end_ - n + 1)) with (end_ - (n + 1) + 1) by lia. change (Z.succ n) with (n + 1). rewrite filter_cons.
  assert (Hrec : forall a, block_loop fuel itv watching (n + 1) end_ a = Ok (a ++ filter (wanted_block itv watching) (seqZ (n + 1) (end_ - (n + 1) + 1)))) by (intros a; apply IH; lia).
  unfold wanted_block at 1. destruct (Z.eqb_spec (n mod bBackfill itv) 0) as [E|E].
  { rewrite decide_True by (by left). rewrite Hrec. by rewrite <- app_assoc. }
  destruct watching; [destruct (Z.eqb_spec (n mod bWatching itv) 0)|]; rewrite Hrec.
  - rewrite decide_True by (by right). by rewrite <- app_assoc.
  - rewrite decide_False; [done|]. intros [?|[_ ?]]; done.
  - rewrite decide_False; [done|]. intros [?|[? _]]; done.
Qed.

(** The times of the blocks from the first one on are known, none is before the zero time,
    and they ascend. *)
Record ascending_times (timeGetter : Z -> Z + Err) (time : Z -> Z) (first end_ : Z) : Prop := mkTimes {
  at_first : 0 <= first;
  at_end : end_ < 2 ^ 62;
  at_get n : first <= n <= end_ -> timeGetter n = inl (time n);
  at_zero n : first <= n <= end_ -> zero_time <= time n;
  at_mono m n : first <= m -> m <= n -> n <= end_ -> time m <= time n
}.

(** The window of a block, and of the time before the first one. *)
Definition window_of (time : Z -> Z) (first d n : Z) : Z := if n <? first then zero_time else Truncate (time n) d.

Lemma small_int64 n : -1 <= n < 2 ^ 62 -> to_int64 n = n.
Proof. intros Hn. unfold to_int64. rewrite (proj2 (Z.ltb_lt _ _)) by lia. done. Qed.

Lemma window_of_mono g time first end_ d m n : ascending_times g time first end_ -> m <= n -> n <= end_ -> window_of time first d m <= window_of time first d n.
Proof.
  intros [H0 H1 H2 H3 H4] Hmn Hn. unfold window_of. destruct (Z.ltb_spec m first), (Z.ltb_spec n first); [lia| |lia|].
  - apply Truncate_zero, H3. lia.
  - apply Truncate_mono, H4; lia.
Qed.

Lemma backfill_ascending g time first end_ start itv :
  ascending_times g time first end_ -> first <= start -> start <= end_ -> ascending_windows (backfill_window g first itv) (window_of time first (tBackfill itv)) start end_.
Proof.
  intros Ha Hs He. pose proof Ha as [H0 H1 H2 H3 H4]. split; [lia|done| |].
  - intros n Hn. unfold backfill_window, window_of. rewrite small_int64 by lia.
    destruct (Z.ltb_spec n first); [done|]. rewrite wrap_small by (unfold u64, two64; lia). by rewrite H2 by lia.
  - intros m n _ Hmn Hn. by apply (window_of_mono g time first end_).
Qed.

Lemma watching_ascending g time first end_ start itv :
  ascending_times g time first end_ -> first < start -> start <= end_ -> ascending_windows (watching_window g itv) (window_of time first (tWatching itv)) start end_.
Proof.
  intros Ha Hs He. pose proof Ha as [H0 H1 H2 H3 H4]. split; [lia|done| |].
  - intros n Hn. unfold watching_window, window_of. rewrite (proj2 (Z.ltb_ge _ _)) by lia. rewrite wrap_small by (unfold u64, two64; lia). by rewrite H2 by lia.
  - intros m n _ Hmn Hn. by apply (window_of_mono g time first end_).
Qed.

(** The blocks a query is for: those of the backfill interval and, near the head of the
    chain, those of the watching interval. *)
Definition in_watching (time : Z -> Z) (end_ : Z) (latest : BlockHeader) (c : IntervalConfig) : bool :=
  watchingDiffers c && (time_Sub (GetBlockTime latest) (time end_) <? WatchingDelay).

Definition interval_wants (time : Z -> Z) (first end_ : Z) (latest : BlockHeader) (c : IntervalConfig) (n : Z) : Prop :=
  match cBlock c, cTime c with
  | Some b, _ => wanted_block b (in_watching time end_ latest c) n
  | None, Some t =>
      new_window (window_of time first (tBackfill t)) n \/
      in_watching time end_ latest c = true /\ new_window (window_of time first (tWatching t)) n
  | None, None => False
  end.

(** What the query relies on: intervals of blocks are positive, and a watching pass by time
    does not start at the first block. *)
Definition queryable (time : Z -> Z) (first start end_ : Z) (latest : BlockHeader) (c : IntervalConfig) : Prop :=
  match cBlock c, cTime c with
  | Some b, _ => 0 < bBackfill b /\ 0 < bWatching b
  | None, Some t => in_watching time end_ latest c = true -> first < start
  | None, None => True
  end.

Lemma map_wrap_small (l : list Z) : (forall n, n ∈ l -> 0 <= n < 2 ^ 62) -> map wrap l = l.
Proof.
  induction l as [|n l IH]; intros Hl; [done|]. cbn. rewrite wrap_small, IH; [done|intros m Hm; apply Hl; by right|].
  pose proof (Hl n ltac:(by left)). unfold u64, two64. lia.
Qed.

Lemma QueryInterval_spec g time first start end_ latest req :
  ascending_times g time first end_ -> first <= start -> start <= end_ -> queryable time first start end_ latest (rConfig req) ->
  exists l, QueryInterval g start end_ first latest req = Ok (inl l) /\ NoDup l /\
    forall n, n ∈ l <-> start <= n <= end_ /\ interval_wants time first end_ latest (rConfig req) n.
Proof.
  intros Ha Hs He Hq. pose proof Ha as [H0 H1 H2 H3 H4]. unfold QueryInterval, interval_wants, queryable in *.
  set (c := rConfig req) in *. set (iw := in_watching time end_ latest c) in *.
  match goal with |- context [match ?e with inl _ => _ | inr _ => _ end] => replace e with (inl iw : bool + Err) end.
  2:{ unfold iw, in_watching. destruct (watchingDiffers c); [|done]. by rewrite H2 by lia. }
  destruct (cBlock c) as [b|].
  { rewrite block_loop_spec; [|lia|lia|lia|unfold maxU64; lia|lia]. cbn [obind app]. eexists. split; [done|]. split.
    - apply NoDup_filter, NoDup_seqZ.
    - intros n. rewrite list_elem_of_filter, elem_of_seqZ. intuition lia. }
  destruct (cTime c) as [t|].
  2:{ exists []. split; [done|]. split; [constructor|]. intros n. split; [by intros ?%elem_of_nil|tauto]. }
  rewrite !small_int64 by lia. rewrite (FindStartPoints_spec _ _ _ _ _ (backfill_ascending g time first end_ start t Ha Hs He)). cbn [Z.leb obind].
  assert (exists more, (if iw then FindStartPoints (watching_window g t) start end_ 0 else Ok (inl [])) = Ok (inl more) /\
            forall n, n ∈ more <-> iw = true /\ start <= n <= end_ /\ new_window (window_of time first (tWatching t)) n) as (more & -> & Hmore).
  { destruct iw; [|exists []; split; [done|]; intros n; split; [by intros ?%elem_of_nil|by intros [? _]]].
    rewrite (FindStartPoints_spec _ _ _ _ _ (watching_ascending g time first end_ start t Ha (Hq eq_refl) He)).
    change (0 <=? 0) with true. cbv iota. eexists. split; [done|]. intros n. rewrite elem_of_starts. tauto. }
  assert (Hin : forall n, n ∈ elements (list_to_set (starts (window_of time first (tBackfill t)) start end_) ∪ list_to_set more : gset Z) <->
            start <= n <= end_ /\ (new_window (window_of time first (tBackfill t)) n \/ iw = true /\ new_window (window_of time first (tWatching t)) n)).
  { intros n. rewrite elem_of_elements, elem_of_union, !elem_of_list_to_set, elem_of_starts, Hmore. tauto. }
  cbn [obind]. eexists. split; [done|]. rewrite map_wrap_small by (intros n [Hn _]%Hin; lia). split; [apply NoDup_elements|done].
Qed.

(** ** Merging requirements *)

(** A requirement covers another: of the same kind, an equal interval, and a range that
    includes its range. *)
Definition covers (a r : IntervalRequirement) : Prop := requirement_index a = requirement_index r /\ BR_Include (rRange a) (rRange r) = true /\ Interval_Equal (rConfig a) (rConfig r) = true.

Lemma included_before_covers req earlier : included_before req earlier = true -> exists a, a ∈ earlier /\ covers a req.
Proof.
  induction earlier as [|pre rest IH]; [done|]. cbn. destruct (Z.eqb_spec (requirement_index req) (requirement_index pre)); [|done]. destruct (_ && _) eqn:E.
  - intros _. apply andb_true_iff in E. exists pre. split; [by left|by split].
  - intros H1. destruct (IH H1) as (a & Ha & Hc). exists a. split; [by right|done].
Qed.

(** An interval with a configuration is equal to itself. *)
Definition configured (r : IntervalRequirement) : Prop := cBlock (rConfig r) <> None \/ cTime (rConfig r) <> None.

Lemma covers_refl r : configured r -> covers r r.
Proof.
  intros Hc. split_and!; [done|..].
  - unfold BR_Include. destruct (BR_IsEmpty (rRange r)); [done|]. rewrite Z.leb_refl. destruct (EndBlock (rRange r)) as [e|]; [|done]. unfold BR_LessEqualNilAsInf. cbn. by rewrite ?Z.leb_refl, ?Z.ltb_irrefl.
  - destruct Hc as [Hc|Hc]; unfold Interval_Equal; destruct (cBlock (rConfig r)) as [b|], (cTime (rConfig r)) as [t|]; rewrite ?Z.eqb_refl; done.
Qed.

Lemma merge_requirements_subset earlier reqs r : r ∈ merge_requirements earlier reqs -> r ∈ reqs.
Proof.
  revert earlier. induction reqs as [|q reqs IH]; intros earlier; [done|]. cbn. case_match.
  - intros ?%IH. by right.
  - intros [->|?%IH]%elem_of_cons; [by left|by right].
Qed.

Lemma covers_trans a b c : covers a b -> covers b c -> covers a c.
Proof.
  intros (Hi & Hr & He) (Hi' & Hr' & He'). split_and!; [congruence|clear -Hr Hr'|clear Hr Hr'].
  - unfold BR_Include in *. destruct (BR_IsEmpty (rRange c)); [done|]. destruct (BR_IsEmpty (rRange b)); [done|]. destruct (BR_IsEmpty (rRange a)); [done|].
    apply andb_true_iff in Hr as [H1 H2], Hr' as [H3 H4]. apply andb_true_iff. split; [lia|].
    unfold BR_LessEqualNilAsInf in *. destruct (EndBlock (rRange a)), (EndBlock (rRange b)), (EndBlock (rRange c)); try done; lia.
  - unfold requirement_index, Interval_Equal in *. destruct (cBlock (rConfig a)), (cBlock (rConfig b)), (cBlock (rConfig c)); try done; [lia..|].
    destruct (cTime (rConfig a)), (cTime (rConfig b)), (cTime (rConfig c)); try done; lia.
Qed.

(** Whatever the order, what is dropped is covered by what stays. *)
Lemma merge_requirements_covers earlier reqs kept :
  (forall r, r ∈ earlier -> exists a, a ∈ kept /\ covers a r) -> (forall r, r ∈ reqs -> configured r) ->
  forall r, r ∈ earlier ++ reqs -> exists a, a ∈ kept ++ merge_requirements earlier reqs /\ covers a r.
Proof.
  revert earlier kept. induction reqs as [|q reqs IH]; intros earlier kept Hk Hc r Hr.
  { rewrite app_nil_r in Hr. cbn. rewrite app_nil_r. by apply Hk. }
  cbn. destruct (included_before q earlier) eqn:Ei.
  - apply included_before_covers in Ei as (b & Hb & Hbq). apply IH; [|intros x Hx; apply Hc; by right|].
    + intros x [->|Hx]%elem_of_cons; [|by apply Hk]. destruct (Hk b Hb) as (a & Ha & Hab). exists a. split; [done|by apply (covers_trans a b)].
    + rewrite elem_of_app, !elem_of_cons in *. tauto.
  - change (q :: merge_requirements (q :: earlier) reqs) with ([q] ++ merge_requirements (q :: earlier) reqs). rewrite app_assoc.
    apply IH; [|intros x Hx; apply Hc; by right|].
    + intros x [->|Hx]%elem_of_cons; [exists q; split; [apply elem_of_app; right; by left|apply covers_refl, Hc; by left]|].
      destruct (Hk x Hx) as (a & Ha & Hax). exists a. split; [apply elem_of_app; by left|done].
    + rewrite elem_of_app, !elem_of_cons in *. tauto.
Qed.
End Spec.
