(* ===== verification/CheckpointCtrl.v ===== *)
(** * The checkpoint controller: [checkpointController] of [driver/controller/checkpoint.go]

    The controller keeps the checkpoints of a chain (a saved prefix and unsaved ones
    behind it) and the template instances created so far. Its collaborators (the
    checkpoint store, the quota service, the three data sinks and the clock) are the
    operations of the class [Services] on a world [W]; what the theorems need of the
    store is the class [StoreLaws]. Every method is a stateful function on the pair of
    the controller's fields and the world. The mutex makes the methods atomic; logging
    and the statistics window are left out. *)
From Stdlib Require Import ZArith Lia.
From stdpp Require Import base numbers option strings sorting gmap list.
From S2P Require Import Prelude RangeBase RangeSet RangeSetOps RangeCut BlockRange Sparsify Errors Checkpoint.

(** ** Collaborators *)

Inductive SaveResult : Type :=
| SaveOk
| SaveTooBig (* ErrCheckpointsTooBig *)
| SaveErr (e : string).

Inductive QuotaResult : Type :=
| QuotaErr (e : string)
| QuotaOver (msg : string)
| QuotaWithin.

Inductive Sink : Type := TimeSeriesSink | EntitySink | WebhookSink.

Class Services (W : Type) : Type := {
  time_Now : W -> Z * W;
  store_Save : list Checkpoint -> TemplateMap -> gmap string Z -> W -> SaveResult * W;
  store_SaveError : ExternalError -> W -> option string * W;
  quota_CheckOverQuota : W -> QuotaResult * W;
  quota_SaveUsage : Usage -> bool -> W -> option string * W;
  ts_Commit : Z -> Z -> W -> (gmap string (gmap string Z) * option ExternalError) * W;
  entity_Commit : Z -> Z -> W -> ((gmap string Z * gmap string Z) * option ExternalError) * W;
  webhook_Commit : Z -> Z -> W -> (gmap string Z * option ExternalError) * W;
  sink_Reset : Sink -> option Checkpoint -> W -> option ExternalError * W;
  sink_CachedTooMuch : Sink -> Z -> W -> bool
}.

(** ** The fields of the controller *)

Record Ctrl : Type := mkCtrl {
  saveDelay : Z;
  saveInterval : Z;
  maxKeepCheckpointCount : Z;
  checkpoints : list Checkpoint;
  savedCheckpoints : nat;
  checkpointSparsifyMultiplier : Z;
  lastSavedAt : Z;
  lastSavedCheckpoint : option Checkpoint;
  actuallyLastSavedAt : Z;
  templates : TemplateMap;
  unsavedTemplates : TemplateMap;
  agentStat : gmap string Z;
  stopped : bool
}.

Definition set_checkpoints (l : list Checkpoint) (c : Ctrl) : Ctrl :=
  mkCtrl (saveDelay c) (saveInterval c) (maxKeepCheckpointCount c) l (savedCheckpoints c)
    (checkpointSparsifyMultiplier c) (lastSavedAt c) (lastSavedCheckpoint c) (actuallyLastSavedAt c)
    (templates c) (unsavedTemplates c) (agentStat c) (stopped c).

Definition set_saved (n : nat) (c : Ctrl) : Ctrl :=
  mkCtrl (saveDelay c) (saveInterval c) (maxKeepCheckpointCount c) (checkpoints c) n
    (checkpointSparsifyMultiplier c) (lastSavedAt c) (lastSavedCheckpoint c) (actuallyLastSavedAt c)
    (templates c) (unsavedTemplates c) (agentStat c) (stopped c).

Definition set_multiplier (m : Z) (c : Ctrl) : Ctrl :=
  mkCtrl (saveDelay c) (saveInterval c) (maxKeepCheckpointCount c) (checkpoints c) (savedCheckpoints c)
    m (lastSavedAt c) (lastSavedCheckpoint c) (actuallyLastSavedAt c)
    (templates c) (unsavedTemplates c) (agentStat c) (stopped c).

Definition set_lastSaved (t : Z) (k : option Checkpoint) (c : Ctrl) : Ctrl :=
  mkCtrl (saveDelay c) (saveInterval c) (maxKeepCheckpointCount c) (checkpoints c) (savedCheckpoints c)
    (checkpointSparsifyMultiplier c) t k (actuallyLastSavedAt c)
    (templates c) (unsavedTemplates c) (agentStat c) (stopped c).

Definition set_actuallyLastSavedAt (t : Z) (c : Ctrl) : Ctrl :=
  mkCtrl (saveDelay c) (saveInterval c) (maxKeepCheckpointCount c) (checkpoints c) (savedCheckpoints c)
    (checkpointSparsifyMultiplier c) (lastSavedAt c) (lastSavedCheckpoint c) t
    (templates c) (unsavedTemplates c) (agentStat c) (stopped c).

Definition set_templates (t u : TemplateMap) (c : Ctrl) : Ctrl :=
  mkCtrl (saveDelay c) (saveInterval c) (maxKeepCheckpointCount c) (checkpoints c) (savedCheckpoints c)
    (checkpointSparsifyMultiplier c) (lastSavedAt c) (lastSavedCheckpoint c) (actuallyLastSavedAt c)
    t u (agentStat c) (stopped c).

Definition set_agentStat (a : gmap string Z) (c : Ctrl) : Ctrl :=
  mkCtrl (saveDelay c) (saveInterval c) (maxKeepCheckpointCount c) (checkpoints c) (savedCheckpoints c)
    (checkpointSparsifyMultiplier c) (lastSavedAt c) (lastSavedCheckpoint c) (actuallyLastSavedAt c)
    (templates c) (unsavedTemplates c) a (stopped c).

Definition set_stopped (b : bool) (c : Ctrl) : Ctrl :=
  mkCtrl (saveDelay c) (saveInterval c) (maxKeepCheckpointCount c) (checkpoints c) (savedCheckpoints c)
    (checkpointSparsifyMultiplier c) (lastSavedAt c) (lastSavedCheckpoint c) (actuallyLastSavedAt c)
    (templates c) (unsavedTemplates c) (agentStat c) b.

(** [NewCheckpointController] once the store has loaded [cks] and [tpls] (nil: [None]). *)
Definition NewCheckpointController (delay interval maxKeep : Z) (cks : list Checkpoint)
    (tpls : option TemplateMap) : Ctrl :=
  mkCtrl delay interval maxKeep cks (length cks) 0 0 None 0 (default ∅ tpls) ∅ ∅ false.

(** ** Reading the fields *)

(** [l[i]]. *)
Definition index {A} (l : list A) (i : nat) : Outcome A :=
  match l !! i with Some x => Ok x | None => Panic end.

(** [l[:n]]; Go panics beyond the capacity, the model already beyond the length. *)
Definition slice_to {A} (l : list A) (n : nat) : Outcome (list A) :=
  if bool_decide (n <= length l)%nat then Ok (take n l) else Panic.

(** The loop of [findCheckpoint]: [p] runs while the block is not beyond [le]. *)
Fixpoint findCheckpoint_loop (le : Z) (l : list Checkpoint) (p : Z) : Z :=
  match l with
  | [] => p
  | k :: t => if BlockNumber k <=? le then findCheckpoint_loop le t (p + 1) else p
  end.

Definition findCheckpoint (c : Ctrl) (blockNumberLE : Z) : Z :=
  findCheckpoint_loop blockNumberLE (checkpoints c) 0 - 1.

Definition getLatestCheckpoint (c : Ctrl) (saved : bool) : Outcome (option Checkpoint) :=
  let cc := if saved then savedCheckpoints c else length (checkpoints c) in
  match cc with
  | O => Ok None
  | S i => let! k := index (checkpoints c) i in Ok (Some k)
  end.

(** [utils.FilterMap] on the keys. *)
Definition FilterMap (m : TemplateMap) (f : Z -> bool) : TemplateMap :=
  filter (fun kv => f kv.1 = true) m.

Definition getTemplates (c : Ctrl) (savedOnly : bool) : Outcome TemplateMap :=
  if savedOnly then
    match savedCheckpoints c with
    | O => Ok ∅
    | S i =>
        let! k := index (checkpoints c) i in
        Ok (FilterMap (templates c) (fun u => u <=? BlockNumber k))
    end
  else Ok (templates c).

(** [utils.MapDelete] on the keys. *)
Definition MapDelete (m : TemplateMap) (f : Z -> bool) : TemplateMap :=
  filter (fun kv => f kv.1 = false) m.

Section Controller.
Context {W : Type} `{Services W}.

Record CState : Type := mkCState { ctrl : Ctrl; world : W }.

(** A call of a collaborator. *)
Definition call {A} (f : W -> A * W) : SM CState A :=
  fun s => let '(a, w) := f (world s) in Ok (a, mkCState (ctrl s) w).

Definition cget : SM CState Ctrl := fun s => Ok (ctrl s, s).
Definition cmodify (f : Ctrl -> Ctrl) : SM CState unit :=
  fun s => Ok (tt, mkCState (f (ctrl s)) (world s)).

(** ** Ready *)

(** The three resets run concurrently; [order] is the order in which they finish, and
    the error group returns the first error. *)
Fixpoint Ready_resets (order : list Sink) (ck : option Checkpoint) : SM CState (option ExternalError) :=
  match order with
  | [] => mret None
  | sink :: rest =>
      e ← call (sink_Reset sink ck);
      e' ← Ready_resets rest ck;
      mret (match e with Some _ => e | None => e' end)
  end.

Definition Ready (order : list Sink) (stat : gmap string Z) : SM CState (option ExternalError) :=
  _ ← cmodify (set_agentStat stat);
  c ← cget;
  e ← Ready_resets order (last (checkpoints c));
  match e with
  | Some err => mret (Some err)
  | None => _ ← cmodify (set_stopped false); mret None
  end.

(** ** Saving *)

(** [for cc < len(c.checkpoints) && time.Since(c.checkpoints[cc].BlockTime) > c.saveDelay];
    [l] is [c.checkpoints[cc:]]. *)
Fixpoint save_ripe (delay : Z) (l : list Checkpoint) (cc : nat) : SM CState nat :=
  match l with
  | [] => mret cc
  | k :: t =>
      now ← call time_Now;
      if delay <? time_Sub now (BlockTime k) then save_ripe delay t (S cc) else mret cc
  end.

(** The loop that sparsifies and stores, shrinking while the store finds the
    checkpoints too big. *)
Fixpoint save_loop (fuel : nat) (cc : nat) : SM CState (option ExternalError) :=
  match fuel with
  | O => slift Diverge
  | S fuel' =>
      c ← cget;
      let multiplier := Z.max (checkpointSparsifyMultiplier c) 2 in
      prefix ← slift (slice_to (checkpoints c) cc);
      remove ← slift (RemoveWithMultiplier BlockNumber prefix (multiplier / 2) multiplier);
      _ ← cmodify (set_checkpoints (RemoveByIndex (checkpoints c) remove));
      let cc' := (cc - size remove)%nat in
      _ ← cmodify (set_saved cc');
      c' ← cget;
      cks ← slift (slice_to (checkpoints c') (savedCheckpoints c'));
      tpls ← slift (getTemplates c' true);
      r ← call (store_Save cks tpls (agentStat c'));
      match r with
      | SaveOk => mret None
      | SaveTooBig => _ ← cmodify (set_multiplier (multiplier *! 2)); save_loop fuel' cc'
      | SaveErr e => mret (Some (mkExternalError ErrCodeSaveCheckpointFailed e))
      end
  end.

(** One multiplier per power of two below 2^64. *)
Definition save_fuel : nat := 64.

(** The commits and the store, each step only after the ones before succeeded. *)
Definition save_commit (cur : Checkpoint) (cc : nat) : SM CState (option ExternalError) :=
  '(uts, e) ← call (ts_Commit (BlockNumber cur) (BlockTime cur));
  match e with
  | Some err => mret (Some err)
  | None =>
  '(ucu, e) ← call (entity_Commit (BlockNumber cur) (BlockTime cur));
  match e with
  | Some err => mret (Some err)
  | None =>
  '(uex, e) ← call (webhook_Commit (BlockNumber cur) (BlockTime cur));
  match e with
  | Some err => mret (Some err)
  | None =>
  e ← call (quota_SaveUsage (mkUsage uts uex ucu.1 ucu.2) (InWatching cur));
  match e with
  | Some err => mret (Some (mkExternalError ErrCodeQuotaServiceError err))
  | None => save_loop save_fuel cc
  end end end end.

(** The deferred function: rolls back on an error, records the time otherwise. *)
Definition save_deferred (cur : Checkpoint) (extErr : option ExternalError) : SM CState unit :=
  match extErr with
  | Some _ =>
      c ← cget;
      l ← slift (slice_to (checkpoints c) (savedCheckpoints c));
      _ ← cmodify (set_checkpoints l);
      c' ← cget;
      tpls ← slift (getTemplates c' true);
      _ ← cmodify (set_templates tpls ∅);
      cmodify (set_stopped true)
  | None =>
      now ← call time_Now;
      _ ← cmodify (set_actuallyLastSavedAt now);
      c ← cget;
      old ← (match lastSavedCheckpoint c with
             | None => mret true
             | Some _ =>
                 now' ← call time_Now;
                 mret (time_Minute * 5 <? time_Sub now' (lastSavedAt c))
             end);
      if old : bool then cmodify (set_lastSaved now (Some cur)) else mret tt
  end.

Definition save (saveAll checkInterval : bool) : SM CState (option ExternalError) :=
  c ← cget;
  if stopped c then mret None else
  tooSoon ← (if negb saveAll && checkInterval then
               now ← call time_Now;
               mret (time_Sub now (actuallyLastSavedAt c) <? saveInterval c ÷ 2)
             else mret false);
  if tooSoon : bool then mret None else
  cc ← (if saveAll then mret (length (checkpoints c))
        else save_ripe (saveDelay c) (drop (savedCheckpoints c) (checkpoints c)) (savedCheckpoints c));
  if bool_decide (cc = O) || bool_decide (cc = savedCheckpoints c) then mret None else
  cur ← slift (index (checkpoints c) (cc - 1));
  _ ← (if bool_decide (0 < savedCheckpoints c)%nat
       then k ← slift (index (checkpoints c) (savedCheckpoints c - 1)); mret ()
       else mret ());
  cc ← (if bool_decide (savedCheckpoints c < cc)%nat then
          l ← slift (RemoveSubSeq (checkpoints c) (savedCheckpoints c)
                       (Z.of_nat cc - 1 - Z.of_nat (savedCheckpoints c)));
          _ ← cmodify (set_checkpoints l);
          mret (S (savedCheckpoints c))
        else mret cc);
  q ← call quota_CheckOverQuota;
  match q with
  | QuotaErr e => mret (Some (mkExternalError ErrCodeQuotaServiceError e))
  | QuotaOver msg => mret (Some (mkExternalError ErrCodeOverQuota ("over quota: " +:+ msg)))
  | QuotaWithin =>
      extErr ← save_commit cur cc;
      _ ← save_deferred cur extErr;
      mret extErr
  end.

Definition Save (saveAll : bool) : SM CState (option ExternalError) := save saveAll true.

(** ** Reorganisations *)

(** How many checkpoints are below [ge]: the loop of [CleanCheckpoint]. *)
Fixpoint CleanCheckpoint_count (ge : Z) (l : list Checkpoint) (cc : nat) : nat :=
  match l with
  | [] => cc
  | k :: t => if BlockNumber k <? ge then CleanCheckpoint_count ge t (S cc) else cc
  end.

Definition CleanCheckpoint (blockNumberGE : Z) : SM CState (option ExternalError) :=
  _ ← cmodify (set_stopped true);
  c ← cget;
  let cc := CleanCheckpoint_count blockNumberGE (checkpoints c) 0 in
  match cc with
  | S i =>
      _ ← cmodify (set_checkpoints (take cc (checkpoints c)));
      keepLast ← slift (index (take cc (checkpoints c)) i);
      extErr ← (if bool_decide (cc < savedCheckpoints c)%nat then
                  c' ← cget;
                  tpls ← slift (getTemplates c' false);
                  r ← call (store_Save (checkpoints c') tpls (agentStat c'));
                  match r with
                  | SaveOk => _ ← cmodify (set_saved (length (checkpoints c'))); mret None
                  | SaveTooBig =>
                      mret (Some (mkExternalError ErrCodeSaveCheckpointFailed "checkpoints too big"))
                  | SaveErr e => mret (Some (mkExternalError ErrCodeSaveCheckpointFailed e))
                  end
                else mret None);
      match extErr with
      | Some e => mret (Some e)
      | None =>
          c' ← cget;
          let deleteFilter bn := BlockNumber keepLast <? bn in
          _ ← cmodify (set_templates (MapDelete (templates c') deleteFilter)
                                     (MapDelete (unsavedTemplates c') deleteFilter));
          mret None
      end
  | O =>
      r ← call (store_Save [] ∅ (agentStat c));
      match r with
      | SaveOk =>
          _ ← cmodify (set_checkpoints []);
          _ ← cmodify (set_saved 0);
          _ ← cmodify (set_templates ∅ ∅);
          mret None
      | SaveTooBig =>
          mret (Some (mkExternalError ErrCodeSaveCheckpointFailed "checkpoints too big"))
      | SaveErr e => mret (Some (mkExternalError ErrCodeSaveCheckpointFailed e))
      end
  end.

(** ** Making checkpoints *)

Definition new_checkpoint (b : BlockDataSummary) (p : ProgressBar) : Checkpoint :=
  mkCheckpoint (GetBlockNumber (SummaryHeader b)) (GetBlockHash (SummaryHeader b))
    (GetBlockParentHash (SummaryHeader b)) (GetBlockTime (SummaryHeader b))
    (wrap (SummaryTaskCount b))
    (GetBlockNumber (PB_LatestBlock p)) (GetBlockHash (PB_LatestBlock p))
    (GetBlockParentHash (PB_LatestBlock p)) (GetBlockTime (PB_LatestBlock p))
    (PB_FullBlockRange p) (SummaryCheckpointData b).

Definition min_start (ts : list TemplateInstance) : Z :=
  foldl (fun m t => Z.min m (StartBlock (tplRange t))) maxU64 ts.

(** Which save a new checkpoint asks for: [Some checkInterval], or none. *)
Definition MakeCheckpoint_trigger (c : Ctrl) (w : W) (ck : Checkpoint) : option bool :=
  if (saveDelay c =? 0) && InWatching ck then Some true
  else if maxKeepCheckpointCount c <=? Z.of_nat (length (checkpoints c)) then Some false
  else if sink_CachedTooMuch WebhookSink (BlockNumber ck) w then Some false
  else if sink_CachedTooMuch TimeSeriesSink (BlockNumber ck) w then Some false
  else if sink_CachedTooMuch EntitySink (BlockNumber ck) w then Some false
  else None.

(** Returns whether the templates changed, and the error. *)
Definition MakeCheckpoint (b : BlockDataSummary) (p : ProgressBar)
    : SM CState (bool * option ExternalError) :=
  c ← cget;
  if stopped c then mret (false, None) else
  let ck := new_checkpoint b p in
  let bn := GetBlockNumber (SummaryHeader b) in
  match unsavedTemplates c !! bn with
  | Some ts =>
      _ ← cmodify (set_templates (<[bn := tpls_at (templates c) bn ++ ts]> (templates c)) ∅);
      _ ← cmodify (set_stopped true);
      if min_start ts =? BlockNumber ck then mret (true, None)
      else _ ← cmodify (set_checkpoints (checkpoints c ++ [ck])); mret (true, None)
  | None =>
      _ ← cmodify (set_checkpoints (checkpoints c ++ [ck]));
      s ← sget;
      match MakeCheckpoint_trigger (ctrl s) (world s) ck with
      | Some checkInterval => e ← save false checkInterval; mret (false, e)
      | None => mret (false, None)
      end
  end.

(** ** The saving loop *)

(** What wakes [KeepSave] up. *)
Inductive KeepSaveEvent : Type := AllMade | Tick | CtxDone.

Inductive KeepSaveResult : Type :=
| KeepSaveNil
| KeepSaveErr (e : ExternalError)
| KeepSaveCtxErr
| KeepSaveWaiting (* the events given are consumed; the loop waits for the next one *).

Fixpoint KeepSave (events : list KeepSaveEvent) : SM CState KeepSaveResult :=
  e ← Save false;
  match e with
  | Some err => mret (KeepSaveErr err)
  | None =>
      match events with
      | [] => mret KeepSaveWaiting
      | AllMade :: _ =>
          e ← Save true;
          mret (match e with Some err => KeepSaveErr err | None => KeepSaveNil end)
      | Tick :: rest => KeepSave rest
      | CtxDone :: _ => mret KeepSaveCtxErr
      end
  end.

Definition SaveError (err : ExternalError) : SM CState (option string) := call (store_SaveError err).

(** ** Template instances *)

(** The instances of the map [m] that have the key [id], in block order. *)
Definition tpls_with_id (id : string) (m : TemplateMap) (bns : list Z) : list TplWithCreated :=
  concat (map (fun bn => map (fun t => mkTplWithCreated t bn)
                             (filter (fun t => UniqID t = id) (tpls_at m bn))) bns).

(** [exists[id]] after the two collecting loops. *)
Definition exists_with_id (c : Ctrl) (blockNumber : Z) (id : string) : list TplWithCreated :=
  tpls_with_id id (templates c) (ordered_keys (dom (templates c)))
  ++ tpls_with_id id (unsavedTemplates c)
       (filter (fun bn => bn <= blockNumber) (ordered_keys (dom (unsavedTemplates c)))).

(** The blocks at which the instance is enabled, as the instances create and remove it. *)
Definition enabled (exist : list TplWithCreated) : BlockRangeSet :=
  foldl (fun on ex => if Removed (created ex) then BRS_Remove on (tplRange (created ex))
                      else BRS_Union on (tplRange (created ex)))
        EmptyBlockRangeSet exist.

Definition set_tpl_start (n : Z) (t : TemplateInstance) : TemplateInstance :=
  mkTemplateInstance (TemplateID t) (TemplateName t) (Address t) (Labels t) (Removed t)
    (mkBlockRange n (EndBlock (tplRange t))).

Inductive TplVerdict : Type := TplIgnored | TplInvalid | TplAccepted.

(** What happens to one instance of the request, given the ones that exist. *)
Definition judge (exist : list TplWithCreated) (blockNumber : Z) (tpl : TemplateInstance) : TplVerdict :=
  match exist with
  | [] => TplAccepted
  | _ =>
      let on := BRS_Intersection (enabled exist) (mkBlockRange blockNumber None) in
      let intersection := BRS_Intersection on (tplRange tpl) in
      if (Removed tpl && BR_IsEmpty (brng intersection))
         || (negb (Removed tpl) && BRS_Include intersection (tplRange tpl)) then TplIgnored
      else
        let on' := if Removed tpl then BRS_Remove on (tplRange tpl) else BRS_Union on (tplRange tpl) in
        if bool_decide (0 < length (BHoles on'))%nat then TplInvalid else TplAccepted
  end.

Definition adjust_start (blockNumber : Z) (tpl : TemplateInstance) : TemplateInstance :=
  if (StartBlock (tplRange tpl) <? blockNumber) && negb (Removed tpl)
  then set_tpl_start blockNumber tpl else tpl.

(** The loop over the requested instances; [exists_of] is the map [exists], which the
    loop does not change. *)
Fixpoint NewTemplateInstance_loop (exists_of : string -> list TplWithCreated) (blockNumber : Z)
    (ts : list TemplateInstance) : SM CState (option ExternalError) :=
  match ts with
  | [] => mret None
  | t :: rest =>
      let tpl := adjust_start blockNumber t in
      match judge (exists_of (UniqID tpl)) blockNumber tpl with
      | TplIgnored => NewTemplateInstance_loop exists_of blockNumber rest
      | TplInvalid => mret (Some (mkExternalError ErrCodeCreateTemplateFailed "block range will have hole"))
      | TplAccepted =>
          c ← cget;
          _ ← cmodify (set_templates (templates c)
                 (<[blockNumber := tpls_at (unsavedTemplates c) blockNumber ++ [tpl]]> (unsavedTemplates c)));
          NewTemplateInstance_loop exists_of blockNumber rest
      end
  end.

Definition NewTemplateInstance (blockNumber : Z) (ts : list TemplateInstance) : SM CState (option ExternalError) :=
  c ← cget;
  if stopped c then mret None
  else NewTemplateInstance_loop (exists_with_id c blockNumber) blockNumber ts.

End Controller.
