(* ===== verification/Sinks.v ===== *)
(** * The data sinks: [driver/controller/startup/timeseries.go] and [webhook.go]

    What the tasks of a block produce is cached per block until a checkpoint commits the
    blocks up to it. The time series store and the pub/sub topic are interfaces: the
    operations the sinks call, and what the theorems need of them. *)
From Stdlib Require Import ZArith Lia.
From stdpp Require Import base numbers option strings pretty sorting gmap list.
From S2P Require Import Prelude RangeBase RangeSet RangeSetOps RangeCut BlockCache BlockRange Errors Checkpoint CheckpointCtrl.

(** ** Time series *)

Module TimeSeries.

(** The errors of the store ([driver/timeseries/store.go]); an error of the store may
    wrap several of them. *)
Inductive Sentinel : Type :=
| ErrInvalidMetaDiff | ErrInvalidMeta | ErrTooManyMetrics | ErrTooManyEventTypes | ErrTooManySeries.

#[export] Instance Sentinel_eq_dec : EqDecision Sentinel.
Proof. solve_decision. Defined.

Record StoreError : Type := mkStoreError { wraps : list Sentinel; text : string }.

Definition errors_Is (e : StoreError) (s : Sentinel) : bool := bool_decide (s ∈ wraps e).

(** A dataset: the type and the name of its [Meta], and its rows. *)
Record Dataset (Row : Type) : Type := mkDataset { Type_ : string; Name : string; Rows : list Row }.
Arguments mkDataset {Row} _ _ _.
Arguments Type_ {Row} _.
Arguments Name {Row} _.
Arguments Rows {Row} _.

(** The two methods of [timeseries.Store] the controller calls. *)
Class Store (Row S : Type) : Type := {
  AppendData : list (Dataset Row) -> Z -> S -> option StoreError * S;
  DeleteData : Z -> S -> option string * S
}.

Definition GetFullName {Row} (ds : Dataset Row) : string := Type_ ds +:+ "." +:+ Name ds.

(** The keys of a map with string keys in byte order ([utils.GetOrderedMapKeys]). *)
Definition ordered_names {V} (m : gmap string V) : list string :=
  merge_sort String.le (map_to_list m).*1.

Definition GetDatasetsSummary {Row} (dss : list (Dataset Row)) : string :=
  let sum : gmap string Z :=
    foldl (fun sum ds => <[GetFullName ds := default 0 (sum !! GetFullName ds) + Z.of_nat (length (Rows ds))]> sum) ∅ dss in
  String.concat "," (map (fun key => key +:+ "/" +:+ pretty (default 0 (sum !! key))) (ordered_names sum)).

Record Controller (Row : Type) : Type := mkController {
  cached : CacheOf (Dataset Row);
  committed : option Z
}.
Arguments mkController {Row} _ _.
Arguments cached {Row} _.
Arguments committed {Row} _.

Definition newTimeSeriesController {Row} : Controller Row := mkController ∅ None.

Definition maxUncommitedTimeSeries : Z := 1000000.

Section Methods.
Context {Row S : Type} `{Store Row S}.

Definition Reset (checkpoint : option Checkpoint) (st : Controller Row * S) : option ExternalError * (Controller Row * S) :=
  let '(c, s) := st in
  let cached' := match checkpoint with
                 | None => ∅
                 | Some k => drop_above (cached c) (BlockNumber k)
                 end in
  let blockNumber := match checkpoint with None => -1 | Some k => to_int64 (BlockNumber k) end in
  let '(e, s') := DeleteData blockNumber s in
  (match e with
   | Some err => Some (mkExternalError ErrCodeCleanTimeSeriesDataFailed err)
   | None => None
   end, (mkController cached' (committed c), s')).

Definition dss_rows (dss : list (Dataset Row)) : Z :=
  foldl (fun s ds => s +! Z.of_nat (length (Rows ds))) 0 dss.

Definition getCachedSize (c : Controller Row) (blockNumber : Z) : Z :=
  map_fold (fun bn blockData total =>
              if blockNumber <? bn then total
              else map_fold (fun _ dss total => total +! dss_rows dss) total blockData)
           0 (cached c).

Definition CachedTooMuch (c : Controller Row) (blockNumber : Z) : bool :=
  maxUncommitedTimeSeries <? getCachedSize c blockNumber.

(** The code an error of [AppendData] is reported with. *)
Definition commit_error (data : list (Dataset Row)) (err : StoreError) : ExternalError :=
  if errors_Is err ErrInvalidMetaDiff then mkExternalError ErrCodeTimeSeriesDataSchemaChanged (text err)
  else if errors_Is err ErrInvalidMeta then mkExternalError ErrCodeInvalidTimeSeriesData (text err)
  else if errors_Is err ErrTooManyMetrics then mkExternalError ErrCodeTooManyMetrics (text err)
  else if errors_Is err ErrTooManyEventTypes then mkExternalError ErrCodeTooManyEventTypes (text err)
  else if errors_Is err ErrTooManySeries then mkExternalError ErrCodeTooManyTimeSeries (text err)
  else mkExternalError ErrCodeSaveTimeSeriesDataFailed 
         ("failed to commit timeseries data: " +:+ GetDatasetsSummary data +:+ ": " +:+ text err).

Definition statistic (data : list (Dataset Row)) : gmap string (gmap string Z) :=
  foldl (fun stat ds => IncrK2Map stat (Type_ ds) (Name ds) (Z.of_nat (length (Rows ds)))) ∅ data.

Definition Commit (blockNumber blockTime : Z) (st : Controller Row * S)
    : (gmap string (gmap string Z) * option ExternalError) * (Controller Row * S) :=
  let '(c, s) := st in
  let data := collect (cached c) blockNumber in
  let '(e, s') := AppendData data blockTime s in
  match e with
  | Some err => ((∅, Some (commit_error data err)), (c, s'))
  | None =>
      ((statistic data, None), (mkController (drop_upto (cached c) blockNumber) (Some blockNumber), s'))
  end.

Definition Insert (blockNumber task : Z) (data : list (Dataset Row)) (c : Controller Row) : Controller Row :=
  mkController (cache_Insert (cached c) blockNumber task data) (committed c).
End Methods.
End TimeSeries.

(** ** What the time series store promises, and the log the controller keeps with it *)

Module TimeSeriesLog.
Import TimeSeries.

(** A row in the store: the dataset it belongs to, and the row. *)
Definition Stored (Row : Type) : Type := (string * string) * Row.

Definition rows_of {Row} (ds : Dataset Row) : list (Stored Row) :=
  map (fun r => ((Type_ ds, Name ds), r)) (Rows ds).

(** [AppendData] inserts the rows it is given, or fails having inserted some of them;
    [DeleteData] deletes the rows above a block number, or fails having deleted some. *)
Class TSStoreLaws (Row S : Type) `{Store Row S} : Type := {
  slot : Row -> Z;
  rows : S -> list (Stored Row);
  AppendData_ok data t s s' :
    AppendData data t s = (None, s') -> rows s' ≡ₚ rows s ++ flat rows_of data;
  AppendData_failed data t s e s' :
    AppendData data t s = (Some e, s') ->
    exists part rest, flat rows_of data ≡ₚ part ++ rest /\ rows s' ≡ₚ rows s ++ part;
  DeleteData_ok n s s' :
    DeleteData n s = (None, s') -> rows s' ≡ₚ filter (fun r => slot r.2 <= n) (rows s);
  DeleteData_failed n s e s' :
    DeleteData n s = (Some e, s') ->
    exists part gone, filter (fun r => n < slot r.2) (rows s) ≡ₚ part ++ gone /\
      rows s' ≡ₚ filter (fun r => slot r.2 <= n) (rows s) ++ part
}.

Section Log.
Context {Row S : Type} `{HS : Store Row S} `{!TSStoreLaws Row S}.

(** What an ideal sink would have: the rows of every block; the blocks up to the mark are
    in the store, and while the log is clean the others are all in the cache. *)
Record Log : Type := mkLog { log : Z -> list (Stored Row); mark : Z; clean : bool }.

Definition log_empty : Log := mkLog (fun _ => []) (-1) true.

Definition log_Insert (b : Z) (data : list (Dataset Row)) (g : Log) : Log :=
  mkLog (fun b' => if b' =? b then log g b' ++ flat rows_of data else log g b') (mark g) (clean g).

Definition log_Commit (n : Z) (ok : bool) (g : Log) : Log :=
  mkLog (log g) (if ok then Z.max (mark g) n else mark g) ok.

(** A reset that fails does no harm when the store has nothing above [n]. *)
Definition log_Reset (n : Z) (ok : bool) (g : Log) : Log :=
  mkLog (fun b => if b <=? n then log g b else []) (Z.min (mark g) n) (ok || clean g && (mark g <=? n)).

Definition log_restart (g : Log) : Log := mkLog (log g) (mark g) false.

Definition slot_of (r : Stored Row) : Z := slot r.2.

(** The rows of a block in the store. *)
Definition rows_at (s : S) (b : Z) : list (Stored Row) := filter (fun r => slot_of r = b) (rows s).

Record log_ok (c : Controller Row) (s : S) (g : Log) : Prop := mkLogOk {
  lo_cache : cache_ok rows_of slot_of (cached c);
  lo_mark : -1 <= mark g;
  lo_below b : b <= mark g -> rows_at s b ≡ₚ log g b /\ flat rows_of (cached_at (cached c) b) = [];
  lo_above b : clean g = true -> mark g < b ->
    rows_at s b = [] /\ flat rows_of (cached_at (cached c) b) ≡ₚ log g b
}.

Lemma rows_at_app s s' l b :
  rows s' ≡ₚ rows s ++ l -> rows_at s' b ≡ₚ rows_at s b ++ filter (fun r => slot_of r = b) l.
Proof. intros Hr. unfold rows_at. by rewrite Hr, filter_app. Qed.

Lemma rows_at_kept s s' n part b :
  rows s' ≡ₚ filter (fun r => slot r.2 <= n) (rows s) ++ part -> Forall (fun r => n < slot r.2) part ->
  b <= n -> rows_at s' b ≡ₚ rows_at s b.
Proof.
  intros Hr Hp Hb. unfold rows_at. rewrite Hr, filter_app. rewrite (filter_none _ part), app_nil_r.
  - rewrite list_filter_filter_l; [done|]. intros x <-. exact Hb.
  - intros x Hx Hs. unfold slot_of in Hs. rewrite Forall_forall in Hp. specialize (Hp x Hx). lia.
Qed.

(** The rows a failing deletion has left are rows there were, above the number. *)
Lemma deleted_rows n s (part gone : list (Stored Row)) :
  filter (fun r => n < slot r.2) (rows s) ≡ₚ part ++ gone ->
  Forall (fun r => n < slot r.2) part /\ (forall x, x ∈ part -> x ∈ rows s).
Proof.
  intros Hd.
  assert (Hin : forall x, x ∈ part -> n < slot x.2 /\ x ∈ rows s).
  { intros x Hx. apply (list_elem_of_filter (fun r => n < slot r.2)). rewrite Hd. apply elem_of_app. by left. }
  split; [apply Forall_forall|]; intros x Hx; by apply Hin.
Qed.

Lemma log_ok_new s : rows s ≡ₚ [] -> log_ok newTimeSeriesController s log_empty.
Proof.
  intros Hr. apply Permutation_nil_r in Hr. constructor; simpl; [apply cache_ok_empty|done|..]; intros b;
    unfold rows_at, cached_at; rewrite Hr, lookup_empty; simpl; rewrite block_items_empty; done.
Qed.

(** A new controller on the same store has lost the cache. *)
Lemma log_ok_restart c s g : log_ok c s g -> log_ok newTimeSeriesController s (log_restart g).
Proof.
  intros Hg. constructor; simpl; [apply cache_ok_empty|apply Hg| |done]. intros b Hb. split; [by apply (lo_below _ _ _ Hg)|].
  unfold cached_at. rewrite lookup_empty. simpl. by rewrite block_items_empty.
Qed.

Lemma log_ok_Insert c s g b t data :
  log_ok c s g -> mark g < b -> Forall (fun r => slot_of r = b) (flat rows_of data) ->
  log_ok (Insert b t data c) s (log_Insert b data g).
Proof.
  intros Hg Hb Hd. constructor; simpl.
  - apply cache_ok_Insert; [apply Hg|done].
  - apply Hg.
  - intros b' Hb'. bcase; [lia|]. rewrite cached_at_Insert_ne by done. by apply Hg.
  - intros b' Hcl Hb'. destruct (lo_above _ _ _ Hg b' Hcl Hb') as [Hr Hc]. split; [done|].
    bcase; [subst b'|by rewrite cached_at_Insert_ne].
    unfold flat in *. rewrite (concat_perm _ _ (Permutation_map _ (cached_at_Insert _ _ _ _))).
    by rewrite map_app, concat_app, Hc.
Qed.

Lemma log_ok_Commit c s g n t :
  log_ok c s g -> clean g = true ->
  let '((_, e), (c', s')) := Commit n t (c, s) in
  log_ok c' s' (log_Commit n (bool_decide (e = None)) g).
Proof.
  intros Hg Hcl. unfold Commit. destruct (AppendData _ t s) as [[err|] s'] eqn:E.
  - apply AppendData_failed in E as (part & rest & Hd & Hr). rewrite bool_decide_eq_false_2 by done.
    constructor; simpl; [apply Hg|apply Hg| |done]. intros b Hb. destruct (lo_below _ _ _ Hg b Hb) as [Hlo Hca].
    split; [|done]. rewrite (rows_at_app _ _ _ _ Hr), Hlo.
    assert (Hn : filter (fun r => slot_of r = b) (part ++ rest) = []).
    { apply Permutation_nil_r. rewrite <- Hd. rewrite collect_at by apply Hg. rewrite Hca. by bcase. }
    rewrite filter_app in Hn. apply app_eq_nil in Hn as [Hn _]. by rewrite Hn, app_nil_r.
  - apply AppendData_ok in E. rewrite bool_decide_eq_true_2 by done.
    assert (Hat : forall b, rows_at s' b ≡ₚ rows_at s b ++ if b <=? n then flat rows_of (cached_at (cached c) b) else []).
    { intros b. rewrite (rows_at_app _ _ _ _ E). f_equiv. by rewrite collect_at by apply Hg. }
    constructor; simpl; [apply cache_ok_drop_upto, Hg|pose proof (lo_mark _ _ _ Hg); lia|..]; intros b.
    + intros Hb. rewrite cached_at_drop_upto. destruct (Z_le_gt_dec b (mark g)) as [Hm|Hm].
      * destruct (lo_below _ _ _ Hg b Hm) as [Hlo Hca]. rewrite Hat, Hca, Hlo. bcase; by rewrite app_nil_r.
      * destruct (lo_above _ _ _ Hg b Hcl ltac:(lia)) as [Hlo Hca]. rewrite Hat, Hlo. bcase; [done|lia].
    + intros _ Hb. destruct (lo_above _ _ _ Hg b Hcl ltac:(lia)) as [Hlo Hca].
      rewrite cached_at_drop_upto. bcase; [lia|]. split; [|done].
      apply Permutation_nil_r. rewrite Hat, Hlo. bcase; [lia|done].
Qed.

(** What a reset leaves of the cache. *)
Definition reset_cache (k : option Checkpoint) (c : CacheOf (Dataset Row)) : CacheOf (Dataset Row) :=
  match k with None => ∅ | Some k => drop_above c (BlockNumber k) end.

Lemma reset_cache_at c s g k b :
  log_ok c s g ->
  flat rows_of (cached_at (reset_cache k (cached c)) b) =
  if b <=? ck_number k then flat rows_of (cached_at (cached c) b) else [].
Proof.
  intros Hg. destruct k as [k|]; simpl.
  - rewrite cached_at_drop_above. by bcase.
  - unfold cached_at at 1. rewrite lookup_empty. simpl. rewrite block_items_empty. bcase; [|done].
    symmetry. apply (lo_below _ _ _ Hg). pose proof (lo_mark _ _ _ Hg). lia.
Qed.

Lemma log_ok_Reset c s g k :
  log_ok c s g -> (clean g = false -> ck_number k <= mark g) -> -1 <= ck_number k < 2 ^ 63 ->
  let '(e, (c', s')) := Reset k (c, s) in
  log_ok c' s' (log_Reset (ck_number k) (bool_decide (e = None)) g).
Proof.
  intros Hg Hcl Hk. unfold Reset. fold (reset_cache k (cached c)).
  assert (match k with None => -1 | Some k0 => to_int64 (BlockNumber k0) end = ck_number k) as ->.
  { destruct k as [k|]; [|done]. simpl in *. unfold to_int64. bcase; lia. }
  assert (Hok : cache_ok rows_of slot_of (reset_cache k (cached c))).
  { intros b y. rewrite (reset_cache_at _ _ _ _ _ Hg). bcase; [apply Hg|]. intros Hy. by apply not_elem_of_nil in Hy. }
  assert (Hlow : forall s' b part, rows s' ≡ₚ filter (fun r => slot r.2 <= ck_number k) (rows s) ++ part ->
            Forall (fun r => ck_number k < slot r.2) part -> b <= Z.min (mark g) (ck_number k) ->
            rows_at s' b ≡ₚ (if b <=? ck_number k then log g b else []) /\
            flat rows_of (cached_at (reset_cache k (cached c)) b) = []).
  { intros s' b part Hr Hp Hb. destruct (lo_below _ _ _ Hg b ltac:(lia)) as [Hlo Hca].
    rewrite (reset_cache_at _ _ _ _ _ Hg). bcase; [|lia]. split; [|done].
    by rewrite (rows_at_kept _ _ _ _ _ Hr Hp) by lia. }
  assert (Habove : forall s' part gone, filter (fun r => ck_number k < slot r.2) (rows s) ≡ₚ part ++ gone ->
            rows s' ≡ₚ filter (fun r => slot r.2 <= ck_number k) (rows s) ++ part ->
            (part = [] \/ clean g = true /\ mark g <= ck_number k) -> forall b, Z.min (mark g) (ck_number k) < b ->
            rows_at s' b = [] /\ flat rows_of (cached_at (reset_cache k (cached c)) b) ≡ₚ
              if b <=? ck_number k then log g b else []).
  { intros s' part gone Hgone Hr Hpart b Hb. pose proof (deleted_rows _ _ _ _ Hgone) as [Hp Hsub].
    rewrite (reset_cache_at _ _ _ _ _ Hg). bcase.
    - destruct (clean g) eqn:Eg; [|specialize (Hcl eq_refl); lia].
      destruct (lo_above _ _ _ Hg b Eg ltac:(lia)) as [Hlo Hca]. split; [|done].
      apply Permutation_nil_r. rewrite (rows_at_kept _ _ _ _ _ Hr) by (done || lia). by rewrite Hlo.
    - split; [|done]. unfold rows_at. apply Permutation_nil_r. rewrite Hr, filter_app.
      rewrite filter_none; [simpl|intros x Hx Hs; unfold slot_of in Hs; apply list_elem_of_filter in Hx as [Hx _]; lia].
      destruct Hpart as [->|[Eg Hmk]]; [done|]. destruct (lo_above _ _ _ Hg b Eg ltac:(lia)) as [Hlo _].
      rewrite filter_none; [done|]. intros x Hx Hs. apply Hsub in Hx. unfold rows_at in Hlo.
      assert (Hin : x ∈ filter (fun r => slot_of r = b) (rows s)) by by apply list_elem_of_filter.
      rewrite Hlo in Hin. by apply not_elem_of_nil in Hin. }
  pose proof (lo_mark _ _ _ Hg) as Hm.
  destruct (DeleteData (ck_number k) s) as [[err|] s'] eqn:E.
  - apply DeleteData_failed in E as (part & gone & Hgone & Hr). pose proof (deleted_rows _ _ _ _ Hgone) as [Hp _].
    constructor; simpl; [done|lia|intros b; by apply (Hlow _ _ part)|].
    intros b [Hc1 Hc2%Z.leb_le]%andb_true_iff Hb. apply (Habove s' part gone); auto.
  - apply DeleteData_ok in E. assert (Hr : rows s' ≡ₚ filter (fun r => slot r.2 <= ck_number k) (rows s) ++ [])
      by by rewrite app_nil_r.
    constructor; simpl; [done|lia|intros b; by apply (Hlow _ _ [])|]. intros b _ Hb.
    by apply (Habove s' [] (filter (fun r => ck_number k < slot r.2) (rows s))); auto.
Qed.
End Log.
End TimeSeriesLog.

(** ** Webhook messages *)

Module Webhook.

Record WebhookMessage : Type := mkWebhookMessage {
  Name : string;
  Channel : string;
  BlockTime : Z;
  Payload : string
}.

Record SingleWebhookMessage : Type := mkSingle {
  ExportName : string;
  EventID : Z;
  TimestampMicros : Z;
  Version : Z;
  Data : string
}.

Definition MaxMessagesPerBlock : Z := 10000000.

Definition maxUncommitedWebhookMessages : Z := 1000000.

(** The topic: publishing the messages of a channel; [None] is success. *)
Class Topic (P : Type) : Type := {
  Publish : string -> list SingleWebhookMessage -> P -> option string * P
}.

Record Controller : Type := mkController {
  processorVersion : Z;
  cached : CacheOf WebhookMessage;
  committed : option Z
}.

Definition newWebhookController (version : Z) : Controller := mkController version ∅ None.

Definition Reset (checkpoint : option Checkpoint) (c : Controller) : option ExternalError * Controller :=
  (None, mkController (processorVersion c)
           (match checkpoint with
            | None => ∅
            | Some k => drop_above (cached c) (BlockNumber k)
            end) (committed c)).

Definition getCachedSize (c : Controller) (blockNumber : Z) : Z :=
  map_fold (fun bn blockMsgs total =>
              if blockNumber <? bn then total
              else map_fold (fun _ (msgs : list WebhookMessage) total => total +! Z.of_nat (length msgs)) total blockMsgs)
           0 (cached c).

Definition CachedTooMuch (c : Controller) (blockNumber : Z) : bool :=
  maxUncommitedWebhookMessages <? getCachedSize c blockNumber.

(** The messages per channel and the counts per name that the loops build. *)
Record Batch : Type := mkBatch {
  dict : gmap string (list SingleWebhookMessage);
  stat : gmap string Z
}.

Definition single (version bn blockSeq : Z) (msg : WebhookMessage) : SingleWebhookMessage :=
  mkSingle (Name msg) (bn *! MaxMessagesPerBlock +! blockSeq) (wrap (UnixMicro (BlockTime msg)))
    (wrap version) (Payload msg).

(** The two inner loops over the messages of a block. *)
Definition add_message (version bn : Z) (acc : Z * Batch) (msg : WebhookMessage) : Z * Batch :=
  let '(blockSeq, b) := acc in
  let blockSeq' := blockSeq +! 1 in
  (blockSeq',
   mkBatch (<[Channel msg := default [] (dict b !! Channel msg) ++ [single version bn blockSeq' msg]]> (dict b))
           (<[Name msg := default 0 (stat b !! Name msg) + 1]> (stat b))).

Definition add_block (version bn : Z) (blockMsgs : gmap Z (list WebhookMessage)) (b : Batch) : Batch :=
  (foldl (fun acc messages => foldl (add_message version bn) acc messages)
         (0, b) (GetMapValuesOrderByKey blockMsgs)).2.

(** The loop over the ordered blocks; a block with too many messages ends it. *)
Fixpoint build (c : Controller) (blockNumber : Z) (keys : list Z) (b : Batch) : Batch + ExternalError :=
  match keys with
  | [] => inl b
  | bn :: rest =>
      if blockNumber <? bn then build c blockNumber rest b
      else
        let blockMsgs := default ∅ (cached c !! bn) in
        let count := CountMap blockMsgs in
        if MaxMessagesPerBlock <=? count then
          inr (mkExternalError ErrCodeTooManyWebhookMsgEntity
                 ("too many messages in block " +:+ pretty bn +:+ ", " +:+ pretty count +:+ " > " +:+ pretty MaxMessagesPerBlock))
        else build c blockNumber rest (add_block (processorVersion c) bn blockMsgs b)
  end.

Section Publishing.
Context {P : Type} `{Topic P}.

(** The channels are published concurrently; [order] is the order in which they finish,
    and the error group returns the first error. *)
Fixpoint publish_all (order : list string) (d : gmap string (list SingleWebhookMessage)) (p : P) : option string * P :=
  match order with
  | [] => (None, p)
  | channel :: rest =>
      let '(e, p1) := Publish channel (default [] (d !! channel)) p in
      let '(e', p2) := publish_all rest d p1 in
      (match e with
       | Some pubErr => Some ("publish message for channel " +:+ channel +:+ " failed: " +:+ pubErr)
       | None => e'
       end, p2)
  end.

(** [order] is given the channels. *)
Definition Commit (order : list string -> list string) (blockNumber blockTime : Z) (st : Controller * P)
    : (gmap string Z * option ExternalError) * (Controller * P) :=
  let '(c, p) := st in
  match build c blockNumber (ordered_keys (dom (cached c))) (mkBatch ∅ ∅) with
  | inr err => ((∅, Some err), (c, p))
  | inl b =>
      let '(e, p') := publish_all (order (map_to_list (dict b)).*1) (dict b) p in
      match e with
      | Some err => ((∅, Some (mkExternalError ErrCodeSendWebhookDataFailed err)), (c, p'))
      | None =>
          ((stat b, None),
           (mkController (processorVersion c) (drop_upto (cached c) blockNumber) (Some blockNumber), p'))
      end
  end.
End Publishing.

Definition Insert (blockNumber task : Z) (messages : list WebhookMessage) (c : Controller) : Controller :=
  mkController (processorVersion c) (cache_Insert (cached c) blockNumber task messages) (committed c).
End Webhook.

(** ** The events a commit publishes *)

Module WebhookEvents.
Import Webhook.

(** The events of the messages [ms] of a block behind [seq] earlier ones, with their
    channels. *)
Fixpoint number (version bn seq : Z) (ms : list WebhookMessage) : list (string * SingleWebhookMessage) :=
  match ms with
  | [] => []
  | m :: rest => (Channel m, single version bn (seq + 1) m) :: number version bn (seq + 1) rest
  end.

(** The events of the blocks up to [n] in their order. *)
Definition events (c : Controller) (n : Z) : list (string * SingleWebhookMessage) :=
  concat (map (fun bn => if bn <=? n then number (processorVersion c) bn 0 (cached_at (cached c) bn) else [])
              (ordered_keys (dom (cached c)))).

Definition of_channel (ch : string) (es : list (string * SingleWebhookMessage)) : list SingleWebhookMessage :=
  map snd (filter (fun e => e.1 = ch) es).

Definition count_name (name : string) (es : list (string * SingleWebhookMessage)) : Z :=
  Z.of_nat (length (filter (fun e => ExportName e.2 = name) es)).

(** A batch has the events [es]: per channel in their order, counted per name, and has
    no empty channel. *)
Record batch_of (es : list (string * SingleWebhookMessage)) (b : Batch) : Prop := mkBatchOf {
  bo_dict ch : default [] (dict b !! ch) = of_channel ch es;
  bo_stat name : default 0 (stat b !! name) = count_name name es
}.

Lemma of_channel_app ch es es' : of_channel ch (es ++ es') = of_channel ch es ++ of_channel ch es'.
Proof. unfold of_channel. by rewrite filter_app, map_app. Qed.

Lemma count_name_app name es es' : count_name name (es ++ es') = count_name name es + count_name name es'.
Proof. unfold count_name. rewrite filter_app, length_app. lia. Qed.

Lemma foldl_concat {A B} (f : A -> B -> A) (ls : list (list B)) a : foldl (foldl f) a ls = foldl f a (concat ls).
Proof. revert a. induction ls as [|l ls IH]; intros a; [done|]. simpl. by rewrite foldl_app, IH. Qed.

Lemma batch_of_add es b version bn seq m :
  batch_of es b -> 0 <= seq -> seq + 1 < two64 ->
  let '(seq', b') := add_message version bn (seq, b) m in
  seq' = seq + 1 /\ batch_of (es ++ [(Channel m, single version bn (seq + 1) m)]) b'.
Proof.
  intros [Hd Hs] Hseq Hlt. unfold add_message. rewrite add64_small by lia. split; [done|].
  constructor; simpl.
  - intros ch. rewrite of_channel_app, <- Hd. unfold of_channel at 1. rewrite filter_cons, filter_nil. simpl.
    destruct (decide (Channel m = ch)) as [->|Hne]; [by rewrite lookup_insert_eq|].
    rewrite lookup_insert_ne by done. by rewrite app_nil_r.
  - intros name. rewrite count_name_app, <- Hs. unfold count_name at 1. rewrite filter_cons, filter_nil. simpl.
    destruct (decide (Name m = name)) as [->|Hne]; [by rewrite lookup_insert_eq|].
    rewrite lookup_insert_ne by done. simpl. lia.
Qed.

Lemma batch_of_add_all es b version bn seq ms :
  batch_of es b -> 0 <= seq -> seq + Z.of_nat (length ms) < two64 ->
  batch_of (es ++ number version bn seq ms) (foldl (add_message version bn) (seq, b) ms).2.
Proof.
  revert es b seq. induction ms as [|m ms IH]; intros es b seq Hb Hs Hl; cbn [foldl number].
  { by rewrite app_nil_r. }
  cbn [length] in Hl. pose proof (batch_of_add es b version bn seq m Hb Hs ltac:(lia)) as Hstep.
  destruct (add_message version bn (seq, b) m) as [seq' b']. destruct Hstep as [-> Hb'].
  change ((Channel m, single version bn (seq + 1) m) :: number version bn (seq + 1) ms)
    with ([(Channel m, single version bn (seq + 1) m)] ++ number version bn (seq + 1) ms).
  rewrite app_assoc.
  apply IH; [done|lia|lia].
Qed.

(** The count of a block is the number of its messages. *)
Lemma CountMap_length {A} (m : gmap Z (list A)) : CountMap m = Z.of_nat (length (block_items m)).
Proof.
  unfold CountMap, block_items, MergeArr. rewrite (Permutation_length (concat_perm _ _ (values_perm m))).
  rewrite map_fold_foldr. induction (map_to_list m) as [|[k v] l IH]; [done|].
  cbn [foldr fmap list_fmap map concat uncurry snd]. rewrite length_app, Nat2Z.inj_add, <- IH. reflexivity.
Qed.

(** No block up to [n] has too many messages. *)
Definition within_limit (c : Controller) (n : Z) : Prop :=
  forall bn, bn <= n -> Z.of_nat (length (cached_at (cached c) bn)) < MaxMessagesPerBlock.

Lemma build_events c n keys es b :
  batch_of es b -> within_limit c n ->
  exists b', build c n keys b = inl b' /\
    batch_of (es ++ concat (map (fun bn => if bn <=? n then number (processorVersion c) bn 0 (cached_at (cached c) bn) else []) keys)) b'.
Proof.
  intros Hb Hw. revert es b Hb. induction keys as [|bn keys IH]; intros es b Hb; simpl.
  { exists b. by rewrite app_nil_r. }
  rewrite Z.ltb_antisym. destruct (Z.leb_spec bn n) as [Hle|Hgt]; simpl; [|by apply IH].
  specialize (Hw bn Hle). rewrite CountMap_length. fold (cached_at (cached c) bn).
  destruct (Z.leb_spec MaxMessagesPerBlock (Z.of_nat (length (cached_at (cached c) bn)))); [lia|].
  rewrite app_assoc. apply IH. unfold add_block. rewrite foldl_concat.
  fold (MergeArr (GetMapValuesOrderByKey (default ∅ (cached c !! bn)))).
  fold (block_items (default ∅ (cached c !! bn))). fold (cached_at (cached c) bn).
  apply batch_of_add_all; [done|lia|unfold MaxMessagesPerBlock, two64 in *; lia].
Qed.

(** A block with too many messages stops the commit before anything is published. *)
Lemma build_too_many c n keys b bn :
  bn ∈ keys -> bn <= n -> MaxMessagesPerBlock <= Z.of_nat (length (cached_at (cached c) bn)) ->
  exists err, build c n keys b = inr err /\ ecode err = ErrCodeTooManyWebhookMsgEntity.
Proof.
  intros Hin Hle Hmax. revert b. induction keys as [|k keys IH]; intros b; [by apply not_elem_of_nil in Hin|].
  apply elem_of_cons in Hin. simpl. rewrite CountMap_length. fold (cached_at (cached c) k).
  destruct Hin as [->|Hin]; repeat bcase; try lia; solve [by eexists | by apply IH].
Qed.

(** ** Event numbers *)

Lemma number_ids version bn seq ms :
  0 <= bn -> 0 <= seq -> (bn + 1) * MaxMessagesPerBlock < two64 -> seq + Z.of_nat (length ms) < MaxMessagesPerBlock ->
  StronglySorted Z.lt (map (fun e => EventID e.2) (number version bn seq ms)) /\
  Forall (fun e => bn * MaxMessagesPerBlock + seq < EventID e.2 < (bn + 1) * MaxMessagesPerBlock) (number version bn seq ms).
Proof.
  unfold MaxMessagesPerBlock.
  revert seq. induction ms as [|m ms IH]; intros seq Hb Hs Hu Hl; simpl; [split; constructor|].
  simpl in Hl. destruct (IH (seq + 1)) as [IH1 IH2]; [lia..|].
  assert (Hid : bn *! 10000000 +! (seq + 1) = bn * 10000000 + seq + 1).
  { unfold mul64. rewrite wrap_small by (unfold u64; lia). rewrite add64_small; lia. }
  split.
  - constructor; [done|]. rewrite Forall_map. eapply Forall_impl; [exact IH2|]. cbn -[Z.mul]. intros e He.
    unfold MaxMessagesPerBlock. rewrite Hid. lia.
  - constructor; [cbn -[Z.mul]; unfold MaxMessagesPerBlock; rewrite Hid; lia|].
    eapply Forall_impl; [exact IH2|]. cbn -[Z.mul]. intros e He. lia.
Qed.

Lemma StronglySorted_app_lt (l1 l2 : list Z) :
  StronglySorted Z.lt l1 -> StronglySorted Z.lt l2 -> (forall x y, x ∈ l1 -> y ∈ l2 -> x < y) -> StronglySorted Z.lt (l1 ++ l2).
Proof.
  induction 1 as [|x l1 Hs IH Hx]; intros H2 Hlt; [done|]. simpl. constructor.
  - apply IH; [done|]. intros a b Ha Hb. apply Hlt; [by constructor|done].
  - rewrite Forall_app. split; [done|]. apply Forall_forall. intros y Hy. apply Hlt; [constructor|done].
Qed.

(** The event numbers of a commit ascend, and tell the block. *)
Lemma events_ids c n :
  within_limit c n -> (forall bn, bn ∈ dom (cached c) -> 0 <= bn) -> (n + 1) * MaxMessagesPerBlock < two64 ->
  StronglySorted Z.lt (map (fun e => EventID e.2) (events c n)) /\
  Forall (fun e => exists bn, bn <= n /\ bn * MaxMessagesPerBlock < EventID e.2 < (bn + 1) * MaxMessagesPerBlock) (events c n).
Proof.
  intros Hw Hnn Hn. unfold events.
  assert (Hk : forall k, k ∈ ordered_keys (dom (cached c)) -> 0 <= k) by (intros k; rewrite ordered_keys_elem; apply Hnn).
  pose proof (ordered_keys_sorted (dom (cached c))) as Hs. revert Hk Hs.
  set (f := fun bn => if bn <=? n then number (processorVersion c) bn 0 (cached_at (cached c) bn) else []).
  assert (Hf : forall k, 0 <= k -> StronglySorted Z.lt (map (fun e => EventID e.2) (f k)) /\
             Forall (fun e => k <= n /\ k * MaxMessagesPerBlock < EventID e.2 < (k + 1) * MaxMessagesPerBlock) (f k)).
  { intros k Hk. subst f. cbv beta. bcase; [|split; constructor]. specialize (Hw k ltac:(lia)).
    destruct (number_ids (processorVersion c) k 0 (cached_at (cached c) k)) as [H1 H2]; [lia|lia|unfold MaxMessagesPerBlock in *; lia|lia|].
    split; [done|]. eapply Forall_impl; [exact H2|]. intros e He. cbv beta in He. lia. }
  generalize (ordered_keys (dom (cached c))). intros keys Hk Hs.
  induction Hs as [|k keys Hs IH Hkk]; [split; constructor|].
  destruct IH as [IH1 IH2]; [intros; apply Hk; by constructor|].
  destruct (Hf k (Hk k ltac:(constructor))) as [F1 F2]. simpl. rewrite map_app. split.
  - apply StronglySorted_app_lt; [done..|]. intros x y Hx Hy.
    apply list_elem_of_fmap in Hx as (e & -> & He), Hy as (e' & -> & He').
    rewrite Forall_forall in F2. specialize (F2 e He).
    apply list_elem_of_In, in_concat in He' as (l & Hl & He').
    apply in_map_iff in Hl as (k' & <- & Hk'). apply list_elem_of_In in He', Hk'.
    assert (Hlt : k < k') by (rewrite Forall_forall in Hkk; by apply Hkk).
    destruct (Hf k' (Hk k' ltac:(by constructor))) as [_ F3]. rewrite Forall_forall in F3. specialize (F3 e' He').
    unfold MaxMessagesPerBlock in *. lia.
  - rewrite Forall_app. split; [|exact IH2]. eapply Forall_impl; [exact F2|]. intros e [? ?]. exists k. done.
Qed.

(** ** What is published *)

(** A message is published, or not although its publisher sees an error. *)
Class TopicLaws (P : Type) `{Topic P} : Type := {
  published : P -> list (string * SingleWebhookMessage);
  Publish_ok ch ms p p' : Publish ch ms p = (None, p') -> published p' ≡ₚ published p ++ map (pair ch) ms;
  Publish_failed ch ms p e p' :
    Publish ch ms p = (Some e, p') ->
    published p' ≡ₚ published p \/ published p' ≡ₚ published p ++ map (pair ch) ms
}.

Section Published.
Context {P : Type} `{HT : Topic P} `{!TopicLaws P}.

Lemma publish_all_ok order d p :
  exists part rest, concat (map (fun ch => map (pair ch) (default [] (d !! ch))) order) ≡ₚ part ++ rest /\
    published (publish_all order d p).2 ≡ₚ published p ++ part /\
    ((publish_all order d p).1 = None -> rest = []).
Proof.
  revert p. induction order as [|ch order IH]; intros p; simpl.
  { exists [], []. split_and!; [done|by rewrite app_nil_r|done]. }
  destruct (Publish ch (default [] (d !! ch)) p) as [e p1] eqn:E.
  destruct (IH p1) as (part & rest & Hd & Hp & Hr).
  destruct (publish_all order d p1) as [e' p2]. simpl in *. set (ms := map (pair ch) (default [] (d !! ch))) in *.
  assert (Hadd : published p1 ≡ₚ published p ++ ms -> published p2 ≡ₚ published p ++ ms ++ part)
    by (intros H1; by rewrite Hp, H1, app_assoc).
  destruct e as [err|].
  - destruct (Publish_failed _ _ _ _ _ E) as [H1|H1].
    + exists part, (ms ++ rest). split_and!; [|by rewrite Hp, H1|done].
      rewrite Hd. by rewrite !app_assoc, (Permutation_app_comm ms).
    + exists (ms ++ part), rest. split_and!; [by rewrite Hd, app_assoc|by apply Hadd|done].
  - exists (ms ++ part), rest.
    split_and!; [by rewrite Hd, app_assoc|apply Hadd; by eapply Publish_ok|done].
Qed.

Lemma partition_by_channel (es : list (string * SingleWebhookMessage)) chs :
  NoDup chs -> (forall e, e ∈ es -> e.1 ∈ chs) -> concat (map (fun ch => filter (fun e => e.1 = ch) es) chs) ≡ₚ es.
Proof.
  intros Hn. revert es. induction Hn as [|ch chs Hch Hn IH]; intros es Hes; simpl.
  { destruct es as [|e es]; [done|]. exfalso. eapply not_elem_of_nil, Hes. constructor. }
  etrans; [|apply (filter_app_complement (fun e => e.1 = ch) es)]. f_equiv.
  rewrite <- (IH (filter (fun e => ~ e.1 = ch) es)).
  - erewrite map_ext_in; [reflexivity|]. intros ch' Hin%list_elem_of_In. cbv beta.
    rewrite list_filter_filter_l; [done|]. intros e <- He. rewrite He in Hin. done.
  - intros e [Hne Hin]%list_elem_of_filter. specialize (Hes e Hin). by apply elem_of_cons in Hes as [?|?].
Qed.

Lemma batch_events es b order :
  batch_of es b -> order ≡ₚ (map_to_list (dict b)).*1 ->
  concat (map (fun ch => map (pair ch) (default [] (dict b !! ch))) order) ≡ₚ es.
Proof.
  intros Hb Ho. rewrite <- (partition_by_channel es order) at 1.
  - erewrite map_ext; [reflexivity|]. intros ch. rewrite (bo_dict _ _ Hb). unfold of_channel.
    rewrite map_map. rewrite <- (map_id (filter _ es)) at 2. apply map_ext_in.
    intros [ch' e] [Hc _]%list_elem_of_In%list_elem_of_filter. simpl in *. by subst.
  - rewrite Ho. apply NoDup_fst_map_to_list.
  - intros e He. rewrite Ho. apply list_elem_of_fmap. destruct (dict b !! e.1) as [l|] eqn:El.
    + exists (e.1, l). by rewrite elem_of_map_to_list.
    + exfalso. pose proof (bo_dict _ _ Hb e.1) as Hd. rewrite El in Hd. simpl in Hd.
      assert (Hin : e.2 ∈ of_channel e.1 es).
      { unfold of_channel. apply list_elem_of_fmap. exists e. split; [done|]. by apply list_elem_of_filter. }
      rewrite <- Hd in Hin. by apply not_elem_of_nil in Hin.
Qed.

Lemma batch_of_nil : batch_of [] (mkBatch ∅ ∅).
Proof. constructor; intros; simpl; by rewrite lookup_empty. Qed.

(** A commit publishes the events of the blocks up to [n], each once, and clears them;
    a commit that fails has published some of them and keeps them all. *)
Lemma Commit_publishes order n t c p :
  (forall l, order l ≡ₚ l) -> within_limit c n ->
  let '((st, e), (c', p')) := Commit order n t (c, p) in
  match e with
  | None => published p' ≡ₚ published p ++ events c n /\
            cached c' = drop_upto (cached c) n /\ committed c' = Some n /\
            (forall name, default 0 (st !! name) = count_name name (events c n))
  | Some err => ecode err = ErrCodeSendWebhookDataFailed /\ c' = c /\
            exists part rest, events c n ≡ₚ part ++ rest /\ published p' ≡ₚ published p ++ part
  end.
Proof.
  intros Ho Hw. unfold Commit.
  destruct (build_events c n (ordered_keys (dom (cached c))) [] (mkBatch ∅ ∅) batch_of_nil Hw) as (b & -> & Hb).
  fold (events c n) in Hb. rewrite app_nil_l in Hb.
  destruct (publish_all_ok (order (map_to_list (dict b)).*1) (dict b) p) as (part & rest & Hd & Hp & Hr).
  rewrite (batch_events _ _ _ Hb (Ho _)) in Hd.
  destruct (publish_all _ (dict b) p) as [[err|] p']; simpl in *.
  - split_and!; [done..|]. by exists part, rest.
  - rewrite (Hr eq_refl), app_nil_r in Hd. split_and!; [by rewrite Hp, Hd|done|done|apply Hb].
Qed.
End Published.
End WebhookEvents.
