(* ===== verification/EntityValue.v ===== *)
(** * Entity field types, values and operators

    [driver/entity/schema/type_chain.go], the values of an entity's fields and their zero
    values ([buildType] of [driver/entity/persistent/box_rich_struct.go]), the numbers of
    [common/richstructhelper], and the operators of [driver/entity/persistent/operator.go].
    Decimals ([shopspring/decimal]) and the parsers of numbers are an interface. *)
From Stdlib Require Import ZArith Lia QArith Qround.
From stdpp Require Import base numbers option strings gmap list.
From S2P Require Import Prelude.
Open Scope Z_scope.

(** ** GraphQL types ([graphql-go/types]) *)

Inductive GType : Type :=
| NonNull (t : GType)
| ListOf (t : GType)
| Scalar (name : string)
| EnumType (values : list string)
| ObjectType (name : string)
| InterfaceType (name : string).

Definition TypeChain : Type := list GType.

Fixpoint BreakType (typ : GType) : TypeChain :=
  typ :: match typ with
         | NonNull t => BreakType t
         | ListOf t => BreakType t
         | _ => []
         end.

(** One layer of a chain put around a type. *)
Definition wrap_layer (layer typ : GType) : GType :=
  match layer with
  | NonNull _ => NonNull typ
  | ListOf _ => ListOf typ
  | _ => typ
  end.

(** [tc[len(tc)-1]] panics on an empty chain. *)
Definition InnerType (tc : TypeChain) : Outcome GType :=
  match last tc with Some t => Ok t | None => Panic end.

Definition OuterType (tc : TypeChain) : Outcome GType :=
  match tc with t :: _ => Ok t | [] => Panic end.

Definition Join (tc : TypeChain) : Outcome GType :=
  let! inner := InnerType tc in
  Ok (foldr wrap_layer inner (removelast tc)).

Definition InnerTypeNullable (tc : TypeChain) : bool :=
  match removelast tc with
  | [] => true
  | _ => match last (removelast tc) with Some (NonNull _) => false | _ => true end
  end.

Definition is_list_layer (t : GType) : bool := match t with ListOf _ => true | _ => false end.

Definition CountListLayer (tc : TypeChain) : Z := Z.of_nat (length (filter (fun t => is_list_layer t = true) tc)).

Fixpoint SkipListLayer_loop (tc : TypeChain) (x : Z) : TypeChain :=
  match tc with
  | [] => []
  | t :: rest =>
      if is_list_layer t then
        if x - 1 =? 0 then rest else SkipListLayer_loop rest (x - 1)
      else SkipListLayer_loop rest x
  end.

Definition SkipListLayer (tc : TypeChain) (x : Z) : TypeChain :=
  if x =? 0 then tc else SkipListLayer_loop tc x.

(** The loop of [Restructure] from the last layer but one to the first; a layer that is
    neither panics. *)
Fixpoint Restructure_layers (layers : TypeChain) (newInner : GType) : Outcome GType :=
  match layers with
  | [] => Ok newInner
  | layer :: rest =>
      let! root := Restructure_layers rest newInner in
      match layer with
      | NonNull _ | ListOf _ => Ok (wrap_layer layer root)
      | _ => Panic
      end
  end.

Definition Restructure (tc : TypeChain) (newInner : GType) : Outcome GType :=
  Restructure_layers (removelast tc) newInner.

(** The type a chain ends in. *)
Fixpoint inner (t : GType) : GType :=
  match t with NonNull u => inner u | ListOf u => inner u | _ => t end.

Lemma BreakType_nonempty t : BreakType t <> [].
Proof. by destruct t. Qed.

Lemma last_BreakType t : last (BreakType t) = Some (inner t).
Proof.
  induction t as [t IH|t IH| | | |]; simpl; try done;
    (destruct (BreakType t) eqn:E; [by destruct (BreakType_nonempty t E)|done]).
Qed.

Lemma removelast_BreakType t :
  removelast (BreakType t) = match t with NonNull u | ListOf u => t :: removelast (BreakType u) | _ => [] end.
Proof.
  destruct t as [t|t| | | |]; simpl; try done;
    (destruct (BreakType t) eqn:E; [by destruct (BreakType_nonempty t E)|done]).
Qed.

(** Breaking a type and joining the chain gives the type back. *)
Lemma Join_BreakType t : Join (BreakType t) = Ok t.
Proof.
  unfold Join, InnerType. rewrite last_BreakType. simpl. f_equal.
  induction t as [t IH|t IH| | | |]; rewrite removelast_BreakType; simpl; congruence.
Qed.

(** The inner type replaced under the same layers. *)
Fixpoint replace_inner (t u : GType) : GType :=
  match t with NonNull v => NonNull (replace_inner v u) | ListOf v => ListOf (replace_inner v u) | _ => u end.

Lemma Restructure_BreakType t u : Restructure (BreakType t) u = Ok (replace_inner t u).
Proof.
  unfold Restructure.
  induction t as [t IH|t IH| | | |]; rewrite removelast_BreakType; simpl; try done; by rewrite IH.
Qed.

(** ** Decimals and number parsing, as far as the code uses them *)

Class Decimal : Type := {
  dec : Type;
  float64 : Type;
  float64_zero : float64;
  NewFromBigInt : Z -> Z -> dec; (* value, exponent *)
  dMul : dec -> dec -> dec;
  dAdd : dec -> dec -> dec;
  dRound : dec -> dec; (* [Round(0)] *)
  dBigInt : dec -> Z;
  dIntPart : dec -> Z;
  dExponent : dec -> Z;
  dShift : Z -> dec -> dec;
  dZero : dec;
  NewFromFloat : float64 -> dec;
  dFloat64 : dec -> float64;
  NewFromString : string -> option dec;
  SetString : string -> option Z (* [big.Int.SetString] with base 0 *)
}.

(** Half away from zero. *)
Definition round_half (q : Q) : Z :=
  if Qle_bool 0 q then Qfloor (q + (1 # 2)) else - Qfloor (- q + (1 # 2)).

(** What the package documents: a decimal is a number, [Mul], [Add] and [Shift] are exact,
    [Round(0)] rounds to the nearest integer, the coefficient at the exponent of the
    decimal is an integer. *)
Class DecimalLaws `{Decimal} : Type := {
  dval : dec -> Q;
  dval_new z e : Qeq (dval (NewFromBigInt z e)) (inject_Z z * Qpower (10 # 1) e);
  dval_mul a b : Qeq (dval (dMul a b)) (dval a * dval b);
  dval_add a b : Qeq (dval (dAdd a b)) (dval a + dval b);
  dval_zero : Qeq (dval dZero) 0;
  dBigInt_round d : dBigInt (dRound d) = round_half (dval d);
  dIntPart_small d : - 2 ^ 63 <= dBigInt d < 2 ^ 63 -> dIntPart d = dBigInt d;
  dval_coefficient d : Qeq (dval d) (inject_Z (dBigInt (dShift (- dExponent d) d)) * Qpower (10 # 1) (dExponent d))
}.

(** ** Rich values ([service/common/protos]) and their numbers *)

Record BigInteger : Type := mkBigInteger { Negative : bool; Data_ : list Z }.
Record BigDecimal : Type := mkBigDecimal { Value_ : BigInteger; Exp_ : Z }.

Section Numbers.
Context `{HD : Decimal}.

Inductive RichValue : Type :=
| RNull
| RInt (x : Z)
| RInt64 (x : Z)
| RFloat (x : float64)
| RBytes (b : list Z)
| RBool (b : bool)
| RString (s : string)
| RTimestamp (seconds nanos : Z)
| RBigint (x : BigInteger)
| RBigdecimal (x : BigDecimal)
| RList (l : list RichValue)
| RStruct
| RToken.

(** [big.Int.SetBytes] and [big.Int.Bytes]: big endian, without leading zeros. *)
Definition SetBytes (data : list Z) : Z := foldl (fun acc b => acc * 256 + b) 0 data.

Fixpoint Bytes_loop (fuel : nat) (z : Z) (acc : list Z) : list Z :=
  match fuel with
  | O => acc
  | S fuel' => if z <=? 0 then acc else Bytes_loop fuel' (z / 256) (z mod 256 :: acc)
  end.

Definition Bytes (z : Z) : list Z := Bytes_loop (S (Z.to_nat (Z.log2 (Z.abs z)))) (Z.abs z) [].

Definition fromBigInt (d : BigInteger) : Z :=
  let intValue := SetBytes (Data_ d) in if Negative d then - intValue else intValue.

Definition fromBigDecimal (d : BigDecimal) : dec := NewFromBigInt (fromBigInt (Value_ d)) (Exp_ d).

Definition buildBigInteger (d : Z) : BigInteger := mkBigInteger (d <? 0) (Bytes d).

Definition buildBigDecimal (d : dec) : BigDecimal :=
  mkBigDecimal (buildBigInteger (dBigInt (dShift (- dExponent d) d))) (dExponent d).

Definition NewIntValue (x : Z) : RichValue := RInt x.
Definition NewBigIntValue (n : Z) : RichValue := RBigint (buildBigInteger n).
Definition NewBigDecimalValue (n : dec) : RichValue := RBigdecimal (buildBigDecimal n).

(** [None] is the nil pointer the code gets with [false]. *)
Definition GetBigInt (val : RichValue) : option Z :=
  match val with
  | RInt x => Some x
  | RInt64 x => Some x
  | RBigint x => Some (fromBigInt x)
  | RFloat x => Some (dBigInt (dRound (NewFromFloat x)))
  | RBigdecimal x => Some (dBigInt (dRound (fromBigDecimal x)))
  | RString s => SetString s
  | _ => None
  end.

Definition GetBigDecimal (val : RichValue) : option dec :=
  match val with
  | RInt x => Some (NewFromBigInt x 0)
  | RInt64 x => Some (NewFromBigInt x 0)
  | RBigint x => Some (NewFromBigInt (fromBigInt x) 0)
  | RFloat x => Some (NewFromFloat x)
  | RBigdecimal x => Some (fromBigDecimal x)
  | RString s => NewFromString s
  | _ => None
  end.

Lemma SetBytes_loop acc data : foldl (fun acc b => acc * 256 + b) acc data = acc * 256 ^ Z.of_nat (length data) + SetBytes data.
Proof.
  revert acc. unfold SetBytes. induction data as [|b data IH]; intros acc; cbn [foldl length]; [simpl; lia|].
  rewrite (IH (acc * 256 + b)), (IH (0 * 256 + b)). rewrite Nat2Z.inj_succ, Z.pow_succ_r by lia. ring.
Qed.

Lemma SetBytes_cons b data : SetBytes (b :: data) = b * 256 ^ Z.of_nat (length data) + SetBytes data.
Proof. unfold SetBytes at 1. cbn [foldl]. rewrite SetBytes_loop. ring. Qed.

Lemma Bytes_loop_spec fuel z acc :
  0 <= z -> z < 256 ^ Z.of_nat fuel ->
  SetBytes (Bytes_loop fuel z acc) = z * 256 ^ Z.of_nat (length acc) + SetBytes acc.
Proof.
  revert z acc. induction fuel as [|fuel IH]; intros z acc Hz Hf; [simpl in *; lia|].
  cbn [Bytes_loop]. destruct (Z.leb_spec z 0); [assert (z = 0) as -> by lia; lia|].
  rewrite Nat2Z.inj_succ, Z.pow_succ_r in Hf by lia.
  rewrite IH; [|apply Z.div_pos; lia|apply Z.div_lt_upper_bound; lia].
  rewrite SetBytes_cons. cbn [length]. rewrite Nat2Z.inj_succ, Z.pow_succ_r by lia.
  pose proof (Z.div_mod z 256 ltac:(lia)) as Hdm. rewrite Hdm at 3. ring.
Qed.

Lemma SetBytes_Bytes z : SetBytes (Bytes z) = Z.abs z.
Proof.
  unfold Bytes. rewrite Bytes_loop_spec; [simpl; unfold SetBytes; simpl; lia|lia|].
  destruct (Z.eq_dec z 0) as [->|Hz]; [simpl; lia|].
  pose proof (Z.log2_spec (Z.abs z) ltac:(lia)) as [_ Hl]. pose proof (Z.log2_nonneg (Z.abs z)).
  rewrite Nat2Z.inj_succ, Z2Nat.id by lia. eapply Z.lt_le_trans; [exact Hl|].
  apply Z.pow_le_mono_l. lia.
Qed.

(** An integer survives the protobuf message. *)
Lemma fromBigInt_build z : fromBigInt (buildBigInteger z) = z.
Proof. unfold fromBigInt, buildBigInteger. simpl. rewrite SetBytes_Bytes. bcase; lia. Qed.

Lemma fromBigDecimal_build `{!DecimalLaws} d : Qeq (dval (fromBigDecimal (buildBigDecimal d))) (dval d).
Proof.
  unfold fromBigDecimal, buildBigDecimal. cbn [Value_ Exp_]. rewrite fromBigInt_build, dval_new.
  symmetry. apply dval_coefficient.
Qed.
End Numbers.

(** ** Field values *)

Section Values.
Context `{HD : Decimal}.

(** The Go types a field value has: a [P] is a pointer, [None] the nil one. *)
Inductive Value : Type :=
| VNil
| VString (s : string) | VStringP (p : option string)
| VBool (b : bool) | VBoolP (p : option bool)
| VInt32 (x : Z) | VInt32P (p : option Z)
| VInt64 (x : Z) | VInt64P (p : option Z)
| VFloat (x : float64) | VFloatP (p : option float64)
| VBigInt (x : Z) | VBigIntP (p : option Z)
| VDec (d : dec) | VDecP (p : option dec)
| VList (l : option (list Value)).

Definition IsNil (v : Value) : bool :=
  match v with
  | VNil | VStringP None | VBoolP None | VInt32P None | VInt64P None | VFloatP None
  | VBigIntP None | VDecP None | VList None => true
  | _ => false
  end.

(** The zero value of a type that is not a list, [nonNull] or not. *)
Definition zero_inner (nonNull : bool) (typ : GType) : Outcome Value :=
  match typ with
  | Scalar name =>
      if bool_decide (name = "Bytes" \/ name = "String" \/ name = "ID") then
        Ok (if nonNull then VString EmptyString else VStringP None)
      else if bool_decide (name = "Boolean") then Ok (if nonNull then VBool false else VBoolP None)
      else if bool_decide (name = "Int") then Ok (if nonNull then VInt32 0 else VInt32P None)
      else if bool_decide (name = "Int8" \/ name = "Timestamp") then Ok (if nonNull then VInt64 0 else VInt64P None)
      else if bool_decide (name = "Float") then Ok (if nonNull then VFloat float64_zero else VFloatP None)
      else if bool_decide (name = "BigInt") then Ok (VBigIntP (if nonNull then Some 0 else None))
      else if bool_decide (name = "BigDecimal") then Ok (if nonNull then VDec dZero else VDecP None)
      else Panic
  | EnumType values =>
      (* the first value is taken before it is looked at whether there is one *)
      match values with
      | [] => Panic
      | v :: _ => Ok (if nonNull then VString v else VStringP None)
      end
  | ObjectType _ | InterfaceType _ => Ok (if nonNull then VString EmptyString else VStringP None)
  | _ => Panic
  end.

(** The value [buildType] returns. *)
Fixpoint zero_value (typ : GType) : Outcome Value :=
  match typ with
  | ListOf t => let! _ := zero_value t in Ok (VList None)
  | NonNull (ListOf t) => let! _ := zero_value t in Ok (VList (Some []))
  | NonNull t => zero_inner true t
  | _ => zero_inner false typ
  end.

(** ** Operators *)

(** newValue = preValue * Multi + Add *)
Record OperatorNumCalc : Type := mkNumCalc { Multi : RichValue; Add : RichValue }.

Record Operator : Type := mkOperator { NumCalc : option OperatorNumCalc }.

(** [decimal.Decimal{}] is zero. *)
Definition get_dec (v : RichValue) : dec := default dZero (GetBigDecimal v).

Definition Calc (o : OperatorNumCalc) (origin : dec) : dec :=
  dAdd (dMul origin (get_dec (Multi o))) (get_dec (Add o)).

Definition RemainLatest (o : Operator) : bool := match NumCalc o with None => true | Some _ => false end.

(** The scalar a type is for an operator: not a list, and a scalar inside. *)
Definition operator_scalar (typ : GType) : Outcome string :=
  let typeChain := BreakType typ in
  if 0 <? CountListLayer typeChain then Panic
  else let! innerType := InnerType typeChain in
       match innerType with
       | Scalar name => Ok name
       | _ => Panic
       end.

Definition is_integer_scalar (name : string) : bool :=
  bool_decide (name = "Int" \/ name = "Int8" \/ name = "BigInt").

Definition is_decimal_scalar (name : string) : bool :=
  bool_decide (name = "Float" \/ name = "BigDecimal").

(** Whether a value can be the operand of an operator on a field of this type. *)
Definition checkNumCalcValueTypeMatch (typ : GType) (val : RichValue) : bool :=
  match operator_scalar typ with
  | Ok name =>
      if is_integer_scalar name || is_decimal_scalar name then
        match GetBigDecimal val with Some _ => true | None => false end
      else false
  | _ => false
  end.

(** [big.Int] methods dereference their arguments. *)
Definition deref_int (p : option Z) : Outcome Z := match p with Some z => Ok z | None => Panic end.

(** (x * m1 + a1) * m2 + a2 = x * (m1 * m2) + (a1 * m2 + a2) *)
Definition mergeOperator (typ : GType) (op1 op2 : Operator) : Outcome Operator :=
  match NumCalc op1, NumCalc op2 with
  | None, _ => Ok op2
  | Some _, None => Ok op1
  | Some c1, Some c2 =>
      let! name := operator_scalar typ in
      if is_integer_scalar name then
        let! m1 := deref_int (GetBigInt (Multi c1)) in
        let! m2 := deref_int (GetBigInt (Multi c2)) in
        let! a1 := deref_int (GetBigInt (Add c1)) in
        let! a2 := deref_int (GetBigInt (Add c2)) in
        Ok (mkOperator (Some (mkNumCalc (NewBigIntValue (m1 * m2)) (NewBigIntValue (a1 * m2 + a2)))))
      else if is_decimal_scalar name then
        let m1 := get_dec (Multi c1) in
        let a1 := get_dec (Add c1) in
        let m2 := get_dec (Multi c2) in
        let a2 := get_dec (Add c2) in
        Ok (mkOperator (Some (mkNumCalc (NewBigDecimalValue (dMul m1 m2))
                                        (NewBigDecimalValue (dAdd (dMul a1 m2) a2)))))
      else Panic
  end.

(** [int32(x)] of an [int64]. *)
Definition to_int32 (x : Z) : Z := (x + 2 ^ 31) mod 2 ^ 32 - 2 ^ 31.

(** What the type switches of [calcOperator] read. *)
Definition origin_int32 (v : Value) : Z := match v with VInt32 x => x | VInt32P (Some x) => x | _ => 0 end.
Definition origin_int64 (v : Value) : Z := match v with VInt64 x => x | VInt64P (Some x) => x | _ => 0 end.
Definition origin_bigint (v : Value) : Z := match v with VBigInt x => x | VBigIntP (Some x) => x | _ => 0 end.
Definition origin_float (v : Value) : float64 := match v with VFloat x => x | VFloatP (Some x) => x | _ => float64_zero end.
Definition origin_dec (v : Value) : dec := match v with VDec d => d | VDecP (Some d) => d | _ => dZero end.

Definition calcOperator (typ : GType) (originVal : Value) (operator : Operator) : Outcome Value :=
  match NumCalc operator with
  | None => Ok originVal
  | Some calc =>
      let nullable := InnerTypeNullable (BreakType typ) in
      let! name := operator_scalar typ in
      if bool_decide (name = "Int") then
        let result := to_int32 (dIntPart (dRound (Calc calc (NewFromBigInt (origin_int32 originVal) 0)))) in
        Ok (if nullable then VInt32P (Some result) else VInt32 result)
      else if bool_decide (name = "Int8") then
        let result := dIntPart (dRound (Calc calc (NewFromBigInt (origin_int64 originVal) 0))) in
        Ok (if nullable then VInt64P (Some result) else VInt64 result)
      else if bool_decide (name = "BigInt") then
        Ok (VBigIntP (Some (dBigInt (dRound (Calc calc (NewFromBigInt (origin_bigint originVal) 0))))))
      else if bool_decide (name = "Float") then
        let result := dFloat64 (Calc calc (NewFromFloat (origin_float originVal))) in
        Ok (if nullable then VFloatP (Some result) else VFloat result)
      else if bool_decide (name = "BigDecimal") then
        let result := Calc calc (origin_dec originVal) in
        Ok (if nullable then VDecP (Some result) else VDec result)
      else Panic
  end.
End Values.

(** ** Merging operators is composing them *)

Section OperatorLaws.
Context `{HD : Decimal} {HL : DecimalLaws}.

Lemma round_half_int q z : Qeq q (inject_Z z) -> round_half q = z.
Proof.
  intros Hq. unfold round_half.
  assert (Hf : forall k, Qfloor (inject_Z k + (1 # 2)) = k).
  { intros k. unfold Qfloor, Qplus, inject_Z. simpl. symmetry. apply Z.div_unique with 1; lia. }
  destruct (Qle_bool 0 q).
  - rewrite (Qfloor_comp _ (inject_Z z + (1 # 2))); [apply Hf|]. by rewrite Hq.
  - rewrite (Qfloor_comp _ (inject_Z (- z) + (1 # 2))); [rewrite Hf; lia|]. rewrite Hq. by rewrite inject_Z_opp.
Qed.

(** A rich value that is the integer [n] for both conversions. *)
Definition integral (v : RichValue) (n : Z) : Prop :=
  GetBigInt v = Some n /\ exists d, GetBigDecimal v = Some d /\ Qeq (dval d) (inject_Z n).

Lemma dval_int z : Qeq (dval (NewFromBigInt z 0)) (inject_Z z).
Proof. rewrite dval_new. simpl. ring. Qed.

Lemma integral_Int x : integral (RInt x) x.
Proof. split; [done|]. eexists. split; [done|]. apply dval_int. Qed.

Lemma integral_Int64 x : integral (RInt64 x) x.
Proof. split; [done|]. eexists. split; [done|]. apply dval_int. Qed.

Lemma integral_New n : integral (NewBigIntValue n) n.
Proof.
  unfold NewBigIntValue. split; simpl; rewrite fromBigInt_build; [done|]. eexists. split; [done|]. apply dval_int.
Qed.

Lemma dval_Calc m a x : Qeq (dval (Calc (mkNumCalc m a) x)) (dval x * dval (get_dec m) + dval (get_dec a)).
Proof. unfold Calc. simpl. by rewrite dval_add, dval_mul. Qed.

Lemma Calc_integer m a mi ai x :
  integral m mi -> integral a ai ->
  dBigInt (dRound (Calc (mkNumCalc m a) (NewFromBigInt x 0))) = x * mi + ai.
Proof.
  intros [_ (dm & Em & Hm)] [_ (da & Ea & Ha)]. rewrite dBigInt_round. apply round_half_int.
  rewrite dval_Calc, dval_int. unfold get_dec. rewrite Em, Ea. simpl. rewrite Hm, Ha.
  by rewrite inject_Z_plus, inject_Z_mult.
Qed.

Definition num_op (m a : RichValue) : Operator := mkOperator (Some (mkNumCalc m a)).

(** What an operator with integer operands does to a [BigInt] field. *)
Lemma calc_BigInt typ v m a mi ai :
  operator_scalar typ = Ok "BigInt" -> integral m mi -> integral a ai ->
  calcOperator typ v (num_op m a) = Ok (VBigIntP (Some (origin_bigint v * mi + ai))).
Proof.
  intros Ht Hm Ha. unfold calcOperator, num_op. cbn [NumCalc]. rewrite Ht. cbn [obind].
  rewrite !bool_decide_eq_false_2 by done. rewrite bool_decide_eq_true_2 by done.
  by rewrite (Calc_integer m a mi ai).
Qed.

Definition fits64 (z : Z) : Prop := - 2 ^ 63 <= z < 2 ^ 63.
Definition fits32 (z : Z) : Prop := - 2 ^ 31 <= z < 2 ^ 31.

Lemma to_int32_small z : fits32 z -> to_int32 z = z.
Proof. unfold fits32, to_int32. intros Hz. rewrite Z.mod_small; lia. Qed.

Definition nullable_of (typ : GType) : bool := InnerTypeNullable (BreakType typ).

Lemma calc_Int8 typ v m a mi ai :
  operator_scalar typ = Ok "Int8" -> integral m mi -> integral a ai -> fits64 (origin_int64 v * mi + ai) ->
  calcOperator typ v (num_op m a) =
    Ok (if nullable_of typ then VInt64P (Some (origin_int64 v * mi + ai)) else VInt64 (origin_int64 v * mi + ai)).
Proof.
  intros Ht Hm Ha Hf. unfold calcOperator, num_op. cbn [NumCalc]. rewrite Ht. cbn [obind].
  rewrite bool_decide_eq_false_2 by done. rewrite bool_decide_eq_true_2 by done.
  rewrite dIntPart_small by (by rewrite (Calc_integer m a mi ai)). by rewrite (Calc_integer m a mi ai).
Qed.

Lemma calc_Int typ v m a mi ai :
  operator_scalar typ = Ok "Int" -> integral m mi -> integral a ai -> fits32 (origin_int32 v * mi + ai) ->
  calcOperator typ v (num_op m a) =
    Ok (if nullable_of typ then VInt32P (Some (origin_int32 v * mi + ai)) else VInt32 (origin_int32 v * mi + ai)).
Proof.
  intros Ht Hm Ha Hf. unfold calcOperator, num_op. cbn [NumCalc]. rewrite Ht. cbn [obind].
  rewrite bool_decide_eq_true_2 by done.
  rewrite dIntPart_small by (rewrite (Calc_integer m a mi ai) by done; unfold fits32 in Hf; lia).
  rewrite (Calc_integer m a mi ai) by done. by rewrite to_int32_small.
Qed.

(** Merging operators with integer operands. *)
Lemma merge_integer typ name m1 a1 m2 a2 mi1 ai1 mi2 ai2 :
  operator_scalar typ = Ok name -> is_integer_scalar name = true ->
  integral m1 mi1 -> integral a1 ai1 -> integral m2 mi2 -> integral a2 ai2 ->
  mergeOperator typ (num_op m1 a1) (num_op m2 a2) =
    Ok (num_op (NewBigIntValue (mi1 * mi2)) (NewBigIntValue (ai1 * mi2 + ai2))).
Proof.
  intros Ht Hn [E1 _] [E2 _] [E3 _] [E4 _]. unfold mergeOperator, num_op. cbn [NumCalc]. rewrite Ht. cbn [obind].
  rewrite Hn. cbn [Multi Add]. by rewrite E1, E2, E3, E4.
Qed.

(** On a [BigInt] field the merged operator does what the two do one after the other. *)
Lemma merge_BigInt typ v m1 a1 m2 a2 mi1 ai1 mi2 ai2 :
  operator_scalar typ = Ok "BigInt" ->
  integral m1 mi1 -> integral a1 ai1 -> integral m2 mi2 -> integral a2 ai2 ->
  (let! op := mergeOperator typ (num_op m1 a1) (num_op m2 a2) in calcOperator typ v op) =
  (let! w := calcOperator typ v (num_op m1 a1) in calcOperator typ w (num_op m2 a2)).
Proof.
  intros Ht H1 H2 H3 H4. rewrite (merge_integer typ "BigInt" _ _ _ _ mi1 ai1 mi2 ai2) by done. cbn [obind].
  rewrite (calc_BigInt typ v m1 a1 mi1 ai1) by done. cbn [obind].
  rewrite (calc_BigInt typ _ m2 a2 mi2 ai2) by done.
  rewrite (calc_BigInt typ v _ _ (mi1 * mi2) (ai1 * mi2 + ai2)) by (done || apply integral_New).
  simpl. do 3 f_equal. ring.
Qed.

Lemma merge_Int8 typ v m1 a1 m2 a2 mi1 ai1 mi2 ai2 :
  operator_scalar typ = Ok "Int8" ->
  integral m1 mi1 -> integral a1 ai1 -> integral m2 mi2 -> integral a2 ai2 ->
  fits64 (origin_int64 v * mi1 + ai1) -> fits64 ((origin_int64 v * mi1 + ai1) * mi2 + ai2) ->
  (let! op := mergeOperator typ (num_op m1 a1) (num_op m2 a2) in calcOperator typ v op) =
  (let! w := calcOperator typ v (num_op m1 a1) in calcOperator typ w (num_op m2 a2)).
Proof.
  intros Ht H1 H2 H3 H4 F1 F2. rewrite (merge_integer typ "Int8" _ _ _ _ mi1 ai1 mi2 ai2) by done. cbn [obind].
  rewrite (calc_Int8 typ v m1 a1 mi1 ai1) by done. cbn [obind].
  assert (Ho : origin_int64 (if nullable_of typ then VInt64P (Some (origin_int64 v * mi1 + ai1))
                             else VInt64 (origin_int64 v * mi1 + ai1)) = origin_int64 v * mi1 + ai1)
    by by destruct (nullable_of typ).
  rewrite (calc_Int8 typ _ m2 a2 mi2 ai2) by (done || by rewrite Ho). rewrite Ho.
  assert (Hr : origin_int64 v * (mi1 * mi2) + (ai1 * mi2 + ai2) = (origin_int64 v * mi1 + ai1) * mi2 + ai2) by ring.
  rewrite (calc_Int8 typ v _ _ (mi1 * mi2) (ai1 * mi2 + ai2)); rewrite ?Hr; done || apply integral_New.
Qed.

(** ** Decimals, up to their value *)

Definition veq (v w : Value) : Prop :=
  match v, w with
  | VDec a, VDec b => Qeq (dval a) (dval b)
  | VDecP (Some a), VDecP (Some b) => Qeq (dval a) (dval b)
  | _, _ => v = w
  end.

Lemma calc_BigDecimal typ v m a :
  operator_scalar typ = Ok "BigDecimal" ->
  calcOperator typ v (num_op m a) =
    Ok (if nullable_of typ then VDecP (Some (Calc (mkNumCalc m a) (origin_dec v))) else VDec (Calc (mkNumCalc m a) (origin_dec v))).
Proof.
  intros Ht. unfold calcOperator, num_op. cbn [NumCalc]. rewrite Ht. cbn [obind].
  rewrite !bool_decide_eq_false_2 by done. by rewrite bool_decide_eq_true_2.
Qed.

Lemma merge_BigDecimal typ v m1 a1 m2 a2 :
  operator_scalar typ = Ok "BigDecimal" ->
  exists x y, (let! op := mergeOperator typ (num_op m1 a1) (num_op m2 a2) in calcOperator typ v op) = Ok x /\
    (let! w := calcOperator typ v (num_op m1 a1) in calcOperator typ w (num_op m2 a2)) = Ok y /\ veq x y.
Proof.
  intros Ht. rewrite (calc_BigDecimal typ v m1 a1 Ht). cbn [obind]. rewrite (calc_BigDecimal typ _ m2 a2 Ht).
  unfold mergeOperator at 1. unfold num_op at 1 2. cbn [NumCalc]. rewrite Ht. cbn [obind].
  unfold is_integer_scalar, is_decimal_scalar. rewrite bool_decide_eq_false_2 by naive_solver.
  rewrite bool_decide_eq_true_2 by naive_solver. cbn [obind Multi Add].
  set (m := NewBigDecimalValue _). set (a := NewBigDecimalValue _). fold (num_op m a).
  rewrite (calc_BigDecimal typ v m a Ht). eexists _, _. split_and!; [reflexivity..|].
  assert (Hm : Qeq (dval (get_dec m)) (dval (get_dec m1) * dval (get_dec m2)))
    by (unfold get_dec at 1; simpl; by rewrite fromBigDecimal_build, dval_mul).
  assert (Ha : Qeq (dval (get_dec a)) (dval (get_dec a1) * dval (get_dec m2) + dval (get_dec a2)))
    by (unfold get_dec at 1; simpl; by rewrite fromBigDecimal_build, dval_add, dval_mul).
  destruct (nullable_of typ); simpl; rewrite !dval_Calc, Hm, Ha; ring.
Qed.
End OperatorLaws.
