(* ===== verification/EntityHistory.v ===== *)
(** * Uncommitted entities and their histories

    [driver/entity/persistent/box.go] and [change.go], and the parts of
    [driver/entity/schema/entity.go] they use. The history of an entity has at most one
    box for a block, in the order of the blocks; a box has a value or an operator for
    each of its fields. *)
From Stdlib Require Import ZArith Lia.
From stdpp Require Import base numbers option strings sorting gmap list.
From S2P Require Import Prelude BlockCache EntityValue.

(** ** [sort.Search] *)

Fixpoint Search_loop (fuel : nat) (f : nat -> bool) (i j : nat) : nat :=
  match fuel with
  | O => i
  | S fuel' =>
      if bool_decide (i < j)%nat then
        let h := ((i + j) / 2)%nat in
        if f h then Search_loop fuel' f i h else Search_loop fuel' f (S h) j
      else i
  end.

(** The interval shrinks in every round. *)
Definition Search (n : nat) (f : nat -> bool) : nat := Search_loop (S n) f 0 n.

Lemma Search_loop_spec fuel f i j n :
  (j - i < fuel)%nat -> (i <= j <= n)%nat ->
  (forall a b, (a <= b < n)%nat -> f a = true -> f b = true) ->
  (forall k, (k < i)%nat -> f k = false) -> (forall k, (j <= k < n)%nat -> f k = true) ->
  let r := Search_loop fuel f i j in
  (i <= r <= j)%nat /\ (forall k, (k < r)%nat -> f k = false) /\ (forall k, (r <= k < n)%nat -> f k = true).
Proof.
  intros Hfu Hij Hmono. revert i j Hfu Hij.
  induction fuel as [|fuel IH]; intros i j Hfu Hij Hlo Hhi; [lia|]. cbn [Search_loop].
  case_bool_decide as Hlt; [|split_and!; [lia|lia|done|intros; apply Hhi; lia]].
  pose proof (Nat.Div0.div_lt_upper_bound (i + j) 2 j ltac:(lia)) as H1.
  pose proof (Nat.div_le_lower_bound (i + j) 2 i ltac:(lia) ltac:(lia)) as H2.
  set (h := ((i + j) / 2)%nat) in *. destruct (f h) eqn:Eh.
  - destruct (IH i h) as (R1 & R2 & R3); [lia|lia|done| |split_and!; [lia|lia|done|done]].
    intros k Hk. apply (Hmono h); [lia|done].
  - destruct (IH (S h) j) as (R1 & R2 & R3); [lia|lia| |done|split_and!; [lia|lia|done|done]].
    intros k Hk. destruct (f k) eqn:Ek; [|done]. rewrite <- Eh. symmetry. apply (Hmono k); [lia|done].
Qed.

Lemma Search_loop_ext fuel f g i j : (forall k, f k = g k) -> Search_loop fuel f i j = Search_loop fuel g i j.
Proof.
  intros Hfg. revert i j. induction fuel as [|fuel IH]; intros i j; [done|]. cbn [Search_loop]. rewrite Hfg.
  case_bool_decide; [|done]. destruct (g _); apply IH.
Qed.

Lemma Search_ext n f g : (forall k, f k = g k) -> Search n f = Search n g.
Proof. apply Search_loop_ext. Qed.

(** On a predicate that stays true, the first index where it is true. *)
Lemma Search_spec n f :
  (forall a b, (a <= b < n)%nat -> f a = true -> f b = true) ->
  let r := Search n f in
  (r <= n)%nat /\ (forall k, (k < r)%nat -> f k = false) /\ (forall k, (r <= k < n)%nat -> f k = true).
Proof.
  intros Hm. destruct (Search_loop_spec (S n) f 0 n n) as (R1 & R2 & R3); [lia|lia|done|lia|lia|].
  unfold Search. split_and!; [lia|done|done].
Qed.

(** ** Entity types *)

Record FieldDefinition : Type := mkField { FieldName : string; FieldType : GType; DerivedFrom : bool }.

(** [schema.Entity] with the arguments of its directive; the size of a [@cache] entity is
    in megabytes, zero where it is not given. *)
Record EntityType : Type := mkEntityType {
  Name : string;
  FieldsDefinition : list FieldDefinition;
  immutableArg : bool;
  timeSeriesArg : bool;
  sparseArg : bool;
  cacheDirective : option Z
}.

Definition IsTimeSeries (e : EntityType) : bool := timeSeriesArg e.
Definition IsSparse (e : EntityType) : bool := sparseArg e.
Definition IsCache (e : EntityType) : bool := match cacheDirective e with Some _ => true | None => false end.
Definition GetCacheSizeMB (e : EntityType) : Z := default 0 (cacheDirective e).

(** A field counts for one, a field of lists for three. *)
Definition DataSize (e : EntityType) : Z :=
  foldr (fun f size => (if 0 <? CountListLayer (BreakType (FieldType f)) then 3 else 1) + size) 0 (FieldsDefinition e).
Definition IsImmutable (e : EntityType) : bool := if IsTimeSeries e then true else immutableArg e.

(** Scalars and enums. *)
Definition isFixedFieldType (typ : GType) : bool :=
  match last (BreakType typ) with
  | Some (Scalar _) | Some (EnumType _) => true
  | _ => false
  end.

Fixpoint ListFieldNames (includeFixed includePositiveFK includeNegativeFK : bool) (fs : list FieldDefinition) : list string :=
  match fs with
  | [] => []
  | f :: rest =>
      let names := ListFieldNames includeFixed includePositiveFK includeNegativeFK rest in
      if isFixedFieldType (FieldType f) then
        if includeFixed then FieldName f :: names else names
      else if negb (DerivedFrom f) && negb includePositiveFK then names
      else if DerivedFrom f && negb includeNegativeFK then names
      else FieldName f :: names
  end.

(** [nil] when there is none. *)
Definition GetFieldByName (e : EntityType) (name : string) : option FieldDefinition :=
  list_find (fun f => FieldName f = name) (FieldsDefinition e) ≫= fun p => Some p.2.

(** [field.Type] of a field the code expects to exist. *)
Definition field_type (e : EntityType) (name : string) : Outcome GType :=
  match GetFieldByName e name with Some f => Ok (FieldType f) | None => Panic end.

Section Boxes.
Context `{HD : Decimal}.

(** ** Boxes *)

Abbreviation DataMap := (gmap string Value).

(** [Data] is [None] when the entity is deleted. *)
Record EntityBox : Type := mkBox {
  Entity : string;
  ID : string;
  Data : option DataMap;
  GenBlockNumber : Z;
  GenBlockTime : Z;
  GenBlockHash : string
}.

Record UncommittedEntityBox : Type := mkUncommitted {
  ebox : EntityBox;
  Operators : gmap string Operator
}.

Definition set_data (d : option DataMap) (b : EntityBox) : EntityBox :=
  mkBox (Entity b) (ID b) d (GenBlockNumber b) (GenBlockTime b) (GenBlockHash b).

(** The fields a complete box has. *)
Definition stored_fields (e : EntityType) : gset string := list_to_set (ListFieldNames true true false (FieldsDefinition e)).

Definition IsComplete (e : EntityType) (b : EntityBox) : bool :=
  bool_decide (stored_fields e ∖ dom (default ∅ (Data b)) = ∅).

(** [e.Data[name] = v] on a nil map panics. *)
Definition FillLostFields (et : EntityType) (origin : DataMap) (b : EntityBox) : Outcome EntityBox :=
  let lost := stored_fields et ∖ dom (default ∅ (Data b)) in
  if bool_decide (lost = ∅) then Ok b
  else
    match Data b with
    | None => Panic
    | Some d =>
        let! d' := set_fold (fun name acc =>
                     let! d := acc in
                     let! v := (match origin !! name with
                                | Some v => Ok v
                                | None => let! t := field_type et name in zero_value t
                                end) in
                     Ok (<[name := v]> d)) (Ok d) lost in
        Ok (set_data (Some d') b)
    end.

(** An operator executed on the value a field has, or on the zero value of its type. *)
Definition calc_one (et : EntityType) (name : string) (origin : option Value) (op : Operator) : Outcome Value :=
  let! t := field_type et name in
  let! v0 := (match origin with Some v => Ok v | None => zero_value t end) in
  calcOperator t v0 op.

(** The loop over the operators of a box; [origin] has the values they start from. *)
Definition calc_all (et : EntityType) (origin : DataMap) (ops : gmap string Operator) (d : DataMap) : Outcome DataMap :=
  map_fold (fun name op acc =>
    let! d := acc in
    let! v := calc_one et name (origin !! name) op in
    Ok (<[name := v]> d)) (Ok d) ops.

(** The last loop of [Merge]: operators on fields with a value are executed, the others
    are merged with the earlier ones. *)
Definition merge_ops (et : EntityType) (old : gmap string Operator) (ops : gmap string Operator) (d : DataMap)
    : Outcome (DataMap * gmap string Operator) :=
  map_fold (fun name op acc =>
    let! (d, news) := acc in
    let! t := field_type et name in
    match d !! name with
    | Some originVal => let! v := calcOperator t originVal op in Ok (<[name := v]> d, news)
    | None =>
        let preOp := default (mkOperator None) (old !! name) in
        let! o := mergeOperator t preOp op in Ok (d, <[name := o]> news)
    end) (Ok (d, ∅)) ops.

Definition Merge (et : EntityType) (e newOne : UncommittedEntityBox) : Outcome UncommittedEntityBox :=
  if bool_decide (ID (ebox e) <> ID (ebox newOne)) then Panic
  else if bool_decide (Entity (ebox e) <> Entity (ebox newOne)) then Panic
  else
    let moved d := mkBox (Entity (ebox e)) (ID (ebox e)) d (GenBlockNumber (ebox newOne))
                     (GenBlockTime (ebox newOne)) (GenBlockHash (ebox newOne)) in
    match Data (ebox newOne), Data (ebox e) with
    | None, _ => Ok (mkUncommitted (moved None) ∅)
    | Some nd, None =>
        let! d := calc_all et ∅ (Operators newOne) nd in
        Ok (mkUncommitted (moved (Some d)) ∅)
    | Some nd, Some ed =>
        let! (d, ops) := merge_ops et (Operators e) (Operators newOne) (nd ∪ ed) in
        Ok (mkUncommitted (moved (Some d)) ops)
    end.

(** ** Histories *)

Abbreviation changeHistory := (list UncommittedEntityBox).

Definition gen (b : UncommittedEntityBox) : Z := GenBlockNumber (ebox b).

Definition gen_at (ch : changeHistory) (i : nat) : Z := default 0 (gen <$> ch !! i).

Definition Count (ch : changeHistory) (blockNumberLE : Z) : nat :=
  Search (length ch) (fun i => blockNumberLE <? gen_at ch i).

Definition Latest (ch : changeHistory) (blockNumber : Z) : option UncommittedEntityBox :=
  match Count ch blockNumber with
  | O => None
  | S p => ch !! p
  end.

(** What stays, and what is split off. *)
Definition Split (ch : changeHistory) (blockNumber : Z) : changeHistory * changeHistory :=
  let i := Count ch blockNumber in (take i ch, drop i ch).

(** Whether the box was merged into one of the same block, that box, and the history. *)
Definition Push (et : EntityType) (nw : UncommittedEntityBox) (ch : changeHistory)
    : Outcome ((bool * UncommittedEntityBox) * changeHistory) :=
  match Count ch (gen nw) with
  | S p =>
      match ch !! p with
      | Some old =>
          if gen old =? gen nw then
            let! m := Merge et old nw in Ok ((true, m), <[p := m]> ch)
          else Ok ((false, nw), take (S p) ch ++ nw :: drop (S p) ch)
      | None => Panic
      end
  | O => Ok ((false, nw), nw :: ch)
  end.

(** ** Change sets: the histories by entity and id *)

Abbreviation changeSet := (gmap string (gmap string changeHistory)).

Definition changeSet_Count (cs : changeSet) (blockNumberLE : Z) : Z :=
  map_fold (fun _ set total =>
    map_fold (fun _ history total => total + Z.of_nat (Count history blockNumberLE)) total set) 0 cs.

Definition nonempty_list {A} (l : list A) : option (list A) := match l with [] => None | _ => Some l end.

Definition nonempty_map {A} (m : gmap string A) : option (gmap string A) :=
  if bool_decide (m = ∅) then None else Some m.

(** What stays in the set, and the set that is split off; empty histories and entities
    are dropped from both. *)
Definition changeSet_Split (cs : changeSet) (blockNumber : Z) : changeSet * changeSet :=
  (omap (fun set => nonempty_map (omap (fun h => nonempty_list (Split h blockNumber).1) set)) cs,
   omap (fun set => nonempty_map (omap (fun h => nonempty_list (Split h blockNumber).2) set)) cs).

(** The history of an entity. *)
Definition history (cs : changeSet) (entity id : string) : changeHistory := default [] (GetFromK2Map cs entity id).

(** ** Laws of histories *)

Definition hist_ok (ch : changeHistory) : Prop := StronglySorted Z.lt (map gen ch).

Lemma gen_at_lookup ch i b : ch !! i = Some b -> gen_at ch i = gen b.
Proof. unfold gen_at. by intros ->. Qed.

Lemma hist_ok_lt ch i j a b : hist_ok ch -> (i < j)%nat -> ch !! i = Some a -> ch !! j = Some b -> gen a < gen b.
Proof.
  intros Hs Hij Ha Hb. apply (StronglySorted_lookup_lt Z.lt (map gen ch) i j); [done|done|..];
    by rewrite list_lookup_fmap, ?Ha, ?Hb.
Qed.

Lemma hist_ok_sublist ch ch' : ch' `sublist_of` ch -> hist_ok ch -> hist_ok ch'.
Proof. unfold hist_ok. intros Hs Hc. eapply StronglySorted_sublist; [|exact Hc]. by apply sublist_map. Qed.

(** [Count] is where the boxes beyond the block begin. *)
Lemma Count_spec ch n :
  hist_ok ch -> (Count ch n <= length ch)%nat /\
  take (Count ch n) ch = filter (fun b => gen b <= n) ch /\ drop (Count ch n) ch = filter (fun b => n < gen b) ch.
Proof.
  intros Hs. unfold Count.
  destruct (Search_spec (length ch) (fun i => n <? gen_at ch i)) as (H1 & H2 & H3).
  { intros a b Hab Ha. apply Z.ltb_lt in Ha. apply Z.ltb_lt. destruct (decide (a = b)) as [->|Hne]; [done|].
    destruct (lookup_lt_is_Some_2 ch a ltac:(lia)) as [x Hx], (lookup_lt_is_Some_2 ch b ltac:(lia)) as [y Hy].
    rewrite (gen_at_lookup _ _ _ Hx) in Ha. rewrite (gen_at_lookup _ _ _ Hy).
    pose proof (hist_ok_lt ch a b x y Hs ltac:(lia) Hx Hy). lia. }
  set (r := Search _ _) in *.
  assert (Hlo : Forall (fun b => gen b <= n) (take r ch)).
  { apply Forall_lookup. intros i b Hb. apply lookup_take_Some in Hb as [Hb Hi].
    specialize (H2 i Hi). cbv beta in H2. rewrite (gen_at_lookup _ _ _ Hb) in H2. apply Z.ltb_ge in H2. lia. }
  assert (Hhi : Forall (fun b => n < gen b) (drop r ch)).
  { apply Forall_lookup. intros i b Hb. rewrite lookup_drop in Hb. pose proof (lookup_lt_Some _ _ _ Hb).
    specialize (H3 (r + i)%nat ltac:(lia)). cbv beta in H3. rewrite (gen_at_lookup _ _ _ Hb) in H3. by apply Z.ltb_lt. }
  split_and!; [done|..]; rewrite <- (take_drop r ch) at 2; rewrite filter_app.
  - rewrite filter_all by (by apply Forall_forall). rewrite filter_none, app_nil_r; [done|].
    intros x Hx. rewrite Forall_forall in Hhi. specialize (Hhi x Hx). lia.
  - rewrite filter_none; [by rewrite filter_all by (by apply Forall_forall)|].
    intros x Hx. rewrite Forall_forall in Hlo. specialize (Hlo x Hx). lia.
Qed.

Lemma Count_length ch n : hist_ok ch -> Count ch n = length (filter (fun b => gen b <= n) ch).
Proof. intros Hs. destruct (Count_spec ch n Hs) as (H1 & <- & _). rewrite length_take. lia. Qed.

Lemma Latest_last ch n : hist_ok ch -> Latest ch n = last (filter (fun b => gen b <= n) ch).
Proof.
  intros Hs. destruct (Count_spec ch n Hs) as (H1 & H2 & _). unfold Latest. rewrite <- H2, last_lookup, length_take.
  destruct (Count ch n) as [|p]; [done|]. rewrite lookup_take_lt by lia. f_equal. lia.
Qed.

Lemma Split_spec ch n :
  hist_ok ch -> Split ch n = (filter (fun b => gen b <= n) ch, filter (fun b => n < gen b) ch).
Proof. intros Hs. destruct (Count_spec ch n Hs) as (_ & H1 & H2). unfold Split. by rewrite H1, H2. Qed.

Lemma Merge_gen et e n m : Merge et e n = Ok m -> gen m = gen n.
Proof.
  unfold Merge. repeat case_bool_decide; try done. destruct (Data (ebox n)), (Data (ebox e)); try (by intros [= <-]).
  - destruct (merge_ops _ _ _ _) as [[d ops]| |]; try done. by intros [= <-].
  - destruct (calc_all _ _ _ _) as [d'| |]; try done. by intros [= <-].
Qed.

(** Where a box goes: between the boxes of earlier and later blocks, or into the box of
    its own block. *)
Lemma Push_spec et nw ch :
  hist_ok ch ->
  (exists lo hi, ch = lo ++ hi /\ Forall (fun b => gen b < gen nw) lo /\ Forall (fun b => gen nw < gen b) hi /\
     Push et nw ch = Ok ((false, nw), lo ++ nw :: hi)) \/
  (exists lo old hi, ch = lo ++ old :: hi /\ gen old = gen nw /\
     Forall (fun b => gen b < gen nw) lo /\ Forall (fun b => gen nw < gen b) hi /\
     Push et nw ch = (let! m := Merge et old nw in Ok ((true, m), lo ++ m :: hi))).
Proof.
  intros Hs. destruct (Count_spec ch (gen nw) Hs) as (Hc & Hlo & Hhi). unfold Push.
  assert (Hh : Forall (fun b => gen nw < gen b) (drop (Count ch (gen nw)) ch)).
  { rewrite Hhi. apply Forall_forall. intros x Hx. by apply list_elem_of_filter in Hx as [Hx _]. }
  destruct (Count ch (gen nw)) as [|p].
  { left. exists [], ch. rewrite drop_0 in Hh. split_and!; [done|constructor|done|done]. }
  destruct (lookup_lt_is_Some_2 ch p ltac:(lia)) as [old Hold]. rewrite Hold.
  assert (Hle : gen old <= gen nw).
  { assert (Hin : old ∈ take (S p) ch) by (apply list_elem_of_lookup; exists p; rewrite lookup_take_lt by lia; done).
    rewrite Hlo in Hin. by apply list_elem_of_filter in Hin as [Hin _]. }
  assert (Hltp : Forall (fun b => gen b < gen old) (take p ch)).
  { apply Forall_lookup. intros i b Hb. apply lookup_take_Some in Hb as [Hb Hi]. by eapply hist_ok_lt. }
  bcase.
  - right. exists (take p ch), old, (drop (S p) ch). split_and!.
    + by rewrite take_drop_middle.
    + done.
    + eapply Forall_impl; [exact Hltp|]. simpl. lia.
    + done.
    + destruct (Merge et old nw); cbn [obind]; [|done..]. by rewrite insert_take_drop by lia.
  - left. exists (take (S p) ch), (drop (S p) ch). split_and!; [by rewrite take_drop| |done|done].
    rewrite (take_S_r _ _ _ Hold). apply Forall_app. split; [|repeat constructor; lia].
    eapply Forall_impl; [exact Hltp|]. simpl. lia.
Qed.

Lemma hist_ok_app lo hi :
  hist_ok (lo ++ hi) <-> hist_ok lo /\ hist_ok hi /\ (forall a b, a ∈ lo -> b ∈ hi -> gen a < gen b).
Proof.
  unfold hist_ok. rewrite map_app, StronglySorted_app. split.
  - intros (H1 & H2 & H3). split_and!; [done..|]. intros a b Ha Hb. apply H1; by apply (list_elem_of_fmap_2 gen).
  - intros (H1 & H2 & H3). split_and!; [|done|done]. intros x y Hx Hy.
    apply list_elem_of_fmap in Hx as (a & -> & Ha), Hy as (b & -> & Hb). by apply H3.
Qed.

Lemma hist_ok_mid lo m hi :
  hist_ok (lo ++ hi) -> Forall (fun b => gen b < gen m) lo -> Forall (fun b => gen m < gen b) hi -> hist_ok (lo ++ m :: hi).
Proof.
  rewrite !hist_ok_app. intros (H1 & H2 & H3) Hlo Hhi. rewrite Forall_forall in Hlo, Hhi. split_and!; [done| |].
  - unfold hist_ok. simpl. constructor; [done|]. apply Forall_map, Forall_forall. exact Hhi.
  - intros a b Ha Hb. apply elem_of_cons in Hb as [->|Hb]; [by apply Hlo|by apply H3].
Qed.

Lemma Push_hist_ok et nw ch r ch' : hist_ok ch -> Push et nw ch = Ok (r, ch') -> hist_ok ch'.
Proof.
  intros Hs. destruct (Push_spec et nw ch Hs) as [(lo & hi & -> & Hlo & Hhi & ->)|(lo & old & hi & -> & Hg & Hlo & Hhi & ->)].
  - intros [= <- <-]. by apply hist_ok_mid.
  - destruct (Merge et old nw) as [m| |] eqn:Em; try done. cbn [obind]. intros [= <- <-].
    apply Merge_gen in Em. apply hist_ok_mid; rewrite ?Em; [|done|done].
    eapply hist_ok_sublist; [|exact Hs]. apply sublist_app; [done|]. by apply sublist_cons.
Qed.
End Boxes.
