(* ===== verification/EntityMerge.v ===== *)
(** * Merging the changes of a block

    A block may change an entity several times; [Merge] keeps one box for the block. The
    meaning of a box is what it makes of the data before it ([exec_box], the loop of
    [executeEntityOperator]); the merged box means the first box and then the second. *)
From Stdlib Require Import ZArith Lia.
From stdpp Require Import base numbers option strings sorting gmap list.
From S2P Require Import Prelude BlockCache EntityValue EntityHistory.

Section Merging.
Context `{HD : Decimal}.

(** What a box makes of the data before it; [None] is a deleted entity. *)
Definition exec_box (et : EntityType) (prev : gmap string Value) (b : UncommittedEntityBox) : Outcome (option (gmap string Value)) :=
  match Data (ebox b) with
  | None => Ok None
  | Some d => let! d' := calc_all et prev (Operators b) d in Ok (Some d')
  end.

(** A box has a value or an operator for each field, and not both. *)
Record box_ok (et : EntityType) (b : UncommittedEntityBox) : Prop := mkBoxOk {
  bo_deleted : Data (ebox b) = None -> Operators b = ∅;
  bo_fields d : Data (ebox b) = Some d -> dom d ∪ dom (Operators b) = stored_fields et;
  bo_disjoint d : Data (ebox b) = Some d -> dom d ## dom (Operators b)
}.

Lemma calc_all_lookup et origin ops d d' :
  calc_all et origin ops d = Ok d' ->
  forall f, match ops !! f with
            | None => d' !! f = d !! f
            | Some op => exists v, calc_one et f (origin !! f) op = Ok v /\ d' !! f = Some v
            end.
Proof.
  unfold calc_all. revert d'. apply (map_fold_weak_ind (fun r m => forall d', r = Ok d' -> forall f, match m !! f with
            | None => d' !! f = d !! f
            | Some op => exists v, calc_one et f (origin !! f) op = Ok v /\ d' !! f = Some v
            end)).
  - intros d' [= <-] f. by rewrite lookup_empty.
  - intros name op m r Hm IH d'. destruct r as [dr| |]; cbn [obind]; try done.
    destruct (calc_one et name (origin !! name) op) as [v| |] eqn:Ev; cbn [obind]; try done. intros [= <-] f.
    destruct (decide (f = name)) as [->|Hne].
    + rewrite lookup_insert_eq. exists v. by rewrite lookup_insert_eq.
    + rewrite !lookup_insert_ne by done. by apply IH.
Qed.

Lemma calc_all_total et origin ops d :
  (forall f op, ops !! f = Some op -> exists v, calc_one et f (origin !! f) op = Ok v) ->
  exists d', calc_all et origin ops d = Ok d'.
Proof.
  unfold calc_all. apply (map_fold_weak_ind (fun r m =>
    (forall f op, m !! f = Some op -> exists v, calc_one et f (origin !! f) op = Ok v) -> exists d', r = Ok d')).
  - intros _. by exists d.
  - intros name op m r Hm IH Hall. destruct IH as [dr ->].
    { intros f o Hf. apply (Hall f o). rewrite lookup_insert_ne; [done|]. intros ->. congruence. }
    destruct (Hall name op) as [v Hv]; [by rewrite lookup_insert_eq|]. cbn [obind]. rewrite Hv. cbn [obind]. eauto.
Qed.

(** The two ways [merge_ops] treats a field with a new operator. *)
Lemma merge_ops_lookup et old ops d d' news :
  merge_ops et old ops d = Ok (d', news) ->
  forall f, match ops !! f with
            | None => d' !! f = d !! f /\ news !! f = None
            | Some op =>
                match d !! f with
                | Some o => exists v, calc_one et f (Some o) op = Ok v /\ d' !! f = Some v /\ news !! f = None
                | None => exists t o, field_type et f = Ok t /\
                            mergeOperator t (default (mkOperator None) (old !! f)) op = Ok o /\
                            d' !! f = None /\ news !! f = Some o
                end
            end.
Proof.
  unfold merge_ops. revert d' news.
  apply (map_fold_weak_ind (fun r m => forall d' news, r = Ok (d', news) -> forall f, match m !! f with
            | None => d' !! f = d !! f /\ news !! f = None
            | Some op =>
                match d !! f with
                | Some o => exists v, calc_one et f (Some o) op = Ok v /\ d' !! f = Some v /\ news !! f = None
                | None => exists t o, field_type et f = Ok t /\
                            mergeOperator t (default (mkOperator None) (old !! f)) op = Ok o /\
                            d' !! f = None /\ news !! f = Some o
                end
            end)).
  - intros d' news [= <- <-] f. by rewrite !lookup_empty.
  - intros name op m r Hm IH d' news. destruct r as [[dr nr]| |]; cbn [obind]; try done.
    specialize (IH dr nr eq_refl). pose proof (IH name) as IHn. rewrite Hm in IHn. destruct IHn as [Hd Hn].
    destruct (field_type et name) as [t| |] eqn:Et; cbn [obind]; try done. rewrite Hd.
    destruct (d !! name) as [o|] eqn:Ed.
    + destruct (calcOperator t o op) as [v| |] eqn:Ev; cbn [obind]; try done. intros [= <- <-] f.
      destruct (decide (f = name)) as [->|Hne]; [|rewrite !lookup_insert_ne by done; apply IH].
      rewrite !lookup_insert_eq, Ed. exists v. split_and!; [|done|done]. unfold calc_one. rewrite Et. by cbn [obind].
    + destruct (mergeOperator t _ op) as [o| |] eqn:Eo; cbn [obind]; try done. intros [= <- <-] f.
      destruct (decide (f = name)) as [->|Hne]; [|rewrite !lookup_insert_ne by done; apply IH].
      rewrite !lookup_insert_eq, Ed. by exists t, o.
Qed.

(** Executing the merged operator is executing the one and then the other. *)
Definition exact_at (t : GType) (op1 op2 : Operator) (v : Value) : Prop :=
  (let! op := mergeOperator t op1 op2 in calcOperator t v op) =
  (let! w := calcOperator t v op1 in calcOperator t w op2).

(** An operator that keeps the latest value merges with every other. *)
Lemma exact_remain_l t op2 v : exact_at t (mkOperator None) op2 v.
Proof. done. Qed.

Lemma exact_remain_r t op1 v w : calcOperator t v op1 = Ok w -> exact_at t op1 (mkOperator None) v.
Proof.
  unfold exact_at. intros E. rewrite E. cbn [obind]. destruct op1 as [[c|]]; [|done]. cbn [mergeOperator NumCalc obind].
  by rewrite E.
Qed.

(** The operators both boxes have for a field merge exactly at the value before. *)
Definition ops_exact (et : EntityType) (prev : gmap string Value) (e n : UncommittedEntityBox) : Prop :=
  forall f t op1 op2 v, Operators e !! f = Some op1 -> Operators n !! f = Some op2 -> field_type et f = Ok t ->
    match prev !! f with Some w => Ok w | None => zero_value t end = Ok v -> exact_at t op1 op2 v.

Lemma Merge_box_ok et e n m : box_ok et e -> box_ok et n -> Merge et e n = Ok m -> box_ok et m.
Proof.
  intros He Hn. unfold Merge. do 2 (case_bool_decide; [done|]).
  destruct (Data (ebox n)) as [nd|] eqn:En; [|intros [= <-]; by split].
  pose proof (bo_fields _ _ Hn nd En) as Fn. pose proof (bo_disjoint _ _ Hn nd En) as Dn.
  destruct (Data (ebox e)) as [ed|] eqn:Ee.
  - destruct (merge_ops et (Operators e) (Operators n) (nd ∪ ed)) as [[d ops]| |] eqn:Em; try done. cbn [obind].
    intros [= <-]. pose proof (merge_ops_lookup _ _ _ _ _ _ Em) as Hl.
    pose proof (bo_fields _ _ He ed Ee) as Fe.
    assert (Hf : forall f, match d !! f, ops !! f with
                           | Some _, Some _ => False
                           | None, None => f ∉ stored_fields et
                           | _, _ => f ∈ stored_fields et
                           end).
    { assert (Hin : forall f, f ∈ stored_fields et <-> is_Some (nd !! f) \/ is_Some (Operators n !! f))
        by (intros f; by rewrite <- Fn, elem_of_union, !elem_of_dom).
      intros f. specialize (Hl f). specialize (Hin f). destruct (Operators n !! f) as [op|].
      - destruct ((nd ∪ ed) !! f) as [x|]; [destruct Hl as (v & _ & -> & ->)|destruct Hl as (t & o & _ & _ & -> & ->)];
          apply Hin; right; by eexists.
      - destruct Hl as [-> ->]. destruct (nd !! f) as [v|] eqn:Ev.
        + rewrite (lookup_union_Some_l nd ed f v Ev). apply Hin. left. by eexists.
        + rewrite lookup_union_r by done. destruct (ed !! f) as [v|] eqn:Ev'.
          * rewrite <- Fe. apply elem_of_union_l, elem_of_dom. by exists v.
          * rewrite Hin. by intros [[? ?]|[? ?]]. }
    split; cbn [ebox Data Operators]; [done|..]; intros d0 [= <-].
    + apply set_eq. intros f. rewrite elem_of_union, !elem_of_dom. specialize (Hf f).
      destruct (d !! f), (ops !! f); [done| | |split; [by intros [[? ?]|[? ?]]|done]]; (split; [done|]); intros _;
        [by left; eexists|by right; eexists].
    + apply elem_of_disjoint. intros f [? Hd]%elem_of_dom [? Ho]%elem_of_dom. specialize (Hf f). by rewrite Hd, Ho in Hf.
  - destruct (calc_all et ∅ (Operators n) nd) as [d| |] eqn:Em; try done. cbn [obind]. intros [= <-].
    pose proof (calc_all_lookup _ _ _ _ _ Em) as Hl. split; cbn [ebox Data Operators]; [done|..]; intros d0 [= <-].
    + rewrite dom_empty_L, union_empty_r_L, <- Fn. apply set_eq. intros f. rewrite elem_of_union, !elem_of_dom.
      specialize (Hl f). destruct (Operators n !! f); [destruct Hl as (v & _ & ->)|rewrite Hl].
      * split; [by right; eexists|by eexists].
      * split; [by left|]. by intros [?|[? ?]].
    + rewrite dom_empty_L. apply disjoint_empty_r.
Qed.

(** [calc_one] on the value an earlier operator left. *)
Lemma calc_one_merged et f prev op1 op2 o t v1 :
  field_type et f = Ok t -> mergeOperator t op1 op2 = Ok o -> calc_one et f prev op1 = Ok v1 ->
  (forall v, match prev with Some w => Ok w | None => zero_value t end = Ok v -> exact_at t op1 op2 v) ->
  calc_one et f prev o = calc_one et f (Some v1) op2.
Proof.
  intros Ht Ho H1 Hex. unfold calc_one in *. rewrite Ht in *. cbn [obind] in *.
  destruct (match prev with Some w => Ok w | None => zero_value t end) as [v0| |]; cbn [obind] in *; try done.
  specialize (Hex v0 eq_refl). unfold exact_at in Hex. rewrite Ho, H1 in Hex. cbn [obind] in Hex. done.
Qed.

(** The merged box does to the data what the two boxes do one after the other. *)
Lemma Merge_sequential et e n m prev r1 r2 :
  box_ok et e -> box_ok et n -> Merge et e n = Ok m ->
  exec_box et prev e = Ok r1 -> exec_box et (default ∅ r1) n = Ok r2 -> ops_exact et prev e n ->
  exec_box et prev m = Ok r2.
Proof.
  intros He Hn. unfold Merge. do 2 (case_bool_decide; [done|]). unfold exec_box at 1 2.
  destruct (Data (ebox n)) as [nd|] eqn:En; [|intros [= <-] _ [= <-] _; done].
  destruct (Data (ebox e)) as [ed|] eqn:Ee.
  - destruct (merge_ops et (Operators e) (Operators n) (nd ∪ ed)) as [[d ops]| |] eqn:Em; try done. cbn [obind]. intros [= <-].
    destruct (calc_all et prev (Operators e) ed) as [d1| |] eqn:E1; try done. cbn [obind]. intros [= <-].
    change (default ∅ (Some d1)) with d1.
    destruct (calc_all et d1 (Operators n) nd) as [d2| |] eqn:E2; try done. cbn [obind]. intros [= <-] Hex.
    pose proof (merge_ops_lookup _ _ _ _ _ _ Em) as Lm. pose proof (calc_all_lookup _ _ _ _ _ E1) as L1.
    pose proof (calc_all_lookup _ _ _ _ _ E2) as L2. unfold exec_box. cbn [ebox Data Operators].
    assert (Hf : forall f, match ops !! f with
                           | None => d2 !! f = d !! f
                           | Some o => exists v, calc_one et f (prev !! f) o = Ok v /\ d2 !! f = Some v
                           end).
    { intros f. specialize (Lm f). specialize (L1 f). specialize (L2 f). destruct (Operators n !! f) as [op|] eqn:Eop.
      - assert (Hnd : nd !! f = None).
        { apply not_elem_of_dom. intros Hin. apply (bo_disjoint _ _ Hn nd En f Hin), elem_of_dom. by exists op. }
        rewrite lookup_union_r in Lm by done. destruct L2 as (v2 & C2 & ->). destruct (ed !! f) as [o|] eqn:Ed.
        + destruct Lm as (v & Cv & -> & ->). assert (Hop : Operators e !! f = None).
          { apply not_elem_of_dom. intros Hin. apply (bo_disjoint _ _ He ed Ee f); [apply elem_of_dom; by exists o|done]. }
          rewrite Hop in L1. rewrite L1 in C2. congruence.
        + destruct Lm as (t & o & Ht & Ho & _ & ->). assert (Hop : f ∈ dom ed ∪ dom (Operators e)).
          { rewrite (bo_fields _ _ He ed Ee), <- (bo_fields _ _ Hn nd En). apply elem_of_union_r, elem_of_dom. by exists op. }
          apply elem_of_union in Hop as [[? Hop]%elem_of_dom|[op1 Hop]%elem_of_dom]; [congruence|]. rewrite Hop in *.
          destruct L1 as (v1 & C1 & D1). rewrite D1 in C2. exists v2. split; [|done]. rewrite <- C2.
          eapply calc_one_merged; [exact Ht|exact Ho|exact C1|]. intros v Hv. by eapply Hex.
      - destruct Lm as [-> ->]. rewrite L2. destruct (nd !! f) as [v|] eqn:Ev.
        + by rewrite (lookup_union_Some_l nd ed f v Ev).
        + rewrite lookup_union_r by done. symmetry. apply not_elem_of_dom. intros Hin.
          assert (Hs : f ∈ dom nd ∪ dom (Operators n)).
          { rewrite (bo_fields _ _ Hn nd En), <- (bo_fields _ _ He ed Ee). by apply elem_of_union_l. }
          apply elem_of_union in Hs as [[? Hs]%elem_of_dom|[? Hs]%elem_of_dom]; congruence. }
    destruct (calc_all_total et prev ops d) as [d' Ed'].
    { intros f op Hop. specialize (Hf f). rewrite Hop in Hf. destruct Hf as (v & Hv & _). eauto. }
    rewrite Ed'. cbn [obind]. f_equal. f_equal. apply map_eq. intros f. specialize (Hf f).
    pose proof (calc_all_lookup _ _ _ _ _ Ed' f) as Ld. destruct (ops !! f) as [op|]; [|congruence].
    destruct Hf as (v & Cv & ->), Ld as (v' & Cv' & ->). congruence.
  - destruct (calc_all et ∅ (Operators n) nd) as [d| |] eqn:E1; try done. cbn [obind]. intros [= <-] [= <-].
    change (default ∅ None) with (∅ : gmap string Value). rewrite E1. cbn [obind]. intros [= <-] _. done.
Qed.

Lemma merge_ops_total et old ops d :
  (forall f op, ops !! f = Some op -> exists t, field_type et f = Ok t /\
     match d !! f with
     | Some o => exists v, calcOperator t o op = Ok v
     | None => exists o, mergeOperator t (default (mkOperator None) (old !! f)) op = Ok o
     end) ->
  exists r, merge_ops et old ops d = Ok r.
Proof.
  intros Hall.
  pose (P := fun (r : Outcome (gmap string Value * gmap string Operator)) (m : gmap string Operator) =>
    m ⊆ ops -> exists d' news, r = Ok (d', news) /\ forall f, m !! f = None -> d' !! f = d !! f).
  assert (H : P (merge_ops et old ops d) ops).
  { unfold merge_ops. apply (map_fold_weak_ind P); unfold P.
    - intros _. by exists d, ∅.
    - intros name op m r Hm IH Hsub. destruct IH as (d' & news & -> & Hd).
      { etrans; [by apply insert_subseteq|done]. }
      assert (Hop : ops !! name = Some op) by (eapply lookup_weaken; [|exact Hsub]; apply lookup_insert_eq).
      destruct (Hall name op Hop) as (t & Ht & Hc). cbn [obind]. rewrite Ht. cbn [obind]. rewrite (Hd name Hm).
      destruct (d !! name) as [o|]; destruct Hc as [x Hx]; rewrite Hx; cbn [obind]; eexists _, _; (split; [reflexivity|]);
        intros f Hf; apply lookup_insert_None in Hf as [Hf Hne]; rewrite ?lookup_insert_ne by done; by apply Hd. }
  destruct H as (d' & news & -> & _); [done|]. by eexists.
Qed.

(** Where the two boxes can be executed one after the other, they can be merged. *)
Lemma Merge_total et e n prev r1 r2 :
  box_ok et e -> box_ok et n -> ID (ebox e) = ID (ebox n) -> Entity (ebox e) = Entity (ebox n) ->
  exec_box et prev e = Ok r1 -> exec_box et (default ∅ r1) n = Ok r2 -> ops_exact et prev e n ->
  exists m, Merge et e n = Ok m.
Proof.
  intros He Hn Hid Hen E1 E2 Hex. unfold Merge. rewrite !bool_decide_eq_false_2 by (intros Hc; done).
  unfold exec_box in E1, E2. destruct (Data (ebox n)) as [nd|] eqn:En; [|by eexists].
  destruct (Data (ebox e)) as [ed|] eqn:Ee.
  - destruct (calc_all et prev (Operators e) ed) as [d1| |] eqn:C1; cbn [obind] in E1; try done. injection E1 as <-.
    change (default ∅ (Some d1)) with d1 in E2.
    destruct (calc_all et d1 (Operators n) nd) as [d2| |] eqn:C2; cbn [obind] in E2; try done.
    pose proof (calc_all_lookup _ _ _ _ _ C1) as L1. pose proof (calc_all_lookup _ _ _ _ _ C2) as L2.
    destruct (merge_ops_total et (Operators e) (Operators n) (nd ∪ ed)) as [[d ops] ->]; [|by eexists].
    intros f op Hop. specialize (L1 f). specialize (L2 f). rewrite Hop in L2. destruct L2 as (v2 & Cv & _).
    unfold calc_one in Cv. destruct (field_type et f) as [t| |] eqn:Ht; cbn [obind] in Cv; try done.
    exists t. split; [done|].
    assert (Hnd : nd !! f = None).
    { apply not_elem_of_dom. intros Hin. apply (bo_disjoint _ _ Hn nd En f Hin), elem_of_dom. by exists op. }
    rewrite lookup_union_r by done. destruct (ed !! f) as [o|] eqn:Ed.
    + assert (Hoe : Operators e !! f = None).
      { apply not_elem_of_dom. intros Hin. apply (bo_disjoint _ _ He ed Ee f); [apply elem_of_dom; by exists o|done]. }
      rewrite Hoe in L1. rewrite L1 in Cv. by exists v2.
    + assert (Hin : f ∈ dom ed ∪ dom (Operators e)).
      { rewrite (bo_fields _ _ He ed Ee), <- (bo_fields _ _ Hn nd En). apply elem_of_union_r, elem_of_dom. by exists op. }
      apply elem_of_union in Hin as [[? Hin]%elem_of_dom|[op1 Hop1]%elem_of_dom]; [congruence|]. rewrite Hop1 in *.
      destruct L1 as (v1 & Cv1 & D1). rewrite D1 in Cv. cbn [obind] in Cv. change (default (mkOperator None) (Some op1)) with op1.
      unfold calc_one in Cv1. rewrite Ht in Cv1. cbn [obind] in Cv1.
      destruct (match prev !! f with Some w => Ok w | None => zero_value t end) as [v0| |] eqn:E0; cbn [obind] in Cv1; try done.
      pose proof (Hex f t op1 op v0 Hop1 Hop Ht E0) as Hx. unfold exact_at in Hx. rewrite Cv1 in Hx. cbn [obind] in Hx.
      rewrite Cv in Hx. destruct (mergeOperator t op1 op) as [o| |]; cbn [obind] in Hx; try done. by exists o.
  - injection E1 as <-. change (default ∅ None) with (∅ : gmap string Value) in E2.
    destruct (calc_all et ∅ (Operators n) nd) as [d| |]; cbn [obind] in E2; try done. cbn [obind]. by eexists.
Qed.
End Merging.
