(* ===== verification/EntityTyping.v ===== *)
(** * The types of field values

    A field of a schema type has values of one Go type ([has_type]): a pointer where the
    schema allows null. The zero values have it, and operators, the execution of a box and
    the merge of two boxes keep it. *)
From Stdlib Require Import ZArith Lia.
From stdpp Require Import base numbers option strings sorting gmap list.
From S2P Require Import Prelude BlockCache EntityValue EntityHistory EntityMerge.

Section Typing.
Context `{HD : Decimal}.

Definition is_text_scalar (name : string) : bool := bool_decide (name = "Bytes" \/ name = "String" \/ name = "ID").
Definition is_long_scalar (name : string) : bool := bool_decide (name = "Int8" \/ name = "Timestamp").

(** The Go type of a scalar. *)
Definition scalar_value (nonNull : bool) (name : string) (v : Value) : bool :=
  match v with
  | VString _ => nonNull && is_text_scalar name
  | VStringP _ => negb nonNull && is_text_scalar name
  | VBool _ => nonNull && bool_decide (name = "Boolean")
  | VBoolP _ => negb nonNull && bool_decide (name = "Boolean")
  | VInt32 _ => nonNull && bool_decide (name = "Int")
  | VInt32P _ => negb nonNull && bool_decide (name = "Int")
  | VInt64 _ => nonNull && is_long_scalar name
  | VInt64P _ => negb nonNull && is_long_scalar name
  | VFloat _ => nonNull && bool_decide (name = "Float")
  | VFloatP _ => negb nonNull && bool_decide (name = "Float")
  | VBigIntP p => (negb nonNull || bool_decide (is_Some p)) && bool_decide (name = "BigInt")
  | VDec _ => nonNull && bool_decide (name = "BigDecimal")
  | VDecP _ => negb nonNull && bool_decide (name = "BigDecimal")
  | _ => false
  end.

Definition text_value (nonNull : bool) (v : Value) : bool :=
  match v with VString _ => nonNull | VStringP _ => negb nonNull | _ => false end.

Fixpoint has_type_at (nonNull : bool) (t : GType) (v : Value) : bool :=
  match t with
  | NonNull u => has_type_at true u v
  | ListOf u =>
      match v with
      | VList (Some l) => forallb (has_type_at false u) l
      | VList None => negb nonNull
      | _ => false
      end
  | Scalar name => scalar_value nonNull name v
  | EnumType _ | ObjectType _ | InterfaceType _ => text_value nonNull v
  end.

Definition has_type (t : GType) (v : Value) : bool := has_type_at false t v.

Lemma zero_inner_typed nonNull t v : zero_inner nonNull t = Ok v -> has_type_at nonNull t v = true.
Proof.
  destruct t as [| | name|values| |]; simpl; try done.
  - repeat case_bool_decide; try done; intros [= <-]; destruct nonNull; simpl; unfold is_text_scalar, is_long_scalar;
      rewrite ?bool_decide_eq_true_2 by done; done.
  - destruct values; [done|]. intros [= <-]. by destruct nonNull.
  - intros [= <-]. by destruct nonNull.
  - intros [= <-]. by destruct nonNull.
Qed.

(** The zero value of a type has the type. *)
Lemma zero_value_typed t v : zero_value t = Ok v -> has_type t v = true.
Proof.
  unfold has_type. destruct t as [u|u| | | |]; try (apply (zero_inner_typed false)).
  - destruct u as [w|w| | | |]; try (apply (zero_inner_typed true)). simpl. destruct (zero_value w); try done. by intros [= <-].
  - simpl. destruct (zero_value u); try done. by intros [= <-].
Qed.

(** An operator's type is a scalar, possibly not null. *)
Lemma CountListLayer_cons t c :
  CountListLayer (t :: c) = (if is_list_layer t then 1 else 0) + CountListLayer c.
Proof.
  unfold CountListLayer, TypeChain. rewrite filter_cons. destruct (is_list_layer t); simpl; [lia|done].
Qed.

Lemma operator_scalar_NonNull t : operator_scalar (NonNull t) = operator_scalar t.
Proof.
  unfold operator_scalar, InnerType. cbv zeta. rewrite !last_BreakType.
  change (BreakType (NonNull t)) with (NonNull t :: BreakType t). by rewrite CountListLayer_cons.
Qed.

Lemma InnerTypeNullable_NonNull t name : operator_scalar t = Ok name -> InnerTypeNullable (BreakType (NonNull t)) = false.
Proof.
  induction t as [t IH|t _| | | |]; intros Ho; try done.
  - rewrite operator_scalar_NonNull in Ho. specialize (IH Ho). unfold InnerTypeNullable in *.
    rewrite removelast_BreakType, (removelast_BreakType (NonNull t)). rewrite (removelast_BreakType (NonNull t)) in IH. exact IH.
Qed.

Lemma has_type_scalar t name v :
  operator_scalar t = Ok name -> has_type t v = scalar_value (negb (InnerTypeNullable (BreakType t))) name v.
Proof.
  unfold has_type. destruct t as [t|t|n| | |]; intros Ho; try done.
  - rewrite (InnerTypeNullable_NonNull t name) by by rewrite operator_scalar_NonNull in Ho.
    rewrite operator_scalar_NonNull in Ho. cbn [has_type_at negb]. induction t as [t IH|t _|n| | |]; try done.
    + rewrite operator_scalar_NonNull in Ho. by apply IH.
    + by injection Ho as <-.
  - by injection Ho as <-.
Qed.

(** ** Operators keep the type *)

Lemma calcOperator_typed t v op w : has_type t v = true -> calcOperator t v op = Ok w -> has_type t w = true.
Proof.
  intros Hv. unfold calcOperator. destruct (NumCalc op) as [c|]; [|by intros [= <-]].
  destruct (operator_scalar t) as [name| |] eqn:Ho; cbn [obind]; try done. rewrite (has_type_scalar t name w Ho).
  repeat case_bool_decide; subst; try done; intros [= <-]; destruct (InnerTypeNullable (BreakType t)); done.
Qed.

Lemma calc_one_typed et name origin op t v :
  field_type et name = Ok t -> (forall x, origin = Some x -> has_type t x = true) -> calc_one et name origin op = Ok v -> has_type t v = true.
Proof.
  unfold calc_one. intros -> Ho. cbn [obind]. destruct origin as [x|].
  - cbn [obind]. intros Hc. eapply calcOperator_typed; [by apply Ho|done].
  - destruct (zero_value t) as [z| |] eqn:Ez; cbn [obind]; try done. intros Hc.
    eapply calcOperator_typed; [by apply zero_value_typed|done].
Qed.

(** Every value has the type of its field. *)
Definition data_typed (et : EntityType) (d : gmap string Value) : Prop :=
  forall f v, d !! f = Some v -> exists t, field_type et f = Ok t /\ has_type t v = true.

Lemma data_typed_empty et : data_typed et ∅.
Proof. intros f v. by rewrite lookup_empty. Qed.

Lemma calc_all_typed et origin ops d d' :
  data_typed et origin -> data_typed et d -> calc_all et origin ops d = Ok d' -> data_typed et d'.
Proof.
  intros Ho Hd E f v Hv. pose proof (calc_all_lookup _ _ _ _ _ E f) as Hl. destruct (ops !! f) as [op|].
  - destruct Hl as (w & Hc & Hw). assert (w = v) as -> by congruence.
    destruct (field_type et f) as [t| |] eqn:Et; try (unfold calc_one in Hc; rewrite Et in Hc; done).
    exists t. split; [done|]. eapply (calc_one_typed et f (origin !! f)); [done| |done]. intros x Hx.
    destruct (Ho f x Hx) as (t' & Ht' & Hxt). congruence.
  - apply Hd. congruence.
Qed.

Definition opt_typed (et : EntityType) (d : option (gmap string Value)) : Prop := forall m, d = Some m -> data_typed et m.

Definition box_typed (et : EntityType) (b : UncommittedEntityBox) : Prop := opt_typed et (Data (ebox b)).

Lemma exec_box_typed et prev b d :
  data_typed et prev -> box_typed et b -> exec_box et prev b = Ok d -> opt_typed et d.
Proof.
  intros Hp Hb. unfold exec_box. destruct (Data (ebox b)) as [d0|] eqn:E0; [|by intros [= <-]].
  destruct (calc_all et prev (Operators b) d0) as [d1| |] eqn:Ec; cbn [obind]; try done. intros [= <-] m [= <-].
  eapply calc_all_typed; [exact Hp|by apply Hb|exact Ec].
Qed.

Lemma Merge_typed et e n m : box_typed et e -> box_typed et n -> Merge et e n = Ok m -> box_typed et m.
Proof.
  intros He Hn. unfold Merge. do 2 (case_bool_decide; [done|]). unfold box_typed in *.
  destruct (Data (ebox n)) as [nd|]; [|by intros [= <-]]. specialize (Hn nd eq_refl). destruct (Data (ebox e)) as [ed|].
  - specialize (He ed eq_refl). assert (Hu : data_typed et (nd ∪ ed)).
    { intros f v [Hv|[_ Hv]]%lookup_union_Some_raw; [by apply Hn|by apply He]. }
    destruct (merge_ops et (Operators e) (Operators n) (nd ∪ ed)) as [[d ops]| |] eqn:Em; cbn [obind]; try done.
    intros [= <-] d0 [= <-] f v Hv. pose proof (merge_ops_lookup _ _ _ _ _ _ Em f) as Hl. destruct (Operators n !! f) as [op|].
    + destruct ((nd ∪ ed) !! f) as [o|] eqn:Eo.
      * destruct Hl as (w & Hc & Hw & _). assert (w = v) as -> by congruence. destruct (Hu f o Eo) as (t & Ht & Hot).
        exists t. split; [done|]. eapply calc_one_typed; [exact Ht| |exact Hc]. by intros x [= <-].
      * destruct Hl as (t & o & _ & _ & Hd & _). congruence.
    + destruct Hl as [Hd _]. apply Hu. congruence.
  - destruct (calc_all et ∅ (Operators n) nd) as [d| |] eqn:Ec; cbn [obind]; try done. intros [= <-] d0 [= <-].
    eapply calc_all_typed; [apply data_typed_empty|exact Hn|exact Ec].
Qed.
End Typing.
