(* ===== verification/EntityCtrl.v ===== *)
(** * The entity controller: [driver/entity/persistent/controller.go]

    The controller keeps the uncommitted changes of the entities over a store that has
    the committed ones. The store ([ChainStore]) is an interface. The mutex makes the
    methods atomic; logging, monitoring and the time statistics are left out. Go visits
    the maps in an order of its own; the model takes that of the finite map, and what is
    proved does not depend on it. *)
From Stdlib Require Import ZArith Lia Ascii String.
From stdpp Require Import base numbers option strings pretty sorting gmap list.
From S2P Require Import Prelude BlockCache RangeBase RangeSet RangeSetOps RangeText EntityValue EntityHistory EntityMerge.

(** ** What the source uses of [strconv] *)

Fixpoint decimal_digits (n : Z) (s : list ascii) : option Z :=
  match s with
  | [] => Some n
  | c :: t => match digit_value c with None => None | Some d => decimal_digits (n * 10 + d) t end
  end.

Definition signed_digits (neg : bool) (t : list ascii) : Z :=
  match t with
  | [] => 0
  | _ =>
      match decimal_digits 0 t with
      | None => 0
      | Some n => Z.max (- 2 ^ 63) (Z.min (2 ^ 63 - 1) (if neg then - n else n))
      end
  end.

(** [strconv.ParseInt(s, 10, 64)] with the error dropped: zero for a bad number, the
    nearest value for one out of range. *)
Definition ParseInt (s : string) : Z :=
  match list_ascii_of_string s with
  | c :: t =>
      if Ascii.eqb c "-" then signed_digits true t
      else if Ascii.eqb c "+" then signed_digits false t
      else signed_digits false (c :: t)
  | [] => 0
  end.

Definition FormatInt (n : Z) : string := pretty n.

(** [strings.HasPrefix(id, "@")] *)
Definition HasAt (id : string) : bool := match id with String "@" _ => true | _ => false end.

(** ** The store *)

Inductive EntityError : Type :=
| ErrInvalidFieldValue (msg : string)
| ErrUpdateImmutable (msg : string)
| ErrInvalidListFilter (msg : string)
| ErrOther (msg : string).

Section Controller.
Context `{HD : Decimal}.

Class ChainStore (St : Type) : Type := {
  st_GetEntityType : string -> EntityType;
  st_GetEntity : EntityType -> string -> St -> (option EntityBox + EntityError) * St;
  st_GetTimeSeriesEntityMaxID : EntityType -> St -> (Z + EntityError) * St;
  st_SetEntities : EntityType -> list EntityBox -> St -> (Z * option EntityError) * St;
  st_GrowthAggregation : Z -> St -> option EntityError * St;
  st_Reorg : Z -> St -> option EntityError * St;
  st_CheckValue : EntityType -> gmap string Value -> bool
}.

Context {St : Type} `{HSt : ChainStore St}.

Abbreviation changeHistory := (list UncommittedEntityBox).
Abbreviation changeSet := (gmap string (gmap string changeHistory)).

(** The controller's fields, the counter for generated ids and the store. *)
Record EState : Type := mkEState {
  changes : changeSet;
  committed : option Z;
  uniqTimeSeriesID : Z;
  store : St
}.

Definition NewController (s : St) : EState := mkEState ∅ None 0 s.

Definition set_changes (cs : changeSet) (s : EState) : EState := mkEState cs (committed s) (uniqTimeSeriesID s) (store s).

Definition with_store {A} (f : St -> A * St) : SM EState A :=
  fun s => let '(a, st) := f (store s) in Ok (a, mkEState (changes s) (committed s) (uniqTimeSeriesID s) st).

(** ** Operators *)

Definition exec_error (et : EntityType) (id : string) : EntityError :=
  ErrInvalidFieldValue ("entity operator result for " +:+ Name et +:+ " with id " +:+ id).

(** The loop of [executeEntityOperator]. [prev] is the box before, [None] at the first one.
    The boxes are changed in place: the result has the history as it is left, also on an
    error. *)
Fixpoint exec_history (et : EntityType) (id : string) (blockNumber : Z) (prev : option UncommittedEntityBox)
    (h : changeHistory) : SM EState (option EntityError * changeHistory) :=
  match h with
  | [] => mret (None, [])
  | box :: rest =>
      if blockNumber <? gen box then mret (None, box :: rest)
      else
        let next box' := '(e, rest') ← exec_history et id blockNumber (Some box') rest; mret (e, box' :: rest') in
        match Data (ebox box) with
        | None => next box
        | Some d =>
            if bool_decide (Operators box = ∅) then next box
            else
              pre ← (match prev with
                     | None => with_store (st_GetEntity et id)
                     | Some p => mret (inl (Some (ebox p)))
                     end);
              match pre with
              | inr err => mret (Some err, box :: rest)
              | inl preBox =>
                  let preData := default ∅ (preBox ≫= Data) in
                  d' ← slift (calc_all et preData (Operators box) d);
                  let filled := set_data (Some d') (ebox box) in
                  if st_CheckValue et d' then next (mkUncommitted filled ∅)
                  else mret (Some (exec_error et id), mkUncommitted filled (Operators box) :: rest)
              end
        end
  end.

Definition executeEntityOperator (et : EntityType) (id : string) (blockNumber : Z) : SM EState (option EntityError) :=
  s ← sget;
  match GetFromK2Map (changes s) (Name et) id with
  | None => mret None
  | Some h =>
      '(e, h') ← exec_history et id blockNumber None h;
      _ ← smodify (fun s => set_changes (PutIntoK2Map (changes s) (Name et) id h') s);
      mret e
  end.

Fixpoint exec_pairs (blockNumber : Z) (l : list (string * string)) : SM EState (option EntityError) :=
  match l with
  | [] => mret None
  | (entity, id) :: rest =>
      e ← executeEntityOperator (st_GetEntityType entity) id blockNumber;
      match e with
      | Some err => mret (Some err)
      | None => exec_pairs blockNumber rest
      end
  end.

(** The entities and ids of a change set. *)
Definition pairs (cs : changeSet) : list (string * string) :=
  concat (map (fun es => map (fun ih => (es.1, ih.1)) (map_to_list es.2)) (map_to_list cs)).

Definition executeAllEntityOperator (blockNumber : Z) : SM EState (option EntityError) :=
  s ← sget;
  exec_pairs blockNumber (pairs (changes s)).

(** ** Reading *)

Definition getEntity (et : EntityType) (id : string) (blockNumber : Z) (inBlock : bool)
    : SM EState (option EntityBox + EntityError) :=
  s ← sget;
  match Latest (history (changes s) (Name et) id) blockNumber with
  | Some uctBox =>
      if inBlock && (gen uctBox <? blockNumber) then mret (inl None)
      else if bool_decide (Operators uctBox = ∅) then mret (inl (Some (ebox uctBox)))
      else
        e ← executeEntityOperator et id blockNumber;
        match e with
        | Some err => mret (inr err)
        | None =>
            (* the box was filled in place *)
            s' ← sget;
            mret (inl (ebox <$> Latest (history (changes s') (Name et) id) blockNumber))
        end
  | None => if inBlock then mret (inl None) else with_store (st_GetEntity et id)
  end.

(** [getEntityOrInterface] over the entities of an interface: the first that has it. *)
Fixpoint getEntityOrInterface (entities : list EntityType) (id : string) (blockNumber : Z) (inBlock : bool)
    (lastGot : option EntityBox) : SM EState (option EntityBox + EntityError) :=
  match entities with
  | [] => mret (inl lastGot)
  | et :: rest =>
      r ← getEntity et id blockNumber inBlock;
      match r with
      | inr err => mret (inr err)
      | inl box =>
          match box ≫= Data with
          | Some _ => mret (inl box)
          | None => getEntityOrInterface rest id blockNumber inBlock box
          end
      end
  end.

(** ** Writing *)

Definition EntityTimestampFieldName : string := "timestamp".

Definition set_id (id : string) (b : EntityBox) : EntityBox :=
  mkBox (Entity b) id (Data b) (GenBlockNumber b) (GenBlockTime b) (GenBlockHash b).

Definition set_entity (e : string) (b : EntityBox) : EntityBox :=
  mkBox e (ID b) (Data b) (GenBlockNumber b) (GenBlockTime b) (GenBlockHash b).

(** The box of a time series entity: a generated id where the given one is no positive
    number, and the time of the block. *)
Definition prepare_time_series (box : UncommittedEntityBox) (d : gmap string Value) : SM EState UncommittedEntityBox :=
  s ← sget;
  let b := ebox box in
  b' ← (if ParseInt (ID b) <=? 0 then
          let n := to_int64 (uniqTimeSeriesID s + 1) in
          _ ← smodify (fun s => mkEState (changes s) (committed s) n (store s));
          mret (set_id ("@" +:+ FormatInt n) b)
        else mret b);
  mret (mkUncommitted (set_data (Some (<[EntityTimestampFieldName := VInt64 (UnixMicro (GenBlockTime b))]> d)) b')
          (Operators box)).

Definition put_change (et : EntityType) (id : string) (h : changeHistory) : SM EState unit :=
  smodify (fun s => set_changes (PutIntoK2Map (changes s) (Name et) id h) s).

(** The part of [SetEntity] behind the checks of the box alone. *)
Definition push_change (et : EntityType) (box : UncommittedEntityBox) : SM EState (option EntityError) :=
  s ← sget;
  let id := ID (ebox box) in
  let h := history (changes s) (Name et) id in
  if bool_decide (is_Some (Latest h maxU64)) && IsImmutable et then
    mret (Some (ErrUpdateImmutable ("invalid update for " +:+ Name et +:+ "/" +:+ id)))
  else
    '((merged, mergedBox), h') ← slift (Push et box h);
    match merged : bool, Data (ebox mergedBox) with
    | true, Some d =>
        (* the box of the history was merged in place *)
        _ ← put_change et id h';
        if st_CheckValue et d then mret None
        else mret (Some (ErrInvalidFieldValue ("set entity " +:+ Name et +:+ "/" +:+ id)))
    | _, _ => _ ← put_change et id h'; mret None
    end.

Definition SetEntity (et : EntityType) (box0 : UncommittedEntityBox) : SM EState (option EntityError) :=
  s ← sget;
  if match committed s with Some c => gen box0 <=? c | None => false end then slift Panic
  else
    let box := mkUncommitted (set_entity (Name et) (ebox box0)) (Operators box0) in
    match Data (ebox box) with
    | Some d =>
        if st_CheckValue et d then
          if IsTimeSeries et then box' ← prepare_time_series box d; push_change et box'
          else push_change et box
        else mret (Some (ErrInvalidFieldValue ("set entity " +:+ Name et +:+ "/" +:+ ID (ebox box))))
    | None =>
        if IsTimeSeries et then mret (Some (ErrUpdateImmutable ("delete timeseries entity " +:+ Name et)))
        else push_change et box
    end.

Definition CountUncommittedChanges (blockNumber : Z) (s : EState) : Z := changeSet_Count (changes s) blockNumber.

(** ** Committing *)

(** [maxID++] until the id is not one of the given ones. *)
Fixpoint next_free (fuel : nat) (manual : gset string) (maxID : Z) : Outcome Z :=
  match fuel with
  | O => Diverge
  | S fuel' =>
      let n := to_int64 (maxID + 1) in
      if bool_decide (FormatInt n ∈ manual) then next_free fuel' manual n else Ok n
  end.

(** The loop that gives the boxes with a generated id their numbers; there are at most as
    many taken numbers as manual ids. *)
Fixpoint assign_ids (manual : gset string) (maxID : Z) (boxes : list EntityBox) : Outcome (list EntityBox) :=
  match boxes with
  | [] => Ok []
  | b :: rest =>
      if HasAt (ID b) then
        let! n := next_free (S (size manual)) manual maxID in
        let! rest' := assign_ids manual n rest in
        Ok (set_id (FormatInt n) b :: rest')
      else
        let! rest' := assign_ids manual maxID rest in
        Ok (b :: rest')
  end.

(** The boxes of an entity's histories. *)
Definition all_boxes (set : gmap string changeHistory) : list EntityBox :=
  concat (map (fun ih => map ebox ih.2) (map_to_list set)).

Definition by_gen (a b : EntityBox) : Prop := GenBlockNumber a <= GenBlockNumber b.
#[global] Instance by_gen_dec : RelDecision by_gen := fun a b => Z.le_dec _ _.

Lemma by_gen_total : Total by_gen.
Proof. intros a b. unfold by_gen. lia. Qed.

Definition manual_ids (set : gmap string changeHistory) : gset string :=
  filter (fun id => HasAt id = false) (dom set).

(** The boxes of a time series entity that are written. *)
Definition time_series_boxes (entity : string) (maxID : Z) (set : gmap string changeHistory)
    : Outcome (list EntityBox + EntityError) :=
  if bool_decide (Exists (fun id => ParseInt id <= maxID) (elements (manual_ids set))) then
    Ok (inr (ErrUpdateImmutable ("manual id for time series entity " +:+ entity +:+ " is too small")))
  else
    let! l := assign_ids (manual_ids set) maxID (merge_sort by_gen (all_boxes set)) in
    Ok (inl l).

(** What is written for an entity. *)
Definition entity_boxes (entity : string) (set : gmap string changeHistory) : SM EState (list EntityBox + EntityError) :=
  let entityType := st_GetEntityType entity in
  if IsTimeSeries entityType then
    m ← with_store (st_GetTimeSeriesEntityMaxID entityType);
    match m with
    | inr err => mret (inr err)
    | inl maxID => slift (time_series_boxes entity maxID set)
    end
  else mret (inl (all_boxes set)).

Record CommitStat : Type := mkCommitStat { created : gmap string Z; updated : gmap string Z }.

(** The loop over the entities. *)
Fixpoint commit_entities (l : list (string * gmap string changeHistory)) (st : CommitStat)
    : SM EState (CommitStat * option EntityError) :=
  match l with
  | [] => mret (st, None)
  | (entity, set) :: rest =>
      r ← entity_boxes entity set;
      match r with
      | inr err => mret (st, Some err)
      | inl entities =>
          '(n, e) ← with_store (st_SetEntities (st_GetEntityType entity) entities);
          let st' := mkCommitStat (<[entity := n]> (created st))
                                  (<[entity := Z.of_nat (length entities) - n]> (updated st)) in
          match e with
          | Some err => mret (st', Some err)
          | None => commit_entities rest st'
          end
      end
  end.

Definition Commit (blockNumber blockTime : Z) : SM EState (CommitStat * option EntityError) :=
  e ← executeAllEntityOperator blockNumber;
  match e with
  | Some err => mret (mkCommitStat ∅ ∅, Some err)
  | None =>
      s ← sget;
      let '(kept, newChanges) := changeSet_Split (changes s) blockNumber in
      _ ← smodify (set_changes kept);
      '(st, e) ← commit_entities (map_to_list kept) (mkCommitStat ∅ ∅);
      match e with
      | Some err => mret (st, Some err)
      | None =>
          e ← with_store (st_GrowthAggregation blockTime);
          match e with
          | Some err => mret (st, Some err)
          | None =>
              _ ← smodify (fun s => mkEState newChanges (Some blockNumber) (uniqTimeSeriesID s) (store s));
              mret (st, None)
          end
      end
  end.

(** ** Going back *)

Definition Reorg (blockNumberGT : Z) : SM EState (option EntityError) :=
  _ ← smodify (fun s =>
        if blockNumberGT <? 0 then mkEState ∅ None (uniqTimeSeriesID s) (store s)
        else
          mkEState (changeSet_Split (changes s) blockNumberGT).1
            (match committed s with
             | Some c => if blockNumberGT <? c then Some blockNumberGT else Some c
             | None => None
             end) (uniqTimeSeriesID s) (store s));
  with_store (st_Reorg blockNumberGT).
End Controller.
