(* ===== verification/EntityRich.v ===== *)
(** * Rich values and field values

    The values of [service/common/protos] that a processor sends and gets, and the Go
    values of an entity's fields: [common/richstructhelper/convert.go] and [new_value.go],
    the number conversions of [common/anyutil/convert.go] as far as field values use them,
    and [driver/entity/persistent/box_rich_struct.go]. Floating-point numbers, the texts of
    decimals and the hexadecimal format are an interface. A rich value without content
    behaves like [RStruct]: no conversion takes it. *)
From Stdlib Require Import ZArith Lia QArith Ascii String.
From stdpp Require Import base numbers option strings pretty gmap list.
From S2P Require Import Prelude BlockCache RangeText EntityValue EntityHistory EntityMerge EntityTyping EntityCtrl.
#[local] Open Scope Z_scope.

(** ** [strconv] *)

Definition lower (c : ascii) : ascii :=
  let n := nat_of_ascii c in if bool_decide (65 <= n <= 90)%nat then ascii_of_nat (n + 32) else c.

(** The value of a digit in a base up to 36. *)
Definition base_digit (c : ascii) : option Z :=
  match digit_value c with
  | Some d => Some d
  | None =>
      let n := Z.of_nat (nat_of_ascii (lower c)) in
      if (97 <=? n) && (n <=? 122) then Some (n - 97 + 10) else None
  end.

(** The digits in a base, underscores skipped where [under] allows them. *)
Fixpoint base_digits (under : bool) (base n : Z) (s : text) : option Z :=
  match s with
  | [] => Some n
  | c :: t =>
      if under && Ascii.eqb c "_" then base_digits under base n t
      else match base_digit c with
           | Some d => if d <? base then base_digits under base (n * base + d) t else None
           | None => None
           end
  end.

Definition has_underscore (s : text) : bool := existsb (fun c => Ascii.eqb c "_") s.

(** The base the prefix stands for, and the text behind it. *)
Definition base_prefix (s : text) : Z * text :=
  match s with
  | c0 :: t =>
      if Ascii.eqb c0 "0" then
        match t with
        | c1 :: _ :: _ =>
            if Ascii.eqb (lower c1) "b" then (2, tl t)
            else if Ascii.eqb (lower c1) "o" then (8, tl t)
            else if Ascii.eqb (lower c1) "x" then (16, tl t)
            else (8, t)
        | _ => (8, t)
        end
      else (10, s)
  | [] => (10, s)
  end.

(** [underscoreOK]: underscores separate digits; [prev] is what was read before. *)
Inductive Prev : Type := PStart | PDigit | PUnder | POther.

Fixpoint underscore_loop (hex : bool) (prev : Prev) (s : text) : bool :=
  match s with
  | [] => match prev with PUnder => false | _ => true end
  | c :: t =>
      let n := Z.of_nat (nat_of_ascii (lower c)) in
      if match digit_value c with Some _ => true | None => hex && (97 <=? n) && (n <=? 102) end
      then underscore_loop hex PDigit t
      else if Ascii.eqb c "_" then match prev with PDigit => underscore_loop hex PUnder t | _ => false end
      else match prev with PUnder => false | _ => underscore_loop hex POther t end
  end.

Definition underscoreOK (s : text) : bool :=
  match s with
  | c0 :: c1 :: t =>
      if Ascii.eqb c0 "0" && (Ascii.eqb (lower c1) "b" || Ascii.eqb (lower c1) "o" || Ascii.eqb (lower c1) "x")
      then underscore_loop (Ascii.eqb (lower c1) "x") PDigit t
      else underscore_loop false PStart s
  | _ => underscore_loop false PStart s
  end.

Definition ParseUint0 (s : text) : option Z :=
  match s with
  | [] => None
  | _ =>
      let '(base, t) := base_prefix s in
      if has_underscore t && negb (underscoreOK s) then None else base_digits true base 0 t
  end.

Definition split_sign (s : text) : bool * text :=
  match s with
  | c :: t => if Ascii.eqb c "-" then (true, t) else if Ascii.eqb c "+" then (false, t) else (false, s)
  | [] => (false, s)
  end.

Definition in_bits (bits : Z) (neg : bool) (n : Z) : option Z :=
  if neg then if n <=? 2 ^ (bits - 1) then Some (- n) else None
  else if n <? 2 ^ (bits - 1) then Some n else None.

(** [strconv.ParseInt(s, 0, bits)]; [None] is an error. *)
Definition ParseInt0 (bits : Z) (s : string) : option Z :=
  let '(neg, t) := split_sign (lit s) in ParseUint0 t ≫= in_bits bits neg.

(** [strconv.ParseInt(s, 10, 64)]. *)
Definition ParseInt10 (s : string) : option Z :=
  let '(neg, t) := split_sign (lit s) in
  match t with [] => None | _ => base_digits false 10 0 t ≫= in_bits 64 neg end.

Definition ParseBool (s : string) : option bool :=
  if bool_decide (s ∈ ["1"; "t"; "T"; "TRUE"; "true"; "True"]) then Some true
  else if bool_decide (s ∈ ["0"; "f"; "F"; "FALSE"; "false"; "False"]) then Some false
  else None.

(** ** What is left to the libraries *)

Class Conversions `{Decimal} : Type := {
  hexEncode : list Z -> string;
  hexDecode : string -> option (list Z);
  dIsZero : dec -> bool;
  dString : dec -> string;
  dCmp : dec -> dec -> Z;
  float_zero : float64 -> bool;
  float_of_int : Z -> float64;
  float_of_big : Z -> float64 * bool; (* [big.Int.Float64]: whether it is exact *)
  float_round32 : float64 -> Z; (* [int32(math.Round(x))] *)
  float_round64 : float64 -> Z;
  float_trunc : float64 -> Z; (* [int64(x)] *)
  float_string : float64 -> string; (* [%f] *)
  float_cmp : float64 -> float64 -> Z;
  ParseFloat : string -> option float64;
  float_of_slice : list Value -> option float64; (* [reflect]'s conversion of a slice *)
  timestamp_string : Z -> Z -> string
}.

Definition is_byte (b : Z) : Prop := 0 <= b < 256.

Definition fits_int32 (z : Z) : bool := (- 2 ^ 31 <=? z) && (z <? 2 ^ 31).
Definition fits_int64 (z : Z) : bool := (- 2 ^ 63 <=? z) && (z <? 2 ^ 63).

(** What the libraries document: bytes survive the hexadecimal format, a conversion gives
    an integer of its width, decimals are compared by their values. *)
Class ConversionLaws `{HC : Conversions} `{HL : !DecimalLaws} : Type := {
  hexDecode_empty : hexDecode EmptyString = None;
  hexDecode_bytes s b : hexDecode s = Some b -> Forall is_byte b;
  hexDecode_Encode b : Forall is_byte b -> hexDecode (hexEncode b) = Some b;
  float_round32_fits x : fits_int32 (float_round32 x) = true;
  float_round64_fits x : fits_int64 (float_round64 x) = true;
  float_cmp_range a b : -1 <= float_cmp a b <= 1;
  dIntPart_fits d : fits_int64 (dIntPart d) = true;
  dCmp_value a b : dCmp a b = match Qcompare (dval a) (dval b) with Lt => -1 | Eq => 0 | Gt => 1 end
}.

Section Rich.
Context `{HD : Decimal} `{HC : !Conversions}.

(** ** [richstructhelper] *)

Definition IsNull (val : RichValue) : bool := match val with RNull => true | _ => false end.

Definition FormatBool (b : bool) : string := if b then "true" else "false".

Definition GetString (val : RichValue) : option string :=
  match val with
  | RNull => Some "<null>"
  | RString s => Some s
  | RBytes b => Some (hexEncode b)
  | RBool b => Some (FormatBool b)
  | RInt x => Some (FormatInt x)
  | RInt64 x => Some (FormatInt x)
  | RTimestamp s n => Some (timestamp_string s n)
  | RFloat x => Some (float_string x)
  | RBigint x => Some (FormatInt (fromBigInt x))
  | RBigdecimal x => Some (dString (fromBigDecimal x))
  | _ => None
  end.

Definition GetBoolean (val : RichValue) : option bool :=
  match val with
  | RBool b => Some b
  | RInt x => Some (negb (x =? 0))
  | RInt64 x => Some (negb (x =? 0))
  | RBigint x => Some (negb (fromBigInt x =? 0))
  | RFloat x => Some (negb (float_zero x))
  | RBigdecimal x => Some (negb (dIsZero (fromBigDecimal x)))
  | RString s => ParseBool s
  | _ => None
  end.

(** [big.Int.Int64] is the value modulo 2^64. *)
Definition GetInt (val : RichValue) : option Z :=
  match val with
  | RInt x => Some x
  | RInt64 x => Some (to_int32 x)
  | RBigint x => Some (to_int32 (wrap_int64 (fromBigInt x)))
  | RFloat x => Some (float_round32 x)
  | RBigdecimal x => Some (to_int32 (dIntPart (dRound (fromBigDecimal x))))
  | RString s => ParseInt0 32 s
  | _ => None
  end.

Definition GetInt64 (val : RichValue) : option Z :=
  match val with
  | RInt x => Some x
  | RInt64 x => Some x
  | RBigint x => Some (wrap_int64 (fromBigInt x))
  | RFloat x => Some (float_round64 x)
  | RBigdecimal x => Some (dIntPart (dRound (fromBigDecimal x)))
  | RString s => ParseInt0 64 s
  | _ => None
  end.

Definition GetFloat (val : RichValue) : option float64 :=
  match val with
  | RInt x => Some (float_of_int x)
  | RInt64 x => Some (float_of_int x)
  | RBigint x => let '(f, exact) := float_of_big (fromBigInt x) in if exact then Some f else None
  | RFloat x => Some x
  | RBigdecimal x => Some (dFloat64 (fromBigDecimal x))
  | RString s => ParseFloat s
  | _ => None
  end.

Definition NewNullValue : RichValue := RNull.
Definition NewInt64Value (x : Z) : RichValue := RInt64 x.
Definition NewFloatValue (x : float64) : RichValue := RFloat x.
Definition NewStringValue (s : string) : RichValue := RString s.
Definition NewBytesValue (b : list Z) : RichValue := RBytes b.
Definition NewBoolValue (b : bool) : RichValue := RBool b.
Definition NewListValue (l : list RichValue) : RichValue := RList l.

(** Of [time.UnixMicro(x)]. *)
Definition NewTimestampValue (micros : Z) : RichValue := RTimestamp (micros / 1000000) (micros mod 1000000 * 1000).

(** [AsTime().UnixMicro()]. *)
Definition timestamp_micros (seconds nanos : Z) : Z := wrap_int64 (seconds * 1000000 + nanos / 1000).

(** ** [anyutil]: numbers of any value *)

(** [deref]: what a pointer points to; [None] is nil. *)
Definition deref_value (v : Value) : option Value :=
  match v with
  | VNil => None
  | VStringP p => VString <$> p
  | VBoolP p => VBool <$> p
  | VInt32P p => VInt32 <$> p
  | VInt64P p => VInt64 <$> p
  | VFloatP p => VFloat <$> p
  | VBigIntP p => VBigInt <$> p
  | VDecP p => VDec <$> p
  | _ => Some v
  end.

Definition anyParseInt (origin : Value) : option Z :=
  deref_value origin ≫= fun v =>
  match v with
  | VString s => ParseInt10 s
  | VInt32 x => Some x
  | VInt64 x => Some x
  | VFloat x => Some (float_trunc x)
  | VDec d =>
      if 0 <? dCmp d (NewFromBigInt (2 ^ 63 - 1) 0) then None
      else if dCmp d (NewFromBigInt (- 2 ^ 63) 0) <? 0 then None
      else Some (dIntPart d)
  | VBigInt z => if 2 ^ 63 - 1 <? z then None else if z <? - 2 ^ 63 then None else Some z
  | _ => None
  end.

Definition anyParseInt32 (origin : Value) : option Z :=
  anyParseInt origin ≫= fun x => if x <? - 2 ^ 31 then None else if 2 ^ 31 - 1 <? x then None else Some x.

Definition anyParseFloat64 (origin : Value) : option float64 :=
  deref_value origin ≫= fun v =>
  match v with
  | VBool b => Some (float_of_int (if b then 1 else 0))
  | VString s =>
      let t := string_of_list_ascii (TrimSpace (lit s)) in
      if bool_decide (t = EmptyString) then Some float64_zero
      else match ParseFloat t with
           | Some f => Some f
           | None => dFloat64 <$> NewFromString t
           end
  | VDec d => Some (dFloat64 d)
  | VBigInt z => Some (float_of_big z).1
  | VInt32 x => Some (float_of_int x)
  | VInt64 x => Some (float_of_int x)
  | VFloat x => Some x
  | VList l => float_of_slice (default [] l)
  | _ => None
  end.

(** ** [FromRichValue] *)

Inductive ConvertError : Type := CannotBeNull | TypeNotMatch | BadNumber | BadBytes.

(** A loop that stops at the first error. *)
Fixpoint each {A B E} (f : A -> Outcome (B + E)) (l : list A) : Outcome (list B + E) :=
  match l with
  | [] => Ok (inl [])
  | x :: rest =>
      let! r := f x in
      match r with
      | inr e => Ok (inr e)
      | inl y =>
          let! rs := each f rest in
          match rs with inr e => Ok (inr e) | inl ys => Ok (inl (y :: ys)) end
      end
  end.

Definition matched (o : option Value) : Outcome (Value + ConvertError) :=
  Ok (match o with Some v => inl v | None => inr TypeNotMatch end).

Definition from_text (nonNull : bool) (val : RichValue) : option Value :=
  (fun s => if nonNull then VString s else VStringP (Some s)) <$> GetString val.

Definition from_scalar (nonNull : bool) (name : string) (val : RichValue) : Outcome (Value + ConvertError) :=
  if bool_decide (name = "String" \/ name = "ID" \/ name = "Bytes") then matched (from_text nonNull val)
  else if bool_decide (name = "Boolean") then
    matched ((fun b => if nonNull then VBool b else VBoolP (Some b)) <$> GetBoolean val)
  else if bool_decide (name = "Int") then
    matched ((fun x => if nonNull then VInt32 x else VInt32P (Some x)) <$> GetInt val)
  else if bool_decide (name = "Int8") then
    matched ((fun x => if nonNull then VInt64 x else VInt64P (Some x)) <$> GetInt64 val)
  else if bool_decide (name = "Timestamp") then
    matched (match val with
             | RTimestamp s n => Some (if nonNull then VInt64 (timestamp_micros s n) else VInt64P (Some (timestamp_micros s n)))
             | _ => None
             end)
  else if bool_decide (name = "Float") then
    matched ((fun x => if nonNull then VFloat x else VFloatP (Some x)) <$> GetFloat val)
  else if bool_decide (name = "BigInt") then matched ((fun z => VBigIntP (Some z)) <$> GetBigInt val)
  else if bool_decide (name = "BigDecimal") then
    matched ((fun d => if nonNull then VDec d else VDecP (Some d)) <$> GetBigDecimal val)
  else Panic.

(** [FromRichValue] behind the test for [NonNull]. *)
Fixpoint from_rich (nonNull : bool) (typ : GType) (val : RichValue) : Outcome (Value + ConvertError) :=
  match typ with
  | NonNull t => if nonNull then (if IsNull val then Ok (inr CannotBeNull) else Panic) else from_rich true t val
  | _ =>
      if IsNull val then
        if nonNull then Ok (inr CannotBeNull) else let! zero := zero_value typ in Ok (inl zero)
      else
        match typ with
        | NonNull _ => Panic
        | ListOf t =>
            match val with
            | RList items =>
                let! r := each (from_rich false t) items in
                Ok (match r with inl l => inl (VList (Some l)) | inr e => inr e end)
            | _ => Ok (inr TypeNotMatch)
            end
        | Scalar name => from_scalar nonNull name val
        | EnumType _ | ObjectType _ | InterfaceType _ => matched (from_text nonNull val)
        end
  end.

Definition FromRichValue (val : RichValue) (typ : GType) : Outcome (Value + ConvertError) := from_rich false typ val.

(** ** [buildRichValue] *)

Definition built (o : option RichValue) (e : ConvertError) : Outcome (RichValue + ConvertError) :=
  Ok (match o with Some r => inl r | None => inr e end).

(** The value of a type that cannot be null, for a nil pointer. *)
Definition rich_zero (typ : GType) : Outcome RichValue :=
  match typ with
  | ListOf _ => Ok (NewListValue [])
  | Scalar name =>
      if bool_decide (name = "String" \/ name = "ID") then Ok (NewStringValue EmptyString)
      else if bool_decide (name = "Bytes") then Ok (NewBytesValue [])
      else if bool_decide (name = "Boolean") then Ok (NewBoolValue false)
      else if bool_decide (name = "Int") then Ok (NewIntValue 0)
      else if bool_decide (name = "Int8") then Ok (NewInt64Value 0)
      else if bool_decide (name = "Timestamp") then Ok (NewTimestampValue 0)
      else if bool_decide (name = "Float") then Ok (NewFloatValue float64_zero)
      else if bool_decide (name = "BigInt") then Ok (NewBigIntValue 0)
      else if bool_decide (name = "BigDecimal") then Ok (NewBigDecimalValue dZero)
      else Panic
  | EnumType _ | ObjectType _ | InterfaceType _ => Ok (NewStringValue EmptyString)
  | NonNull _ => Panic
  end.

(** The bytes a text stands for: the empty text has none. *)
Definition text_bytes (s : string) : option (list Z) := if bool_decide (s = EmptyString) then Some [] else hexDecode s.

Definition build_scalar (name : string) (v : Value) : Outcome (RichValue + ConvertError) :=
  if bool_decide (name = "String" \/ name = "ID") then
    built (match v with VString s => Some (NewStringValue s) | _ => None end) TypeNotMatch
  else if bool_decide (name = "Bytes") then
    match v with
    | VString s => built (NewBytesValue <$> text_bytes s) BadBytes
    | _ => Ok (inr TypeNotMatch)
    end
  else if bool_decide (name = "Boolean") then
    built (match v with VBool b => Some (NewBoolValue b) | _ => None end) TypeNotMatch
  else if bool_decide (name = "Int") then built (NewIntValue <$> anyParseInt32 v) BadNumber
  else if bool_decide (name = "Int8") then built (NewInt64Value <$> anyParseInt v) BadNumber
  else if bool_decide (name = "Timestamp") then built (NewTimestampValue <$> anyParseInt v) BadNumber
  else if bool_decide (name = "Float") then built (NewFloatValue <$> anyParseFloat64 v) BadNumber
  else if bool_decide (name = "BigInt") then
    built (match v with VBigInt z => Some (NewBigIntValue z) | _ => None end) TypeNotMatch
  else if bool_decide (name = "BigDecimal") then
    built (match v with VDec d => Some (NewBigDecimalValue d) | _ => None end) TypeNotMatch
  else Panic.

(** [origin.Kind()] is a pointer. *)
Definition is_pointer (v : Value) : bool :=
  match v with
  | VNil | VStringP _ | VBoolP _ | VInt32P _ | VInt64P _ | VFloatP _ | VBigIntP _ | VDecP _ => true
  | _ => false
  end.

Fixpoint build_rich (nonNull : bool) (typ : GType) (origin : Value) : Outcome (RichValue + ConvertError) :=
  match typ with
  | NonNull t =>
      if nonNull then
        match deref_value origin with
        | None => Panic
        | Some v => if is_pointer origin then build_rich true t v else Ok (inr TypeNotMatch)
        end
      else build_rich true t origin
  | _ =>
      match deref_value origin with
      | None => if nonNull then (let! z := rich_zero typ in Ok (inl z)) else Ok (inl NewNullValue)
      | Some v =>
          (* behind a pointer the type is no longer known to be [NonNull] *)
          let nonNull := nonNull && negb (is_pointer origin) in
          match typ with
          | NonNull _ => Panic
          | ListOf t =>
              match v with
              | VList None => Ok (inl (if nonNull then NewListValue [] else NewNullValue))
              | VList (Some l) =>
                  let! r := each (build_rich false t) l in
                  Ok (match r with inl items => inl (NewListValue items) | inr e => inr e end)
              | _ => Ok (inr TypeNotMatch)
              end
          | Scalar name => build_scalar name v
          | EnumType _ | ObjectType _ | InterfaceType _ =>
              built (match v with VString s => Some (NewStringValue s) | _ => None end) TypeNotMatch
          end
      end
  end.

Definition buildRichValue (origin : Value) (typ : GType) : Outcome (RichValue + ConvertError) := build_rich false typ origin.

(** ** Types of a verified schema *)

(** The scalars [Verify] accepts. *)
Definition validScalarTypes : list string :=
  ["ID"; "Bytes"; "String"; "Boolean"; "Int"; "Int8"; "Timestamp"; "Float"; "BigInt"; "BigDecimal"].

(** A type of a schema: [!] is not doubled, and an enumeration has a value. *)
Fixpoint verified_at (nonNull : bool) (t : GType) : bool :=
  match t with
  | NonNull u => negb nonNull && verified_at true u
  | ListOf u => verified_at false u
  | Scalar name => bool_decide (name ∈ validScalarTypes)
  | EnumType values => negb (bool_decide (values = []))
  | ObjectType _ | InterfaceType _ => true
  end.

Definition verified (t : GType) : bool := verified_at false t.

Lemma valid_scalar_cases name (P : string -> Prop) :
  P "ID" -> P "Bytes" -> P "String" -> P "Boolean" -> P "Int" -> P "Int8" -> P "Timestamp" -> P "Float" -> P "BigInt" ->
  P "BigDecimal" -> bool_decide (name ∈ validScalarTypes) = true -> P name.
Proof.
  intros. match goal with H : bool_decide _ = true |- _ => apply bool_decide_eq_true in H; unfold validScalarTypes in H end.
  by repeat match goal with H : name ∈ _ |- _ => apply elem_of_cons in H as [->|H]; [done|] | H : name ∈ [] |- _ => apply not_elem_of_nil in H end.
Qed.

Lemma zero_inner_total nonNull t : verified_at nonNull t = true -> match t with NonNull _ | ListOf _ => True | _ => exists v, zero_inner nonNull t = Ok v end.
Proof.
  destruct t as [| |name|values| |]; simpl; try done; [|destruct values; [done|]|..]; try by eexists.
  revert name. intros name. apply (valid_scalar_cases name (fun n => exists v, zero_inner nonNull (Scalar n) = Ok v)); simpl; by eexists.
Qed.

Lemma zero_value_total t : verified t = true -> exists v, zero_value t = Ok v.
Proof.
  unfold verified. generalize false. induction t as [t IH|t IH|name|values|n|n]; intros nn Hv.
  - cbn [verified_at] in Hv. apply andb_true_iff in Hv as [_ Hv]. destruct t as [t|t| | | |]; [done| |apply (zero_inner_total true _ Hv)..].
    destruct (IH true) as [v E]; [done|]. simpl in E. simpl. destruct (zero_value t); cbn in *; try done. by eexists.
  - destruct (IH false Hv) as [v E]. simpl. rewrite E. by eexists.
  - exact (zero_inner_total false (Scalar name) Hv).
  - exact (zero_inner_total false (EnumType values) Hv).
  - exact (zero_inner_total false (ObjectType n) Hv).
  - exact (zero_inner_total false (InterfaceType n) Hv).
Qed.

(** ** Converted values have the type of the field *)

Lemma each_total {A B E} (f : A -> Outcome (B + E)) l :
  (forall x, x ∈ l -> exists r, f x = Ok r) -> exists r, each f l = Ok r.
Proof.
  induction l as [|x l IH]; intros Hf; [by eexists|]. simpl. destruct (Hf x) as [r ->]; [by left|]. cbn. destruct r as [y|e]; [|by eexists].
  destruct IH as [rs ->]; [intros z Hz; apply Hf; by right|]. destruct rs; by eexists.
Qed.

Lemma each_ok {A B E} (f : A -> Outcome (B + E)) l ys :
  each f l = Ok (inl ys) <-> Forall2 (fun x y => f x = Ok (inl y)) l ys.
Proof.
  revert ys. induction l as [|x l IH]; intros ys; simpl.
  - split; [by intros [= <-]|by inversion 1].
  - split.
    + destruct (f x) as [[y|e]| |] eqn:Ex; cbn; try done. destruct (each f l) as [[zs|e]| |]; cbn; try done.
      intros [= <-]. constructor; [done|]. by apply IH.
    + inversion 1 as [|? y ? zs Hx Hl]; subst. rewrite Hx. cbn. apply IH in Hl. by rewrite Hl.
Qed.

Lemma matched_ok {A} (f : A -> Value) o v : matched (f <$> o) = Ok (inl v) -> exists x, o = Some x /\ v = f x.
Proof. destruct o as [x|]; [|done]. intros [= <-]. by exists x. Qed.

Lemma from_scalar_typed nonNull name val v :
  from_scalar nonNull name val = Ok (inl v) -> scalar_value nonNull name v = true.
Proof.
  unfold from_scalar, from_text.
  case_bool_decide as Hn; [|clear Hn; case_bool_decide as Hn; [|clear Hn; case_bool_decide as Hn; [|clear Hn; case_bool_decide as Hn;
    [|clear Hn; case_bool_decide as Hn; [|clear Hn; case_bool_decide as Hn; [|clear Hn; case_bool_decide as Hn; [|clear Hn; case_bool_decide as Hn;
    [|done]]]]]]]].
  5: { subst name. destruct val; try done. intros [= <-]. by destruct nonNull. }
  all: intros (x & _ & ->)%matched_ok.
  1: { destruct Hn as [->|[->| ->]]; by destruct nonNull. }
  all: subst name; by destruct nonNull.
Qed.

Lemma text_typed nonNull val v t :
  match t with EnumType _ | ObjectType _ | InterfaceType _ => True | _ => False end ->
  matched (from_text nonNull val) = Ok (inl v) -> has_type_at nonNull t v = true.
Proof.
  unfold matched, from_text. destruct (GetString val); [|done]. intros Ht [= <-]. by destruct t, nonNull.
Qed.

Lemma zero_typed_false t v : match t with NonNull _ => False | _ => True end -> zero_value t = Ok v -> has_type_at false t v = true.
Proof. intros _ E. by apply zero_value_typed in E. Qed.

Lemma from_rich_typed nonNull t val v : from_rich nonNull t val = Ok (inl v) -> has_type_at nonNull t v = true.
Proof.
  revert nonNull val v. induction t as [t IH|t IH|name|values|n|n]; intros nonNull val v.
  1: { cbn. destruct nonNull; [by destruct (IsNull val)|apply IH]. }
  all: cbn [from_rich]; destruct (IsNull val) eqn:En.
  all: try (destruct nonNull; [done|]; intros Hz; destruct (zero_value _) eqn:Ez in Hz; cbn in Hz; try done;
            injection Hz as <-; by apply zero_typed_false).
  - destruct val as [| | | | | | | | | |items| |]; try done. destruct (each (from_rich false t) items) as [[l|e]| |] eqn:Ee; cbn; try done.
    intros [= <-]. simpl. apply each_ok in Ee. clear En. induction Ee as [|x y l ys Hx _ IHl]; [done|]. simpl. by rewrite (IH _ _ _ Hx), IHl.
  - apply from_scalar_typed.
  - by apply text_typed.
  - by apply text_typed.
  - by apply text_typed.
Qed.

Lemma from_rich_total nonNull t val : verified_at nonNull t = true -> exists r, from_rich nonNull t val = Ok r.
Proof.
  revert nonNull val. induction t as [t IH|t IH|name|values|n|n]; intros nonNull val Hv.
  1: { cbn in *. destruct nonNull; [done|]. by apply IH. }
  all: cbn [from_rich]; destruct (IsNull val) eqn:En.
  all: try (destruct nonNull; [by eexists|]; match goal with |- context [zero_value ?t] => destruct (zero_value_total t Hv) as [z ->] end; by eexists).
  - destruct val as [| | | | | | | | | |items| |]; try (by eexists).
    destruct (each_total (from_rich false t) items) as [r ->]; [intros x _; by apply IH|]. by eexists.
  - apply (valid_scalar_cases name (fun n => exists r, from_scalar nonNull n val = Ok r)); try done; by eexists.
  - by eexists.
  - by eexists.
  - by eexists.
Qed.

(** ** The integers fit their width *)

Fixpoint value_fits (v : Value) : bool :=
  match v with
  | VInt32 x | VInt32P (Some x) => fits_int32 x
  | VInt64 x | VInt64P (Some x) => fits_int64 x
  | VList (Some l) => forallb value_fits l
  | _ => true
  end.

Fixpoint rich_fits (r : RichValue) : bool :=
  match r with
  | RInt x => fits_int32 x
  | RInt64 x => fits_int64 x
  | RList l => forallb rich_fits l
  | _ => true
  end.

Lemma to_int32_fits x : fits_int32 (to_int32 x) = true.
Proof.
  unfold fits_int32, to_int32. pose proof (Z.mod_pos_bound (x + 2 ^ 31) (2 ^ 32) ltac:(lia)).
  apply andb_true_iff. rewrite Z.leb_le, Z.ltb_lt. lia.
Qed.

Lemma wrap_int64_fits x : fits_int64 (wrap_int64 x) = true.
Proof.
  unfold fits_int64, wrap_int64. pose proof (Z.mod_pos_bound (x + 2 ^ 63) (2 ^ 64) ltac:(lia)).
  apply andb_true_iff. rewrite Z.leb_le, Z.ltb_lt. lia.
Qed.

Lemma fits_int32_64 x : fits_int32 x = true -> fits_int64 x = true.
Proof. unfold fits_int32, fits_int64. rewrite !andb_true_iff, !Z.leb_le, !Z.ltb_lt. lia. Qed.

Lemma base_digits_nonneg under base n s m : 0 <= base -> 0 <= n -> base_digits under base n s = Some m -> 0 <= m.
Proof.
  intros Hb. revert n. induction s as [|c s IH]; intros n Hn; simpl; [by intros [= <-]|].
  destruct (under && Ascii.eqb c "_"); [by apply IH|]. destruct (base_digit c) as [d|] eqn:Ed; [|done]. bcase; [|done].
  apply IH. assert (0 <= d); [|nia]. unfold base_digit, digit_value in Ed.
  destruct ((48 <=? _) && (_ <=? 57)) eqn:E1 in Ed; [injection Ed as <-; breflect; lia|].
  destruct ((97 <=? _) && (_ <=? 122)) eqn:E2 in Ed; [injection Ed as <-; breflect; lia|done].
Qed.

Lemma in_bits_range bits neg n z : 0 <= n -> 0 < bits -> in_bits bits neg n = Some z -> - 2 ^ (bits - 1) <= z < 2 ^ (bits - 1).
Proof.
  intros Hn Hb. pose proof (Z.pow_pos_nonneg 2 (bits - 1) ltac:(lia) ltac:(lia)). unfold in_bits.
  destruct neg; bcase; intros [= <-]; lia.
Qed.

Lemma ParseUint0_nonneg s n : ParseUint0 s = Some n -> 0 <= n.
Proof.
  unfold ParseUint0. destruct s as [|c t]; [done|]. destruct (base_prefix (c :: t)) as [base u] eqn:Eb.
  destruct (has_underscore u && negb (underscoreOK (c :: t))); [done|]. apply base_digits_nonneg; [|lia].
  assert (Hb : (base_prefix (c :: t)).1 = base) by (by rewrite Eb). revert Hb. unfold base_prefix.
  destruct (Ascii.eqb c "0"); [|simpl; lia]. destruct t as [|c1 [|c2 t]]; [simpl; lia..|].
  repeat match goal with |- context [if ?b then _ else _] => destruct b end; simpl; lia.
Qed.

Lemma ParseInt0_range bits s z : 0 < bits -> ParseInt0 bits s = Some z -> - 2 ^ (bits - 1) <= z < 2 ^ (bits - 1).
Proof.
  intros Hb. unfold ParseInt0. destruct (split_sign (lit s)) as [neg t]. destruct (ParseUint0 t) as [n|] eqn:En; [|done].
  intros E. exact (in_bits_range bits neg n z (ParseUint0_nonneg t n En) Hb E).
Qed.

Section Laws.
Context `{HL : !DecimalLaws} `{HCL : !ConversionLaws}.

Lemma GetInt_fits r x : rich_fits r = true -> GetInt r = Some x -> fits_int32 x = true.
Proof.
  destruct r; intros Hr; try done; cbn [GetInt]; try (intros [= <-]; first [done|apply to_int32_fits|apply float_round32_fits]).
  intros E%ParseInt0_range; [|lia]. unfold fits_int32. rewrite andb_true_iff, Z.leb_le, Z.ltb_lt. cbn in E. lia.
Qed.

Lemma GetInt64_fits r x : rich_fits r = true -> GetInt64 r = Some x -> fits_int64 x = true.
Proof.
  destruct r; intros Hr; try done; cbn [GetInt64];
    try (intros [= <-]; first [done|by apply fits_int32_64|apply wrap_int64_fits|apply float_round64_fits|apply dIntPart_fits]).
  intros E%ParseInt0_range; [|lia]. unfold fits_int64. rewrite andb_true_iff, Z.leb_le, Z.ltb_lt. cbn in E. lia.
Qed.

Lemma from_scalar_fits nonNull name val v :
  rich_fits val = true -> from_scalar nonNull name val = Ok (inl v) -> value_fits v = true.
Proof.
  intros Hr. unfold from_scalar, from_text.
  case_bool_decide; [|case_bool_decide; [|case_bool_decide; [|case_bool_decide;
    [|case_bool_decide; [|case_bool_decide; [|case_bool_decide; [|case_bool_decide; [|done]]]]]]]].
  5: { destruct val; try done. intros [= <-]. destruct nonNull; apply wrap_int64_fits. }
  all: intros (x & Ex & ->)%matched_ok; try (by destruct nonNull).
  - apply (GetInt_fits _ _ Hr) in Ex. by destruct nonNull.
  - apply (GetInt64_fits _ _ Hr) in Ex. by destruct nonNull.
Qed.

Lemma zero_inner_fits nonNull t v : zero_inner nonNull t = Ok v -> value_fits v = true.
Proof.
  destruct t as [| |name|values| |]; simpl; try done; [|destruct values; [done|]|..];
    repeat case_bool_decide; try done; intros [= <-]; by destruct nonNull.
Qed.

Lemma zero_value_fits t v : zero_value t = Ok v -> value_fits v = true.
Proof.
  destruct t as [u|u| | | |]; try (apply (zero_inner_fits false)).
  - destruct u as [w|w| | | |]; try (apply (zero_inner_fits true)). simpl. destruct (zero_value w); try done. by intros [= <-].
  - simpl. destruct (zero_value u); try done. by intros [= <-].
Qed.

Lemma from_rich_fits nonNull t val v : rich_fits val = true -> from_rich nonNull t val = Ok (inl v) -> value_fits v = true.
Proof.
  revert nonNull val v. induction t as [t IH|t IH|name|values|n|n]; intros nonNull val v Hr.
  1: { cbn. destruct nonNull; [by destruct (IsNull val)|by apply IH]. }
  all: cbn [from_rich]; destruct (IsNull val) eqn:En.
  all: try (destruct nonNull; [done|]; intros Hz; destruct (zero_value _) eqn:Ez in Hz; cbn in Hz; try done;
            injection Hz as <-; by eapply zero_value_fits).
  - destruct val as [| | | | | | | | | |items| |]; try done. destruct (each (from_rich false t) items) as [[l|e]| |] eqn:Ee; cbn; try done.
    intros [= <-]. simpl in *. apply each_ok in Ee. clear En. induction Ee as [|x y l ys Hx _ IHl]; [done|]. simpl in *.
    apply andb_true_iff in Hr as [Hx' Hr]. by rewrite (IH _ _ _ Hx' Hx), IHl.
  - by apply from_scalar_fits.
  - intros (x & _ & ->)%matched_ok. by destruct nonNull.
  - intros (x & _ & ->)%matched_ok. by destruct nonNull.
  - intros (x & _ & ->)%matched_ok. by destruct nonNull.
Qed.

(** ** The round trip *)

(** The texts of bytes are hexadecimal. *)
Fixpoint bytes_ok (t : GType) (v : Value) : bool :=
  match t with
  | NonNull u => bytes_ok u v
  | ListOf u => match v with VList (Some l) => forallb (bytes_ok u) l | _ => true end
  | Scalar name =>
      if bool_decide (name = "Bytes") then
        match v with VString s | VStringP (Some s) => bool_decide (is_Some (text_bytes s)) | _ => true end
      else true
  | _ => true
  end.

Definition same_bytes (v w : Value) : Prop :=
  match v, w with
  | VString a, VString b => text_bytes a = text_bytes b
  | VStringP (Some a), VStringP (Some b) => text_bytes a = text_bytes b
  | _, _ => v = w
  end.

(** Values of a type that mean the same: the bytes of a text and the value of a decimal
    may be written in different ways. *)
Fixpoint same_at (t : GType) (v w : Value) : Prop :=
  match t with
  | NonNull u => same_at u v w
  | ListOf u =>
      match v, w with
      | VList (Some l), VList (Some m) => Forall2 (same_at u) l m
      | _, _ => v = w
      end
  | Scalar name => if bool_decide (name = "Bytes") then same_bytes v w else veq v w
  | _ => v = w
  end.

Lemma text_bytes_Encode s b : text_bytes s = Some b -> text_bytes (hexEncode b) = Some b.
Proof.
  intros Hs. assert (Hb : Forall is_byte b).
  { unfold text_bytes in Hs. case_bool_decide; [injection Hs as <-; constructor|by eapply hexDecode_bytes]. }
  pose proof (hexDecode_Encode b Hb) as He. unfold text_bytes. case_bool_decide as E; [|done].
  rewrite E, hexDecode_empty in He. done.
Qed.

Lemma timestamp_round_trip x : fits_int64 x = true -> timestamp_micros (x / 1000000) (x mod 1000000 * 1000) = x.
Proof.
  intros Hx. unfold timestamp_micros. rewrite Z.div_mul by lia.
  assert (x / 1000000 * 1000000 + x mod 1000000 = x) as -> by (pose proof (Z.div_mod x 1000000 ltac:(lia)); lia).
  apply wrap_int64_id. unfold fits_int64 in Hx. breflect. lia.
Qed.

Lemma anyParseInt32_fits x : fits_int32 x = true -> anyParseInt32 (VInt32 x) = Some x.
Proof. intros Hx. unfold fits_int32 in Hx. breflect. unfold anyParseInt32. cbn. repeat bcase; done || lia. Qed.

(** A scalar that is not nil, out of its pointer. *)
Lemma scalar_round_trip nonNull name v v1 :
  bool_decide (name ∈ validScalarTypes) = true -> scalar_value nonNull name v = true -> value_fits v = true ->
  bytes_ok (Scalar name) v = true -> deref_value v = Some v1 ->
  exists r w, build_scalar name v1 = Ok (inl r) /\ IsNull r = false /\
    from_scalar nonNull name r = Ok (inl w) /\ same_at (Scalar name) v w.
Proof.
  intros Hn. pattern name. revert Hn.
  apply (valid_scalar_cases name); intros Ht Hf Hb Hd; destruct v as [|s|[s|]|b|[b|]|x|[x|]|x|[x|]|x|[x|]|z|[z|]|d|[d|]|l];
    destruct nonNull; try discriminate Ht; try discriminate Hd; injection Hd as <-.
  all: try (eexists _, _; split_and!; reflexivity).
  1-2: change (bool_decide (is_Some (text_bytes s)) = true) in Hb; apply bool_decide_eq_true in Hb as [b Eb];
       eexists (RBytes b), _; split_and!;
         [change (built (NewBytesValue <$> text_bytes s) BadBytes = Ok (inl (RBytes b))); by rewrite Eb|reflexivity|reflexivity|
          change (text_bytes s = text_bytes (hexEncode b)); by rewrite Eb, (text_bytes_Encode s)].
  1-2: exists (RInt x); eexists; split_and!;
         [change (built (NewIntValue <$> anyParseInt32 (VInt32 x)) BadNumber = Ok (inl (RInt x))); by rewrite (anyParseInt32_fits x Hf)|reflexivity..].
  1-2: eexists (NewTimestampValue x), _; split_and!; [reflexivity|reflexivity|reflexivity|]; cbn [same_at]; rewrite bool_decide_eq_false_2 by done;
         cbn [veq]; by rewrite timestamp_round_trip.
  1-2: exists (NewBigIntValue z), (VBigIntP (Some z)); split_and!;
         [reflexivity|reflexivity|
          change (matched ((fun z => VBigIntP (Some z)) <$> Some (fromBigInt (buildBigInteger z))) = Ok (inl (VBigIntP (Some z))));
          by rewrite fromBigInt_build|reflexivity].
  all: eexists (NewBigDecimalValue d), _; split_and!; [reflexivity|reflexivity|reflexivity|]; symmetry; apply fromBigDecimal_build.
Qed.

(** A nil pointer is the zero value of its type. *)
Lemma nil_scalar name v :
  scalar_value false name v = true -> deref_value v = None -> zero_value (Scalar name) = Ok v /\ IsNil v = true.
Proof.
  destruct v as [|s|[s|]|b|[b|]|x|[x|]|x|[x|]|x|[x|]|z|[z|]|d|[d|]|l]; try done; cbn [scalar_value negb andb orb]; unfold is_text_scalar, is_long_scalar.
  all: intros Hn%bool_decide_eq_true _; split; [|done]; destruct_or?; subst name; reflexivity.
Qed.

Lemma nil_text nonNull v : text_value nonNull v = true -> deref_value v = None -> nonNull = false /\ v = VStringP None.
Proof. destruct v as [|s|[s|]|b|[b|]|x|[x|]|x|[x|]|x|[x|]|z|[z|]|d|[d|]|l]; try done. by destruct nonNull. Qed.

Lemma nil_nonNull name v : scalar_value true name v = true -> deref_value v = None -> False.
Proof. by destruct v as [|s|[s|]|b|[b|]|x|[x|]|x|[x|]|x|[x|]|z|[z|]|d|[d|]|l]. Qed.

Lemma scalar_not_nil nonNull name v v1 : scalar_value nonNull name v = true -> deref_value v = Some v1 -> IsNil v = false.
Proof. by destruct v as [|s|[s|]|b|[b|]|x|[x|]|x|[x|]|x|[x|]|z|[z|]|d|[d|]|l]. Qed.

Lemma same_at_refl t v : same_at t v v.
Proof.
  revert v. induction t as [t IH|t IH|name|values|n|n]; intros v; simpl; try done.
  - destruct v as [| | | | | | | | | | | | | | |[l|]]; try done. induction l; by constructor.
  - case_bool_decide.
    + by destruct v as [|s|[s|]|b|[b|]|x|[x|]|x|[x|]|x|[x|]|z|[z|]|d|[d|]|l].
    + by destruct v as [|s|[s|]|b|[b|]|x|[x|]|x|[x|]|x|[x|]|z|[z|]|d|[d|]|l].
Qed.

Lemma text_round_trip nonNull t v :
  match t with EnumType _ | ObjectType _ | InterfaceType _ => True | _ => False end ->
  verified_at nonNull t = true -> has_type_at nonNull t v = true ->
  exists r w, build_rich nonNull t v = Ok (inl r) /\ from_rich nonNull t r = Ok (inl w) /\ same_at t v w /\ IsNull r = IsNil v.
Proof.
  intros Ht Hv Hty. assert (Htx : text_value nonNull v = true) by by destruct t.
  destruct (deref_value v) as [v1|] eqn:Ed.
  - assert (exists s, v1 = VString s /\ v = if nonNull then VString s else VStringP (Some s)) as (s & -> & ->).
    { destruct v as [|s|[s|]|b|[b|]|x|[x|]|x|[x|]|x|[x|]|z|[z|]|d|[d|]|l]; try done; injection Ed as <-; destruct nonNull; try done; by exists s. }
    exists (RString s), (if nonNull then VString s else VStringP (Some s)). by destruct t, nonNull.
  - destruct (nil_text nonNull v Htx Ed) as [-> ->]. exists RNull, (VStringP None). destruct t as [| | |[|x l]| |]; try done.
Qed.

Lemma round_trip_at nonNull t v :
  verified_at nonNull t = true -> has_type_at nonNull t v = true -> value_fits v = true -> bytes_ok t v = true ->
  exists r w, build_rich nonNull t v = Ok (inl r) /\ from_rich nonNull t r = Ok (inl w) /\ same_at t v w /\ IsNull r = IsNil v.
Proof.
  revert nonNull v. induction t as [t IH|t IH|name|values|n|n]; intros nonNull v Hv Hty Hf Hb.
  - cbn in Hv. destruct nonNull; [done|]. by apply IH.
  - cbn in Hty. destruct v as [| | | | | | | | | | | | | | |[l|]]; try done.
    + assert (exists rs ws, each (build_rich false t) l = Ok (inl rs) /\ each (from_rich false t) rs = Ok (inl ws) /\ Forall2 (same_at t) l ws)
        as (rs & ws & E1 & E2 & Hs).
      { cbn in Hv, Hf, Hb. revert Hty Hf Hb. induction l as [|x l IHl]; intros Hty Hf Hb; [by exists [], []|].
        cbn in Hty, Hf, Hb. apply andb_true_iff in Hty as [Hx ?], Hf as [Hfx ?], Hb as [Hbx ?].
        destruct (IH false x Hv Hx Hfx Hbx) as (r & w & Er & Ew & Hs & _). destruct IHl as (rs & ws & E1 & E2 & Hl); [done..|].
        exists (r :: rs), (w :: ws). cbn [each]. rewrite Er, Ew. cbn [obind]. rewrite E1, E2. by split_and!; [..|constructor]. }
      exists (RList rs), (VList (Some ws)). cbn [build_rich deref_value from_rich IsNull IsNil]. by rewrite E1, E2.
    + destruct nonNull; [done|]. exists RNull, (VList None). cbn. destruct (zero_value_total t Hv) as [z ->]. done.
  - destruct (deref_value v) as [v1|] eqn:Ed.
    + destruct (scalar_round_trip nonNull name v v1 Hv Hty Hf Hb Ed) as (r & w & E1 & En & E2 & Hs). exists r, w.
      cbn [build_rich from_rich]. rewrite Ed, En, (scalar_not_nil nonNull name v v1 Hty Ed). done.
    + destruct nonNull; [by destruct (nil_nonNull name v)|]. destruct (nil_scalar name v Hty Ed) as [Ez En]. exists RNull, v.
      cbn [build_rich from_rich]. rewrite Ed. cbn [IsNull]. rewrite Ez, En. cbn [obind]. split_and!; try done. apply same_at_refl.
  - by apply text_round_trip.
  - by apply text_round_trip.
  - by apply text_round_trip.
Qed.
End Laws.
End Rich.
