(* ===== verification/EntityStruct.v ===== *)
(** * Boxes from and to the structures of a processor

    [FromRichStruct], [FromEntityUpdateData] and [ToRichStruct] of
    [driver/entity/persistent/box_rich_struct.go]. The maps are visited in the order of the
    finite map; only which of several errors is returned depends on it. *)
From Stdlib Require Import ZArith Lia Ascii String.
From stdpp Require Import base numbers option strings pretty gmap list.
From S2P Require Import Prelude BlockCache RangeText EntityValue EntityHistory EntityMerge EntityTyping EntityCtrl EntityRich.
#[local] Open Scope Z_scope.

Inductive StructError : Type :=
| FieldNotExist (name : string)
| FieldConvert (name : string) (e : ConvertError)
| OperandMismatch (name : string)
| UnknownOperator (name : string).

Section Struct.
Context `{HD : Decimal} `{HC : !Conversions}.

Abbreviation DataMap := (gmap string Value).

(** ** [FromRichStruct] *)

Definition lift_field (name : string) (r : Outcome (Value + ConvertError)) : Outcome (string * Value + StructError) :=
  let! x := r in Ok (match x with inl v => inl (name, v) | inr e => inr (FieldConvert name e) end).

Definition from_field (et : EntityType) (p : string * RichValue) : Outcome (string * Value + StructError) :=
  match GetFieldByName et p.1 with
  | None => Ok (inr (FieldNotExist p.1))
  | Some field => lift_field p.1 (FromRichValue p.2 (FieldType field))
  end.

(** A field that was not given has the zero value of its type. *)
Definition zero_field (et : EntityType) (name : string) : Outcome (string * Value + StructError) :=
  let! t := field_type et name in let! z := zero_value t in Ok (inl (name, z)).

Definition FromRichStruct (et : EntityType) (data : option (gmap string RichValue))
    : Outcome ((option DataMap * gmap string Operator) + StructError) :=
  match data with
  | None => Ok (inl (None, ∅))
  | Some fields =>
      let lost := stored_fields et ∖ dom fields in
      let! r := each (from_field et) (map_to_list fields) in
      match r with
      | inr e => Ok (inr e)
      | inl given =>
          let! z := each (zero_field et) (elements lost) in
          match z with
          | inr e => Ok (inr e)
          | inl zeros => Ok (inl (Some (list_to_map (given ++ zeros)), ∅))
          end
      end
  end.

(** ** [FromEntityUpdateData] *)

Inductive UpdateOp : Type := OpSet | OpAdd | OpMultiply | OpOther.

Record UpdateField : Type := mkUpdate { uOp : UpdateOp; uValue : RichValue }.

Definition update_field (et : EntityType) (p : string * UpdateField) : Outcome (string * (Value + Operator) + StructError) :=
  match GetFieldByName et p.1 with
  | None => Ok (inr (FieldNotExist p.1))
  | Some field =>
      let value := uValue p.2 in
      let operator multi add :=
        Ok (if checkNumCalcValueTypeMatch (FieldType field) value
            then inl (p.1, inr (mkOperator (Some (mkNumCalc multi add)))) else inr (OperandMismatch p.1)) in
      match uOp p.2 with
      | OpSet =>
          let! r := lift_field p.1 (FromRichValue value (FieldType field)) in
          Ok (match r with inl (n, v) => inl (n, inl v) | inr e => inr e end)
      | OpAdd => operator (NewIntValue 1) value
      | OpMultiply => operator value (NewIntValue 0)
      | OpOther => Ok (inr (UnknownOperator p.1))
      end
  end.

(** The values and the operators of the given fields. *)
Definition given_values (l : list (string * (Value + Operator))) : list (string * Value) :=
  omap (fun p => match p.2 with inl v => Some (p.1, v) | inr _ => None end) l.
Definition given_operators (l : list (string * (Value + Operator))) : list (string * Operator) :=
  omap (fun p => match p.2 with inr op => Some (p.1, op) | inl _ => None end) l.

(** A field that was not given keeps its latest value. *)
Definition FromEntityUpdateData (et : EntityType) (data : option (gmap string UpdateField))
    : Outcome ((option DataMap * gmap string Operator) + StructError) :=
  match data with
  | None => Ok (inl (None, ∅))
  | Some fields =>
      let lost := stored_fields et ∖ dom fields in
      let! r := each (update_field et) (map_to_list fields) in
      match r with
      | inr e => Ok (inr e)
      | inl given =>
          Ok (inl (Some (list_to_map (given_values given)),
                   list_to_map (given_operators given ++ map (fun name => (name, mkOperator None)) (elements lost))))
      end
  end.

(** ** [ToRichStruct] *)

Definition to_field (d : DataMap) (f : FieldDefinition) : Outcome (option (string * RichValue) + StructError) :=
  match d !! FieldName f with
  | None => Ok (inl None)
  | Some v =>
      let! r := buildRichValue v (FieldType f) in
      Ok (match r with inl x => inl (Some (FieldName f, x)) | inr e => inr (FieldConvert (FieldName f) e) end)
  end.

(** [ListFields(true, true, true)] has every field; [r.Fields[name]] of a later field of
    the same name replaces an earlier one. *)
Definition ToRichStruct (et : EntityType) (data : option DataMap) : Outcome (option (gmap string RichValue) + StructError) :=
  match data with
  | None => Ok (inl None)
  | Some d =>
      let! r := each (to_field d) (FieldsDefinition et) in
      Ok (match r with inl l => inl (Some (list_to_map (reverse (omap id l)))) | inr e => inr e end)
  end.

(** ** What the loops collect *)

Lemma stored_field_type et f : f ∈ stored_fields et -> exists t, field_type et f = Ok t.
Proof.
  unfold stored_fields, field_type, GetFieldByName. intros Hf%elem_of_list_to_set.
  assert (Hex : Exists (fun x => FieldName x = f) (FieldsDefinition et)).
  { induction (FieldsDefinition et) as [|x l IH]; [by apply not_elem_of_nil in Hf|]. simpl in Hf.
    destruct (decide (FieldName x = f)) as [E|E]; [by left|right]. apply IH.
    destruct (isFixedFieldType (FieldType x)), (DerivedFrom x); simpl in Hf; try done; apply elem_of_cons in Hf as [?|?]; done. }
  destruct (list_find (fun x => FieldName x = f) (FieldsDefinition et)) as [[i x]|] eqn:E; [by eexists|].
  apply list_find_None in E. apply Exists_exists in Hex as (x & Hx & Hn). rewrite Forall_forall in E. by destruct (E x Hx).
Qed.

(** Each result has the name of the field it is of. *)
Lemma each_names {A B} (f : string * A -> Outcome (string * B + StructError)) l ys :
  (forall p y, f p = Ok (inl y) -> y.1 = p.1) -> each f l = Ok (inl ys) -> ys.*1 = l.*1.
Proof. intros Hf He%each_ok. induction He as [|p y l ys Hp _ IH]; [done|]. cbn. by rewrite (Hf p y Hp), IH. Qed.

Lemma each_lookup {A B} (f : string * A -> Outcome (string * B + StructError)) (m : gmap string A) ys :
  (forall p y, f p = Ok (inl y) -> y.1 = p.1) -> each f (map_to_list m) = Ok (inl ys) ->
  forall n, match m !! n with
            | Some a => exists b, f (n, a) = Ok (inl (n, b)) /\ (n, b) ∈ ys
            | None => n ∉ ys.*1
            end.
Proof.
  intros Hf He n. destruct (m !! n) as [a|] eqn:Ea.
  - apply elem_of_map_to_list, list_elem_of_lookup in Ea as [i Hi]. apply each_ok in He.
    destruct (Forall2_lookup_l _ _ _ _ _ He Hi) as ([n' b] & Hy & Hp). pose proof (Hf _ _ Hp) as Hn. cbn in Hn. subst n'.
    exists b. split; [done|]. by apply list_elem_of_lookup; exists i.
  - rewrite (each_names f _ ys Hf He). intros ([n' a] & -> & Hin)%list_elem_of_fmap. apply elem_of_map_to_list in Hin. cbn in Ea. congruence.
Qed.

Lemma each_names_nodup {A B} (f : string * A -> Outcome (string * B + StructError)) (m : gmap string A) ys :
  (forall p y, f p = Ok (inl y) -> y.1 = p.1) -> each f (map_to_list m) = Ok (inl ys) -> NoDup ys.*1.
Proof. intros Hf He. rewrite (each_names f _ ys Hf He). apply NoDup_fst_map_to_list. Qed.

Lemma from_field_name et p y : from_field et p = Ok (inl y) -> y.1 = p.1.
Proof.
  unfold from_field, lift_field. destruct (GetFieldByName et p.1) as [fd|]; [|done].
  destruct (FromRichValue p.2 (FieldType fd)) as [[v|e]| |]; cbn; try done. by intros [= <-].
Qed.

Lemma from_field_ok et n r v :
  from_field et (n, r) = Ok (inl (n, v)) <-> exists t, field_type et n = Ok t /\ FromRichValue r t = Ok (inl v).
Proof.
  unfold from_field, lift_field, field_type. cbn. destruct (GetFieldByName et n) as [fd|]; [|naive_solver].
  split.
  - destruct (FromRichValue r (FieldType fd)) as [[w|e]| |] eqn:E; cbn; try done. intros [= <-]. by eexists.
  - by intros (t & [= <-] & ->).
Qed.

Lemma zero_fields_spec et lost zs :
  each (zero_field et) lost = Ok (inl zs) ->
  zs.*1 = lost /\ forall n z, (n, z) ∈ zs -> exists t, field_type et n = Ok t /\ zero_value t = Ok z.
Proof.
  intros He%each_ok. unfold zero_field in He.
  induction He as [|n y lost zs Hn _ IH]; [split; [done|]; by intros n z ?%not_elem_of_nil|].
  destruct (field_type et n) as [t| |] eqn:Et; cbn in Hn; try done. destruct (zero_value t) as [z0| |] eqn:Ez; cbn in Hn; try done.
  injection Hn as <-. destruct IH as [IH1 IH2]. split; [cbn; by rewrite IH1|].
  intros m z [[= -> ->]|Hm]%elem_of_cons; [by exists t|by apply IH2].
Qed.

(** ** What a structure becomes *)

Lemma FromRichStruct_spec et fields d ops :
  FromRichStruct et (Some fields) = Ok (inl (d, ops)) ->
  ops = ∅ /\ exists m, d = Some m /\
  forall f, match fields !! f with
            | Some r => exists t v, field_type et f = Ok t /\ FromRichValue r t = Ok (inl v) /\ m !! f = Some v
            | None => if decide (f ∈ stored_fields et) then exists t z, field_type et f = Ok t /\ zero_value t = Ok z /\ m !! f = Some z
                      else m !! f = None
            end.
Proof.
  cbn [FromRichStruct]. destruct (each (from_field et) (map_to_list fields)) as [[given|e]| |] eqn:Eg; cbn [obind]; try done.
  set (lost := elements (stored_fields et ∖ dom fields)).
  destruct (each (zero_field et) lost) as [[zeros|e]| |] eqn:Ez; cbn [obind]; try done. intros [= <- <-].
  split; [done|]. eexists. split; [done|].
  pose proof (zero_fields_spec et lost zeros Ez) as [Hz1 Hz2].
  assert (Hnd : NoDup (given ++ zeros).*1).
  { rewrite fmap_app, NoDup_app. split_and!; [by eapply each_names_nodup; [apply from_field_name|]| |rewrite Hz1; apply NoDup_elements].
    intros n Hn Hnz. rewrite Hz1 in Hnz. apply elem_of_elements, elem_of_difference in Hnz as [_ Hnz]. apply Hnz.
    rewrite (each_names _ _ _ (from_field_name et) Eg) in Hn. apply list_elem_of_fmap in Hn as ([n' r] & -> & Hr).
    apply elem_of_map_to_list in Hr. by apply elem_of_dom_2 in Hr. }
  intros f. pose proof (each_lookup _ _ _ (from_field_name et) Eg f) as Hf. destruct (fields !! f) as [r|] eqn:Er.
  - destruct Hf as (v & Hv & Hin). apply from_field_ok in Hv as (t & Ht & Hv). exists t, v. split_and!; [done|done|].
    apply elem_of_list_to_map; [done|]. apply elem_of_app. by left.
  - case_decide as Hs.
    + assert (Hl : f ∈ zeros.*1) by (rewrite Hz1; apply elem_of_elements, elem_of_difference; split; [done|by apply not_elem_of_dom]).
      apply list_elem_of_fmap in Hl as ([f' z] & -> & Hz). destruct (Hz2 _ _ Hz) as (t & Ht & Hzt). exists t, z. split_and!; [done|done|].
      apply elem_of_list_to_map; [done|]. apply elem_of_app. by right.
    + apply not_elem_of_list_to_map. rewrite fmap_app, elem_of_app. intros [?|Hz]; [done|]. rewrite Hz1 in Hz.
      apply elem_of_elements, elem_of_difference in Hz as [? _]. done.
Qed.

(** Every value of a box made of a structure has the type of its field, and the box has
    every stored field. *)
Lemma FromRichStruct_box et fields d ops :
  FromRichStruct et (Some fields) = Ok (inl (d, ops)) -> dom fields ⊆ stored_fields et ->
  opt_typed et d /\ forall b, box_ok et (mkUncommitted (set_data d b) ops).
Proof.
  intros (-> & m & -> & Hm)%FromRichStruct_spec Hsub. split.
  - intros m' [= <-] f v Hv. specialize (Hm f). destruct (fields !! f) as [r|].
    + destruct Hm as (t & w & Ht & Hw & Hl). exists t. split; [done|]. assert (v = w) as -> by congruence. by eapply from_rich_typed.
    + case_decide; [|congruence]. destruct Hm as (t & z & Ht & Hz & Hl). exists t. split; [done|].
      assert (v = z) as -> by congruence. by apply zero_value_typed.
  - intros b. split; cbn; [done|..]; intros m' [= <-]; [|by rewrite dom_empty_L; apply disjoint_empty_r].
    rewrite dom_empty_L, union_empty_r_L. apply set_eq. intros f. rewrite elem_of_dom. specialize (Hm f). destruct (fields !! f) as [r|] eqn:Er.
    + destruct Hm as (t & w & _ & _ & ->). split; [|by eexists]. intros _. apply Hsub. by apply elem_of_dom_2 in Er.
    + case_decide; [|by rewrite Hm; split; [intros []|]]. destruct Hm as (t & z & _ & _ & ->). split; [done|by eexists].
Qed.

(** ** What an update becomes *)

(** What a given field of an update contributes. *)
Definition update_part (et : EntityType) (f : string) (u : UpdateField) (x : Value + Operator) : Prop :=
  exists t, field_type et f = Ok t /\
  match uOp u, x with
  | OpSet, inl v => FromRichValue (uValue u) t = Ok (inl v)
  | OpAdd, inr op => checkNumCalcValueTypeMatch t (uValue u) = true /\ op = mkOperator (Some (mkNumCalc (NewIntValue 1) (uValue u)))
  | OpMultiply, inr op => checkNumCalcValueTypeMatch t (uValue u) = true /\ op = mkOperator (Some (mkNumCalc (uValue u) (NewIntValue 0)))
  | _, _ => False
  end.

Lemma update_field_ok et p y : update_field et p = Ok (inl y) -> y.1 = p.1 /\ update_part et p.1 p.2 y.2.
Proof.
  unfold update_field, update_part, field_type, lift_field. destruct (GetFieldByName et p.1) as [fd|]; [|done].
  destruct (uOp p.2); [|destruct (checkNumCalcValueTypeMatch (FieldType fd) (uValue p.2)) eqn:Ec..|done].
  - destruct (FromRichValue (uValue p.2) (FieldType fd)) as [[v|e]| |] eqn:Ev; cbn; try done. intros [= <-]. split; [done|]. by exists (FieldType fd).
  - intros [= <-]. split; [done|]. by exists (FieldType fd).
  - done.
  - intros [= <-]. split; [done|]. by exists (FieldType fd).
  - done.
Qed.

Lemma given_values_in l f v : (f, v) ∈ given_values l <-> (f, inl v) ∈ l.
Proof.
  unfold given_values. rewrite list_elem_of_omap. split.
  - intros ([n x] & Hin & E). cbn in E. destruct x; [|done]. by injection E as -> ->.
  - intros Hin. by exists (f, inl v).
Qed.

Lemma given_operators_in l f op : (f, op) ∈ given_operators l <-> (f, inr op) ∈ l.
Proof.
  unfold given_operators. rewrite list_elem_of_omap. split.
  - intros ([n x] & Hin & E). cbn in E. destruct x; [done|]. by injection E as -> ->.
  - intros Hin. by exists (f, inr op).
Qed.

Lemma given_values_sub l : (given_values l).*1 `sublist_of` l.*1.
Proof. unfold given_values. induction l as [|[n [v|op]] l IH]; cbn; by constructor. Qed.

Lemma given_operators_sub l : (given_operators l).*1 `sublist_of` l.*1.
Proof. unfold given_operators. induction l as [|[n [v|op]] l IH]; cbn; by constructor. Qed.

Lemma sublist_in {A} (l1 l2 : list A) : l1 `sublist_of` l2 -> forall x, x ∈ l1 -> x ∈ l2.
Proof. intros Hs x Hx. exact (elem_of_sublist _ _ _ Hx Hs). Qed.

Lemma FromEntityUpdateData_spec et fields d ops :
  FromEntityUpdateData et (Some fields) = Ok (inl (d, ops)) ->
  exists m, d = Some m /\
  forall f, match fields !! f with
            | Some u => exists x, update_part et f u x /\
                match x with inl v => m !! f = Some v /\ ops !! f = None | inr op => m !! f = None /\ ops !! f = Some op end
            | None => m !! f = None /\ ops !! f = if decide (f ∈ stored_fields et) then Some (mkOperator None) else None
            end.
Proof.
  cbn [FromEntityUpdateData]. destruct (each (update_field et) (map_to_list fields)) as [[given|e]| |] eqn:Eg; cbn [obind]; try done.
  set (lost := elements (stored_fields et ∖ dom fields)). intros [= <- <-]. eexists. split; [done|].
  assert (Hname : forall p y, update_field et p = Ok (inl y) -> y.1 = p.1) by (intros p y Hp; by apply update_field_ok in Hp as [? _]).
  pose proof (each_names_nodup _ _ _ Hname Eg) as Hnd.
  pose proof (sublist_NoDup _ _ Hnd (given_values_sub given)) as Hndv.
  set (latest := map (fun name => (name, mkOperator None)) lost).
  assert (Hlat : latest.*1 = lost) by (unfold latest; induction lost; simpl; by f_equal).
  assert (Hndo : NoDup (given_operators given ++ latest).*1).
  { rewrite fmap_app, NoDup_app. split_and!; [exact (sublist_NoDup _ _ Hnd (given_operators_sub given))| |rewrite Hlat; apply NoDup_elements].
    intros n Hn Hnl. rewrite Hlat in Hnl. apply elem_of_elements, elem_of_difference in Hnl as [_ Hnl]. apply Hnl.
    pose proof (given_operators_sub given) as Hsub. apply (sublist_in _ _ Hsub) in Hn.
    rewrite (each_names _ _ _ Hname Eg) in Hn. apply list_elem_of_fmap in Hn as ([n' r] & -> & Hr).
    apply elem_of_map_to_list in Hr. by apply elem_of_dom_2 in Hr. }
  intros f. pose proof (each_lookup _ _ _ Hname Eg f) as Hf.
  assert (Hnov : f ∉ (given_values given).*1 -> (list_to_map (given_values given) : DataMap) !! f = None) by apply not_elem_of_list_to_map_1.
  destruct (fields !! f) as [u|] eqn:Er.
  - destruct Hf as (x & Hx & Hin). apply update_field_ok in Hx as [_ Hx]. exists x. split; [done|].
    assert (Huniq : forall y, (f, y) ∈ given -> y = x).
    { intros y Hy. apply (elem_of_list_to_map (M := gmap string)) in Hy, Hin; [|done|done]. congruence. }
    assert (Hnl : f ∉ lost).
    { intros [_ Hn]%elem_of_elements%elem_of_difference. apply Hn. by apply elem_of_dom_2 in Er. }
    destruct x as [v|op]; split.
    + by apply elem_of_list_to_map, given_values_in.
    + apply not_elem_of_list_to_map. rewrite fmap_app, elem_of_app, Hlat. intros [Ho|?]; [|done].
      apply list_elem_of_fmap in Ho as ([n op] & -> & Ho%given_operators_in). by apply Huniq in Ho.
    + apply Hnov. intros Ho. apply list_elem_of_fmap in Ho as ([n v] & -> & Ho%given_values_in). by apply Huniq in Ho.
    + apply elem_of_list_to_map; [done|]. apply elem_of_app. left. by apply given_operators_in.
  - split.
    + apply Hnov. intros Ho. by apply (sublist_in _ _ (given_values_sub given)) in Ho.
    + case_decide as Hs.
      * apply elem_of_list_to_map; [done|]. apply elem_of_app. right. unfold latest. apply list_elem_of_fmap. exists f. split; [done|].
        apply elem_of_elements, elem_of_difference. split; [done|by apply not_elem_of_dom].
      * apply not_elem_of_list_to_map. rewrite fmap_app, elem_of_app, Hlat. intros [Ho|Hl].
        -- by apply (sublist_in _ _ (given_operators_sub given)) in Ho.
        -- by apply elem_of_elements, elem_of_difference in Hl as [? _].
Qed.

Lemma FromEntityUpdateData_box et fields d ops :
  FromEntityUpdateData et (Some fields) = Ok (inl (d, ops)) -> dom fields ⊆ stored_fields et ->
  opt_typed et d /\ forall b, box_ok et (mkUncommitted (set_data d b) ops).
Proof.
  intros (m & -> & Hm)%FromEntityUpdateData_spec Hsub. split.
  - intros m' [= <-] f v Hv. specialize (Hm f). destruct (fields !! f) as [u|]; [|destruct Hm; congruence].
    destruct Hm as (x & (t & Ht & Hx) & Hl). destruct x as [w|op]; [|destruct Hl; congruence]. destruct Hl as [Hl _].
    assert (v = w) as -> by congruence. exists t. split; [done|]. destruct (uOp u); try done. by eapply from_rich_typed.
  - intros b. split; cbn; [done|..]; intros m' [= <-].
    + apply set_eq. intros f. rewrite elem_of_union, !elem_of_dom. specialize (Hm f). destruct (fields !! f) as [u|] eqn:Eu.
      * assert (f ∈ stored_fields et) by (apply Hsub; by apply elem_of_dom_2 in Eu).
        destruct Hm as (x & _ & Hl). destruct x; destruct Hl as [-> ->]; split; eauto.
      * destruct Hm as [-> ->]. case_decide; split; try done; [by right; eexists|]. by intros [[]|[]].
    + apply elem_of_disjoint. intros f [v Hv]%elem_of_dom [op Ho]%elem_of_dom. specialize (Hm f). destruct (fields !! f) as [u|].
      * destruct Hm as (x & _ & Hl). destruct x; destruct Hl; congruence.
      * destruct Hm as [? _]. congruence.
Qed.

(** What the execution of an update makes of the data before it: given fields are set or
    calculated, the others keep their value. *)
Definition updated_field (et : EntityType) (prev d : DataMap) (f : string) (u : option UpdateField) : Prop :=
  exists t, field_type et f = Ok t /\
  match u with
  | None => exists v, d !! f = Some v /\ match prev !! f with Some w => v = w | None => zero_value t = Ok v end
  | Some u =>
      match uOp u with
      | OpSet => exists v, FromRichValue (uValue u) t = Ok (inl v) /\ d !! f = Some v
      | OpAdd => exists v, calc_one et f (prev !! f) (num_op (RInt 1) (uValue u)) = Ok v /\ d !! f = Some v
      | OpMultiply => exists v, calc_one et f (prev !! f) (num_op (uValue u) (RInt 0)) = Ok v /\ d !! f = Some v
      | OpOther => False
      end
  end.

Lemma calc_one_latest et f origin v :
  calc_one et f origin (mkOperator None) = Ok v ->
  exists t, field_type et f = Ok t /\ match origin with Some w => v = w | None => zero_value t = Ok v end.
Proof.
  unfold calc_one. destruct (field_type et f) as [t| |]; cbn [obind]; try done. intros E. exists t. split; [done|].
  destruct origin as [w|]; cbn [obind] in E; [by injection E as <-|]. destruct (zero_value t); cbn [obind] in E; try done.
Qed.

Lemma update_executes et fields m ops prev d :
  FromEntityUpdateData et (Some fields) = Ok (inl (Some m, ops)) -> calc_all et prev ops m = Ok d ->
  forall f, f ∈ stored_fields et \/ f ∈ dom fields -> updated_field et prev d f (fields !! f).
Proof.
  intros (m' & [= <-] & Hm)%FromEntityUpdateData_spec Hc f Hf. pose proof (calc_all_lookup _ _ _ _ _ Hc f) as Hl. specialize (Hm f).
  unfold updated_field. destruct (fields !! f) as [u|] eqn:Eu.
  - destruct Hm as (x & (t & Ht & Hx) & Hxl). exists t. split; [done|]. destruct (uOp u), x as [v|op]; try done.
    + destruct Hxl as [Hv Ho]. rewrite Ho in Hl. exists v. split; [done|congruence].
    + destruct Hxl as [_ Ho]. rewrite Ho in Hl. destruct Hx as [_ ->]. done.
    + destruct Hxl as [_ Ho]. rewrite Ho in Hl. destruct Hx as [_ ->]. done.
  - destruct Hm as [Hv Ho]. rewrite decide_True in Ho.
    2:{ destruct Hf as [?|Hf]; [done|]. apply elem_of_dom in Hf as [? ?]. congruence. }
    rewrite Ho in Hl. destruct Hl as (v & Hv' & Hd). apply calc_one_latest in Hv' as (t & Ht & Hv'). exists t. split; [done|]. by exists v.
Qed.

(** An operand that was accepted can be used. *)
Lemma calcOperator_total t v c :
  checkNumCalcValueTypeMatch t (Multi c) = true \/ checkNumCalcValueTypeMatch t (Add c) = true ->
  exists w, calcOperator t v (mkOperator (Some c)) = Ok w.
Proof.
  unfold checkNumCalcValueTypeMatch, calcOperator. cbn [NumCalc]. destruct (operator_scalar t) as [name| |]; [|naive_solver..]. cbn [obind].
  destruct (is_integer_scalar name || is_decimal_scalar name) eqn:En; [|naive_solver]. intros _.
  unfold is_integer_scalar, is_decimal_scalar in En. apply orb_true_iff in En as [En|En]; apply bool_decide_eq_true in En; destruct_or?; subst name; by eexists.
Qed.

Definition schema_ok (et : EntityType) : Prop := Forall (fun f => verified (FieldType f) = true) (FieldsDefinition et).

Lemma field_type_verified et f t : schema_ok et -> field_type et f = Ok t -> verified t = true.
Proof.
  intros Hs. unfold field_type, GetFieldByName. destruct (list_find _ (FieldsDefinition et)) as [[i x]|] eqn:E; [|done].
  intros [= <-]. apply list_find_Some in E as (Hx & _ & _). exact (Forall_lookup_1 _ _ _ _ Hs Hx).
Qed.

Lemma update_total et fields m ops prev :
  schema_ok et -> FromEntityUpdateData et (Some fields) = Ok (inl (Some m, ops)) -> exists d, calc_all et prev ops m = Ok d.
Proof.
  intros Hs (m' & [= <-] & Hm)%FromEntityUpdateData_spec. apply calc_all_total. intros f op Ho.
  specialize (Hm f). unfold calc_one.
  assert (exists t, field_type et f = Ok t /\ forall v, exists w, calcOperator t v op = Ok w) as (t & Ht & Hcalc).
  { destruct (fields !! f) as [u|].
    - destruct Hm as (x & (t & Ht & Hx) & Hxl). exists t. split; [done|]. intros v.
      destruct x as [w|op']; [by destruct Hxl; congruence|]. destruct Hxl as [_ Hop]. assert (op = op') as -> by congruence.
      destruct (uOp u); try done; destruct Hx as [Hx ->]; apply calcOperator_total; [by right|by left].
    - destruct Hm as [_ Hop]. case_decide as Hf; [|congruence]. destruct (stored_field_type et f Hf) as [t Ht]. exists t. split; [done|].
      intros v. assert (op = mkOperator None) as -> by congruence. by eexists. }
  rewrite Ht. cbn [obind]. destruct (prev !! f) as [w|]; cbn [obind]; [apply Hcalc|].
  destruct (zero_value_total t (field_type_verified _ _ _ Hs Ht)) as [z ->]. apply Hcalc.
Qed.

(** ** The round trip of a box *)

Section Laws.
Context `{HL : !DecimalLaws} `{HCL : !ConversionLaws}.

Record data_sound (et : EntityType) (d : DataMap) : Prop := mkDataSound {
  ds_fields : dom d = stored_fields et;
  ds_values f v t : d !! f = Some v -> field_type et f = Ok t ->
    has_type t v = true /\ value_fits v = true /\ bytes_ok t v = true
}.

Definition names_unique (et : EntityType) : Prop := NoDup (map FieldName (FieldsDefinition et)).

Lemma each_success {A B E} (f : A -> Outcome (B + E)) l :
  (forall x, x ∈ l -> exists y, f x = Ok (inl y)) -> exists ys, each f l = Ok (inl ys).
Proof.
  induction l as [|x l IH]; intros Hf; [by eexists|]. destruct (Hf x) as [y Hy]; [by left|].
  destruct IH as [ys Hys]; [intros z Hz; apply Hf; by right|]. exists (y :: ys). cbn. rewrite Hy. cbn. by rewrite Hys.
Qed.

Lemma field_type_of et fd : names_unique et -> fd ∈ FieldsDefinition et -> field_type et (FieldName fd) = Ok (FieldType fd).
Proof.
  unfold names_unique, field_type, GetFieldByName. intros Hnd Hin.
  destruct (list_find (fun f => FieldName f = FieldName fd) (FieldsDefinition et)) as [[i x]|] eqn:E.
  - apply list_find_Some in E as (Hx & Hn & _). apply list_elem_of_lookup in Hin as [j Hj]. simpl.
    assert (i = j) as ->; [|congruence]. apply (NoDup_lookup _ i j (FieldName fd) Hnd).
    + change (map FieldName (FieldsDefinition et)) with (FieldName <$> FieldsDefinition et). rewrite list_lookup_fmap, Hx. simpl. by rewrite Hn.
    + change (map FieldName (FieldsDefinition et)) with (FieldName <$> FieldsDefinition et). by rewrite list_lookup_fmap, Hj.
  - apply list_find_None in E. rewrite Forall_forall in E. by destruct (E fd Hin).
Qed.

Lemma field_of_type et f t : field_type et f = Ok t -> exists fd, fd ∈ FieldsDefinition et /\ FieldName fd = f /\ FieldType fd = t.
Proof.
  unfold field_type, GetFieldByName. destruct (list_find (fun x => FieldName x = f) (FieldsDefinition et)) as [[i x]|] eqn:E; [|done].
  intros [= <-]. apply list_find_Some in E as (Hx & Hn & _). exists x. split_and!; [|done|done]. by apply list_elem_of_lookup; exists i.
Qed.

Lemma ToRichStruct_spec et d :
  schema_ok et -> names_unique et -> data_sound et d ->
  exists r, ToRichStruct et (Some d) = Ok (inl (Some r)) /\ dom r = dom d /\
  forall f v t, d !! f = Some v -> field_type et f = Ok t -> exists x w, r !! f = Some x /\
    buildRichValue v t = Ok (inl x) /\ FromRichValue x t = Ok (inl w) /\ same_at t v w.
Proof.
  intros Hs Hu Hd. cbn [ToRichStruct].
  destruct (each_success (to_field d) (FieldsDefinition et)) as [l El].
  { intros fd Hfd. unfold to_field. destruct (d !! FieldName fd) as [v|] eqn:Ev; [|by eexists].
    destruct (ds_values _ _ Hd _ _ _ Ev (field_type_of et fd Hu Hfd)) as (H1 & H2 & H3).
    assert (Hv : verified (FieldType fd) = true) by (unfold schema_ok in Hs; rewrite Forall_forall in Hs; by apply Hs).
    destruct (round_trip_at false (FieldType fd) v Hv H1 H2 H3) as (x & w & E1 & _). unfold buildRichValue. rewrite E1. by eexists. }
  rewrite El. cbn [obind]. eexists. split; [done|]. apply each_ok in El.
  assert (Hnames : NoDup (reverse (omap id l)).*1).
  { rewrite fmap_reverse, reverse_Permutation. unfold names_unique in Hu. assert (Hsub : (omap id l).*1 `sublist_of` map FieldName (FieldsDefinition et)); [|exact (sublist_NoDup _ _ Hu Hsub)].
    clear Hu Hs. induction El as [|fd y fds l Hy _ IH]; [done|]. unfold to_field in Hy. destruct (d !! FieldName fd) as [v|].
    - destruct (buildRichValue v (FieldType fd)) as [[x|e]| |]; cbn in Hy; try done. injection Hy as <-. simpl. by constructor.
    - injection Hy as <-. simpl. by constructor. }
  assert (Hin : forall fd v, fd ∈ FieldsDefinition et -> d !! FieldName fd = Some v ->
            exists x, buildRichValue v (FieldType fd) = Ok (inl x) /\ (FieldName fd, x) ∈ reverse (omap id l)).
  { intros fd v Hfd Hv. apply list_elem_of_lookup in Hfd as [i Hi]. destruct (Forall2_lookup_l _ _ _ _ _ El Hi) as (y & Hy & Hty).
    unfold to_field in Hty. rewrite Hv in Hty. destruct (buildRichValue v (FieldType fd)) as [[x|e]| |]; cbn in Hty; try done.
    exists x. split; [done|]. rewrite elem_of_reverse, list_elem_of_omap. exists (Some (FieldName fd, x)). split; [|done].
    injection Hty as <-. by apply list_elem_of_lookup; exists i. }
  split.
  - apply set_eq. intros f. rewrite !elem_of_dom. split.
    + intros [x Hx%elem_of_list_to_map_2]. rewrite elem_of_reverse, list_elem_of_omap in Hx. destruct Hx as (y & Hy & Hyx). cbn in Hyx. subst y.
      apply list_elem_of_lookup in Hy as [i Hi]. destruct (Forall2_lookup_r _ _ _ _ _ El Hi) as (fd & _ & Hty). unfold to_field in Hty.
      destruct (d !! FieldName fd) as [v|] eqn:Ev; [|done]. destruct (buildRichValue v (FieldType fd)) as [[x'|e]| |]; cbn in Hty; try done.
      injection Hty as <- _. by eexists.
    + intros [v Hv]. assert (Hf : f ∈ stored_fields et) by (rewrite <- (ds_fields _ _ Hd); by apply elem_of_dom_2 in Hv).
      destruct (stored_field_type et f Hf) as [t Ht]. destruct (field_of_type et f t Ht) as (fd & Hfd & <- & <-).
      destruct (Hin fd v Hfd Hv) as (x & _ & Hx). exists x. by apply elem_of_list_to_map.
  - intros f v t Hv Ht. destruct (field_of_type et f t Ht) as (fd & Hfd & <- & <-). destruct (Hin fd v Hfd Hv) as (x & Hx & Hl).
    destruct (ds_values _ _ Hd _ _ _ Hv Ht) as (H1 & H2 & H3).
    destruct (round_trip_at false (FieldType fd) v (field_type_verified _ _ _ Hs Ht) H1 H2 H3) as (x' & w & E1 & E2 & Hsame & _).
    unfold buildRichValue in *. rewrite E1 in Hx. injection Hx as <-. exists x', w. split_and!; try done. by apply elem_of_list_to_map.
Qed.

(** A box sent to a processor and sent back means the same. *)
Lemma struct_round_trip et d :
  schema_ok et -> names_unique et -> data_sound et d ->
  exists r m, ToRichStruct et (Some d) = Ok (inl (Some r)) /\ FromRichStruct et (Some r) = Ok (inl (Some m, ∅)) /\
    dom m = dom d /\ forall f v t, d !! f = Some v -> field_type et f = Ok t -> exists w, m !! f = Some w /\ same_at t v w.
Proof.
  intros Hs Hu Hd. destruct (ToRichStruct_spec et d Hs Hu Hd) as (r & Er & Hdom & Hr). exists r.
  destruct (each_success (from_field et) (map_to_list r)) as [given Eg].
  { intros [f x] Hx%elem_of_map_to_list. assert (Hf : f ∈ dom d) by (rewrite <- Hdom; by apply elem_of_dom_2 in Hx).
    apply elem_of_dom in Hf as Hf'. destruct Hf' as [v Hv]. rewrite (ds_fields _ _ Hd) in Hf. destruct (stored_field_type et f Hf) as [t Ht].
    destruct (Hr f v t Hv Ht) as (x' & w & Hx' & _ & Hw & _). assert (x = x') as -> by congruence. exists (f, w). apply from_field_ok. by exists t. }
  assert (Hlost : stored_fields et ∖ dom r = ∅) by (rewrite Hdom, (ds_fields _ _ Hd); apply difference_diag_L).
  assert (Ef : FromRichStruct et (Some r) = Ok (inl (Some (list_to_map (given ++ [])), ∅))).
  { cbn [FromRichStruct]. rewrite Eg. cbn [obind]. rewrite Hlost, elements_empty. done. }
  eexists. split; [done|]. split; [exact Ef|]. apply FromRichStruct_spec in Ef as (_ & m & [= Em] & Hm). rewrite Em.
  split.
  - apply set_eq. intros f. rewrite elem_of_dom. specialize (Hm f). rewrite <- Hdom, elem_of_dom. destruct (r !! f) as [x|] eqn:Ex.
    + destruct Hm as (t & w & _ & _ & ->). split; by eexists.
    + case_decide as Hf; [|by rewrite Hm]. rewrite <- (ds_fields _ _ Hd), <- Hdom in Hf. apply elem_of_dom in Hf as [? ?]. congruence.
  - intros f v t Hv Ht. destruct (Hr f v t Hv Ht) as (x & w & Hx & _ & Hw & Hsame). specialize (Hm f). rewrite Hx in Hm.
    destruct Hm as (t' & w' & Ht' & Hw' & Hl). assert (t' = t) as -> by congruence. exists w'. split; [done|]. assert (w' = w) as -> by congruence. done.
Qed.
End Laws.
End Struct.
