(* ===== verification/LikePattern.v ===== *)
(** * Patterns of [LIKE]: [common/utils/strings.go]

    [LikePatternToRegexp] turns a pattern into a regular expression. The expressions it
    writes use characters, [.], [.*] and the two anchors; the reader and the matcher of
    [regexp] are modelled for these. Texts are ASCII, so a rune is a byte. *)
From Stdlib Require Import ZArith Lia Ascii String.
From stdpp Require Import base numbers option strings list.
From S2P Require Import Prelude RangeText.

(** ** Translated from the source *)

Definition backslash : ascii := ascii_of_nat 92.
Definition newline : ascii := ascii_of_nat 10.

Definition in_runes (c : ascii) (l : text) : bool := existsb (Ascii.eqb c) l.

(** The sectors between delimiters, with the delimiters; [cur] is the current sector. *)
Fixpoint SplitByRunes_loop (delim : text) (escape : ascii) (cur : text) (raw : text) : list text :=
  match raw with
  | [] => [cur]
  | c :: t =>
      match t with
      | c' :: t' =>
          if Ascii.eqb c escape then SplitByRunes_loop delim escape (cur ++ [c']) t'
          else if in_runes c delim then cur :: [c] :: SplitByRunes_loop delim escape [] t
          else SplitByRunes_loop delim escape (cur ++ [c]) t
      | [] =>
          if in_runes c delim then cur :: [c] :: SplitByRunes_loop delim escape [] t
          else SplitByRunes_loop delim escape (cur ++ [c]) t
      end
  end.

Definition SplitByRunes (origin : text) (delim : text) (escape : ascii) : list text := SplitByRunes_loop delim escape [] origin.

Fixpoint Escape (origin ctrl : text) (escape : ascii) : text :=
  match origin with
  | [] => []
  | c :: t => if in_runes c ctrl then escape :: c :: Escape t ctrl escape else c :: Escape t ctrl escape
  end.

Definition ctrl : text := lit ".*+?^$|()[]{}" ++ [backslash].

(** The loop over every second sector. *)
Fixpoint write_sectors (sectors : list text) : text :=
  match sectors with
  | [] => []
  | [s] => Escape s ctrl backslash
  | s :: d :: rest =>
      Escape s ctrl backslash ++
      (if bool_decide (d = lit "_") then lit "." else if bool_decide (d = lit "%") then lit ".*" else []) ++
      write_sectors rest
  end.

Definition like_delims : text := lit "_%".

(** The expression [LikePatternToRegexp] compiles. *)
Definition LikePatternToRegexp (pattern : text) : text :=
  lit "^" ++ write_sectors (SplitByRunes pattern like_delims backslash) ++ lit "$".

(** ** [regexp], as far as these expressions use it *)

Inductive Regexp : Type := RBegin | REnd | RAny | RAnyStar | RChar (c : ascii).

Fixpoint regexp_parse (e : text) : option (list Regexp) :=
  match e with
  | [] => Some []
  | c :: t =>
      if Ascii.eqb c backslash then
        match t with
        | c' :: t' => if in_runes c' ctrl then cons (RChar c') <$> regexp_parse t' else None
        | [] => None
        end
      else if Ascii.eqb c "." then
        match t with
        | c' :: t' => if Ascii.eqb c' "*" then cons RAnyStar <$> regexp_parse t' else cons RAny <$> regexp_parse t
        | [] => cons RAny <$> regexp_parse t
        end
      else if Ascii.eqb c "^" then cons RBegin <$> regexp_parse t
      else if Ascii.eqb c "$" then cons REnd <$> regexp_parse t
      else if in_runes c ctrl then None
      else cons (RChar c) <$> regexp_parse t
  end.

(** [.] does not match a newline. *)
Definition dot (c : ascii) : bool := negb (Ascii.eqb c newline).

Fixpoint match_star (k : text -> bool) (s : text) : bool :=
  k s || match s with [] => false | c :: t => dot c && match_star k t end.

(** The expression matches at the start of [s]; [start] is whether that is the start of
    the text. *)
Fixpoint match_at (r : list Regexp) (start : bool) (s : text) : bool :=
  match r with
  | [] => true
  | RBegin :: r' => start && match_at r' start s
  | REnd :: r' => match s with [] => match_at r' start s | _ => false end
  | RChar c :: r' => match s with [] => false | x :: t => Ascii.eqb x c && match_at r' false t end
  | RAny :: r' => match s with [] => false | x :: t => dot x && match_at r' false t end
  | RAnyStar :: r' =>
      match_at r' start s ||
      match s with [] => false | x :: t => dot x && match_star (match_at r' false) t end
  end.

Fixpoint match_inside (r : list Regexp) (s : text) : bool :=
  match_at r false s || match s with [] => false | _ :: t => match_inside r t end.

Definition MatchString (e s : text) : option bool :=
  (fun r => match_at r true s || match s with [] => false | _ :: t => match_inside r t end) <$> regexp_parse e.

(** ** The meaning of a pattern *)

(** Some end of the text. *)
Fixpoint some_end (k : text -> bool) (s : text) : bool := k s || match s with [] => false | _ :: t => some_end k t end.

(** A backslash takes the next character as it is, [_] is any character, [%] any text. *)
Fixpoint like_match (p : text) (s : text) : bool :=
  match p with
  | [] => match s with [] => true | _ => false end
  | c :: q =>
      if Ascii.eqb c backslash then
        match q with
        | c' :: q' => match s with x :: t => Ascii.eqb x c' && like_match q' t | [] => false end
        | [] => match s with [x] => Ascii.eqb x c | _ => false end
        end
      else if Ascii.eqb c "_" then match s with _ :: t => like_match q t | [] => false end
      else if Ascii.eqb c "%" then
        some_end (like_match q) s
      else match s with x :: t => Ascii.eqb x c && like_match q t | [] => false end
  end.

(** ** The expression means the pattern *)

Inductive Token : Type := TChar (c : ascii) | TOne | TMany.

(** The tokens of a pattern. *)
Fixpoint tokens (p : text) : list Token :=
  match p with
  | [] => []
  | c :: q =>
      match q with
      | c' :: q' => if Ascii.eqb c backslash then TChar c' :: tokens q'
                    else (if Ascii.eqb c "_" then TOne else if Ascii.eqb c "%" then TMany else TChar c) :: tokens q
      | [] => [if Ascii.eqb c "_" then TOne else if Ascii.eqb c "%" then TMany else TChar c]
      end
  end.

Definition token_regexp (t : Token) : Regexp := match t with TChar c => RChar c | TOne => RAny | TMany => RAnyStar end.

Definition token_text (t : Token) : text :=
  match t with TChar c => Escape [c] ctrl backslash | TOne => lit "." | TMany => lit ".*" end.

Lemma Escape_app a b l e : Escape (a ++ b) l e = Escape a l e ++ Escape b l e.
Proof. induction a as [|c a IH]; [done|]. simpl. destruct (in_runes c l); by rewrite IH. Qed.

Lemma delim_cases c : in_runes c like_delims = Ascii.eqb c "_" || Ascii.eqb c "%".
Proof. unfold in_runes, like_delims. simpl. by rewrite orb_false_r. Qed.

Lemma text_list_ind (P : text -> Prop) :
  P [] -> (forall c, P [c]) -> (forall c c' t, P t -> P (c' :: t) -> P (c :: c' :: t)) -> forall s, P s.
Proof.
  intros H0 H1 H2 s. enough (P s /\ forall c, P (c :: s)) by tauto.
  induction s as [|c s [IH1 IH2]]; [auto|]. split; [apply IH2|]. intros d. apply H2; [done|apply IH2].
Qed.

Definition token_of (c : ascii) : Token := if Ascii.eqb c "_" then TOne else if Ascii.eqb c "%" then TMany else TChar c.

Lemma Split_two cur c c' t :
  SplitByRunes_loop like_delims backslash cur (c :: c' :: t) =
  if Ascii.eqb c backslash then SplitByRunes_loop like_delims backslash (cur ++ [c']) t
  else if in_runes c like_delims then cur :: [c] :: SplitByRunes_loop like_delims backslash [] (c' :: t)
  else SplitByRunes_loop like_delims backslash (cur ++ [c]) (c' :: t).
Proof. done. Qed.

Lemma tokens_two c c' t :
  tokens (c :: c' :: t) = if Ascii.eqb c backslash then TChar c' :: tokens t else token_of c :: tokens (c' :: t).
Proof. done. Qed.

(** What is written is the text of the tokens. *)
Lemma write_tokens p cur :
  write_sectors (SplitByRunes_loop like_delims backslash cur p) =
  Escape cur ctrl backslash ++ concat (map token_text (tokens p)).
Proof.
  revert cur. induction p as [|c|c c' t IH1 IH2] using text_list_ind; intros cur.
  - simpl. by rewrite app_nil_r.
  - cbn [SplitByRunes_loop tokens map concat]. rewrite delim_cases.
    destruct (Ascii.eqb_spec c "_") as [->|]; [done|]. destruct (Ascii.eqb_spec c "%") as [->|]; [done|]. cbn [orb].
    cbn [write_sectors token_text]. by rewrite Escape_app, app_nil_r.
  - rewrite Split_two, tokens_two. destruct (Ascii.eqb c backslash).
    { rewrite IH1, Escape_app. cbn [map concat token_text]. by rewrite app_assoc. }
    rewrite delim_cases. unfold token_of. destruct (Ascii.eqb_spec c "_") as [->|]; [|destruct (Ascii.eqb_spec c "%") as [->|]].
    + cbn [orb write_sectors map concat token_text]. rewrite bool_decide_eq_true_2 by done. by rewrite IH2.
    + cbn [orb write_sectors map concat token_text]. rewrite bool_decide_eq_false_2, bool_decide_eq_true_2 by done. by rewrite IH2.
    + cbn [orb map concat token_text]. rewrite IH2, Escape_app. by rewrite app_assoc.
Qed.

Lemma ctrl_special c : in_runes c ctrl = false -> Ascii.eqb c backslash = false /\ Ascii.eqb c "." = false /\ Ascii.eqb c "^" = false /\ Ascii.eqb c "$" = false.
Proof.
  unfold in_runes, ctrl. simpl. rewrite !orb_false_iff. tauto.
Qed.

(** No token is written with a star in front, so a dot stays a dot. *)
Definition no_star (e : text) : Prop := match e with c :: _ => Ascii.eqb c "*" = false | [] => True end.

Lemma regexp_token t e : no_star e -> regexp_parse (token_text t ++ e) = cons (token_regexp t) <$> regexp_parse e.
Proof.
  intros He. destruct t as [c| |]; cbn [token_text token_regexp].
  - cbn [Escape]. destruct (in_runes c ctrl) eqn:Ec.
    + cbn [app regexp_parse]. rewrite Ec. done.
    + destruct (ctrl_special c Ec) as (E1 & E2 & E3 & E4). cbn [app regexp_parse]. by rewrite E1, E2, E3, E4, Ec.
  - cbn. destruct e as [|c e]; [done|]. simpl in He. by rewrite He.
  - done.
Qed.

Lemma no_star_tokens l e : no_star e -> no_star (concat (map token_text l) ++ e).
Proof.
  intros He. destruct l as [|[c| |] l]; [done| |done|done]. cbn [map concat token_text Escape].
  destruct (in_runes c ctrl) eqn:Ec; [done|]. cbn. unfold in_runes, ctrl in Ec. simpl in Ec. rewrite !orb_false_iff in Ec. tauto.
Qed.

Lemma regexp_tokens l e :
  no_star e -> regexp_parse (concat (map token_text l) ++ e) = (fun r => map token_regexp l ++ r) <$> regexp_parse e.
Proof.
  intros He. induction l as [|t l IH]; [simpl; by destruct (regexp_parse e)|]. cbn [map concat]. rewrite <- app_assoc.
  rewrite regexp_token by by apply no_star_tokens. rewrite IH. by destruct (regexp_parse e).
Qed.

Lemma regexp_of_pattern p : regexp_parse (LikePatternToRegexp p) = Some (RBegin :: map token_regexp (tokens p) ++ [REnd]).
Proof.
  unfold LikePatternToRegexp, SplitByRunes. rewrite write_tokens. cbn [Escape app]. change (lit "^" ++ ?x) with ("^"%char :: x).
  cbn [regexp_parse Ascii.eqb]. rewrite regexp_tokens by done. done.
Qed.

Definition no_newline (s : text) : Prop := Forall (fun c => dot c = true) s.

(** Away from the start only the start anchor would notice. *)
Lemma match_at_start l s b b' :
  match_at (map token_regexp l ++ [REnd]) b s = match_at (map token_regexp l ++ [REnd]) b' s.
Proof.
  revert s b b'. induction l as [|t l IH]; intros s b b'; [done|]. destruct t; cbn; [done..|]. by rewrite (IH s b b').
Qed.

Lemma match_star_end k s : no_newline s -> match_star k s = some_end k s.
Proof. induction 1 as [|c s Hc _ IH]; [done|]. cbn [match_star some_end]. by rewrite Hc, IH. Qed.

Lemma some_end_ext k k' s : (forall t, (exists a, s = a ++ t) -> k t = k' t) -> some_end k s = some_end k' s.
Proof.
  induction s as [|c s IH]; intros Hk; simpl; [rewrite (Hk []); [done|by exists []]|].
  rewrite (Hk (c :: s)) by by exists []. rewrite IH; [done|]. intros t [a ->]. apply Hk. by exists (c :: a).
Qed.

(** One token against a text, and the rest. *)
Definition match_token (t : Token) (k : text -> bool) (s : text) : bool :=
  match t with
  | TChar c => match s with x :: u => Ascii.eqb x c && k u | [] => false end
  | TOne => match s with _ :: u => k u | [] => false end
  | TMany => some_end k s
  end.

Lemma match_tokens_cons t l s :
  no_newline s ->
  match_at (map token_regexp (t :: l) ++ [REnd]) false s = match_token t (match_at (map token_regexp l ++ [REnd]) false) s.
Proof.
  intros Hs. destruct t as [c| |]; cbn [map app token_regexp match_at match_token].
  - by destruct s.
  - destruct Hs as [|x s Hx Hs]; [done|]. by rewrite Hx.
  - rewrite <- match_star_end by done. by destruct s as [|x s].
Qed.

Lemma like_match_cons c q s :
  match q with [] => True | _ => Ascii.eqb c backslash = false end ->
  like_match (c :: q) s = match_token (token_of c) (like_match q) s.
Proof.
  intros Hq. unfold token_of. cbn [like_match]. destruct (Ascii.eqb_spec c backslash) as [->|Hb].
  - destruct q; [|done]. destruct s as [|x [|y s]]; [done|change (Ascii.eqb x backslash = Ascii.eqb x backslash && true); by rewrite andb_true_r|].
    change (false = Ascii.eqb x backslash && false). by rewrite andb_false_r.
  - destruct (Ascii.eqb c "_"); [done|]. by destruct (Ascii.eqb c "%").
Qed.

Lemma match_token_ext t k k' s :
  (forall u, (exists a, s = a ++ u) -> k u = k' u) -> match_token t k s = match_token t k' s.
Proof.
  intros Hk. destruct t as [c| |]; cbn.
  - destruct s as [|x u]; [done|]. rewrite (Hk u); [done|by exists [x]].
  - destruct s as [|x u]; [done|]. apply Hk. by exists [x].
  - by apply some_end_ext.
Qed.

Lemma like_tokens p s : no_newline s -> match_at (map token_regexp (tokens p) ++ [REnd]) false s = like_match p s.
Proof.
  assert (Hsuf : forall (a u : text), no_newline (a ++ u) -> no_newline u) by (intros a u [_ ?]%Forall_app; done).
  revert s. induction p as [|c|c c' q IH1 IH2] using text_list_ind; intros s Hs.
  - by destruct s.
  - change (tokens [c]) with (token_of c :: []).
    rewrite match_tokens_cons, like_match_cons by done. apply match_token_ext. by intros [|] _.
  - destruct (Ascii.eqb c backslash) eqn:Eb.
    + rewrite tokens_two. cbn [like_match]. rewrite Eb, match_tokens_cons by done. cbn [match_token]. destruct Hs as [|x s Hx Hs]; [done|]. by rewrite IH1.
    + rewrite like_match_cons by done. rewrite tokens_two, Eb, match_tokens_cons by done. apply match_token_ext.
      intros u [a ->]. apply IH2. by eapply Hsuf.
Qed.

Lemma match_inside_begin r s : match_inside (RBegin :: r) s = false.
Proof. induction s as [|c s IH]; [done|]. cbn [match_inside match_at]. by rewrite IH. Qed.

(** On texts without a newline the expression matches what the pattern means. *)
Lemma like_regexp p s : no_newline s -> MatchString (LikePatternToRegexp p) s = Some (like_match p s).
Proof.
  intros Hs. unfold MatchString. rewrite regexp_of_pattern. cbn [fmap option_fmap option_map]. f_equal.
  rewrite <- (like_tokens p s Hs). cbn [match_at andb]. rewrite (match_at_start _ s true false). destruct s as [|c s]; [by rewrite orb_false_r|].
  by rewrite match_inside_begin, orb_false_r.
Qed.
