(* ===== verification/EntityFilter.v ===== *)
(** * Filters on entities: [driver/entity/persistent/filter.go]

    The comparison of two values at a type, the operations of a filter, and what they mean
    when a value is null. *)
From Stdlib Require Import ZArith Lia QArith Ascii String.
From stdpp Require Import base numbers option strings pretty gmap list.
From S2P Require Import Prelude BlockCache RangeText EntityValue EntityHistory EntityMerge EntityTyping EntityCtrl EntityRich LikePattern.
#[local] Open Scope Z_scope.

Inductive EntityFilterOp : Type :=
| OpEq | OpNe | OpGt | OpGe | OpLt | OpLe | OpIn | OpNotIn | OpLike | OpNotLike | OpHasAll | OpHasAny | OpInvalid.

Definition EntityPrimaryFieldName : string := "id".

Inductive FilterError : Type := ValueCount | ArrayOperation | TypeOperation | OnlyOneDimension | InvalidOperation | ReverseForeignKey.

Definition ord (c : comparison) : Z := match c with Lt => -1 | Eq => 0 | Gt => 1 end.

Section Filter.
Context `{HD : Decimal} `{HC : !Conversions}.

Record EntityFilter : Type := mkFilter {
  fField : FieldDefinition;
  fOp : EntityFilterOp;
  fValue : list Value;
  idSet : option (gset string)
}.

Definition is_in_op (op : EntityFilterOp) : bool := match op with OpIn | OpNotIn => true | _ => false end.

(** The set of the ids, where every value is a string; [None] is an error. *)
Fixpoint string_set (l : list Value) : option (gset string) :=
  match l with
  | [] => Some ∅
  | VString s :: rest => (fun m => {[ s ]} ∪ m) <$> string_set rest
  | _ :: _ => None
  end.

Definition Init (f : EntityFilter) : option EntityFilter :=
  if bool_decide (FieldName (fField f) = EntityPrimaryFieldName) && is_in_op (fOp f)
  then (fun m => mkFilter (fField f) (fOp f) (fValue f) (Some m)) <$> string_set (fValue f)
  else Some f.

(** ** Comparing *)

(** [_unwrap]: the value behind the pointers; [None] is null. *)
Definition unwrap (v : Value) : option Value :=
  match deref_value v with
  | Some (VList None) => None
  | r => r
  end.

Definition as_string (v : Value) : Outcome string := match v with VString s => Ok s | _ => Panic end.
Definition as_bool (v : Value) : Outcome bool := match v with VBool b => Ok b | _ => Panic end.
Definition as_bigint (v : Value) : Outcome Z := match v with VBigInt z => Ok z | _ => Panic end.
Definition as_dec (v : Value) : Outcome dec := match v with VDec d => Ok d | _ => Panic end.
Definition must {A} (o : option A) : Outcome A := match o with Some a => Ok a | None => Panic end.

Definition cmp_strings (v1 v2 : Value) : Outcome Z :=
  let! a := as_string v1 in let! b := as_string v2 in Ok (ord (String.compare a b)).

Definition compare_scalar (name : string) (v1 v2 : Value) : Outcome Z :=
  if bool_decide (name = "Bytes" \/ name = "String" \/ name = "ID") then cmp_strings v1 v2
  else if bool_decide (name = "Boolean") then
    let! a := as_bool v1 in let! b := as_bool v2 in Ok (if Bool.eqb a b then 0 else if b then -1 else 1)
  else if bool_decide (name = "Int") then
    let! a := must (anyParseInt32 v1) in let! b := must (anyParseInt32 v2) in Ok (ord (a ?= b))
  else if bool_decide (name = "Timestamp") then
    let! a := must (anyParseInt v1) in let! b := must (anyParseInt v2) in Ok (ord (a ?= b))
  else if bool_decide (name = "Float") then
    let! a := must (anyParseFloat64 v1) in let! b := must (anyParseFloat64 v2) in Ok (float_cmp a b)
  else if bool_decide (name = "BigInt") then
    let! a := as_bigint v1 in let! b := as_bigint v2 in Ok (ord (a ?= b))
  else if bool_decide (name = "BigDecimal") then
    let! a := as_dec v1 in let! b := as_dec v2 in Ok (dCmp a b)
  else Panic.

(** The items of two slices one by one; [2] is returned at the first two that differ. *)
Fixpoint compare_items (cmp : Value -> Value -> Outcome Z) (l1 l2 : list Value) : Outcome Z :=
  match l1, l2 with
  | x :: t1, y :: t2 =>
      let! cr := cmp x y in
      if negb (cr =? 0) && negb (cr =? 3) then Ok 2 else compare_items cmp t1 t2
  | _, _ => Ok 0
  end.

(** -1, 0 and 1 as usual; 2 for slices that differ; 3 when both are null, 4 when the first
    is and 5 when the second is. The items are compared at the chain without its first
    layer. *)
Fixpoint compare (fieldType : TypeChain) (raw1 raw2 : Value) : Outcome Z :=
  match unwrap raw1, unwrap raw2 with
  | None, None => Ok 3
  | None, Some _ => Ok 4
  | Some _, None => Ok 5
  | Some v1, Some v2 =>
      if 0 <? CountListLayer fieldType then
        match v1, v2 with
        | VList (Some l1), VList (Some l2) =>
            if negb (Nat.eqb (length l1) (length l2)) then Ok 2
            else match fieldType with
                 | _ :: rest => compare_items (compare rest) l1 l2
                 | [] => Panic
                 end
        | _, _ => Panic
        end
      else
        let! inner := InnerType fieldType in
        match inner with
        | Scalar name => compare_scalar name v1 v2
        | EnumType _ | ObjectType _ | InterfaceType _ => cmp_strings v1 v2
        | _ => Panic
        end
  end.

(** ** The operations *)

(** 1 and 0 for like and unlike, 2 when one is null. *)
Definition like (raw1 raw2 : Value) : Outcome Z :=
  match unwrap raw1, unwrap raw2 with
  | Some v1, Some v2 =>
      let! s := as_string v1 in
      let! p := as_string v2 in
      let! m := must (MatchString (LikePatternToRegexp (lit p)) (lit s)) in
      Ok (if m then 1 else 0)
  | _, _ => Ok 2
  end.

Definition equal_result (cr : Z) : bool := (cr =? 0) || (cr =? 3).

(** [in]: the first value that is equal. *)
Fixpoint in_values (fieldType : TypeChain) (raw1 : Value) (values : list Value) : Outcome bool :=
  match values with
  | [] => Ok false
  | w :: rest => let! cr := compare fieldType raw1 w in if equal_result cr then Ok true else in_values fieldType raw1 rest
  end.

(** An item of [_unwrapArray]: what a nil pointer is stays nil, and an untyped nil has no
    value, so that reading it panics. *)
Definition unwrap_item (v : Value) : Value := default v (deref_value v).

Definition unwrapArray (v : Value) : list Value :=
  match unwrap v with Some (VList (Some l)) => map unwrap_item l | _ => [] end.

Definition item_interface (v : Value) : Outcome Value := match v with VNil => Panic | _ => Ok v end.

Fixpoint found_in (fieldType : TypeChain) (x : Value) (arr2 : list Value) : Outcome bool :=
  match arr2 with
  | [] => Ok false
  | y :: rest =>
      let! a := item_interface x in
      let! b := item_interface y in
      let! cr := compare fieldType a b in
      if equal_result cr then Ok true else found_in fieldType x rest
  end.

Fixpoint countIn (fieldType : TypeChain) (arr1 arr2 : list Value) : Outcome Z :=
  match arr1 with
  | [] => Ok 0
  | x :: rest =>
      let! f := found_in fieldType x arr2 in
      let! n := countIn fieldType rest arr2 in
      Ok (if f then n + 1 else n)
  end.

(** [reflect.Value.String] of an id: a text that is no id when it is not a string. *)
Definition id_text (v : Value) : string :=
  match unwrap v, v with
  | Some (VString s), _ => s
  | _, VNil => "<invalid Value>"
  | _, _ => "<other Value>"
  end.

(** ** [checkFilter] *)

Definition one_value (f : EntityFilter) : option Value := match fValue f with [w] => Some w | _ => None end.

Definition checkFilter (f : EntityFilter) (data : option (gmap string Value)) : Outcome (bool + FilterError) :=
  let vo := default VNil (default ∅ data !! FieldName (fField f)) in
  let chain := BreakType (FieldType (fField f)) in
  let array := 0 <? CountListLayer chain in
  match fOp f with
  | OpEq | OpNe =>
      match one_value f with
      | None => Ok (inr ValueCount)
      | Some w =>
          let! cr := compare chain vo w in
          Ok (inl (match fOp f with
                   | OpNe => negb (cr =? 0) && negb (cr =? 3) && negb (cr =? 4)
                   | _ => equal_result cr
                   end))
      end
  | OpGt | OpGe | OpLt | OpLe =>
      match one_value f with
      | None => Ok (inr ValueCount)
      | Some w =>
          if array then Ok (inr ArrayOperation)
          else
            let! cr := compare chain vo w in
            Ok (inl (match fOp f with
                     | OpGt => cr =? 1
                     | OpGe => (cr =? 1) || (cr =? 0)
                     | OpLt => cr =? -1
                     | _ => (cr <=? -1) || (cr =? 0)
                     end))
      end
  | OpIn | OpNotIn =>
      if array then Ok (inr ArrayOperation)
      else
        match fValue f with
        | [] => Ok (inl (match fOp f with OpIn => false | _ => true end))
        | _ =>
            let! cr := (match idSet f with
                        | Some ids => Ok (bool_decide (id_text vo ∈ ids))
                        | None => in_values chain vo (fValue f)
                        end) in
            Ok (inl (match fOp f with OpNotIn => negb cr | _ => cr end))
        end
  | OpLike | OpNotLike =>
      match one_value f with
      | None => Ok (inr ValueCount)
      | Some w =>
          if array then Ok (inr ArrayOperation)
          else
            let! inner := InnerType chain in
            match inner with
            | Scalar name =>
                if bool_decide (name = "String" \/ name = "ID") then
                  let! cr := like vo w in
                  Ok (inl (match fOp f with OpNotLike => cr =? 0 | _ => cr =? 1 end))
                else Ok (inr TypeOperation)
            | _ => Ok (inr TypeOperation)
            end
      end
  | OpHasAll | OpHasAny =>
      if negb (CountListLayer chain =? 1) then Ok (inr OnlyOneDimension)
      else
        let va := unwrapArray vo in
        let fa := unwrapArray (VList (Some (fValue f))) in
        let! isize := countIn (SkipListLayer chain 1) fa va in
        Ok (inl (match fOp f with
                 | OpHasAll => isize =? Z.of_nat (length fa)
                 | _ => 0 <? isize
                 end))
  | OpInvalid => Ok (inr InvalidOperation)
  end.

Fixpoint CheckFilters (filters : list EntityFilter) (data : option (gmap string Value)) : Outcome (bool + FilterError) :=
  match filters with
  | [] => Ok (inl true)
  | f :: rest =>
      let! r := checkFilter f data in
      match r with
      | inr e => Ok (inr e)
      | inl false => Ok (inl false)
      | inl true => CheckFilters rest data
      end
  end.

(** ** What the operations mean *)

(** The order of two values that are not null. *)
Definition value_order (v w : Value) : Z :=
  match v, w with
  | VString a, VString b => ord (String.compare a b)
  | VBool a, VBool b => if Bool.eqb a b then 0 else if b then -1 else 1
  | VInt32 a, VInt32 b => ord (a ?= b)
  | VInt64 a, VInt64 b => ord (a ?= b)
  | VFloat a, VFloat b => float_cmp a b
  | VBigInt a, VBigInt b => ord (a ?= b)
  | VDec a, VDec b => dCmp a b
  | _, _ => 0
  end.

(** A value without its pointer, at a type. *)
Definition plain_type (t : GType) (u : Value) : bool :=
  match inner t, u with
  | Scalar name, VString _ => is_text_scalar name
  | Scalar name, VBool _ => bool_decide (name = "Boolean")
  | Scalar name, VInt32 x => bool_decide (name = "Int") && fits_int32 x
  | Scalar name, VInt64 _ => is_long_scalar name
  | Scalar name, VFloat _ => bool_decide (name = "Float")
  | Scalar name, VBigInt _ => bool_decide (name = "BigInt")
  | Scalar name, VDec _ => bool_decide (name = "BigDecimal")
  | EnumType _, VString _ | ObjectType _, VString _ | InterfaceType _, VString _ => true
  | _, _ => false
  end.

(** A value of the type, with or without a pointer, or null. *)
Definition operand (t : GType) (v : Value) : bool :=
  match unwrap v with Some u => plain_type t u | None => true end.

Definition is_list_type (t : GType) : bool := 0 <? CountListLayer (BreakType t).

(** The types whose values can be compared. *)
Definition comparable (t : GType) : bool :=
  negb (is_list_type t) && match inner t with Scalar name => negb (bool_decide (name = "Int8")) | _ => true end.

Lemma InnerType_inner t : InnerType (BreakType t) = Ok (inner t).
Proof. unfold InnerType. by rewrite last_BreakType. Qed.

Lemma inner_base t : match inner t with NonNull _ | ListOf _ => False | _ => True end.
Proof. by induction t. Qed.

Lemma compare_null t v w :
  match unwrap v, unwrap w with
  | None, None => compare (BreakType t) v w = Ok 3
  | None, Some _ => compare (BreakType t) v w = Ok 4
  | Some _, None => compare (BreakType t) v w = Ok 5
  | _, _ => True
  end.
Proof. destruct t; simpl; destruct (unwrap v), (unwrap w); done. Qed.

Lemma compare_plain t v w u1 u2 :
  is_list_type t = false -> unwrap v = Some u1 -> unwrap w = Some u2 ->
  compare (BreakType t) v w =
  match inner t with Scalar name => compare_scalar name u1 u2 | NonNull _ | ListOf _ => Panic | _ => cmp_strings u1 u2 end.
Proof.
  unfold is_list_type. intros Hl H1 H2. pose proof (InnerType_inner t) as Hi. destruct (BreakType t) as [|x c] eqn:E; [by destruct t|].
  cbn [compare]. rewrite H1, H2, Hl, Hi. done.
Qed.

Lemma anyParseInt32_plain x : fits_int32 x = true -> must (anyParseInt32 (VInt32 x)) = Ok x.
Proof. intros Hx. by rewrite anyParseInt32_fits. Qed.

(** Values of a comparable type are compared, whatever they are. *)
Lemma compare_operands t v w u1 u2 :
  comparable t = true -> operand t v = true -> operand t w = true -> unwrap v = Some u1 -> unwrap w = Some u2 ->
  compare (BreakType t) v w = Ok (value_order u1 u2).
Proof.
  unfold comparable, operand. intros [Hl Hc]%andb_true_iff Hv Hw H1 H2. rewrite H1 in Hv. rewrite H2 in Hw.
  rewrite (compare_plain t v w u1 u2) by (done || by apply negb_true_iff in Hl).
  unfold plain_type, is_text_scalar, is_long_scalar in *. pose proof (inner_base t) as Hb. destruct (inner t) as [| |name|vs|n|n]; try done.
  2-4: destruct u1; try done; destruct u2; done.
  destruct u1; try done; breflect;
    repeat match goal with H : bool_decide _ = true |- _ => apply bool_decide_eq_true in H end;
    try (destruct Hv as [->|[->| ->]]); try (destruct Hv as [->| ->]); subst;
    destruct u2; try done; breflect;
    repeat match goal with H : bool_decide _ = true |- _ => apply bool_decide_eq_true in H end; try done;
    try (exfalso; naive_solver).
  unfold compare_scalar. cbn [bool_decide]. repeat (rewrite bool_decide_eq_false_2 by naive_solver). rewrite bool_decide_eq_true_2 by done.
  by rewrite !anyParseInt32_plain.
Qed.

(** A field of type [Int8] cannot be compared. *)
Lemma compare_Int8 t v w u1 u2 :
  is_list_type t = false -> inner t = Scalar "Int8" -> unwrap v = Some u1 -> unwrap w = Some u2 -> compare (BreakType t) v w = Panic.
Proof. intros Hl Hi H1 H2. rewrite (compare_plain t v w u1 u2) by done. by rewrite Hi. Qed.

(** The table of the operations on one value, nulls included. *)
Definition holds (op : EntityFilterOp) (v w : option Value) : bool :=
  match v, w with
  | Some a, Some b =>
      let o := value_order a b in
      match op with
      | OpEq => o =? 0
      | OpNe => negb (o =? 0)
      | OpGt => 0 <? o
      | OpGe => 0 <=? o
      | OpLt => o <? 0
      | OpLe => o <=? 0
      | _ => false
      end
  | None, None => match op with OpEq => true | _ => false end
  | Some _, None => match op with OpNe => true | _ => false end
  | None, Some _ => false
  end.

Definition is_order_op (op : EntityFilterOp) : bool :=
  match op with OpEq | OpNe | OpGt | OpGe | OpLt | OpLe => true | _ => false end.

Definition field_value (f : EntityFilter) (data : option (gmap string Value)) : Value :=
  default VNil (default ∅ data !! FieldName (fField f)).

Section Laws.
Context `{HL : !DecimalLaws} `{HCL : !ConversionLaws}.

Lemma ord_range c : -1 <= ord c <= 1.
Proof. by destruct c. Qed.

Lemma value_order_range v w : -1 <= value_order v w <= 1.
Proof.
  destruct v, w; simpl; try lia; try apply ord_range; [|apply float_cmp_range|rewrite dCmp_value; by destruct (Qcompare _ _)].
  by repeat match goal with b : bool |- _ => destruct b end.
Qed.

Lemma equal_result_holds t v w :
  comparable t = true -> operand t v = true -> operand t w = true ->
  exists cr, compare (BreakType t) v w = Ok cr /\ equal_result cr = holds OpEq (unwrap v) (unwrap w).
Proof.
  intros Hc Hv Hw. pose proof (compare_null t v w) as Hn. destruct (unwrap v) as [u1|] eqn:E1, (unwrap w) as [u2|] eqn:E2.
  2-4: by rewrite Hn; eexists.
  rewrite (compare_operands t v w u1 u2) by done. eexists. split; [done|]. pose proof (value_order_range u1 u2). unfold equal_result. cbn.
  repeat bcase; lia || done.
Qed.

(** A comparison with one value. *)
Lemma check_order f data w :
  is_order_op (fOp f) = true -> fValue f = [w] -> comparable (FieldType (fField f)) = true ->
  operand (FieldType (fField f)) (field_value f data) = true -> operand (FieldType (fField f)) w = true ->
  checkFilter f data = Ok (inl (holds (fOp f) (unwrap (field_value f data)) (unwrap w))).
Proof.
  intros Ho Hval Hc Hv Hw. unfold checkFilter. fold (field_value f data). set (v := field_value f data) in *. unfold one_value. rewrite Hval.
  assert (Hl : (0 <? CountListLayer (BreakType (FieldType (fField f)))) = false).
  { unfold comparable, is_list_type in Hc. apply andb_true_iff in Hc as [Hc _]. by apply negb_true_iff in Hc. }
  rewrite Hl. pose proof (compare_null (FieldType (fField f)) v w) as Hn.
  destruct (unwrap v) as [u1|] eqn:E1, (unwrap w) as [u2|] eqn:E2; [|rewrite Hn; by destruct (fOp f)..].
  rewrite (compare_operands _ v w u1 u2) by done. pose proof (value_order_range u1 u2). destruct (fOp f); try done; cbn [obind holds]; do 2 f_equal;
    unfold equal_result; set (o := value_order u1 u2) in *; clearbody o; repeat bcase; try lia; done.
Qed.

Lemma in_values_holds t v values :
  comparable t = true -> operand t v = true -> Forall (fun w => operand t w = true) values ->
  in_values (BreakType t) v values = Ok (existsb (fun w => holds OpEq (unwrap v) (unwrap w)) values).
Proof.
  intros Hc Hv. induction 1 as [|w values Hw _ IH]; [done|]. cbn [in_values existsb].
  destruct (equal_result_holds t v w Hc Hv Hw) as (cr & -> & <-). cbn [obind]. destruct (equal_result cr); [done|]. exact IH.
Qed.

(** [IN] and [NOT IN]: the value is, or is not, equal to one of the list. *)
Lemma check_in f data :
  is_in_op (fOp f) = true -> idSet f = None -> comparable (FieldType (fField f)) = true ->
  operand (FieldType (fField f)) (field_value f data) = true -> Forall (fun w => operand (FieldType (fField f)) w = true) (fValue f) ->
  let found := existsb (fun w => holds OpEq (unwrap (field_value f data)) (unwrap w)) (fValue f) in
  checkFilter f data = Ok (inl (match fOp f with OpIn => found | _ => negb found end)).
Proof.
  intros Ho Hid Hc Hv Hw found. unfold checkFilter. fold (field_value f data).
  assert (Hl : (0 <? CountListLayer (BreakType (FieldType (fField f)))) = false).
  { unfold comparable, is_list_type in Hc. apply andb_true_iff in Hc as [Hc' _]. by apply negb_true_iff in Hc'. }
  rewrite Hl, Hid. unfold found. destruct (fOp f); try done; destruct (fValue f) as [|w l] eqn:Ef; try done;
    rewrite in_values_holds by done; done.
Qed.

(** ** Arrays *)

(** A slice type of one dimension with items of type [u]. *)
Definition slice_of (t u : GType) : Prop := t = ListOf u \/ t = NonNull (ListOf u).

Lemma slice_layers t u : slice_of t u -> CountListLayer (BreakType t) = 1 + CountListLayer (BreakType u).
Proof. by intros [->| ->]; cbn [BreakType]; rewrite !CountListLayer_cons. Qed.

Lemma slice_skip t u : slice_of t u -> SkipListLayer (BreakType t) 1 = BreakType u.
Proof. by intros [->| ->]. Qed.

Lemma comparable_layers u : comparable u = true -> CountListLayer (BreakType u) = 0.
Proof.
  unfold comparable, is_list_type. intros [Hl _]%andb_true_iff. apply negb_true_iff, Z.ltb_ge in Hl. unfold CountListLayer in *. lia.
Qed.

(** An item: of the type, and no untyped nil. *)
Definition item (u : GType) (v : Value) : bool := operand u v && match v with VNil => false | _ => true end.

Definition same_item (x y : Value) : bool := holds OpEq (unwrap x) (unwrap y).

Lemma unwrap_item_same v : unwrap (unwrap_item v) = unwrap v.
Proof. by destruct v as [|s|[s|]|b|[b|]|x|[x|]|x|[x|]|x|[x|]|z|[z|]|d|[d|]|l]. Qed.

Lemma item_unwrapped u v : item u v = true -> item u (unwrap_item v) = true.
Proof.
  unfold item, operand. rewrite unwrap_item_same. intros [H1 H2]%andb_true_iff. rewrite H1. cbn.
  by destruct v as [|s|[s|]|b|[b|]|x|[x|]|x|[x|]|x|[x|]|z|[z|]|d|[d|]|l].
Qed.

Lemma item_interface_ok u v : item u v = true -> item_interface v = Ok v.
Proof. by destruct v; unfold item; rewrite ?andb_false_r. Qed.

Lemma found_in_spec u x l :
  comparable u = true -> item u x = true -> Forall (fun y => item u y = true) l ->
  found_in (BreakType u) x l = Ok (existsb (same_item x) l).
Proof.
  intros Hc Hx. induction 1 as [|y l Hy _ IH]; [done|]. cbn [found_in existsb].
  rewrite (item_interface_ok u x), (item_interface_ok u y) by done. cbn [obind].
  unfold item in Hx, Hy. apply andb_true_iff in Hx as [Hx _], Hy as [Hy _].
  destruct (equal_result_holds u x y Hc Hx Hy) as (cr & -> & Hcr). cbn [obind]. unfold same_item. rewrite <- Hcr.
  destruct (equal_result cr); [done|]. exact IH.
Qed.

Lemma countIn_spec u a b :
  comparable u = true -> Forall (fun y => item u y = true) a -> Forall (fun y => item u y = true) b ->
  countIn (BreakType u) a b = Ok (Z.of_nat (length (filter (fun x => existsb (same_item x) b = true) a))).
Proof.
  intros Hc Ha Hb. induction Ha as [|x a Hx _ IH]; [done|]. cbn [countIn]. rewrite found_in_spec by done. cbn [obind]. rewrite IH. cbn [obind].
  rewrite filter_cons. destruct (existsb (same_item x) b); simpl; [f_equal; lia|done].
Qed.

(** The items of a value; a null slice has none. *)
Definition items (v : Value) : list Value := match unwrap v with Some (VList (Some l)) => l | _ => [] end.

Lemma unwrapArray_items v : unwrapArray v = map unwrap_item (items v).
Proof. unfold unwrapArray, items. destruct (unwrap v) as [[]|]; try done. by destruct l. Qed.

Lemma same_item_unwrapped x l : existsb (same_item (unwrap_item x)) (map unwrap_item l) = existsb (same_item x) l.
Proof. induction l as [|y l IH]; [done|]. simpl. rewrite IH. unfold same_item. by rewrite !unwrap_item_same. Qed.

(** [HAS_ALL] and [HAS_ANY]: every value, or some value, is among the items. *)
Lemma check_has f data u :
  fOp f = OpHasAll \/ fOp f = OpHasAny -> slice_of (FieldType (fField f)) u -> comparable u = true ->
  Forall (fun y => item u y = true) (items (field_value f data)) -> Forall (fun y => item u y = true) (fValue f) ->
  let found x := existsb (same_item x) (items (field_value f data)) in
  checkFilter f data = Ok (inl (match fOp f with OpHasAll => forallb found (fValue f) | _ => existsb found (fValue f) end)).
Proof.
  intros Ho Hs Hc Hv Hw found. unfold checkFilter. fold (field_value f data).
  rewrite (slice_layers _ u Hs), (comparable_layers u Hc), (slice_skip _ u Hs), !unwrapArray_items.
  change (items (VList (Some (fValue f)))) with (fValue f). change (negb (1 + 0 =? 1)) with false. cbv zeta.
  rewrite countIn_spec; [|done|apply Forall_map; eapply Forall_impl; [exact Hw|]; apply item_unwrapped
    |apply Forall_map; eapply Forall_impl; [exact Hv|]; apply item_unwrapped].
  assert (Hf : length (filter (fun x => existsb (same_item x) (map unwrap_item (items (field_value f data))) = true) (map unwrap_item (fValue f))) =
    length (filter (fun x => found x = true) (fValue f))).
  { induction (fValue f) as [|x l IH]; [done|]. cbn [map]. rewrite !filter_cons. apply Forall_cons in Hw as [_ Hw].
    pose proof (same_item_unwrapped x (items (field_value f data))) as E. fold (found x) in E.
    case_decide as D1; case_decide as D2; rewrite E in D1; try done; simpl; by rewrite IH. }
  rewrite Hf. cbn [obind]. rewrite length_map. clear Hf Hw.
  assert (Hlen : forall l, (length (filter (fun x => found x = true) l) <= length l)%nat) by (intros l; apply length_filter).
  destruct Ho as [->| ->]; do 2 f_equal.
  - induction (fValue f) as [|x l IH]; [done|]. specialize (Hlen l). cbn [forallb length]. rewrite filter_cons, <- IH. clear IH.
    destruct (found x); cbn [andb]; [rewrite decide_True by done|rewrite decide_False by done; apply Z.eqb_neq; lia]. apply eq_true_iff_eq. rewrite !Z.eqb_eq. cbn [length]. lia.
  - induction (fValue f) as [|x l IH]; [done|]. cbn [existsb]. rewrite filter_cons, <- IH. by destruct (found x).
Qed.

(** ** [LIKE] *)

Definition like_type (t : GType) : Prop := is_list_type t = false /\ (inner t = Scalar "String" \/ inner t = Scalar "ID").

(** A text is like a pattern when the pattern means it; null is like nothing, and not
    unlike anything. *)
Lemma check_like f data p :
  fOp f = OpLike \/ fOp f = OpNotLike -> like_type (FieldType (fField f)) -> fValue f = [VString p] ->
  match unwrap (field_value f data) with
  | None => checkFilter f data = Ok (inl false)
  | Some u => forall s, u = VString s -> no_newline (lit s) ->
      checkFilter f data = Ok (inl (match fOp f with OpLike => like_match (lit p) (lit s) | _ => negb (like_match (lit p) (lit s)) end))
  end.
Proof.
  intros Ho [Hl Ht] Hval. unfold checkFilter. fold (field_value f data). set (v := field_value f data). unfold one_value. rewrite Hval.
  unfold is_list_type in Hl. rewrite Hl, InnerType_inner. cbn [obind].
  assert (Hin : exists name, inner (FieldType (fField f)) = Scalar name /\ bool_decide (name = "String" \/ name = "ID") = true)
    by (destruct Ht as [->| ->]; by eexists).
  destruct Hin as (name & -> & Hn). rewrite Hn. unfold like. destruct (unwrap v) as [u|]; [|by destruct Ho as [->| ->]].
  intros s -> Hs. cbn [unwrap deref_value as_string obind]. rewrite like_regexp by done. cbn [must obind].
  destruct Ho as [->| ->]; by destruct (like_match (lit p) (lit s)).
Qed.
End Laws.

(** ** Slices *)

(** Two non-null slices of the same length at a type that is not nullable: the items are
    compared at the slice type, which panics. *)
Lemma compare_slices_panic u x y l1 l2 v1 v2 :
  length l1 = length l2 -> unwrap x = Some v1 -> unwrap y = Some v2 ->
  match v1 with VList _ => False | _ => True end ->
  compare (BreakType (NonNull (ListOf u))) (VList (Some (x :: l1))) (VList (Some (y :: l2))) = Panic.
Proof.
  intros Hlen H1 H2 Hv. assert (Hpos : forall c, (0 <? CountListLayer (ListOf u :: c)) = true).
  { intros c. rewrite CountListLayer_cons. cbn [is_list_layer]. apply Z.ltb_lt. unfold CountListLayer. lia. }
  assert (Hpos2 : forall c, (0 <? CountListLayer (NonNull (ListOf u) :: ListOf u :: c)) = true).
  { intros c. rewrite CountListLayer_cons. cbn [is_list_layer]. rewrite Z.add_0_l. apply Hpos. }
  cbn [BreakType]. change (compare (NonNull (ListOf u) :: ListOf u :: BreakType u)) with
    (fun raw1 raw2 => compare (NonNull (ListOf u) :: ListOf u :: BreakType u) raw1 raw2).
  cbn [compare unwrap deref_value]. rewrite Hpos2. cbn [length Nat.eqb]. rewrite Hlen, Nat.eqb_refl. cbn [negb compare_items].
  rewrite H1, H2, Hpos. by destruct v1.
Qed.
End Filter.
