(* ===== verification/EntitySql.v ===== *)
(** * Filters as SQL conditions: [driver/entity/clickhouse/entity_list.go]

    The condition that is built of a filter for a query, as a syntax tree in the place of
    the text, and its meaning in SQL, where a comparison with null is unknown and a row is
    selected only where the condition is true. How a value is written into a column is the
    business of the fields of [schema.go]; here a column has the value itself. *)
From Stdlib Require Import ZArith Lia QArith Ascii String.
From stdpp Require Import base numbers option strings pretty gmap list.
From S2P Require Import Prelude BlockCache RangeText EntityValue EntityHistory EntityMerge EntityTyping EntityCtrl EntityRich LikePattern EntityFilter.
#[local] Open Scope Z_scope.

Section Sql.
Context `{HD : Decimal} `{HC : !Conversions}.

(** ** Conditions *)

Inductive Condition : Type :=
| CBool (b : bool)
| CNull (field : string) (isNull : bool)
| CCompare (field : string) (op : EntityFilterOp) (param : Value)
| CIn (field : string) (neg : bool) (params : list Value)
| CInTable (field : string) (neg : bool) (rows : list Value)
| CLike (field : string) (neg : bool) (param : Value)
| CHas (field : string) (all : bool) (params : list Value)
| CAnd (c1 c2 : Condition)
| COr (c1 c2 : Condition).

(** [_isNil] *)
Definition isNil_sql (v : Value) : bool :=
  match v with
  | VNil | VStringP None | VBoolP None | VInt32P None | VInt64P None | VFloatP None | VBigIntP None | VDecP None | VList None => true
  | _ => false
  end.

(** The text scalars that can be matched with a pattern. *)
Definition likeable (t : GType) : bool :=
  match inner t with Scalar name => bool_decide (name = "String" \/ name = "ID") | _ => false end.

(** [buildCondition] with the limit [HugeIDSetSize]: beyond it the ids go to a temporary
    table. *)
Definition buildCondition (hugeIDSetSize : Z) (f : EntityFilter) : Condition + FilterError :=
  let field := FieldName (fField f) in
  let chain := BreakType (FieldType (fField f)) in
  let array := 0 <? CountListLayer chain in
  if DerivedFrom (fField f) then inr ReverseForeignKey
  else
    match fOp f with
    | OpEq | OpNe =>
        match one_value f with
        | None => inr ValueCount
        | Some raw =>
            if isNil_sql raw then inl (CNull field (match fOp f with OpEq => true | _ => false end))
            else inl (CCompare field (fOp f) raw)
        end
    | OpGt | OpGe | OpLt | OpLe =>
        match one_value f with
        | None => inr ValueCount
        | Some raw =>
            if array then inr ArrayOperation
            else if isNil_sql raw then inl (CBool false)
            else inl (CAnd (CCompare field (fOp f) raw) (CNull field false))
        end
    | OpIn | OpNotIn =>
        let neg := match fOp f with OpIn => false | _ => true end in
        if array then inr ArrayOperation
        else
          match fValue f with
          | [] => inl (CBool neg)
          | _ =>
              if bool_decide (field = EntityPrimaryFieldName) && (hugeIDSetSize <? Z.of_nat (length (fValue f))) then
                inl (CInTable field neg (fValue f))
              else
                let params := filter (fun v => isNil_sql v = false) (fValue f) in
                let hasNil := existsb isNil_sql (fValue f) in
                match params with
                | [] => inl (CNull field (negb neg))
                | _ =>
                    let c := CIn field neg params in
                    inl (if hasNil then
                           if neg then CAnd c (CNull field false) else COr c (CNull field true)
                         else if neg then COr c (CNull field true) else c)
                end
          end
    | OpLike | OpNotLike =>
        match one_value f with
        | None => inr ValueCount
        | Some raw =>
            if array then inr ArrayOperation
            else if negb (likeable (FieldType (fField f))) then inr TypeOperation
            else if isNil_sql raw then inl (CBool false)
            else inl (CLike field (match fOp f with OpLike => false | _ => true end) raw)
        end
    | OpHasAll | OpHasAny =>
        if negb (CountListLayer chain =? 1) then inr OnlyOneDimension
        else inl (CHas field (match fOp f with OpHasAll => true | _ => false end) (fValue f))
    | OpInvalid => inr InvalidOperation
    end.

Fixpoint buildConditions (hugeIDSetSize : Z) (fs : list EntityFilter) : list Condition + FilterError :=
  match fs with
  | [] => inl []
  | f :: rest =>
      match buildCondition hugeIDSetSize f with
      | inr e => inr e
      | inl c => match buildConditions hugeIDSetSize rest with inr e => inr e | inl cs => inl (c :: cs) end
      end
  end.

Definition splitFilters (fs : list EntityFilter) : list EntityFilter * list EntityFilter :=
  (filter (fun f => FieldName (fField f) = EntityPrimaryFieldName) fs,
   filter (fun f => FieldName (fField f) <> EntityPrimaryFieldName) fs).

(** ** Their meaning *)

Definition sql_not (a : option bool) : option bool := negb <$> a.

Definition sql_and (a b : option bool) : option bool :=
  match a, b with
  | Some false, _ | _, Some false => Some false
  | Some true, x => x
  | None, _ => None
  end.

Definition sql_or (a b : option bool) : option bool := sql_not (sql_and (sql_not a) (sql_not b)).

(** [x IN (v1, v2, ...)] is [x = v1 OR x = v2 OR ...]. *)
Definition sql_eq (x v : Value) : option bool :=
  match unwrap x, unwrap v with Some a, Some b => Some (holds OpEq (Some a) (Some b)) | _, _ => None end.

Fixpoint sql_in (x : Value) (params : list Value) : option bool :=
  match params with
  | [] => Some false
  | v :: rest => sql_or (sql_eq x v) (sql_in x rest)
  end.

Definition sql_like (x p : Value) : option bool :=
  match unwrap x, unwrap p with
  | Some (VString s), Some (VString p) => Some (like_match (lit p) (lit s))
  | _, _ => None
  end.

Definition negate (neg : bool) (a : option bool) : option bool := if neg then sql_not a else a.

Fixpoint eval_condition (row : string -> Value) (c : Condition) : option bool :=
  match c with
  | CBool b => Some b
  | CNull field isNull => Some (Bool.eqb isNull (match unwrap (row field) with None => true | Some _ => false end))
  | CCompare field op param =>
      match unwrap (row field), unwrap param with
      | Some a, Some b => Some (holds op (Some a) (Some b))
      | _, _ => None
      end
  | CIn field neg params => negate neg (sql_in (row field) params)
  | CInTable field neg rows => negate neg (sql_in (row field) rows)
  | CLike field neg param => negate neg (sql_like (row field) param)
  | CHas field all params =>
      let found x := existsb (same_item x) (items (row field)) in
      Some (if all then forallb found params else existsb found params)
  | CAnd c1 c2 => sql_and (eval_condition row c1) (eval_condition row c2)
  | COr c1 c2 => sql_or (eval_condition row c1) (eval_condition row c2)
  end.

(** A row is selected where the condition is true. *)
Definition selected (row : string -> Value) (c : Condition) : bool := match eval_condition row c with Some true => true | _ => false end.

Definition selected_all (row : string -> Value) (cs : list Condition) : bool := forallb (selected row) cs.

(** Rows with the same columns are selected alike. *)
Lemma eval_condition_ext row row' c : (forall f, row f = row' f) -> eval_condition row c = eval_condition row' c.
Proof. intros H. induction c as [| | | | | | |c1 IH1 c2 IH2|c1 IH1 c2 IH2]; cbn; rewrite ?H, ?IH1, ?IH2; done. Qed.

Lemma selected_all_ext row row' cs : (forall f, row f = row' f) -> selected_all row cs = selected_all row' cs.
Proof.
  intros H. unfold selected_all. induction cs as [|c cs IH]; [done|]. cbn. rewrite IH. f_equal. unfold selected. by rewrite (eval_condition_ext row row').
Qed.

(** ** The conditions mean what the filters mean *)

Definition row_of (data : option (gmap string Value)) (field : string) : Value := default VNil (default ∅ data !! field).

Lemma row_field f data : row_of data (FieldName (fField f)) = field_value f data.
Proof. done. Qed.

Lemma isNil_unwrap v : isNil_sql v = match unwrap v with None => true | Some _ => false end.
Proof. by destruct v as [|s|[s|]|b|[b|]|x|[x|]|x|[x|]|x|[x|]|z|[z|]|d|[d|]|[l|]]. Qed.

Lemma sql_or_true a b : sql_or a b = Some true <-> a = Some true \/ b = Some true.
Proof. destruct a as [[]|], b as [[]|]; cbn; naive_solver. Qed.

Lemma sql_in_value x a params :
  unwrap x = Some a -> Forall (fun v => isNil_sql v = false) params ->
  sql_in x params = Some (existsb (fun w => holds OpEq (unwrap x) (unwrap w)) params).
Proof.
  intros Hx. induction 1 as [|v params Hv _ IH]; [done|]. cbn [sql_in existsb]. rewrite IH. unfold sql_eq. rewrite Hx.
  rewrite isNil_unwrap in Hv. destruct (unwrap v) as [b|]; [|done].
  generalize (holds OpEq (Some a) (Some b)), (existsb (fun w => holds OpEq (Some a) (unwrap w)) params). by intros [] [].
Qed.

Lemma sql_in_null x v params : unwrap x = None -> sql_in x (v :: params) = None.
Proof.
  intros Hx. assert (Heq : forall w, sql_eq x w = None) by (intros w; unfold sql_eq; by rewrite Hx).
  revert v. induction params as [|w params IH]; intros v; cbn [sql_in] in *; rewrite Heq; [done|]. by rewrite IH.
Qed.

(** The values of a list that are not null. *)
Lemma existsb_null_split (x : option Value) values :
  existsb (fun w => holds OpEq x (unwrap w)) values =
  match x with
  | Some _ => existsb (fun w => holds OpEq x (unwrap w)) (filter (fun v => isNil_sql v = false) values)
  | None => existsb isNil_sql values
  end.
Proof.
  induction values as [|w values IH]; [by destruct x|]. cbn [existsb]. rewrite IH, filter_cons.
  pose proof (isNil_unwrap w) as Hw. destruct (unwrap w) as [b|] eqn:Eb; rewrite Hw; destruct x as [a|];
    rewrite ?decide_True, ?decide_False by done; cbn [existsb]; rewrite ?Eb; done.
Qed.

(** A filter whose values have the type of its field, on data that has. *)
Definition filter_typed (f : EntityFilter) (data : option (gmap string Value)) : Prop :=
  let t := FieldType (fField f) in
  let v := field_value f data in
  DerivedFrom (fField f) = false /\
  match fOp f with
  | OpEq | OpNe => comparable t = true /\ operand t v = true /\ Forall (fun w => operand t w = true) (fValue f)
  | OpGt | OpGe | OpLt | OpLe =>
      is_list_type t = true \/ comparable t = true /\ operand t v = true /\ Forall (fun w => operand t w = true) (fValue f)
  | OpIn | OpNotIn =>
      is_list_type t = true \/
      comparable t = true /\ operand t v = true /\ Forall (fun w => operand t w = true) (fValue f) /\
      (FieldName (fField f) <> EntityPrimaryFieldName /\ idSet f = None \/
       (exists s, v = VString s) /\ exists ids, string_set (fValue f) = Some ids /\ (idSet f = None \/ idSet f = Some ids))
  | OpLike | OpNotLike =>
      is_list_type t = true \/ likeable t = false \/
      (unwrap v = None \/ exists s, unwrap v = Some (VString s) /\ no_newline (lit s)) /\
      Forall (fun w => isNil_sql w = true \/ exists p, w = VString p) (fValue f)
  | OpHasAll | OpHasAny =>
      CountListLayer (BreakType t) <> 1 \/
      exists u, slice_of t u /\ comparable u = true /\ Forall (fun y => item u y = true) (items v) /\ Forall (fun y => item u y = true) (fValue f)
  | OpInvalid => True
  end.

Section Agreement.
Context `{HL : !DecimalLaws} `{HCL : !ConversionLaws}.

Lemma one_value_some f w : one_value f = Some w -> fValue f = [w].
Proof. unfold one_value. destruct (fValue f) as [|? []]; try done. by intros [= ->]. Qed.

Definition agrees (hugeIDSetSize : Z) (f : EntityFilter) (data : option (gmap string Value)) : Prop :=
  checkFilter f data = Ok (match buildCondition hugeIDSetSize f with
                           | inl c => inl (selected (row_of data) c)
                           | inr e => inr e
                           end).

(** The cases of a field and a value that may be null. *)
Ltac three_valued Eb :=
  cbn -[holds]; rewrite ?row_field, ?Eb;
  match goal with |- context [unwrap (field_value ?f ?data)] => destruct (unwrap (field_value f data)) as [?|] | _ => idtac end;
  cbn -[holds value_order]; try done; try match goal with |- context [holds ?o (Some ?x) (Some ?y)] => by destruct (holds o (Some x) (Some y)) end.

Lemma order_agrees h f data : is_order_op (fOp f) = true -> filter_typed f data -> agrees h f data.
Proof.
  intros Ho [Hd Ht]. unfold agrees, buildCondition. rewrite Hd.
  assert (Hcmp : forall w, one_value f = Some w -> comparable (FieldType (fField f)) = true ->
    operand (FieldType (fField f)) (field_value f data) = true -> Forall (fun w => operand (FieldType (fField f)) w = true) (fValue f) ->
    checkFilter f data = Ok (inl (holds (fOp f) (unwrap (field_value f data)) (unwrap w)))).
  { intros w Hw%one_value_some H1 H2 H3. rewrite Hw in H3. apply Forall_cons in H3 as [H3 _]. exact (check_order f data w Ho Hw H1 H2 H3). }
  destruct (fOp f) eqn:Eo; try done; destruct (one_value f) as [w|] eqn:Ew.
  all: try (unfold checkFilter; rewrite Eo, Ew; done).
  1,2: destruct Ht as (H1 & H2 & H3); rewrite (Hcmp w) by done; rewrite isNil_unwrap; unfold selected; destruct (unwrap w) as [b|] eqn:Eb; three_valued Eb.
  all: destruct Ht as [Hl|(H1 & H2 & H3)]; [unfold is_list_type in Hl; rewrite Hl; unfold checkFilter; by rewrite Eo, Ew, Hl|].
  all: assert (Hl : (0 <? CountListLayer (BreakType (FieldType (fField f)))) = false)
    by (unfold comparable, is_list_type in H1; apply andb_true_iff in H1 as [H1 _]; by apply negb_true_iff in H1).
  all: rewrite Hl, (Hcmp w) by done; rewrite isNil_unwrap; unfold selected; destruct (unwrap w) as [b|] eqn:Eb; three_valued Eb.
Qed.

Lemma string_set_spec values ids :
  string_set values = Some ids ->
  Forall (fun w => isNil_sql w = false) values /\
  forall s, existsb (fun w => holds OpEq (Some (VString s)) (unwrap w)) values = bool_decide (s ∈ ids).
Proof.
  revert ids. induction values as [|w values IH]; intros ids; cbn [string_set];
    [intros [= <-]; split; [done|]; intros s; by rewrite bool_decide_eq_false_2 by set_solver|].
  destruct w as [|x| | | | | | | | | | | | | |]; try done. destruct (string_set values) as [m|] eqn:E; [|done]. cbn [fmap option_fmap option_map]. intros [= <-].
  destruct (IH m eq_refl) as [H1 H2]. split; [by constructor|]. intros s. cbn [existsb]. rewrite H2. cbn [unwrap deref_value holds value_order].
  destruct (decide (s = x)) as [->|Hne].
  - pose proof (String.compare_antisym x x) as Hx. destruct (String.compare x x); try done. cbn. by rewrite bool_decide_eq_true_2 by set_solver.
  - destruct (String.compare s x) eqn:Ec; [by apply String.compare_eq_iff in Ec|..]; cbn; apply bool_decide_ext; set_solver.
Qed.

(** What [IN] means in the two places. *)
Definition found_among (v : Value) (values : list Value) : bool := existsb (fun w => holds OpEq (unwrap v) (unwrap w)) values.

Lemma in_condition_selected data field neg values :
  values <> [] ->
  let params := filter (fun v => isNil_sql v = false) values in
  let hasNil := existsb isNil_sql values in
  selected (row_of data)
    (match params with
     | [] => CNull field (negb neg)
     | _ => let c := CIn field neg params in
            if hasNil then if neg then CAnd c (CNull field false) else COr c (CNull field true)
            else if neg then COr c (CNull field true) else c
     end) = (if neg then negb (found_among (row_of data field) values) else found_among (row_of data field) values).
Proof.
  intros Hne params hasNil. unfold found_among. rewrite existsb_null_split. fold params hasNil.
  assert (Hp : Forall (fun v => isNil_sql v = false) params) by (apply Forall_forall; by intros v [? _]%list_elem_of_filter).
  assert (Hnil : params = [] -> hasNil = true).
  { intros E. destruct values as [|w l]; [done|]. unfold params in E. rewrite filter_cons in E. unfold hasNil. cbn.
    destruct (isNil_sql w); [done|]. by rewrite decide_True in E. }
  destruct params as [|p ps] eqn:Ep.
  - rewrite (Hnil eq_refl). unfold selected. cbn. destruct (unwrap (row_of data field)); by destruct neg.
  - destruct (unwrap (row_of data field)) as [x|] eqn:Ex.
    + assert (Hin : sql_in (row_of data field) (p :: ps) = Some (existsb (fun w => holds OpEq (Some x) (unwrap w)) (p :: ps)))
        by (rewrite <- Ex; by apply (sql_in_value _ x)).
      revert Hin. generalize (existsb (fun w => holds OpEq (Some x) (unwrap w)) (p :: ps)). intros b Hin.
      destruct hasNil, neg; unfold selected; cbn -[sql_in]; rewrite Hin, ?Ex; by destruct b.
    + assert (Hin : sql_in (row_of data field) (p :: ps) = None) by by apply sql_in_null.
      destruct hasNil, neg; unfold selected; cbn -[sql_in]; rewrite Hin, ?Ex; done.
Qed.

Lemma in_agrees h f data : is_in_op (fOp f) = true -> filter_typed f data -> agrees h f data.
Proof.
  intros Ho [Hd Ht]. unfold agrees, buildCondition. rewrite Hd. set (v := field_value f data) in *.
  assert (Hcases : (0 <? CountListLayer (BreakType (FieldType (fField f)))) = true \/
    (0 <? CountListLayer (BreakType (FieldType (fField f)))) = false /\
    (forall w l, fValue f = w :: l -> checkFilter f data = Ok (inl (match fOp f with OpNotIn => negb (found_among v (fValue f)) | _ => found_among v (fValue f) end))) /\
    (FieldName (fField f) = EntityPrimaryFieldName -> (exists s, v = VString s) /\ Forall (fun w => isNil_sql w = false) (fValue f))).
  { assert (Ht' : is_list_type (FieldType (fField f)) = true \/
      comparable (FieldType (fField f)) = true /\ operand (FieldType (fField f)) v = true /\ Forall (fun w => operand (FieldType (fField f)) w = true) (fValue f) /\
      (FieldName (fField f) <> EntityPrimaryFieldName /\ idSet f = None \/
       (exists s, v = VString s) /\ exists ids, string_set (fValue f) = Some ids /\ (idSet f = None \/ idSet f = Some ids)))
      by (destruct (fOp f); done).
    destruct Ht' as [Hl|(H1 & H2 & H3 & H4)]; [by left|right].
    assert (Hl : (0 <? CountListLayer (BreakType (FieldType (fField f)))) = false)
      by (unfold comparable, is_list_type in H1; apply andb_true_iff in H1 as [H1' _]; by apply negb_true_iff in H1').
    split; [done|]. split.
    - intros w l Hv. destruct H4 as [[_ Hs]|[[s Hs] (ids & Hids & [Hn|Hn])]].
      1,2: pose proof (check_in f data Ho ltac:(done) H1 H2 H3) as Hci; cbv zeta in Hci; rewrite Hci; by destruct (fOp f).
      destruct (string_set_spec _ _ Hids) as [_ Hm]. unfold checkFilter. fold (field_value f data). fold v. rewrite Hl, Hn, Hs.
      unfold found_among. change (unwrap (VString s)) with (Some (VString s)). rewrite Hm, Hv. by destruct (fOp f).
    - intros Hid. destruct H4 as [[? _]|[Hs (ids & Hids & _)]]; [done|]. split; [done|]. by apply (string_set_spec _ _ Hids). }
  destruct Hcases as [Hl|(Hl & Hcheck & Hid)]; rewrite Hl.
  { unfold checkFilter. rewrite Hl. by destruct (fOp f). }
  destruct (fValue f) as [|w l] eqn:Ev.
  { unfold checkFilter. rewrite Hl, Ev. by destruct (fOp f). }
  specialize (Hcheck w l eq_refl). rewrite Hcheck. clear Hcheck Ht.
  pose proof (fun neg => in_condition_selected data (FieldName (fField f)) neg (w :: l) ltac:(done)) as Hsel.
  cbv zeta in Hsel. rewrite row_field in Hsel. fold v in Hsel.
  assert (Hin : FieldName (fField f) = EntityPrimaryFieldName -> sql_in v (w :: l) = Some (found_among v (w :: l))).
  { intros [[s Hs] Hnn]%Hid. unfold found_among. rewrite Hs. by apply (sql_in_value _ (VString s)). }
  destruct (fOp f); try done; (destruct (bool_decide (FieldName (fField f) = EntityPrimaryFieldName) && _) eqn:Eid;
    [apply andb_prop in Eid as [Eid%bool_decide_eq_true _]; unfold selected; cbn [eval_condition]; rewrite row_field; fold v; rewrite (Hin Eid);
     generalize (found_among v (w :: l)); by intros []
    |]).
  - specialize (Hsel false). destruct (filter _ (w :: l)); cbv zeta; by rewrite Hsel.
  - specialize (Hsel true). destruct (filter _ (w :: l)); cbv zeta; by rewrite Hsel.
Qed.

Lemma like_agrees h f data : fOp f = OpLike \/ fOp f = OpNotLike -> filter_typed f data -> agrees h f data.
Proof.
  intros Ho [Hd Ht]. unfold agrees, buildCondition. rewrite Hd. set (v := field_value f data) in *.
  assert (Ht' : is_list_type (FieldType (fField f)) = true \/ likeable (FieldType (fField f)) = false \/
      (unwrap v = None \/ exists s, unwrap v = Some (VString s) /\ no_newline (lit s)) /\
      Forall (fun w => isNil_sql w = true \/ exists p, w = VString p) (fValue f)) by (destruct Ho as [Ho|Ho]; rewrite Ho in Ht; exact Ht).
  clear Ht. destruct (one_value f) as [w|] eqn:Ew; [|unfold checkFilter; rewrite Ew; by destruct Ho as [->| ->]].
  destruct (0 <? CountListLayer (BreakType (FieldType (fField f)))) eqn:Hl.
  { unfold checkFilter. rewrite Ew, Hl. by destruct Ho as [->| ->]. }
  destruct (likeable (FieldType (fField f))) eqn:Hlike; cbn [negb].
  2:{ unfold checkFilter. rewrite Ew, Hl, InnerType_inner. cbn [obind]. unfold likeable in Hlike.
      destruct (inner (FieldType (fField f))); rewrite ?Hlike; by destruct Ho as [->| ->]. }
  destruct Ht' as [Hc|[Hc|(Hv & Hw)]]; [unfold is_list_type in Hc; congruence|done|].
  pose proof (one_value_some f w Ew) as Hval. rewrite Hval in Hw. apply Forall_cons in Hw as [Hw _].
  assert (Hty : like_type (FieldType (fField f))).
  { split; [done|]. unfold likeable in Hlike. destruct (inner (FieldType (fField f))) as [| |name| | |]; try done.
    apply bool_decide_eq_true in Hlike as [->| ->]; [by left|by right]. }
  destruct Hw as [Hw|[p ->]].
  - rewrite Hw. unfold checkFilter. fold (field_value f data). fold v. rewrite Ew, Hl, InnerType_inner. cbn [obind]. unfold likeable in Hlike.
    assert (Hlk : like v w = Ok 2) by (unfold like; rewrite isNil_unwrap in Hw; destruct (unwrap v), (unwrap w); done).
    destruct (inner (FieldType (fField f))); try done. rewrite Hlike, Hlk. by destruct Ho as [->| ->].
  - cbn [isNil_sql]. pose proof (check_like f data p Ho Hty Hval) as Hck. fold v in Hck.
    destruct Hv as [Hv|(s & Hv & Hs)]; rewrite Hv in Hck; [rewrite Hck|rewrite (Hck s eq_refl Hs)].
    + destruct Ho as [->| ->]; unfold selected; cbn [eval_condition]; rewrite row_field; fold v; unfold sql_like; by rewrite Hv.
    + destruct Ho as [->| ->]; unfold selected; cbn [eval_condition]; rewrite row_field; fold v; unfold sql_like; rewrite Hv; cbn;
        by destruct (like_match (lit p) (lit s)).
Qed.

Lemma has_agrees h f data : fOp f = OpHasAll \/ fOp f = OpHasAny -> filter_typed f data -> agrees h f data.
Proof.
  intros Ho [Hd Ht]. unfold agrees, buildCondition. rewrite Hd. destruct (CountListLayer (BreakType (FieldType (fField f))) =? 1) eqn:Hl; cbn [negb].
  2:{ unfold checkFilter. rewrite Hl. by destruct Ho as [->| ->]. }
  assert (Ht' : exists u, slice_of (FieldType (fField f)) u /\ comparable u = true /\
    Forall (fun y => item u y = true) (items (field_value f data)) /\ Forall (fun y => item u y = true) (fValue f)).
  { apply Z.eqb_eq in Hl. destruct Ho as [Ho|Ho]; rewrite Ho in Ht; destruct Ht as [Hc|Hu]; done. }
  destruct Ht' as (u & H1 & H2 & H3 & H4). pose proof (check_has f data u Ho H1 H2 H3 H4) as Hck. cbv zeta in Hck. rewrite Hck.
  destruct Ho as [->| ->]; unfold selected; cbn [eval_condition]; rewrite row_field;
    [by destruct (forallb _ (fValue f))|by destruct (existsb _ (fValue f))].
Qed.

(** A filter decides in memory as its condition does in the table. *)
Lemma filter_agrees h f data : filter_typed f data -> agrees h f data.
Proof.
  intros Ht. destruct (fOp f) eqn:Eo.
  1-6: apply order_agrees; [by rewrite Eo|done].
  1,2: apply in_agrees; [by rewrite Eo|done].
  1,2: apply like_agrees; [rewrite Eo; tauto|done].
  1,2: apply has_agrees; [rewrite Eo; tauto|done].
  unfold agrees, buildCondition, checkFilter. rewrite (proj1 Ht). by rewrite Eo.
Qed.

(** The filters one after the other, and the conditions joined with [AND]. An error in a
    filter is found before the query, and in memory only where the earlier filters pass. *)
Lemma filters_agree h fs data cs :
  Forall (fun f => filter_typed f data) fs -> buildConditions h fs = inl cs ->
  CheckFilters fs data = Ok (inl (selected_all (row_of data) cs)).
Proof.
  intros Hf. revert cs. induction Hf as [|f fs Hf _ IH]; intros cs; cbn [buildConditions CheckFilters]; [by intros [= <-]|].
  pose proof (filter_agrees h f data Hf) as Ha. unfold agrees in Ha. rewrite Ha.
  destruct (buildCondition h f) as [c|e]; [|done]. destruct (buildConditions h fs) as [cs'|e]; [|done]. intros [= <-]. cbn [obind].
  unfold selected_all. cbn [forallb]. destruct (selected (row_of data) c); [|done]. cbn [andb]. by rewrite (IH cs').
Qed.
End Agreement.
End Sql.
