(* ===== verification/ChainStore.v ===== *)
(** * The caches over the entity store: [driver/entity/clickhouse/chain_store.go]

    A [ChainStore] answers for one chain from its caches where it can: all the entities of
    a small ("sparse") entity type with their versions, or all the ids of a larger one and
    the latest entities read or written in an LRU cache. An entity type that is only
    cached ([@cache]) is kept in an LRU cache of its own. The tables below it
    ([EntityStore]) and the LRU caches, which are a library's, are interfaces. Logging and
    the snapshot for debugging are left out. Go visits the maps in an order of its own;
    the model takes that of the finite map, which matters only to what the LRU cache
    evicts. *)
From Stdlib Require Import ZArith Lia Ascii String.
From stdpp Require Import base numbers option strings pretty sorting gmap list.
From S2P Require Import Prelude BlockCache RangeText EntityValue EntityHistory EntityMerge EntityCtrl EntityRich EntityFilter.

(** [chainStoreCacheKey] *)
Definition chainStoreCacheKey (entityName id : string) : string := entityName +:+ "/" +:+ id.

(** [math.MaxInt] *)
Definition MaxInt : Z := 2 ^ 63 - 1.

Section ChainStore.
Context `{HD : Decimal} `{HC : !Conversions}.

(** ** What it is built on *)

(** The version counts the writes of an id, of which there is at most one for a block; so
    the [uint64] does not wrap. *)
Record cachedEntityBox : Type := mkCached { cBox : EntityBox; cVersion : Z }.

(** A row of a table as the readers of this file see it. *)
Record storedRow : Type := mkStored { rBox : EntityBox; rVersion : Z }.

(** The LRU caches: [simplelru.LRU] with a capacity, [lru.Cache] with a weight limit. *)
Class LRU (L : Type) : Type := {
  NewLRU : Z -> L;
  NewWithWeightLimit : Z -> L;
  lru_Get : string -> L -> option EntityBox * L;
  lru_Peek : string -> L -> option EntityBox;
  lru_Add : string -> EntityBox -> L -> L;
  lru_Remove : string -> L -> L;
  lru_Purge : L -> L;
  lru_Keys : L -> list string
}.

(** The methods of [Store] that the chain store calls. *)
Class EntityStore (Db : Type) : Type := {
  db_GetEntityType : string -> EntityType;
  useVersionedCollapsingTable : EntityType -> bool;
  db_getEntity : EntityType -> string -> Db -> (option storedRow + EntityError) * Db;
  db_listEntities : EntityType -> list EntityFilter -> bool -> Z -> Db -> (list storedRow + EntityError) * Db;
  db_countEntity : EntityType -> bool -> Db -> (Z + EntityError) * Db;
  db_getAllID : EntityType -> Db -> (gset string + EntityError) * Db;
  db_getMaxID : EntityType -> Db -> (Z + EntityError) * Db;
  db_setEntities : EntityType -> list EntityBox -> option (string -> bool) -> option (string -> option cachedEntityBox) ->
                   Db -> (Z * option EntityError) * Db;
  db_growthAggregation : Z -> Db -> option EntityError * Db;
  db_reorg : Z -> Db -> option EntityError * Db;
  db_CheckValue : EntityType -> gmap string Value -> bool
}.

Context {L Db : Type} `{HLru : !LRU L} `{HDb : !EntityStore Db}.

(** ** The state *)

Record ChainStoreState : Type := mkChainStore {
  db : Db;
  lruCache : L;
  fullIDCache : gmap string (gset string);
  fullIDCacheLoaded : gset string;
  fullIDCacheRefused : gset string;
  fullCache : gmap string (gmap string cachedEntityBox);
  fullCacheLoaded : gset string;
  fullCacheRefused : gset string;
  cacheEntity : gmap string L;
  fullCacheDataLimit : Z;
  fullIDCacheMaxCount : Z
}.

Abbreviation CS := ChainStoreState.

(** Panics where the library refuses the capacity. *)
Definition NewChainStore (d : Db) (lruCapacity fullCacheDataSizeLimit idCacheMaxCount : Z) : Outcome CS :=
  if lruCapacity <=? 0 then Panic
  else Ok (mkChainStore d (NewLRU lruCapacity) ∅ ∅ ∅ ∅ ∅ ∅ ∅ fullCacheDataSizeLimit idCacheMaxCount).

Definition set_db (d : Db) (c : CS) : CS :=
  mkChainStore d (lruCache c) (fullIDCache c) (fullIDCacheLoaded c) (fullIDCacheRefused c) (fullCache c) (fullCacheLoaded c)
    (fullCacheRefused c) (cacheEntity c) (fullCacheDataLimit c) (fullIDCacheMaxCount c).

Definition set_lru (l : L) (c : CS) : CS :=
  mkChainStore (db c) l (fullIDCache c) (fullIDCacheLoaded c) (fullIDCacheRefused c) (fullCache c) (fullCacheLoaded c)
    (fullCacheRefused c) (cacheEntity c) (fullCacheDataLimit c) (fullIDCacheMaxCount c).

Definition set_ids (m : gmap string (gset string)) (loaded refused : gset string) (c : CS) : CS :=
  mkChainStore (db c) (lruCache c) m loaded refused (fullCache c) (fullCacheLoaded c)
    (fullCacheRefused c) (cacheEntity c) (fullCacheDataLimit c) (fullIDCacheMaxCount c).

Definition set_full (m : gmap string (gmap string cachedEntityBox)) (loaded refused : gset string) (c : CS) : CS :=
  mkChainStore (db c) (lruCache c) (fullIDCache c) (fullIDCacheLoaded c) (fullIDCacheRefused c) m loaded refused
    (cacheEntity c) (fullCacheDataLimit c) (fullIDCacheMaxCount c).

Definition set_cacheEntity (m : gmap string L) (c : CS) : CS :=
  mkChainStore (db c) (lruCache c) (fullIDCache c) (fullIDCacheLoaded c) (fullIDCacheRefused c) (fullCache c) (fullCacheLoaded c)
    (fullCacheRefused c) m (fullCacheDataLimit c) (fullIDCacheMaxCount c).

Definition with_db {A} (f : Db -> A * Db) (c : CS) : A * CS := let '(a, d) := f (db c) in (a, set_db d c).

Definition is_in (e : string) (s : gset string) : bool := bool_decide (e ∈ s).

(** ** Loading the caches *)

(** [uint64(x)] of an [int] is [wrap]. The answer is [(has, loaded, knownCount)]. *)
Definition tryLoadFullCache (et : EntityType) (c : CS) : ((bool * bool * Z) + EntityError) * CS :=
  let e := Name et in
  if is_in e (fullCacheRefused c) || negb (IsSparse et) then (inl (false, false, -1), c)
  else if is_in e (fullCacheLoaded c) then (inl (true, true, -1), c)
  else
    let excludeDeleted := negb (useVersionedCollapsingTable et) in
    match with_db (db_countEntity et excludeDeleted) c with
    | (inr err, c) => (inr err, c)
    | (inl count, c) =>
        if wrap (Z.quot (fullCacheDataLimit c) (DataSize et)) <? count then
          (inl (false, false, to_int64 count), set_full (fullCache c) (fullCacheLoaded c) ({[e]} ∪ fullCacheRefused c) c)
        else
          match with_db (db_listEntities et [] excludeDeleted MaxInt) c with
          | (inr err, c) => (inr err, c)
          | (inl rows, c) =>
              let m := foldl (fun m row => <[ID (rBox row) := mkCached (rBox row) (rVersion row)]> m) ∅ rows in
              (inl (true, false, to_int64 count),
               set_full (<[e := m]> (fullCache c)) ({[e]} ∪ fullCacheLoaded c) (fullCacheRefused c) c)
          end
    end.

Definition tryLoadFullIDCache (et : EntityType) (knownCount : Z) (c : CS) : (bool + EntityError) * CS :=
  let e := Name et in
  if is_in e (fullIDCacheRefused c) then (inl false, c)
  else if is_in e (fullIDCacheLoaded c) then (inl true, c)
  else
    match (if knownCount <? 0 then
             match with_db (db_countEntity et true) c with
             | (inr err, c) => (inr err, c)
             | (inl count, c) => (inl (to_int64 count), c)
             end
           else (inl knownCount, c)) with
    | (inr err, c) => (inr err, c)
    | (inl count, c) =>
        if fullIDCacheMaxCount c <? wrap count then
          (inl false, set_ids (fullIDCache c) (fullIDCacheLoaded c) ({[e]} ∪ fullIDCacheRefused c) c)
        else
          match with_db (db_getAllID et) c with
          | (inr err, c) => (inr err, c)
          | (inl ids, c) => (inl false, set_ids (<[e := ids]> (fullIDCache c)) ({[e]} ∪ fullIDCacheLoaded c) (fullIDCacheRefused c) c)
          end
    end.

Definition tryLoadCache (et : EntityType) (c : CS) : (bool + EntityError) * CS :=
  match tryLoadFullCache et c with
  | (inr err, c) => (inr err, c)
  | (inl (true, loaded, _), c) => (inl loaded, c)
  | (inl (false, _, knownCount), c) => tryLoadFullIDCache et knownCount c
  end.

(** ** Reading *)

Definition contains (m : gmap string (gset string)) (e id : string) : bool := bool_decide (id ∈ default ∅ (m !! e)).

(** An entity that is there and not deleted. *)
Definition live (b : EntityBox) : option EntityBox := match Data b with Some _ => Some b | None => None end.

Definition GetEntity (et : EntityType) (id : string) (c : CS) : ((option EntityBox * bool) + EntityError) * CS :=
  let e := Name et in
  if IsCache et then
    match cacheEntity c !! e with
    | None => (inl (None, true), c)
    | Some cache =>
        let '(box, cache') := lru_Get id cache in
        (inl (box, true), set_cacheEntity (<[e := cache']> (cacheEntity c)) c)
    end
  else
    match tryLoadCache et c with
    | (inr err, c) => (inr err, c)
    | (inl fromCache, c) =>
        if is_in e (fullCacheLoaded c) then
          (inl (default ∅ (fullCache c !! e) !! id ≫= fun cached => live (cBox cached), fromCache), c)
        else if is_in e (fullIDCacheLoaded c) && negb (contains (fullIDCache c) e id) then (inl (None, fromCache), c)
        else
          let key := chainStoreCacheKey e id in
          let '(cached, l) := lru_Get key (lruCache c) in
          let c := set_lru l c in
          match cached with
          | Some box => (inl (Some box, fromCache), c)
          | None =>
              match with_db (db_getEntity et id) c with
              | (inr err, c) => (inr err, c)
              | (inl row, c) =>
                  match row ≫= fun row => live (rBox row) with
                  | Some box => (inl (Some box, false), set_lru (lru_Add key box (lruCache c)) c)
                  | None => (inl (None, false), c)
                  end
              end
          end
    end.

Definition filter_error : EntityError := ErrInvalidListFilter "invalid list filter".

(** The loop over a [@cache] entity: the limit is looked at behind a box. *)
Fixpoint list_cached (filters : list EntityFilter) (limit : Z) (keys : list string) (cache : L) (boxes : list EntityBox)
    : Outcome ((list EntityBox + EntityError) * L) :=
  match keys with
  | [] => Ok (inl boxes, cache)
  | key :: rest =>
      let '(box, cache') := lru_Get key cache in
      match box with
      | None => Panic
      | Some box =>
          let! pass := CheckFilters filters (Data box) in
          match pass with
          | inr _ => Ok (inr filter_error, cache')
          | inl pass =>
              let boxes := if pass : bool then boxes ++ [box] else boxes in
              if limit <=? Z.of_nat (length boxes) then Ok (inl boxes, cache')
              else list_cached filters limit rest cache' boxes
          end
      end
  end.

(** The loop over the full cache: the limit is looked at before a box. *)
Fixpoint list_full (filters : list EntityFilter) (limit : Z) (m : gmap string cachedEntityBox) (ids : list string) (boxes : list EntityBox)
    : Outcome (list EntityBox + EntityError) :=
  match ids with
  | [] => Ok (inl boxes)
  | id :: rest =>
      if limit <=? Z.of_nat (length boxes) then Ok (inl boxes)
      else
        match m !! id with
        | None => Panic
        | Some cached =>
            match Data (cBox cached) with
            | None => list_full filters limit m rest boxes
            | Some _ =>
                let! pass := CheckFilters filters (Data (cBox cached)) in
                match pass with
                | inr _ => Ok (inr filter_error)
                | inl pass => list_full filters limit m rest (if pass : bool then boxes ++ [cBox cached] else boxes)
                end
            end
        end
  end.

(** The sorted ids of the entities that are not deleted. *)
Definition cached_ids (m : gmap string cachedEntityBox) : list string :=
  merge_sort String.le (omap (fun kv => (fun b => ID b) <$> live (cBox kv.2)) (map_to_list m)).

Definition ListEntities (et : EntityType) (filters : list EntityFilter) (limit : Z) (c : CS)
    : Outcome (((list EntityBox * bool) + EntityError) * CS) :=
  let e := Name et in
  if IsCache et then
    match cacheEntity c !! e with
    | None => Ok (inl ([], true), c)
    | Some cache =>
        let! (r, cache') := list_cached filters limit (merge_sort String.le (lru_Keys cache)) cache [] in
        let c := set_cacheEntity (<[e := cache']> (cacheEntity c)) c in
        Ok (match r with inr err => inr err | inl boxes => inl (boxes, true) end, c)
    end
  else
    match tryLoadFullCache et c with
    | (inr err, c) => Ok (inr err, c)
    | (inl (false, fromCache, _), c) =>
        match with_db (db_listEntities et filters true limit) c with
        | (inr err, c) => Ok (inr err, c)
        | (inl rows, c) => Ok (inl (map rBox rows, fromCache), c)
        end
    | (inl (true, fromCache, _), c) =>
        let m := default ∅ (fullCache c !! e) in
        let! r := list_full filters limit m (cached_ids m) [] in
        Ok (match r with inr err => inr err | inl boxes => inl (boxes, fromCache) end, c)
    end.

Definition GetTimeSeriesEntityMaxID (et : EntityType) (c : CS) : (Z + EntityError) * CS := with_db (db_getMaxID et) c.

(** ** Writing *)

(** What is known of the ids before they are written. *)
Definition knownExistingIDChecker (et : EntityType) (c : CS) : option (string -> bool) :=
  let e := Name et in
  if IsCache et then None
  else if IsTimeSeries et then Some (fun _ => false)
  else if negb (useVersionedCollapsingTable et) then
    if is_in e (fullCacheLoaded c) then
      Some (fun id => match default ∅ (fullCache c !! e) !! id with Some ent => bool_decide (is_Some (Data (cBox ent))) | None => false end)
    else if is_in e (fullIDCacheLoaded c) then Some (fun id => contains (fullIDCache c) e id)
    else None
  else None.

Definition knownPreBoxGetter (et : EntityType) (c : CS) : option (string -> option cachedEntityBox) :=
  let e := Name et in
  if negb (IsCache et) && negb (IsTimeSeries et) && useVersionedCollapsingTable et && is_in e (fullCacheLoaded c) then
    Some (fun id => default ∅ (fullCache c !! e) !! id)
  else None.

(** The latest box of each id: a later one overrides an earlier one. *)
Definition latest (boxes : list EntityBox) : gmap string EntityBox := foldl (fun m b => <[ID b := b]> m) ∅ boxes.

Definition idWriteCount (boxes : list EntityBox) : gmap string Z :=
  foldl (fun m b => <[ID b := default 0 (m !! ID b) + 1]> m) ∅ boxes.

Definition update_cacheEntity (et : EntityType) (l : list (string * EntityBox)) (c : CS) : CS :=
  let e := Name et in
  let cache := match cacheEntity c !! e with
               | Some cache => cache
               | None => NewWithWeightLimit (Z.max (GetCacheSizeMB et) 10 *! 1024 *! 1024)
               end in
  let cache' := foldl (fun cache ib => match Data ib.2 with Some _ => lru_Add ib.1 ib.2 cache | None => lru_Remove ib.1 cache end) cache l in
  set_cacheEntity (<[e := cache']> (cacheEntity c)) c.

(** One id of the LRU path. *)
Definition update_lru_one (e : string) (c : CS) (ib : string * EntityBox) : CS :=
  let '(id, box) := ib in
  let key := chainStoreCacheKey e id in
  let ids := default ∅ (fullIDCache c !! e) in
  let loaded := is_in e (fullIDCacheLoaded c) in
  match Data box with
  | None =>
      let c := if loaded then set_ids (<[e := ids ∖ {[id]}]> (fullIDCache c)) (fullIDCacheLoaded c) (fullIDCacheRefused c) c else c in
      set_lru (lru_Remove key (lruCache c)) c
  | Some _ =>
      let c := set_lru (lru_Add key box (lruCache c)) c in
      if loaded then set_ids (<[e := {[id]} ∪ ids]> (fullIDCache c)) (fullIDCacheLoaded c) (fullIDCacheRefused c) c else c
  end.

(** The entries of the full cache that a write changes. *)
Definition update_full_map (versioned : bool) (boxes : list EntityBox) (m : gmap string cachedEntityBox) : gmap string cachedEntityBox :=
  if versioned then
    foldl (fun m' ib =>
             let initialVersion := match m !! ib.1 with Some existing => cVersion existing | None => 0 end in
             <[ib.1 := mkCached ib.2 (initialVersion + default 0 (idWriteCount boxes !! ib.1))]> m')
          m (map_to_list (latest boxes))
  else
    foldl (fun m' ib => match Data ib.2 with None => delete ib.1 m' | Some _ => <[ib.1 := mkCached ib.2 0]> m' end)
          m (map_to_list (latest boxes)).

Definition update_full (et : EntityType) (boxes : list EntityBox) (c : CS) : CS :=
  let e := Name et in
  let m := update_full_map (useVersionedCollapsingTable et) boxes (default ∅ (fullCache c !! e)) in
  if Z.quot (fullCacheDataLimit c) (DataSize et) <? Z.of_nat (size m) then
    set_full (delete e (fullCache c)) (fullCacheLoaded c ∖ {[e]}) ({[e]} ∪ fullCacheRefused c) c
  else set_full (<[e := m]> (fullCache c)) (fullCacheLoaded c) (fullCacheRefused c) c.

Definition SetEntities (et : EntityType) (boxes : list EntityBox) (c : CS) : (Z * option EntityError) * CS :=
  let e := Name et in
  match (if negb (IsCache et) && negb (IsTimeSeries et) then tryLoadCache et c else (inl false, c)) with
  | (inr err, c) => ((0, Some err), c)
  | (inl _, c) =>
      let '((created, err), c) := with_db (db_setEntities et boxes (knownExistingIDChecker et c) (knownPreBoxGetter et c)) c in
      match err with
      | Some err => ((created, Some err), c)
      | None =>
          if IsTimeSeries et then ((created, None), c)
          else if IsCache et then ((created, None), update_cacheEntity et (map_to_list (latest boxes)) c)
          else if is_in e (fullCacheRefused c) || negb (IsSparse et) then
            ((created, None), foldl (update_lru_one e) c (map_to_list (latest boxes)))
          else if is_in e (fullCacheLoaded c) then ((created, None), update_full et boxes c)
          else ((created, None), c)
      end
  end.

(** ** Going back *)

Definition purgeCache (c : CS) : CS :=
  mkChainStore (db c) (lru_Purge (lruCache c)) ∅ ∅ ∅ ∅ ∅ ∅ (cacheEntity c) (fullCacheDataLimit c) (fullIDCacheMaxCount c).

(** The boxes of a [@cache] entity above the block are removed; [Peek] finds what [Keys]
    names. *)
Definition trim_cache (blockNumber : Z) (cache : L) : L :=
  foldl (fun cache key =>
           match lru_Peek key cache with
           | Some box => if blockNumber <? to_int64 (GenBlockNumber box) then lru_Remove key cache else cache
           | None => cache
           end) cache (lru_Keys cache).

Definition ChainStore_Reorg (blockNumber : Z) (c : CS) : option EntityError * CS :=
  let c := purgeCache c in
  let c := set_cacheEntity (trim_cache blockNumber <$> cacheEntity c) c in
  with_db (db_reorg blockNumber) c.

Definition ChainStore_GrowthAggregation (curBlockTime : Z) (c : CS) : option EntityError * CS :=
  with_db (db_growthAggregation curBlockTime) c.

(** ** As the controller's store *)

#[global] Instance chain_store : ChainStore ChainStoreState := {
  st_GetEntityType := db_GetEntityType;
  st_GetEntity et id c := let '(r, c') := GetEntity et id c in (match r with inl (box, _) => inl box | inr err => inr err end, c');
  st_GetTimeSeriesEntityMaxID := GetTimeSeriesEntityMaxID;
  st_SetEntities := SetEntities;
  st_GrowthAggregation := ChainStore_GrowthAggregation;
  st_Reorg := ChainStore_Reorg;
  st_CheckValue := db_CheckValue
}.
End ChainStore.
