(* ===== verification/EntityTable.v ===== *)
(** * The entity tables: [driver/entity/clickhouse/entity.go], [entity_list.go]

    The tables of the entities in ClickHouse, and the statements that read and change them,
    as functions on lists of rows. A table is the part of one list that has the entity's
    name. An entity that is not immutable may have a versioned table instead: every change
    inserts the new row and a row that cancels the one before, with the sign -1 and the
    same version; a second table ("latest") gets the same rows, and the engine removes
    cancelled pairs from it whenever it likes. A statement may fail, before or after it has
    taken effect. What the engine does and which statements fail is written down in a list
    of events, one for a statement. A query without [ORDER BY] reads the rows in the order
    of their insertion. Temporary tables are left out. *)
From Stdlib Require Import ZArith Lia Ascii String.
From stdpp Require Import base numbers option strings pretty sorting gmap list.
From S2P Require Import Prelude BlockCache RangeText EntityValue EntityHistory EntityMerge EntityCtrl EntityRich EntityFilter EntitySql ChainStore.

Section Tables.
Context `{HD : Decimal} `{HC : !Conversions}.

(** ** Rows and tables *)

Record entityRow : Type := mkRow { rowBox : EntityBox; GenBlockChain : string; Sign : Z; Version : Z }.

(** The fields of [Store], with the chain that the chain store passes on; [sch_entities]
    are the entities that are not only cached, [sch_aggregations] the number of intervals of
    each aggregation. A statement may fail in the ways of [Failure], having taken effect or
    not. *)
Class Store : Type := {
  sch_type : string -> EntityType;
  sch_entities : list string;
  sch_aggregations : list nat;
  VersionedCollapsing : bool;
  BatchInsertSizeLimit : Z;
  HugeIDSetSize : Z;
  storeChain : string;
  cityHash64 : string -> Z;
  store_CheckValue : EntityType -> gmap string Value -> bool;
  Failure : Type;
  applied : Failure -> bool;
  faultError : Failure -> EntityError
}.

Context `{HS : !Store}.

(** Pairs that the engine removes (chain, entity, id and version), and a failure. *)
Record Event : Type := mkEvent { merges : list (string * string * string * Z); fault : option Failure }.

Record Tables : Type := mkTables { rows : list entityRow; latestRows : list entityRow; events : list Event }.

Definition versioned (et : EntityType) : bool := VersionedCollapsing && negb (IsImmutable et).

Definition DefaultBatchInsertSizeLimit : Z := 1000.

(** ** Statements *)

Definition row_key (r : entityRow) : string * string * string * Z := (GenBlockChain r, Entity (rowBox r), ID (rowBox r), Version r).

(** The engine removes a row and the one that cancels it. *)
Definition collapse (l : list entityRow) (k : string * string * string * Z) : list entityRow :=
  if existsb (fun r => bool_decide (row_key r = k) && (0 <? Sign r)) l && existsb (fun r => bool_decide (row_key r = k) && (Sign r <? 0)) l
  then filter (fun r => row_key r <> k) l
  else l.

Definition next_event (t : Tables) : option Failure * Tables :=
  match events t with
  | [] => (None, t)
  | ev :: rest => (fault ev, mkTables (rows t) (foldl collapse (latestRows t) (merges ev)) rest)
  end.

Definition query {A} (f : Tables -> A) (t : Tables) : (A + EntityError) * Tables :=
  let '(flt, t) := next_event t in
  match flt with
  | Some flt => (inr (faultError flt), t)
  | None => (inl (f t), t)
  end.

Definition exec (f : Tables -> Tables) (t : Tables) : option EntityError * Tables :=
  let '(flt, t) := next_event t in
  match flt with
  | Some flt => (Some (faultError flt), if applied flt then f t else t)
  | None => (None, f t)
  end.

(** ** What the statements select *)

Definition in_chain (e : string) (r : entityRow) : Prop := Entity (rowBox r) = e /\ GenBlockChain r = storeChain.
#[global] Instance in_chain_dec e r : Decision (in_chain e r) := _.

Definition table_of (e : string) (l : list entityRow) : list entityRow := filter (in_chain e) l.

(** [TableName]: the table itself, or the view without the cancelling rows. *)
Definition entity_view (et : EntityType) (t : Tables) : list entityRow :=
  let l := table_of (Name et) (rows t) in if versioned et then filter (fun r => 0 < Sign r) l else l.

Definition row_gen (r : entityRow) : Z := GenBlockNumber (rowBox r).
Definition row_id (r : entityRow) : string := ID (rowBox r).
Definition deleted (r : entityRow) : bool := match Data (rowBox r) with None => true | Some _ => false end.

Definition gen_le (a b : entityRow) : Prop := row_gen a <= row_gen b.
#[global] Instance gen_le_dec : RelDecision gen_le := fun a b => Z.le_dec _ _.
Definition id_le (a b : entityRow) : Prop := String.le (row_id a) (row_id b).
#[global] Instance id_le_dec : RelDecision id_le := fun a b => _.

(** The row with the greatest block number. *)
Definition arg_max (l : list entityRow) : option entityRow := last (merge_sort gen_le l).

(** [GROUP BY] *)
Definition groups {K} `{EqDecision K} (key : entityRow -> K) (l : list entityRow) : list (list entityRow) :=
  map (fun k => filter (fun r => key r = k) l) (remove_dups (map key l)).

Definition sum_sign (l : list entityRow) : Z := foldr Z.add 0 (map Sign l).

Definition id_version (r : entityRow) : string * Z := (row_id r, Version r).

(** The version is a column of the versioned tables only. *)
Definition read_row (et : EntityType) (r : entityRow) : storedRow := mkStored (rowBox r) (if versioned et then Version r else 0).

(** ** Reading *)

Definition store_getEntity (et : EntityType) (id : string) (t : Tables) : (option storedRow + EntityError) * Tables :=
  if IsCache et then (inl None, t)
  else
    query (fun t =>
      let l := filter (fun r => row_id r = id) (table_of (Name et) (rows t)) in
      read_row et <$>
        (if versioned et then arg_max (filter (fun r => 0 < Sign r) l)
         else if IsImmutable et then last l
         else arg_max l)) t.

Definition distinct_ids (l : list entityRow) : list string := remove_dups (map row_id l).

Definition queryExistEntity (et : EntityType) (ids : list string) (t : Tables) : (list string + EntityError) * Tables :=
  match ids with
  | [] => (inl [], t)
  | _ => query (fun t => distinct_ids (filter (fun r => row_id r ∈ ids) (entity_view et t))) t
  end.

(** The columns of a row: those of a deleted one have the zero values. *)
Definition zero_data (et : EntityType) : gmap string Value :=
  match FillLostFields et ∅ (mkBox (Name et) EmptyString (Some ∅) 0 0 EmptyString) with
  | Ok b => default ∅ (Data b)
  | _ => ∅
  end.

Definition columns (et : EntityType) (r : entityRow) (field : string) : Value :=
  if bool_decide (field = EntityPrimaryFieldName) then VString (row_id r)
  else default VNil (default (zero_data et) (Data (rowBox r)) !! field).

Definition satisfies (et : EntityType) (cs : list Condition) (r : entityRow) : bool := selected_all (columns et r) cs.

Definition not_excluded (excludeDeleted : bool) (r : entityRow) : bool := negb (excludeDeleted && deleted r).

Definition list_versioned (et : EntityType) (cs : list Condition) (excludeDeleted : bool) (t : Tables) : list entityRow :=
  let l := filter (fun r => not_excluded excludeDeleted r && satisfies et cs r = true) (table_of (Name et) (rows t)) in
  omap head (filter (fun g => 0 < sum_sign g) (groups id_version l)).

Definition list_immutable (et : EntityType) (cs : list Condition) (excludeDeleted : bool) (t : Tables) : list entityRow :=
  filter (fun r => not_excluded excludeDeleted r && satisfies et cs r = true) (table_of (Name et) (rows t)).

Definition list_latest (et : EntityType) (pk other : list Condition) (excludeDeleted : bool) (t : Tables) : list entityRow :=
  let l := filter (fun r => satisfies et pk r = true) (table_of (Name et) (rows t)) in
  filter (fun r => not_excluded excludeDeleted r && satisfies et other r = true) (omap arg_max (groups row_id l)).

(** [ORDER BY id LIMIT limit] *)
Definition ordered (limit : Z) (l : list entityRow) : list entityRow :=
  take (Z.to_nat (Z.min limit (Z.of_nat (length l)))) (merge_sort id_le l).

Definition invalid_filter : EntityError := ErrInvalidListFilter "invalid list filter".

Definition list_once (et : EntityType) (fs : list EntityFilter) (excludeDeleted : bool) (limit : Z) (t : Tables)
    : (list storedRow + EntityError) * Tables :=
  if IsCache et then (inl [], t)
  else if versioned et then
    match buildConditions HugeIDSetSize fs with
    | inr _ => (inr invalid_filter, t)
    | inl cs => query (fun t => map (read_row et) (ordered limit (list_versioned et cs excludeDeleted t))) t
    end
  else if IsImmutable et then
    match buildConditions HugeIDSetSize fs with
    | inr _ => (inr invalid_filter, t)
    | inl cs => query (fun t => map (read_row et) (ordered limit (list_immutable et cs excludeDeleted t))) t
    end
  else
    let '(primaryKeyFilters, otherFilters) := splitFilters fs in
    match buildConditions HugeIDSetSize primaryKeyFilters, buildConditions HugeIDSetSize otherFilters with
    | inl pk, inl other => query (fun t => map (read_row et) (ordered limit (list_latest et pk other excludeDeleted t))) t
    | _, _ => (inr invalid_filter, t)
    end.

Definition error_text (err : EntityError) : string :=
  match err with ErrInvalidFieldValue m | ErrUpdateImmutable m | ErrInvalidListFilter m | ErrOther m => m end.

(** [strings.Contains] *)
Definition Contains (s sub : string) : bool := match String.index 0 sub s with Some _ => true | None => false end.

(** [listEntities]: again while a temporary table is gone. *)
Fixpoint list_retry (retry : nat) (et : EntityType) (fs : list EntityFilter) (excludeDeleted : bool) (limit : Z) (t : Tables)
    : (list storedRow + EntityError) * Tables :=
  match list_once et fs excludeDeleted limit t with
  | (inl l, t) => (inl l, t)
  | (inr err, t) =>
      match retry with
      | O => (inr err, t)
      | S retry' => if Contains (error_text err) "does not exist" then list_retry retry' et fs excludeDeleted limit t else (inr err, t)
      end
  end.

Definition store_listEntities := list_retry 10.

(** ** Counting *)

(** The condition on the bucket of an id. *)
Definition Extra : Type := string -> bool.

Definition with_extra (extra : Extra) (l : list entityRow) : list entityRow := filter (fun r => extra (row_id r) = true) l.

Definition has_deletions (et : EntityType) (extra : Extra) : Tables -> (bool + EntityError) * Tables :=
  query (fun t => existsb deleted (with_extra extra (entity_view et t))).

(** The ids that are not deleted, by the versions of the latest table, or by the row with
    the greatest block number. *)
Definition live_ids (et : EntityType) (extra : Extra) (t : Tables) : list string :=
  if versioned et then
    omap (fun g => row_id <$> head g)
      (filter (fun g => 0 < sum_sign g)
        (groups id_version (filter (fun r => deleted r = false) (with_extra extra (table_of (Name et) (latestRows t))))))
  else
    omap (fun g => match arg_max g with Some r => if deleted r then None else Some (row_id r) | None => None end)
      (groups row_id (with_extra extra (table_of (Name et) (rows t)))).

Definition count_once (et : EntityType) (excludeDeleted : bool) (extra : Extra) (t : Tables) : (Z + EntityError) * Tables :=
  if IsImmutable et then query (fun t => Z.of_nat (length (with_extra extra (entity_view et t)))) t
  else
    match (if excludeDeleted then has_deletions et extra t else (inl false, t)) with
    | (inr err, t) => (inr err, t)
    | (inl hasDeletions, t) =>
        query (fun t => if hasDeletions : bool then Z.of_nat (length (live_ids et extra t))
                        else Z.of_nat (length (distinct_ids (with_extra extra (entity_view et t))))) t
    end.

Definition ids_once (et : EntityType) (extra : Extra) (t : Tables) : (gset string + EntityError) * Tables :=
  if IsImmutable et then query (fun t => list_to_set (map row_id (with_extra extra (entity_view et t)))) t
  else
    match has_deletions et extra t with
    | (inr err, t) => (inr err, t)
    | (inl deletions, t) =>
        query (fun t => if deletions : bool then list_to_set (live_ids et extra t)
                        else list_to_set (distinct_ids (with_extra extra (entity_view et t)))) t
    end.

Definition isQueryMemoryLimitExceededError (err : EntityError) : bool := Contains (error_text err) "Query memory limit exceeded".

Section Buckets.
Context {A : Type} (once : Extra -> Tables -> (A + EntityError) * Tables) (zero : A) (join : A -> A -> A).

Definition in_bucket (buckets bi : Z) : Extra := fun id => cityHash64 id mod buckets =? bi.

(** The buckets one after the other, up to one that fails. *)
Fixpoint each_bucket (buckets : Z) (bis : list Z) (acc : A) (t : Tables) : (A + EntityError) * Tables :=
  match bis with
  | [] => (inl acc, t)
  | bi :: rest =>
      match once (in_bucket buckets bi) t with
      | (inr err, t) => (inr err, t)
      | (inl a, t) => each_bucket buckets rest (join acc a) t
      end
  end.

(** More buckets as long as the memory limit is exceeded. *)
Fixpoint try_buckets (sizes : list Z) (err : EntityError) (t : Tables) : (A + EntityError) * Tables :=
  match sizes with
  | [] => (inr err, t)
  | buckets :: rest =>
      match each_bucket buckets (seqZ 0 buckets) zero t with
      | (inl a, t) => (inl a, t)
      | (inr err, t) => if isQueryMemoryLimitExceededError err then try_buckets rest err t else (inr err, t)
      end
  end.

Definition bucketed (t : Tables) : (A + EntityError) * Tables :=
  match once (fun _ => true) t with
  | (inl a, t) => (inl a, t)
  | (inr err, t) => if isQueryMemoryLimitExceededError err then try_buckets [10; 100; 1000] err t else (inr err, t)
  end.
End Buckets.

Definition store_countEntity (et : EntityType) (excludeDeleted : bool) : Tables -> (Z + EntityError) * Tables :=
  bucketed (count_once et excludeDeleted) 0 Z.add.

Definition store_getAllID (et : EntityType) : Tables -> (gset string + EntityError) * Tables :=
  bucketed (ids_once et) ∅ union.

(** The greatest number; zero for an empty table. *)
Definition store_getMaxID (et : EntityType) (t : Tables) : (Z + EntityError) * Tables :=
  if negb (IsTimeSeries et) then (inr (ErrOther (Name et +:+ " is not timeseries entity")), t)
  else query (fun t => match map (fun r => ParseInt (row_id r)) (entity_view et t) with
                       | [] => 0
                       | x :: l => foldr Z.max x l
                       end) t.

(** ** Writing *)

Definition insert_rows (et : EntityType) (l : list entityRow) (t : Tables) : Tables :=
  mkTables (rows t ++ l) (if versioned et then latestRows t ++ l else latestRows t) (events t).

(** The histories of the ids, each in the order of the blocks. *)
Definition histories (entities : list EntityBox) : gmap string (list EntityBox) :=
  merge_sort by_gen <$> foldl (fun m b => <[ID b := default [] (m !! ID b) ++ [b]]> m) ∅ entities.

(** What [flush] keeps between the batches. *)
Record Flush : Type := mkFlush { createdCount : Z; doneIds : gset string; preBoxes : gmap string entityRow }.

Definition fetchIDSet (l : list EntityBox) : gset string := list_to_set (map ID l).

(** [GetOrderedMapKeys] *)
Definition ordered_ids (ids : gset string) : list string := merge_sort String.le (elements ids).

Definition primary_key_field (et : EntityType) : FieldDefinition :=
  default (mkField EntityPrimaryFieldName (NonNull (Scalar "ID")) false) (GetFieldByName et EntityPrimaryFieldName).

Definition in_ids (et : EntityType) (ids : gset string) : EntityFilter :=
  mkFilter (primary_key_field et) OpIn (map VString (ordered_ids ids)) None.

Definition immutable_error (et : EntityType) : EntityError := ErrUpdateImmutable ("set " +:+ Name et +:+ " entities").

(** The values before the batch, from the cache; and how many of the ids exist. *)
Definition pre_from_cache (getter : string -> option cachedEntityBox) (newIds : list string) (pre : gmap string entityRow)
    : gmap string entityRow * Z :=
  foldl (fun acc id =>
    let '(pre, n) := acc in
    match pre !! id with
    | Some r => (pre, if deleted r then n else n + 1)
    | None =>
        match getter id with
        | None => (pre, n)
        | Some c =>
            let r := mkRow (cBox c) storeChain 1 (cVersion c) in
            (<[id := r]> pre, if deleted r then n else n + 1)
        end
    end) (pre, 0) newIds.

(** The values before the batch, from the table. *)
Definition pre_from_table (l : list storedRow) (pre : gmap string entityRow) : gmap string entityRow :=
  foldl (fun pre r => <[ID (rBox r) := mkRow (rBox r) storeChain 1 (rVersion r)]> pre) pre l.

(** What is known before a batch is inserted, or why it may not be. *)
Definition prepare (et : EntityType) (checker : option (string -> bool)) (getter : option (string -> option cachedEntityBox))
    (newIds : gset string) (st : Flush) (t : Tables) : (Flush + EntityError) * Tables :=
  let count := Z.of_nat (size newIds) in
  if versioned et then
    match getter with
    | Some g =>
        let '(pre, existing) := pre_from_cache g (ordered_ids newIds) (preBoxes st) in
        (inl (mkFlush (createdCount st + (count - existing)) (doneIds st) pre), t)
    | None =>
        match store_listEntities et [in_ids et newIds] false MaxInt t with
        | (inr err, t) => (inr err, t)
        | (inl l, t) =>
            (inl (mkFlush (createdCount st + (count - Z.of_nat (length l))) (doneIds st) (pre_from_table l (preBoxes st))), t)
        end
    end
  else
    match (match checker with
           | Some known => (inl (filter (fun id => known id = true) (ordered_ids newIds)), t)
           | None => queryExistEntity et (ordered_ids newIds) t
           end) with
    | (inr err, t) => (inr err, t)
    | (inl existing, t) =>
        if IsImmutable et && negb (bool_decide (existing = [])) then (inr (immutable_error et), t)
        else (inl (mkFlush (createdCount st + (count - Z.of_nat (length existing))) (doneIds st) (preBoxes st)), t)
    end.

(** The box before, as the row that cancels it. *)
Definition restamp (pre cur : EntityBox) : EntityBox :=
  mkBox (Entity pre) (ID pre) (Data pre) (GenBlockNumber cur) (GenBlockTime cur) (GenBlockHash cur).

(** The rows of a batch. *)
Fixpoint batch_rows (et : EntityType) (queue : list EntityBox) (pre : gmap string entityRow) : list entityRow * gmap string entityRow :=
  match queue with
  | [] => ([], pre)
  | box :: rest =>
      if versioned et then
        let undo := match pre !! ID box with
                    | Some p => [mkRow (restamp (rowBox p) box) (GenBlockChain p) (-1) (Version p)]
                    | None => []
                    end in
        let cur := mkRow box storeChain 1 (match pre !! ID box with Some p => Version p + 1 | None => 1 end) in
        let '(l, pre') := batch_rows et rest (<[ID box := cur]> pre) in
        (undo ++ cur :: l, pre')
      else
        let '(l, pre') := batch_rows et rest pre in
        (mkRow box storeChain 1 1 :: l, pre')
  end.

Definition flush (et : EntityType) (checker : option (string -> bool)) (getter : option (string -> option cachedEntityBox))
    (queue : list EntityBox) (st : Flush) (t : Tables) : (Flush * option EntityError) * Tables :=
  match queue with
  | [] => ((st, None), t)
  | _ =>
      let ids := fetchIDSet queue in
      let newIds := ids ∖ doneIds st in
      if IsImmutable et && negb (Nat.eqb (size newIds) (size ids)) then ((st, Some (immutable_error et)), t)
      else
        match prepare et checker getter newIds st t with
        | (inr err, t) => ((st, Some err), t)
        | (inl st, t) =>
            let '(l, pre) := batch_rows et queue (preBoxes st) in
            match exec (insert_rows et l) t with
            | (Some err, t) => ((mkFlush (createdCount st) (doneIds st) pre, Some err), t)
            | (None, t) => ((mkFlush (createdCount st) (doneIds st ∪ newIds) pre, None), t)
            end
        end
  end.

(** The loop over the boxes: a batch is inserted as soon as it is full. *)
Fixpoint flush_loop (et : EntityType) (checker : option (string -> bool)) (getter : option (string -> option cachedEntityBox))
    (batchSize : Z) (boxes queue : list EntityBox) (st : Flush) (t : Tables) : (Flush * option EntityError) * Tables :=
  match boxes with
  | [] => flush et checker getter queue st t
  | box :: rest =>
      let queue := queue ++ [box] in
      if batchSize <=? Z.of_nat (length queue) then
        match flush et checker getter queue st t with
        | ((st, Some err), t) => ((st, Some err), t)
        | ((st, None), t) => flush_loop et checker getter batchSize rest [] st t
        end
      else flush_loop et checker getter batchSize rest queue st t
  end.

Definition store_setEntities (et : EntityType) (entities : list EntityBox) (checker : option (string -> bool))
    (getter : option (string -> option cachedEntityBox)) (t : Tables) : (Z * option EntityError) * Tables :=
  if IsCache et then ((0, None), t)
  else
    let batchSize := if BatchInsertSizeLimit <=? 0 then DefaultBatchInsertSizeLimit else BatchInsertSizeLimit in
    let boxes := concat (map snd (map_to_list (histories entities))) in
    let '((st, err), t) := flush_loop et checker getter batchSize boxes [] (mkFlush 0 ∅ ∅) t in
    ((createdCount st, err), t).

(** ** Going back *)

(** [Controller.Delete]: nothing is deleted where nothing is counted. *)
Definition delete_above (e : string) (n : Z) (l : list entityRow) : list entityRow := filter (fun r => ~ (in_chain e r /\ n < row_gen r)) l.

Definition delete_rows (sel : Tables -> list entityRow) (del : Tables -> Tables) (e : string) (n : Z) (t : Tables) : option EntityError * Tables :=
  match query (fun t => Z.of_nat (length (filter (fun r => in_chain e r /\ n < row_gen r) (sel t)))) t with
  | (inr err, t) => (Some err, t)
  | (inl count, t) => if count =? 0 then (None, t) else exec del t
  end.

Definition reorgInTable (e : string) (n : Z) : Tables -> option EntityError * Tables :=
  delete_rows rows (fun t => mkTables (delete_above e n (rows t)) (latestRows t) (events t)) e n.

Definition reorgInLatest (e : string) (n : Z) : Tables -> option EntityError * Tables :=
  delete_rows latestRows (fun t => mkTables (rows t) (delete_above e n (latestRows t)) (events t)) e n.

(** The rows of the table up to the block. *)
Definition rows_upto (e : string) (n : Z) (l : list entityRow) : list entityRow := filter (fun r => in_chain e r /\ row_gen r <= n) l.

Definition reorgInVersionedLatestTable (e : string) (n : Z) (t : Tables) : option EntityError * Tables :=
  match reorgInLatest e n t with
  | (Some err, t) => (Some err, t)
  | (None, t) =>
      match query (fun t => length (distinct_ids (rows_upto e n (rows t)))) t with
      | (inr err, t) => (Some err, t)
      | (inl expCount, t) =>
          match query (fun t => length (filter (fun g => 0 < sum_sign g) (groups id_version (rows_upto e n (latestRows t))))) t with
          | (inr err, t) => (Some err, t)
          | (inl realCount, t) =>
              if Nat.eqb expCount realCount then (None, t)
              else
                match exec (fun t => mkTables (rows t) (filter (fun r => ~ in_chain e r) (latestRows t)) (events t)) t with
                | (Some err, t) => (Some err, t)
                | (None, t) => exec (fun t => mkTables (rows t) (latestRows t ++ rows_upto e n (rows t)) (events t)) t
                end
          end
      end
  end.

Definition reorg_entity (e : string) (n : Z) (t : Tables) : option EntityError * Tables :=
  match reorgInTable e n t with
  | (Some err, t) => (Some err, t)
  | (None, t) => if versioned (sch_type e) then reorgInVersionedLatestTable e n t else (None, t)
  end.

Fixpoint reorg_entities (es : list string) (n : Z) (t : Tables) : option EntityError * Tables :=
  match es with
  | [] => (None, t)
  | e :: rest =>
      match reorg_entity e n t with
      | (Some err, t) => (Some err, t)
      | (None, t) => reorg_entities rest n t
      end
  end.

(** Statements on the tables of the aggregations, which are not modelled: each may fail. *)
Fixpoint elsewhere (statements : nat) (t : Tables) : option EntityError * Tables :=
  match statements with
  | O => (None, t)
  | S k => match exec id t with (Some err, t) => (Some err, t) | (None, t) => elsewhere k t end
  end.

Definition store_reorg (n : Z) (t : Tables) : option EntityError * Tables :=
  match reorg_entities sch_entities n t with
  | (Some err, t) => (Some err, t)
  | (None, t) => elsewhere (length sch_aggregations) t
  end.

Definition store_growthAggregation (curBlockTime : Z) : Tables -> option EntityError * Tables :=
  elsewhere (foldr Nat.add 0%nat sch_aggregations).

(** ** As the chain store's tables *)

#[global] Instance entity_tables : EntityStore Tables := {
  db_GetEntityType := sch_type;
  useVersionedCollapsingTable := versioned;
  db_getEntity := store_getEntity;
  db_listEntities := store_listEntities;
  db_countEntity := store_countEntity;
  db_getAllID := store_getAllID;
  db_getMaxID := store_getMaxID;
  db_setEntities := store_setEntities;
  db_growthAggregation := store_growthAggregation;
  db_reorg := store_reorg;
  db_CheckValue := store_CheckValue
}.
End Tables.
