(* ===== verification/EntitySpec.v ===== *)
(** * What the entity controller promises

    The value of an entity at a block is what the changes up to the block make, one after
    the other, of the committed data ([value]). Executing the operators of a history in
    place, reading and committing do not change it. *)
From Stdlib Require Import ZArith Lia Ascii String.
From stdpp Require Import base numbers option strings pretty sorting gmap list.
From S2P Require Import Prelude BlockCache RangeBase RangeSet RangeSetOps RangeText EntityValue EntityHistory EntityMerge EntityCtrl.

Section Spec.
Context `{HD : Decimal}.

Abbreviation DataMap := (gmap string Value).

(** ** The committed data *)

Definition box_is (e id : string) (b : EntityBox) : Prop := Entity b = e /\ ID b = id.
#[global] Instance box_is_dec e id b : Decision (box_is e id b) := _.

(** The boxes of an entity in a log. *)
Definition of_entity (e id : string) (l : list EntityBox) : list EntityBox := filter (box_is e id) l.

Definition stored_data (l : list EntityBox) (e id : string) : option DataMap := last (of_entity e id l) ≫= Data.

(** A series of boxes in the order of their blocks, one for a block. *)
Definition ascending (l : list EntityBox) : Prop := StronglySorted Z.lt (map GenBlockNumber l).

Lemma filter_entity e l : Forall (fun b => Entity b = e) l -> filter (fun b => Entity b = e) l = l.
Proof. rewrite Forall_forall. apply filter_all. Qed.

Lemma filter_other e e' l : e <> e' -> Forall (fun b => Entity b = e) l -> filter (fun b => Entity b = e') l = [].
Proof. rewrite Forall_forall. intros Hne Hf. apply filter_none. intros x Hx. rewrite (Hf x Hx). done. Qed.

Lemma of_entity_two e id l : of_entity e id l = filter (fun b => ID b = id) (filter (fun b => Entity b = e) l).
Proof. unfold of_entity. rewrite list_filter_filter. apply list_filter_iff. unfold box_is. tauto. Qed.

Lemma of_entity_app e id l1 l2 : of_entity e id (l1 ++ l2) = of_entity e id l1 ++ of_entity e id l2.
Proof. apply filter_app. Qed.

Lemma of_entity_other e e' id l : e <> e' -> Forall (fun b => Entity b = e) l -> of_entity e' id l = [].
Proof. intros Hne Hf. rewrite of_entity_two, (filter_other e e') by done. done. Qed.

Lemma ascending_app_r l1 l2 : ascending (l1 ++ l2) -> ascending l2.
Proof. unfold ascending. rewrite map_app. apply StronglySorted_app_1_r. Qed.

Lemma stored_data_app l w e id :
  stored_data (l ++ w) e id =
  match last (of_entity e id w) with Some b => Data b | None => stored_data l e id end.
Proof.
  unfold stored_data. rewrite of_entity_app. destruct (of_entity e id w) as [|b t] using rev_ind.
  - by rewrite app_nil_r.
  - by rewrite app_assoc, !last_snoc.
Qed.

(** The entities of which the store keeps what it is given: not a time series, which gets
    new ids, and not one that is only cached. *)
Definition persisted (et : EntityType) : Prop := IsTimeSeries et = false /\ IsCache et = false.
#[global] Instance persisted_dec et : Decision (persisted et) := _.

(** The boxes of every persisted entity are in order. *)
Definition ordered_log (types : string -> EntityType) (l : list EntityBox) : Prop :=
  forall e id, persisted (types e) -> ascending (of_entity e id l).

(** The store has a log of the boxes written to it. It may be sound up to a block
    ([sbase]), or all of it, caches included, may agree with the log ([sclean]). With caches that agree, [GetEntity]
    answers with the last box of the entity. [SetEntities] appends the boxes, those of an
    id in their order, or fails having appended some; the caches agree still when it
    succeeds. [Reorg] deletes the boxes above a block, or fails having deleted some; the
    store agrees with the log when it succeeds, if it was sound up to that block. *)
Class ChainStoreLaws (St : Type) `{!ChainStore St} : Type := {
  slog : St -> list EntityBox;
  sbase : Z -> St -> Prop;
  sclean : St -> Prop;
  sclean_base s m : sclean s -> sbase m s;
  GetEntityType_name e : Name (st_GetEntityType e) = e;
  GetEntity_ok e id s r s' :
    st_GetEntity (st_GetEntityType e) id s = (r, s') ->
    slog s' = slog s /\
    (persisted (st_GetEntityType e) -> sclean s -> ordered_log st_GetEntityType (slog s) ->
     sclean s' /\ forall box, r = inl box -> (box ≫= Data) = stored_data (slog s) e id);
  MaxID_ok e s r s' :
    st_GetTimeSeriesEntityMaxID (st_GetEntityType e) s = (r, s') ->
    slog s' = slog s /\ (sclean s -> sclean s') /\
    (forall m, r = inl m -> - 2 ^ 63 <= m < 2 ^ 63 /\ Forall (fun b => Entity b = e -> ParseInt (ID b) <= m) (slog s));
  SetEntities_ok e boxes s n err s' :
    st_SetEntities (st_GetEntityType e) boxes s = ((n, err), s') -> Forall (fun b => Entity b = e) boxes ->
    exists part, slog s' = slog s ++ part /\ (forall b, b ∈ part -> b ∈ boxes) /\
      (err = None -> IsCache (st_GetEntityType e) = false -> forall id, ascending (of_entity e id boxes) -> of_entity e id part = of_entity e id boxes) /\
      (sclean s -> ordered_log st_GetEntityType (slog s) ->
       (persisted (st_GetEntityType e) -> forall id, ascending (of_entity e id (slog s ++ boxes))) ->
       (forall m, sbase m s') /\ (err = None -> sclean s'));
  Growth_ok t s e s' : st_GrowthAggregation t s = (e, s') -> slog s' = slog s /\ (sclean s -> sclean s');
  Reorg_ok n s e s' :
    st_Reorg n s = (e, s') ->
    (forall m, n <= m -> sbase m s -> sbase n s' /\ (e = None -> sclean s')) /\ slog s' `sublist_of` slog s /\
    filter (fun b => GenBlockNumber b <= n) (slog s') = filter (fun b => GenBlockNumber b <= n) (slog s) /\
    (e = None -> slog s' = filter (fun b => GenBlockNumber b <= n) (slog s))
}.

(** ** The meaning of a history *)

Fixpoint eval (et : EntityType) (prev : option DataMap) (h : list UncommittedEntityBox) : Outcome (option DataMap) :=
  match h with
  | [] => Ok prev
  | b :: t => let! d := exec_box et (default ∅ prev) b in eval et d t
  end.

Lemma eval_app et prev h1 h2 : eval et prev (h1 ++ h2) = (let! d := eval et prev h1 in eval et d h2).
Proof.
  revert prev. induction h1 as [|b h1 IH]; intros prev; [done|]. simpl.
  destruct (exec_box et (default ∅ prev) b) as [d| |]; [apply IH|done..].
Qed.

(** The history with the operators of the boxes up to [n] executed. *)
Fixpoint executed (et : EntityType) (prev : option DataMap) (n : Z) (h : list UncommittedEntityBox)
    : Outcome (list UncommittedEntityBox) :=
  match h with
  | [] => Ok []
  | b :: t =>
      if n <? gen b then Ok h
      else
        let! d := exec_box et (default ∅ prev) b in
        let! t' := executed et d n t in
        Ok (mkUncommitted (set_data d (ebox b)) ∅ :: t')
  end.

Definition upto (m : Z) (h : list UncommittedEntityBox) : list UncommittedEntityBox := filter (fun b => gen b <= m) h.
Definition beyond (m : Z) (h : list UncommittedEntityBox) : list UncommittedEntityBox := filter (fun b => m < gen b) h.

Lemma hist_ok_cons b t : hist_ok (b :: t) <-> hist_ok t /\ Forall (fun c => gen b < gen c) t.
Proof.
  unfold hist_ok. simpl. split.
  - intros Hs. apply StronglySorted_inv in Hs as [? Hf]. by rewrite Forall_map in Hf.
  - intros [? ?]. constructor; [done|]. by rewrite Forall_map.
Qed.

Lemma upto_beyond m h : hist_ok h -> h = upto m h ++ beyond m h.
Proof.
  intros Hs. destruct (Count_spec h m Hs) as (_ & H1 & H2). unfold upto, beyond. rewrite <- H1, <- H2. by rewrite take_drop.
Qed.

(** Boxes in order: nothing is below once one is beyond. *)
Lemma upto_none m b t : hist_ok (b :: t) -> m < gen b -> upto m (b :: t) = [].
Proof.
  intros [_ Hf]%hist_ok_cons Hb. apply filter_none. rewrite Forall_forall in Hf.
  intros x [->|Hx]%elem_of_cons; [lia|]. specialize (Hf x Hx). lia.
Qed.

Lemma upto_cons m b t : hist_ok (b :: t) -> gen b <= m -> upto m (b :: t) = b :: upto m t.
Proof. intros _ Hb. unfold upto. by rewrite filter_cons_True. Qed.

Lemma set_data_same b : set_data (Data b) b = b.
Proof. by destruct b. Qed.

Lemma exec_box_plain et prev b : Operators b = ∅ -> exec_box et prev b = Ok (Data (ebox b)).
Proof.
  intros Ho. unfold exec_box. destruct (Data (ebox b)) as [d|]; [|done]. by rewrite Ho.
Qed.

Lemma executed_gens et prev n h h' : executed et prev n h = Ok h' -> map gen h' = map gen h.
Proof.
  revert prev h'. induction h as [|b t IH]; intros prev h'; simpl; [by intros [= <-]|].
  bcase; [by intros [= <-]|]. destruct (exec_box _ _ b) as [d| |]; cbn [obind]; try done.
  destruct (executed et d n t) as [t'| |] eqn:Et; cbn [obind]; try done. intros [= <-]. simpl. f_equal. by eapply IH.
Qed.

Lemma upto_gens m h : map gen (upto m h) = filter (fun z => z <= m) (map gen h).
Proof.
  unfold upto. induction h as [|b t IH]; [done|]. simpl. rewrite !filter_cons. case_decide; simpl; by rewrite IH.
Qed.

Lemma executed_hist_ok et prev n h h' : hist_ok h -> executed et prev n h = Ok h' -> hist_ok h'.
Proof. intros Hs E. unfold hist_ok. by rewrite (executed_gens _ _ _ _ _ E). Qed.

(** Executing operators does not change the value at any block. *)
Lemma executed_eval et prev n m h h' :
  hist_ok h -> executed et prev n h = Ok h' -> eval et prev (upto m h') = eval et prev (upto m h).
Proof.
  revert prev h'. induction h as [|b t IH]; intros prev h' Hs E; [by injection E as <-|].
  pose proof (executed_hist_ok _ _ _ _ _ Hs E) as Hs'. cbn [executed] in E.
  bcase_in E; [by injection E as <-|]. destruct (exec_box et (default ∅ prev) b) as [d| |] eqn:Ed; cbn [obind] in E; try done.
  destruct (executed et d n t) as [t'| |] eqn:Et; cbn [obind] in E; try done. injection E as <-.
  destruct (Z_le_gt_dec (gen b) m) as [Hb|Hb].
  - rewrite (upto_cons m b t) by done. rewrite upto_cons by done. cbn [eval]. rewrite Ed.
    rewrite exec_box_plain by done. cbn [ebox Data set_data obind]. apply IH; [by apply hist_ok_cons in Hs as [? _]|done].
  - rewrite (upto_none m b t) by (done || lia). rewrite upto_none; [done|done|]. change (m < gen b). lia.
Qed.

(** The value at the block is the data of the latest box. *)
Lemma executed_latest et prev n h h' :
  hist_ok h -> executed et prev n h = Ok h' ->
  eval et prev (upto n h) = Ok (match last (upto n h') with Some b => Data (ebox b) | None => prev end).
Proof.
  revert prev h'. induction h as [|b t IH]; intros prev h' Hs E; [by injection E as <-|].
  pose proof (executed_hist_ok _ _ _ _ _ Hs E) as Hs'. cbn [executed] in E.
  bcase_in E; [injection E as <-; by rewrite upto_none|].
  destruct (exec_box et (default ∅ prev) b) as [d| |] eqn:Ed; cbn [obind] in E; try done.
  destruct (executed et d n t) as [t'| |] eqn:Et; cbn [obind] in E; try done. injection E as <-.
  rewrite upto_cons by done. cbn [eval]. rewrite Ed. cbn [obind].
  rewrite (IH d t') by (done || by apply hist_ok_cons in Hs as [? _]). rewrite upto_cons by done.
  destruct (upto n t') as [|c l]; [done|]. rewrite last_cons_cons. by destruct (last (c :: l)) eqn:El; [|apply last_None in El].
Qed.

Lemma executed_beyond et prev n h h' : hist_ok h -> executed et prev n h = Ok h' -> beyond n h' = beyond n h.
Proof.
  revert prev h'. induction h as [|b t IH]; intros prev h' Hs E; [by injection E as <-|].
  cbn [executed] in E. bcase_in E; [by injection E as <-|].
  destruct (exec_box et (default ∅ prev) b) as [d| |] eqn:Ed; cbn [obind] in E; try done.
  destruct (executed et d n t) as [t'| |] eqn:Et; cbn [obind] in E; try done. injection E as <-.
  unfold beyond. rewrite (filter_cons_False _ b) by lia. rewrite filter_cons_False by (change (~ n < gen b); lia).
  apply hist_ok_cons in Hs as [Hs _]. exact (IH d t' Hs Et).
Qed.

(** Where the value at the block is defined, the operators can be executed. *)
Lemma executed_defined et prev n h v :
  hist_ok h -> eval et prev (upto n h) = Ok v -> exists h', executed et prev n h = Ok h'.
Proof.
  revert prev. induction h as [|b t IH]; intros prev Hs E; [by eexists|]. cbn [executed]. bcase; [by eexists|].
  rewrite upto_cons in E by done. cbn [eval] in E. destruct (exec_box et (default ∅ prev) b) as [d| |]; cbn [obind] in *; try done.
  destruct (IH d) as [t' ->]; [by apply hist_ok_cons in Hs as [? _]|done|]. cbn [obind]. by eexists.
Qed.

Lemma exec_box_ok et prev b d :
  box_ok et b -> exec_box et prev b = Ok d -> box_ok et (mkUncommitted (set_data d (ebox b)) ∅).
Proof.
  intros Hb. unfold exec_box. destruct (Data (ebox b)) as [d0|] eqn:E0; [|intros [= <-]; by split].
  destruct (calc_all et prev (Operators b) d0) as [d1| |] eqn:Ec; cbn [obind]; try done. intros [= <-].
  pose proof (calc_all_lookup _ _ _ _ _ Ec) as Hl. split; cbn [ebox Data set_data Operators]; [done|..]; intros d2 [= <-].
  - rewrite dom_empty_L, union_empty_r_L, <- (bo_fields _ _ Hb d0 E0). apply set_eq. intros f.
    rewrite elem_of_union, !elem_of_dom. specialize (Hl f). destruct (Operators b !! f); [destruct Hl as (v & _ & ->)|rewrite Hl].
    + split; [by right; eexists|by eexists].
    + split; [by left|]. by intros [?|[? ?]].
  - rewrite dom_empty_L. apply disjoint_empty_r.
Qed.

Lemma executed_boxes et prev n h h' (P : EntityBox -> Prop) :
  (forall b d, P b -> P (set_data d b)) -> executed et prev n h = Ok h' ->
  Forall (fun b => P (ebox b)) h -> Forall (box_ok et) h ->
  Forall (fun b => P (ebox b)) h' /\ Forall (box_ok et) h' /\ (h' = [] -> h = []).
Proof.
  intros HP. revert prev h'. induction h as [|b t IH]; intros prev h' E Hp Hb; cbn [executed] in E; [injection E as <-; done|].
  apply Forall_cons in Hp as [Hpb Hp], Hb as [Hbb Hb].
  bcase_in E; [injection E as <-; split_and!; [by constructor|by constructor|done]|].
  destruct (exec_box et (default ∅ prev) b) as [d| |] eqn:Ed; cbn [obind] in E; try done.
  destruct (executed et d n t) as [t'| |] eqn:Et; cbn [obind] in E; try done. injection E as <-.
  destruct (IH d t' Et Hp Hb) as (I1 & I2 & _). split_and!; [|constructor; [by eapply exec_box_ok|done]|done].
  constructor; [|done]. cbn. by apply HP.
Qed.

(** ** Executing operators in place *)

Section Store.
Context {St : Type} `{HSt : !ChainStore St} `{!ChainStoreLaws St}.

Abbreviation State := (EState (St := St)).

(** The store answers with what is in its log. *)
Definition store_ok (st : St) : Prop := sclean st /\ ordered_log st_GetEntityType (slog st).

(** Only the store's caches may have changed. *)
Definition same_store (s s' : State) : Prop :=
  changes s' = changes s /\ committed s' = committed s /\ slog (store s') = slog (store s) /\
  (store_ok (store s) -> store_ok (store s')).

Lemma same_store_refl s : same_store s s.
Proof. done. Qed.

Lemma same_store_trans s1 s2 s3 : same_store s1 s2 -> same_store s2 s3 -> same_store s1 s3.
Proof. unfold same_store. intros (? & ? & ? & Hso1) (? & ? & ? & Hso2). split_and!; [congruence..|]. intros Hso. by apply Hso2, Hso1. Qed.

Lemma GetEntity_spec e id s r s' :
  st_GetEntity (st_GetEntityType e) id s = (r, s') -> persisted (st_GetEntityType e) -> store_ok s ->
  slog s' = slog s /\ store_ok s' /\ forall box, r = inl box -> (box ≫= Data) = stored_data (slog s) e id.
Proof.
  intros [Hl Hr]%GetEntity_ok Hp [Hc Ho]. destruct (Hr Hp Hc Ho) as [Hc' Hb]. split_and!; [done| |done]. split; [done|by rewrite Hl].
Qed.

(** An entity of which the store does not keep what it is given has no operators to
    execute. *)
Definition no_operators (h : list UncommittedEntityBox) : Prop := Forall (fun b => Operators b = ∅) h.
Definition plain_elsewhere (cs : gmap string (gmap string (list UncommittedEntityBox))) : Prop :=
  forall e id, ~ persisted (st_GetEntityType e) -> no_operators (history cs e id).

(** A store whose operations on entities that are no time series do not fail, and accept
    every value. *)
Record StoreWorks : Prop := mkStoreWorks {
  sw_get e id s : exists box, (st_GetEntity (st_GetEntityType e) id s).1 = inl box;
  sw_check et d : st_CheckValue et d = true;
  sw_set e boxes s : IsTimeSeries (st_GetEntityType e) = false -> (st_SetEntities (st_GetEntityType e) boxes s).1.2 = None;
  sw_growth t s : (st_GrowthAggregation t s).1 = None;
  sw_reorg n s : (st_Reorg n s).1 = None
}.

(** The data before the first box of the list. *)
Definition data_before (et : EntityType) (id : string) (prev : option UncommittedEntityBox) (s : State) : option DataMap :=
  match prev with
  | Some p => Data (ebox p)
  | None => stored_data (slog (store s)) (Name et) id
  end.

Lemma exec_history_spec ent id n prev h s hp :
  let et := st_GetEntityType ent in
  store_ok (store s) -> (persisted et \/ no_operators h) ->
  Forall (box_ok et) h -> executed et (data_before et id prev s) n h = Ok hp ->
  exists e h' s', exec_history et id n prev h s = Ok ((e, h'), s') /\ same_store s s' /\ (e = None -> h' = hp) /\
    (StoreWorks -> e = None).
Proof.
  intros et. revert prev s hp. induction h as [|b t IH]; intros prev s hp Hso Hper Hb E; cbn [exec_history executed] in *.
  { injection E as <-. by exists None, [], s. }
  apply Forall_cons in Hb as [Hb Ht]. bcase; [injection E as <-; by exists None, (b :: t), s|].
  destruct (exec_box et (default ∅ (data_before et id prev s)) b) as [d| |] eqn:Ed; cbn [obind] in E; try done.
  destruct (executed et d n t) as [t'| |] eqn:Et; cbn [obind] in E; try done. injection E as <-.
  assert (Hnext : forall b' s1, data_before et id (Some b') s1 = d -> b' = mkUncommitted (set_data d (ebox b)) ∅ ->
            same_store s s1 ->
            exists e h' s', ('(e, rest') ← exec_history et id n (Some b') t; mret (e, b' :: rest')) s1 = Ok ((e, h'), s') /\
              same_store s s' /\ (e = None -> h' = mkUncommitted (set_data d (ebox b)) ∅ :: t') /\ (StoreWorks -> e = None)).
  { intros b' s1 Hd -> Hs1. destruct (IH (Some (mkUncommitted (set_data d (ebox b)) ∅)) s1 t') as (e & h' & s' & E' & Hs' & Hn & Hw);
      [by apply Hs1|destruct Hper as [?|Hper]; [by left|right; by apply Forall_cons in Hper as [_ ?]]|done|by rewrite Hd|].
    unfold mbind, SM_bind. rewrite E'. cbn [obind]. eexists _, _, s'. split_and!; [reflexivity|by eapply same_store_trans| |done].
    intros ->. by rewrite Hn. }
  destruct (Data (ebox b)) as [d0|] eqn:E0.
  - case_bool_decide as Ho.
    + assert (Hd : d = Some d0) by (rewrite exec_box_plain in Ed by done; congruence). subst d.
      apply Hnext; [done| |done]. rewrite <- E0, set_data_same. destruct b as [eb ops]. simpl in *. by subst ops.
    + unfold exec_box in Ed. rewrite E0 in Ed.
      assert (Hpre : exists r s1, (match prev with None => with_store (st_GetEntity et id) | Some p => mret (inl (Some (ebox p))) end)
                       s = Ok (r, s1) /\ same_store s s1 /\
                     (forall preBox, r = inl preBox -> (preBox ≫= Data) = data_before et id prev s) /\
                     (StoreWorks -> exists preBox, r = inl preBox)).
      { destruct Hper as [Hper|Hper]; [|by apply Forall_cons in Hper as [? _]]. destruct prev as [p|].
        - eexists _, s. split_and!; [reflexivity|done|by intros ? [= <-]|by eexists].
        - unfold with_store. destruct (st_GetEntity et id (store s)) as [r st] eqn:Eg. pose proof Eg as Eg'.
          apply GetEntity_spec in Eg as (Hl & Hc & Hr); [|done|done]. eexists _, _. split_and!; [reflexivity|by unfold same_store| |].
          + cbn [data_before]. unfold et. by rewrite GetEntityType_name.
          + intros Hw. pose proof (sw_get Hw ent id (store s)) as Hi. fold et in Hi. by rewrite Eg' in Hi. }
      destruct Hpre as (r & s1 & Er & Hs1 & Hr & Hwr). unfold mbind at 1, SM_bind at 1. rewrite Er. cbn [obind].
      destruct r as [preBox|err]; [|eexists _, _, s1; split_and!; [reflexivity|done|done|intros Hw; by destruct (Hwr Hw)]].
      rewrite (Hr preBox eq_refl). destruct (calc_all et (default ∅ (data_before et id prev s)) (Operators b) d0) as [d1| |]; cbn [obind] in Ed; try done.
      injection Ed as <-. unfold mbind at 1, SM_bind at 1, slift. cbn [obind]. destruct (st_CheckValue et d1) eqn:Ek.
      * by apply Hnext.
      * eexists _, _, s1. split_and!; [reflexivity|done|done|]. intros Hw. by rewrite (sw_check Hw) in Ek.
  - assert (Ho : Operators b = ∅) by by apply (bo_deleted et b Hb). rewrite exec_box_plain in Ed by done.
    assert (Hd : d = None) by congruence. subst d. apply Hnext; [done| |done].
    rewrite <- E0, set_data_same. destruct b as [eb ops]. simpl in *. by subst ops.
Qed.

(** ** The invariant of the changes *)

Definition changes_ok (cs : gmap string (gmap string (list UncommittedEntityBox))) : Prop :=
  forall e id h, GetFromK2Map cs e id = Some h ->
    h <> [] /\ hist_ok h /\ Forall (fun b => box_is e id (ebox b)) h /\ Forall (box_ok (st_GetEntityType e)) h.

(** The value of an entity at a block. *)
Definition value (s : State) (e id : string) (m : Z) : Outcome (option DataMap) :=
  eval (st_GetEntityType e) (stored_data (slog (store s)) e id) (upto m (history (changes s) e id)).

(** The operators of an entity's boxes up to a block have been executed. *)
Definition history_executed (s : State) (e id : string) (n : Z) (s' : State) : Prop :=
  executed (st_GetEntityType e) (stored_data (slog (store s)) e id) n (history (changes s) e id) =
    Ok (history (changes s') e id).

Lemma history_put cs e id h e' id' :
  history (PutIntoK2Map cs e id h) e' id' = if decide ((e', id') = (e, id)) then h else history cs e' id'.
Proof.
  unfold history. case_decide as Hd; [injection Hd as -> ->; by rewrite Get_Put|by rewrite Get_Put_ne].
Qed.

Lemma history_ok cs e id : changes_ok cs -> hist_ok (history cs e id) /\ Forall (box_ok (st_GetEntityType e)) (history cs e id).
Proof.
  intros Hc. unfold history. destruct (GetFromK2Map cs e id) as [h|] eqn:E; simpl; [by apply Hc in E as (_ & ? & _ & ?)|].
  split; constructor.
Qed.

Lemma changes_ok_put cs e id h :
  changes_ok cs -> h <> [] -> hist_ok h -> Forall (fun b => box_is e id (ebox b)) h -> Forall (box_ok (st_GetEntityType e)) h ->
  changes_ok (PutIntoK2Map cs e id h).
Proof.
  intros Hc H1 H2 H3 H4 e' id' h' E. destruct (decide ((e', id') = (e, id))) as [[= -> ->]|Hne].
  - rewrite Get_Put in E. by injection E as <-.
  - rewrite Get_Put_ne in E by done. by apply Hc.
Qed.

(** Only the history of one entity may have changed. *)
Definition only_entity (e id : string) (s s' : State) : Prop :=
  slog (store s') = slog (store s) /\ committed s' = committed s /\
  (forall e' id', (e', id') <> (e, id) -> GetFromK2Map (changes s') e' id' = GetFromK2Map (changes s) e' id') /\
  (store_ok (store s) -> store_ok (store s')).

Lemma executeEntityOperator_spec e id n s v :
  Name (st_GetEntityType e) = e -> store_ok (store s) -> plain_elsewhere (changes s) -> changes_ok (changes s) -> value s e id n = Ok v ->
  exists r s', executeEntityOperator (st_GetEntityType e) id n s = Ok (r, s') /\ only_entity e id s s' /\
    (r = None -> history_executed s e id n s' /\ changes_ok (changes s')) /\ (StoreWorks -> r = None).
Proof.
  intros Hn Hso Hpl Hc Hv. unfold executeEntityOperator, mbind, SM_bind, sget. cbn [obind]. rewrite Hn.
  destruct (history_ok (changes s) e id Hc) as [Hh Hb].
  destruct (executed_defined _ _ _ _ _ Hh Hv) as [hp Hp].
  destruct (GetFromK2Map (changes s) e id) as [h|] eqn:Eh.
  - assert (Hhist : history (changes s) e id = h) by (unfold history; by rewrite Eh). rewrite Hhist in *.
    destruct (exec_history_spec e id n None h s hp Hso) as (r & h' & s1 & E & (S1 & S2 & S3 & S4) & Hr & Hw); [|done| |].
    { destruct (decide (persisted (st_GetEntityType e))) as [?|Hnp]; [by left|right]. pose proof (Hpl e id Hnp) as Hp0. by rewrite Hhist in Hp0. }
    { cbn [data_before]. by rewrite Hn. }
    rewrite E. cbn [obind smodify]. eexists _, _. split; [reflexivity|]. cbn [changes store committed set_changes].
    split; [split_and!; [done|done| |done]|split; [|done]].
    + intros e' id' Hne. rewrite S1. by apply Get_Put_ne.
    + intros ->. rewrite (Hr eq_refl) in *. unfold history_executed. rewrite Hhist, Hp. cbn [changes set_changes]. rewrite history_put.
      rewrite decide_True by done. split; [done|]. rewrite S1. destruct (Hc e id h Eh) as (C1 & C2 & C3 & C4).
      destruct (executed_boxes _ _ _ _ _ (box_is e id) ltac:(by intros b d []) Hp C3 C4) as (D1 & D2 & D3).
      apply changes_ok_put; [done|by intros ?%D3|by eapply executed_hist_ok|done|done].
  - eexists _, _. split; [reflexivity|]. split; [done|]. split; [|done]. intros _. split; [|done].
    unfold history_executed, history. by rewrite Eh.
Qed.

(** What an execution does to the value of any entity at any block: nothing. *)
Lemma executed_value s s' e id n e' id' m :
  changes_ok (changes s) -> only_entity e id s s' -> history_executed s e id n s' -> value s' e' id' m = value s e' id' m.
Proof.
  intros Hc (Hl & _ & Ho & _) He. unfold value. rewrite Hl. destruct (decide ((e', id') = (e, id))) as [[= -> ->]|Hne].
  - by rewrite (executed_eval _ _ n m _ _ (proj1 (history_ok _ e id Hc)) He).
  - unfold history. by rewrite Ho.
Qed.

Lemma executed_all_gens s s' e id n e' id' :
  only_entity e id s s' -> history_executed s e id n s' ->
  map gen (history (changes s') e' id') = map gen (history (changes s) e' id').
Proof.
  intros (_ & _ & Ho & _) He. destruct (decide ((e', id') = (e, id))) as [[= -> ->]|Hne]; [by eapply executed_gens|].
  unfold history. by rewrite Ho.
Qed.

(** ** Reading *)

Lemma eval_last et prev l b v : Operators b = ∅ -> eval et prev (l ++ [b]) = Ok v -> v = Data (ebox b).
Proof.
  intros Ho. rewrite eval_app. destruct (eval et prev l) as [d| |]; cbn [obind eval]; try done.
  rewrite exec_box_plain by done. cbn [obind]. congruence.
Qed.

(** A read returns the value at the block, unless the store or the check of a result
    fails, and leaves every value as it is. *)
Lemma getEntity_spec e id n s v :
  Name (st_GetEntityType e) = e -> persisted (st_GetEntityType e) -> store_ok (store s) -> plain_elsewhere (changes s) ->
  changes_ok (changes s) -> value s e id n = Ok v ->
  exists r s', getEntity (st_GetEntityType e) id n false s = Ok (r, s') /\ only_entity e id s s' /\
    (forall box, r = inl box -> (box ≫= Data) = v /\ changes_ok (changes s') /\
      (forall e' id', map gen (history (changes s') e' id') = map gen (history (changes s) e' id')) /\
      forall e' id' m, value s' e' id' m = value s e' id' m) /\
    (StoreWorks -> exists box, r = inl box).
Proof.
  intros Hn Hper Hso Hpl Hc Hv. destruct (history_ok (changes s) e id Hc) as [Hh _].
  unfold getEntity, mbind, SM_bind, sget. cbn [obind]. rewrite Hn, Latest_last by done. fold (upto n (history (changes s) e id)).
  destruct (last (upto n (history (changes s) e id))) as [b|] eqn:El.
  - cbn [andb]. case_bool_decide as Ho.
    + eexists _, s. split; [reflexivity|]. split; [done|]. split; [|by eexists]. intros box [= <-]. split; [|done]. cbn.
      apply last_Some in El as [l El]. unfold value in Hv. rewrite El in Hv. symmetry. by eapply eval_last.
    + destruct (executeEntityOperator_spec e id n s v Hn Hso Hpl Hc Hv) as (r & s' & -> & Hon & Hr & Hw). cbn [obind].
      destruct r as [err|]; [exists (inr err), s'; split_and!; [done|done|done|intros Hk; by discriminate (Hw Hk)]|]. destruct (Hr eq_refl) as [He Hc'].
      eexists _, s'. split; [reflexivity|]. split; [done|]. split; [|by eexists]. intros box [= <-].
      pose proof (executed_latest _ _ _ _ _ Hh He) as Hlat. unfold value in Hv. rewrite Hv in Hlat. injection Hlat as ->.
      rewrite Latest_last by apply (history_ok _ _ _ Hc'). fold (upto n (history (changes s') e id)).
      split_and!; [|done|intros; by eapply executed_all_gens|intros; by eapply executed_value].
      destruct (last (upto n (history (changes s') e id))) as [b'|] eqn:El'; [done|]. exfalso.
      assert (Hg : map gen (upto n (history (changes s') e id)) = map gen (upto n (history (changes s) e id))).
      { rewrite !upto_gens. by rewrite (executed_gens _ _ _ _ _ He). }
      apply last_None in El'. rewrite El' in Hg. apply last_Some in El as [l El]. rewrite El, map_app in Hg. by destruct l.
  - unfold with_store. destruct (st_GetEntity (st_GetEntityType e) id (store s)) as [r st] eqn:Eg.
    pose proof Eg as Eg'. apply GetEntity_spec in Eg as (Hl & Hso' & Hr); [|done|done]. eexists _, _. split; [reflexivity|]. split; [done|].
    split; [|intros Hw; pose proof (sw_get Hw e id (store s)) as Hi; by rewrite Eg' in Hi]. intros box Hb.
    specialize (Hr box Hb). apply last_None in El. unfold value in Hv. rewrite El in Hv. injection Hv as <-.
    split_and!; [exact Hr|done|done|]. intros e' id' m. unfold value. by cbn [store changes]; rewrite Hl.
Qed.
End Store.
End Spec.
