(* ===== verification/ChainStoreSpec.v ===== *)
(** * The caches of the chain store agree with the tables

    The laws of the tables and of the LRU caches, and the invariant that what a cache has
    is what the tables have. Reading and writing keep it as long as the writes succeed, so
    the chain store is a store in the sense of the controller ([ChainStoreLaws]). Time
    series entities, whose writes pass the caches by, and entities that are only cached
    are outside of it. *)
From Stdlib Require Import ZArith Lia Ascii String.
From stdpp Require Import base numbers option strings pretty sorting gmap list.
From S2P Require Import Prelude BlockCache RangeText EntityValue EntityHistory EntityMerge EntityCtrl EntityRich EntityFilter ChainStore EntitySpec.

(** ** Keys *)

Fixpoint plain_name (s : string) : bool :=
  match s with
  | EmptyString => true
  | String c t => negb (Ascii.eqb c "/") && plain_name t
  end.

Lemma chainStoreCacheKey_inj e1 e2 id1 id2 :
  plain_name e1 = true -> plain_name e2 = true -> chainStoreCacheKey e1 id1 = chainStoreCacheKey e2 id2 -> e1 = e2 /\ id1 = id2.
Proof.
  unfold chainStoreCacheKey. revert e2.
  induction e1 as [|c1 e1 IH]; intros [|c2 e2] H1 H2 E; cbn in H1, H2.
  - change (String "/" id1 = String "/" id2) in E. by injection E as ->.
  - change (String "/" id1 = String c2 (e2 +:+ "/" +:+ id2)) in E. injection E as <- _. by rewrite Ascii.eqb_refl in H2.
  - change (String c1 (e1 +:+ "/" +:+ id1) = String "/" id2) in E. injection E as -> _. by rewrite Ascii.eqb_refl in H1.
  - change (String c1 (e1 +:+ "/" +:+ id1) = String c2 (e2 +:+ "/" +:+ id2)) in E. injection E as -> E.
    apply andb_prop in H1 as [_ H1], H2 as [_ H2]. by destruct (IH e2 H1 H2 E) as [-> ->].
Qed.

(** ** Folds over maps *)

(** A loop that sets one key after the other, each once. *)
Lemma foldl_set {V W} (F : gmap string W -> string * V -> gmap string W) (g : string -> V -> option W) l m :
  (forall m k v, F m (k, v) !! k = g k v) -> (forall m k v j, j <> k -> F m (k, v) !! j = m !! j) -> NoDup l.*1 ->
  forall k, foldl F m l !! k = match (list_to_map l : gmap string V) !! k with Some v => g k v | None => m !! k end.
Proof.
  intros H1 H2. revert m. induction l as [|[k0 v0] l IH]; intros m Hnd k; [done|]. apply NoDup_cons in Hnd as [Hni Hnd].
  cbn [foldl list_to_map foldr]. rewrite (IH _ Hnd k). cbn. destruct (decide (k = k0)) as [->|Hne].
  - rewrite (not_elem_of_list_to_map_1 (M := gmap string)) by done. by rewrite lookup_insert_eq, H1.
  - rewrite lookup_insert_ne by done. by destruct (list_to_map l !! k) eqn:E; [|rewrite H2].
Qed.

(** A loop that collects the rows of the ids. *)
Lemma foldl_collect {R W} (f : string -> option R) (key : R -> string) (g : R -> W) ids (m : gmap string W) :
  (forall i r, f i = Some r -> key r = i) -> NoDup ids ->
  forall k, foldl (fun m r => <[key r := g r]> m) m (omap f ids) !! k =
    if bool_decide (k ∈ ids) then match f k with Some r => Some (g r) | None => m !! k end else m !! k.
Proof.
  intros Hkey. revert m. induction ids as [|i ids IH]; intros m Hnd k; [done|]. apply NoDup_cons in Hnd as [Hni Hnd].
  cbn [omap list_omap]. destruct (f i) as [r|] eqn:Ei; cbn [foldl]; rewrite (IH _ Hnd k).
  - rewrite (Hkey i r Ei). destruct (decide (k = i)) as [->|Hne].
    + rewrite (bool_decide_eq_false_2 (i ∈ ids)) by done. rewrite bool_decide_eq_true_2 by (by left). by rewrite Ei, lookup_insert_eq.
    + rewrite lookup_insert_ne by done. rewrite (bool_decide_ext (k ∈ i :: ids) (k ∈ ids)); [done|]. rewrite elem_of_cons. naive_solver.
  - destruct (decide (k = i)) as [->|Hne].
    + rewrite (bool_decide_eq_false_2 (i ∈ ids)) by done. rewrite bool_decide_eq_true_2 by (by left). by rewrite Ei.
    + rewrite (bool_decide_ext (k ∈ i :: ids) (k ∈ ids)); [done|]. rewrite elem_of_cons. naive_solver.
Qed.

Section Spec.
Context `{HD : Decimal} `{HC : !Conversions}.

Lemma DataSize_pos et : FieldsDefinition et <> [] -> 0 < DataSize et.
Proof.
  unfold DataSize. assert (Hn : forall l, 0 <= foldr (fun f size => (if 0 <? CountListLayer (BreakType (FieldType f)) then 3 else 1) + size) 0 l).
  { induction l as [|f l IH]; cbn; [lia|]. bcase; lia. }
  destruct (FieldsDefinition et) as [|f l]; [done|]. intros _. cbn. specialize (Hn l). bcase; lia.
Qed.

(** The boxes of an id. *)
Definition with_id (id : string) (l : list EntityBox) : list EntityBox := filter (fun b => ID b = id) l.

Lemma latest_last boxes id : latest boxes !! id = last (with_id id boxes).
Proof.
  unfold latest, with_id. induction boxes as [|b boxes IH] using rev_ind; [done|].
  rewrite foldl_snoc, filter_app, filter_cons, filter_nil. case_decide as Hd.
  - rewrite Hd, lookup_insert_eq. by rewrite last_snoc.
  - rewrite lookup_insert_ne by done. by rewrite app_nil_r.
Qed.

Lemma idWriteCount_length boxes id : default 0 (idWriteCount boxes !! id) = Z.of_nat (length (with_id id boxes)).
Proof.
  unfold idWriteCount, with_id. induction boxes as [|b boxes IH] using rev_ind; [done|].
  rewrite foldl_snoc, filter_app, filter_cons, filter_nil, length_app. case_decide as Hd.
  - rewrite Hd, lookup_insert_eq. cbn. rewrite IH. lia.
  - rewrite lookup_insert_ne, IH by done. cbn. lia.
Qed.

Lemma of_entity_with_id e id l : Forall (fun b => Entity b = e) l -> of_entity e id l = with_id id l.
Proof.
  intros Hf. unfold with_id. rewrite <- (filter_all (fun b => Entity b = e) l) by (by apply Forall_forall).
  unfold of_entity. rewrite !list_filter_filter. apply list_filter_iff. unfold box_is. tauto.
Qed.

(** ** The laws of the parts *)

(** The caches of the library keep some of what is added to them. *)
Class LRULaws (L : Type) `{!LRU L} : Type := {
  lru_map : L -> gmap string EntityBox;
  NewLRU_map n : lru_map (NewLRU n) = ∅;
  Get_map k l : (lru_Get k l).1 = lru_map l !! k /\ lru_map (lru_Get k l).2 = lru_map l;
  Add_map k b l : lru_map (lru_Add k b l) ⊆ <[k := b]> (lru_map l);
  Remove_map k l : lru_map (lru_Remove k l) = delete k (lru_map l);
  Purge_map l : lru_map (lru_Purge l) = ∅
}.

Context {L Db : Type} `{HLru : !LRU L} `{HLL : !LRULaws L} `{HDb : !EntityStore Db}.

(** The version of an id counts its rows; tables that do not collapse have none. *)
Definition row_version (et : EntityType) (l : list EntityBox) : Z :=
  if useVersionedCollapsingTable et then Z.of_nat (length l) else 0.

(** The current row of an id. *)
Definition stored_row (et : EntityType) (excludeDeleted : bool) (log : list EntityBox) (id : string) : option storedRow :=
  let l := of_entity (Name et) id log in
  last l ≫= fun b => (if excludeDeleted then live b else Some b) ≫= fun b => Some (mkStored b (row_version et l)).

Definition sorted_ids (e : string) (log : list EntityBox) : list string :=
  merge_sort String.le (elements (list_to_set (map ID (filter (fun b => Entity b = e) log)) : gset string)).

(** The current rows of a table, ordered by id. *)
Definition table_rows (et : EntityType) (excludeDeleted : bool) (log : list EntityBox) : list storedRow :=
  omap (stored_row et excludeDeleted log) (sorted_ids (Name et) log).

(** What the full cache has of an id. *)
Definition full_entry (et : EntityType) (log : list EntityBox) (id : string) : option cachedEntityBox :=
  (fun r => mkCached (rBox r) (rVersion r)) <$> stored_row et (negb (useVersionedCollapsingTable et)) log id.

(** The tables hold a log of what is written to them. They may be sound up to a block
    ([dbase]) or all of them ([dok]): a reorg that fails leaves them sound up to its
    block. The conditions of a list query select by [sql_match]. A count is not below the
    number of rows. The values before a write, where they are given, must be right. *)
Class EntityStoreLaws : Type := {
  elog : Db -> list EntityBox;
  dbase : Z -> Db -> Prop;
  dok : Db -> Prop;
  dok_base d m : dok d -> dbase m d;
  sql_match : list EntityFilter -> EntityBox -> bool;
  sql_match_nil b : sql_match [] b = true;
  db_GetEntityType_name e : Name (db_GetEntityType e) = e;
  db_GetEntityType_plain e : IsCache (db_GetEntityType e) = false -> plain_name e = true /\ FieldsDefinition (db_GetEntityType e) <> [];
  getEntity_ok e id d r d' :
    db_getEntity (db_GetEntityType e) id d = (r, d') -> elog d' = elog d /\ (dok d -> dok d') /\
    (persisted (db_GetEntityType e) -> dok d -> ordered_log db_GetEntityType (elog d) -> forall row, r = inl row -> (rBox <$> row) = last (of_entity e id (elog d)));
  listEntities_ok e fs excl limit d r d' :
    db_listEntities (db_GetEntityType e) fs excl limit d = (r, d') -> elog d' = elog d /\ (dok d -> dok d') /\
    (persisted (db_GetEntityType e) -> dok d -> ordered_log db_GetEntityType (elog d) -> forall rows, r = inl rows ->
     rows = take (Z.to_nat limit) (filter (fun r => sql_match fs (rBox r) = true) (table_rows (db_GetEntityType e) excl (elog d))));
  countEntity_ok e excl d r d' :
    db_countEntity (db_GetEntityType e) excl d = (r, d') -> elog d' = elog d /\ (dok d -> dok d') /\
    (persisted (db_GetEntityType e) -> dok d -> ordered_log db_GetEntityType (elog d) -> forall n, r = inl n ->
     Z.of_nat (length (table_rows (db_GetEntityType e) excl (elog d))) <= n);
  getAllID_ok e d r d' :
    db_getAllID (db_GetEntityType e) d = (r, d') -> elog d' = elog d /\ (dok d -> dok d') /\
    (persisted (db_GetEntityType e) -> dok d -> ordered_log db_GetEntityType (elog d) -> forall ids, r = inl ids ->
     forall id, is_Some (stored_data (elog d) e id) -> id ∈ ids);
  getMaxID_ok e d r d' :
    db_getMaxID (db_GetEntityType e) d = (r, d') -> elog d' = elog d /\ (dok d -> dok d') /\
    (forall m, r = inl m -> - 2 ^ 63 <= m < 2 ^ 63 /\ Forall (fun b => Entity b = e -> ParseInt (ID b) <= m) (elog d));
  setEntities_ok e boxes checker getter d n err d' :
    db_setEntities (db_GetEntityType e) boxes checker getter d = ((n, err), d') ->
    Forall (fun b => Entity b = e) boxes ->
    exists part, elog d' = elog d ++ part /\ (forall b, b ∈ part -> b ∈ boxes) /\
      (err = None -> IsCache (db_GetEntityType e) = false -> forall id, ascending (of_entity e id boxes) -> of_entity e id part = of_entity e id boxes) /\
      (dok d -> ordered_log db_GetEntityType (elog d) ->
       (persisted (db_GetEntityType e) -> forall id, ascending (of_entity e id (elog d ++ boxes))) ->
       (forall g, getter = Some g -> forall id, g id = full_entry (db_GetEntityType e) (elog d) id) -> dok d');
  growthAggregation_ok t d e d' : db_growthAggregation t d = (e, d') -> elog d' = elog d /\ (dok d -> dok d');
  reorg_ok n d e d' :
    db_reorg n d = (e, d') ->
    (forall m, n <= m -> dbase m d -> dbase n d' /\ (e = None -> dok d')) /\ elog d' `sublist_of` elog d /\
    filter (fun b => GenBlockNumber b <= n) (elog d') = filter (fun b => GenBlockNumber b <= n) (elog d) /\
    (e = None -> elog d' = filter (fun b => GenBlockNumber b <= n) (elog d))
}.

Context `{HDL : !EntityStoreLaws}.

Abbreviation CS := (ChainStoreState (L := L) (Db := Db)).
Abbreviation typ := db_GetEntityType.

Definition clog (c : CS) : list EntityBox := elog (db c).
Definition cached_at (c : CS) (e id : string) : option EntityBox := lru_map (lruCache c) !! chainStoreCacheKey e id.

(** ** The invariant *)

(** What the caches have of an entity. While the full cache is in use, or may still be
    loaded, nothing of the entity is in the other caches: a write does not update them. *)
Record entity_coherent (c : CS) (e : string) : Prop := mkCoherent {
  ec_full : e ∈ fullCacheLoaded c -> exists m, fullCache c !! e = Some m /\ forall id, m !! id = full_entry (typ e) (clog c) id;
  ec_ids id : e ∈ fullIDCacheLoaded c -> is_Some (stored_data (clog c) e id) -> id ∈ default ∅ (fullIDCache c !! e);
  ec_lru id b : cached_at c e id = Some b -> last (of_entity e id (clog c)) = Some b /\ is_Some (Data b);
  ec_loaded : e ∈ fullCacheLoaded c -> IsSparse (typ e) = true /\ e ∉ fullCacheRefused c;
  ec_unused : IsSparse (typ e) = true -> e ∉ fullCacheRefused c -> e ∉ fullIDCacheLoaded c /\ forall id, cached_at c e id = None
}.

Definition coherent (c : CS) : Prop :=
  0 <= fullCacheDataLimit c < 2 ^ 63 /\ forall e, persisted (typ e) -> entity_coherent c e.

(** Only the caches of one entity may have changed, and its part of the log. *)
Record frame (e : string) (c c' : CS) : Prop := mkFrame {
  fr_limit : fullCacheDataLimit c' = fullCacheDataLimit c;
  fr_sets e' : e' <> e ->
    (e' ∈ fullCacheLoaded c' <-> e' ∈ fullCacheLoaded c) /\ (e' ∈ fullCacheRefused c' <-> e' ∈ fullCacheRefused c) /\
    (e' ∈ fullIDCacheLoaded c' <-> e' ∈ fullIDCacheLoaded c);
  fr_maps e' : e' <> e -> fullCache c' !! e' = fullCache c !! e' /\ fullIDCache c' !! e' = fullIDCache c !! e';
  fr_lru e' id b : persisted (typ e') -> e' <> e -> cached_at c' e' id = Some b -> cached_at c e' id = Some b;
  fr_log e' id : e' <> e -> of_entity e' id (clog c') = of_entity e' id (clog c)
}.

Lemma frame_refl e c : frame e c c.
Proof. by split. Qed.

Lemma frame_trans e c1 c2 c3 : frame e c1 c2 -> frame e c2 c3 -> frame e c1 c3.
Proof.
  intros [A1 A2 A3 A4 A5] [B1 B2 B3 B4 B5]. split; [congruence|..].
  - intros e' Hne. destruct (A2 e' Hne) as (a1 & a2 & a3), (B2 e' Hne) as (b1 & b2 & b3). by rewrite b1, b2, b3.
  - intros e' Hne. destruct (A3 e' Hne), (B3 e' Hne). split; congruence.
  - intros e' id b Hp Hne Hb. by apply A4, B4.
  - intros e' id Hne. by rewrite B5, A5.
Qed.

Lemma full_entry_log et log log' id :
  of_entity (Name et) id log' = of_entity (Name et) id log -> full_entry et log' id = full_entry et log id.
Proof. intros E. unfold full_entry, stored_row. by rewrite E. Qed.

Lemma stored_data_log log log' e id : of_entity e id log' = of_entity e id log -> stored_data log' e id = stored_data log e id.
Proof. intros E. unfold stored_data. by rewrite E. Qed.

Lemma frame_coherent e c c' :
  frame e c c' -> coherent c -> (persisted (typ e) -> entity_coherent c' e) -> coherent c'.
Proof.
  intros [F1 F2 F3 F4 F5] [Hl Hc] He. split; [by rewrite F1|]. intros e' Hp. destruct (decide (e' = e)) as [->|Hne]; [by apply He|].
  destruct (Hc e' Hp) as [C1 C2 C3 C4 C5], (F2 e' Hne) as (S1 & S2 & S3), (F3 e' Hne) as [M1 M2]. split.
  - intros (m & Hm & Hid)%S1%C1. exists m. split; [by rewrite M1|]. intros id. rewrite Hid. symmetry. apply full_entry_log.
    rewrite db_GetEntityType_name. by apply F5.
  - intros id Hin%S3. rewrite (stored_data_log _ _ _ _ (F5 e' id Hne)), M2. by apply C2.
  - intros id b Hb. rewrite F5 by done. apply C3. by apply F4.
  - rewrite S1, S2. apply C4.
  - rewrite S2, S3. intros Hs Hr. destruct (C5 Hs Hr) as [H1 H2]. split; [done|]. intros id.
    destruct (cached_at c' e' id) as [b|] eqn:E; [|done]. apply F4 in E; [|done|done]. by rewrite H2 in E.
Qed.

(** ** Loading *)

Lemma is_in_true e s : is_in e s = true <-> e ∈ s.
Proof. unfold is_in. by rewrite bool_decide_eq_true. Qed.

Lemma is_in_false e s : is_in e s = false <-> e ∉ s.
Proof. unfold is_in. by rewrite bool_decide_eq_false. Qed.

(** Looking into the tables changes no cache. *)
Definition same_caches (c c' : CS) : Prop := c' = set_db (db c') c.

Lemma frame_db e c d : (forall e' id, e' <> e -> of_entity e' id (elog d) = of_entity e' id (clog c)) -> frame e c (set_db d c).
Proof. intros Hl. by split. Qed.

(** A step that reads: only the caches of the entity change, and they stay right. *)
Record reads (e : string) (c c' : CS) : Prop := mkReads {
  rd_frame : frame e c c';
  rd_log : clog c' = clog c;
  rd_ok : dok (db c) -> dok (db c');
  rd_coherent : persisted (typ e) -> dok (db c) -> ordered_log typ (clog c) -> coherent c -> entity_coherent c' e
}.

Lemma reads_refl e c : reads e c c.
Proof. split; [apply frame_refl|done|done|]. intros Hp _ _ [_ Hc]. by apply Hc. Qed.

Lemma reads_all e c c' : reads e c c' -> dok (db c) -> ordered_log typ (clog c) -> coherent c -> coherent c'.
Proof. intros [R1 R2 R3 R4] Hd Ho Hc. apply (frame_coherent e c); [done|done|]. intros Hp. by apply R4. Qed.

Lemma reads_trans e c1 c2 c3 : reads e c1 c2 -> reads e c2 c3 -> reads e c1 c3.
Proof.
  intros HA HB. pose proof (reads_all e c1 c2 HA) as Hall. destruct HA as [A1 A2 A3 A4], HB as [B1 B2 B3 B4].
  split; [by eapply frame_trans|congruence|auto|]. intros Hp Hd Ho Hc. apply B4; [done|auto|by rewrite A2|auto].
Qed.

Lemma reads_db e c d : elog d = clog c -> (dok (db c) -> dok d) -> reads e c (set_db d c).
Proof.
  intros Hl Hd. split; [apply frame_db; intros; by rewrite Hl|done|done|]. intros Hp _ _ [_ Hc].
  destruct (Hc e Hp) as [C1 C2 C3 C4 C5]. unfold clog in *. split; unfold clog; cbn; rewrite ?Hl; done.
Qed.

Lemma stored_row_id et excl log id r : stored_row et excl log id = Some r -> ID (rBox r) = id.
Proof.
  unfold stored_row. destruct (last (of_entity (Name et) id log)) as [b|] eqn:E; [|done]. cbn.
  apply last_Some_elem_of, list_elem_of_filter in E as [[_ Hid] _]. destruct excl; [unfold live; destruct (Data b)|]; cbn; by intros [= <-].
Qed.

Lemma elem_of_sorted_ids e log id : id ∈ sorted_ids e log <-> of_entity e id log <> [].
Proof.
  unfold sorted_ids. rewrite merge_sort_Permutation, elem_of_elements, elem_of_list_to_set, list_elem_of_fmap. split.
  - intros (b & -> & [He Hb]%list_elem_of_filter) Hn. apply (not_elem_of_nil b). rewrite <- Hn. by apply list_elem_of_filter.
  - destruct (of_entity e id log) as [|b l] eqn:E; [done|]. intros _.
    assert (Hb : b ∈ of_entity e id log) by (rewrite E; by left). apply list_elem_of_filter in Hb as [[He Hid] Hb].
    exists b. split; [done|]. by apply list_elem_of_filter.
Qed.

Lemma sorted_ids_nodup e log : NoDup (sorted_ids e log).
Proof. unfold sorted_ids. rewrite merge_sort_Permutation. apply NoDup_elements. Qed.

(** All the rows of a table make up the full cache. *)
Lemma rows_full et log id :
  foldl (fun m row => <[ID (rBox row) := mkCached (rBox row) (rVersion row)]> m) (∅ : gmap string cachedEntityBox)
    (table_rows et (negb (useVersionedCollapsingTable et)) log) !! id = full_entry et log id.
Proof.
  unfold table_rows, full_entry.
  rewrite (foldl_collect _ (fun r => ID (rBox r)) (fun row => mkCached (rBox row) (rVersion row)));
    [|apply stored_row_id|apply sorted_ids_nodup].
  set (f := stored_row et (negb (useVersionedCollapsingTable et)) log). case_bool_decide as Hin; [by destruct (f id)|].
  assert (f id = None) as ->; [|done]. unfold f, stored_row. rewrite elem_of_sorted_ids in Hin.
  destruct (of_entity (Name et) id log); [done|]. by destruct Hin.
Qed.

(** The list is not cut off. *)
Lemma all_rows_listed (c : CS) e count rows :
  IsCache (typ e) = false -> 0 <= fullCacheDataLimit c < 2 ^ 63 -> Z.of_nat (length rows) <= count ->
  (wrap (Z.quot (fullCacheDataLimit c) (DataSize (typ e))) <? count) = false ->
  take (Z.to_nat MaxInt) (filter (fun r => sql_match [] (rBox r) = true) rows) = rows.
Proof.
  intros Hc Hl Hn Hlt%Z.ltb_ge. rewrite filter_all by (intros; apply sql_match_nil). apply take_ge.
  destruct (db_GetEntityType_plain e Hc) as [_ Hs%DataSize_pos].
  assert (Hq : 0 <= Z.quot (fullCacheDataLimit c) (DataSize (typ e)) <= fullCacheDataLimit c).
  { split; [apply Z.quot_pos; lia|]. rewrite Z.quot_div_nonneg by lia. apply Z.div_le_upper_bound; nia. }
  unfold wrap, two64 in Hlt. rewrite Z.mod_small in Hlt by lia. unfold MaxInt. lia.
Qed.

Lemma reads_refuse e c :
  e ∉ fullCacheLoaded c -> reads e c (set_full (fullCache c) (fullCacheLoaded c) ({[e]} ∪ fullCacheRefused c) c).
Proof.
  intros Hn. split; [split; try done; cbn; set_solver|done|done|]. intros Hp _ _ [_ Hc]. destruct (Hc e Hp) as [C1 C2 C3 C4 C5].
  split; cbn; [done|done|done|done|set_solver].
Qed.

Lemma reads_load e c0 c m :
  reads e c0 c -> IsSparse (typ e) = true -> e ∉ fullCacheRefused c ->
  (persisted (typ e) -> dok (db c0) -> ordered_log typ (clog c0) -> coherent c0 -> forall id, m !! id = full_entry (typ e) (clog c) id) ->
  reads e c0 (set_full (<[e := m]> (fullCache c)) ({[e]} ∪ fullCacheLoaded c) (fullCacheRefused c) c).
Proof.
  intros R0 Hs Hr Hm. destruct R0 as [R1 R2 R3 R4]. split; [|done|done|].
  - eapply frame_trans; [exact R1|]. split; try done; cbn; [set_solver|]. intros e' Hne. by rewrite lookup_insert_ne.
  - intros Hp Hd Ho Hc. destruct (R4 Hp Hd Ho Hc) as [C1 C2 C3 C4 C5]. split; cbn; [|done..].
    intros _. exists m. rewrite lookup_insert_eq. split; [done|]. by apply Hm.
Qed.

Lemma tryLoadFullCache_spec e c r c' :
  IsCache (typ e) = false -> tryLoadFullCache (typ e) c = (r, c') ->
  reads e c c' /\ forall has loaded k, r = inl (has, loaded, k) ->
    if has : bool then e ∈ fullCacheLoaded c' else e ∈ fullCacheRefused c' \/ IsSparse (typ e) = false.
Proof.
  intros Hic. unfold tryLoadFullCache. rewrite db_GetEntityType_name.
  destruct (is_in e (fullCacheRefused c)) eqn:Er; cbn [orb].
  { intros [= <- <-]. split; [apply reads_refl|]. intros ? ? ? [= <- _ _]. left. by apply is_in_true. }
  destruct (IsSparse (typ e)) eqn:Es; cbn [negb].
  2:{ intros [= <- <-]. split; [apply reads_refl|]. intros ? ? ? [= <- _ _]. by right. }
  apply is_in_false in Er. destruct (is_in e (fullCacheLoaded c)) eqn:El.
  { intros [= <- <-]. split; [apply reads_refl|]. intros ? ? ? [= <- _ _]. by apply is_in_true. }
  apply is_in_false in El. unfold with_db at 1.
  destruct (db_countEntity (typ e) (negb (useVersionedCollapsingTable (typ e))) (db c)) as [rc d1] eqn:Ec.
  apply countEntity_ok in Ec as (L1 & K1 & Hcnt). pose proof (reads_db e c d1 L1 K1) as R1.
  destruct rc as [count|err]; [|intros [= <- <-]; by split]. destruct (_ <? count) eqn:Elim.
  { intros [= <- <-]. split; [eapply reads_trans; [exact R1|by apply (reads_refuse e (set_db d1 c))]|]. intros ? ? ? [= <- _ _]. left. cbn. set_solver. }
  unfold with_db. cbn [db set_db]. destruct (db_listEntities (typ e) [] (negb (useVersionedCollapsingTable (typ e))) MaxInt d1) as [rl d2] eqn:E2.
  apply listEntities_ok in E2 as (L2 & K2 & Hrows). pose proof (reads_db e (set_db d1 c) d2 L2 K2) as R2.
  destruct rl as [rows|err]; [|intros [= <- <-]; split; [by eapply reads_trans|done]].
  intros [= <- <-]. split; [|intros ? ? ? [= <- _ _]; cbn; set_solver].
  apply (reads_load e c (set_db d2 (set_db d1 c))); [by eapply reads_trans|done|done|].
  intros Hp Hd Ho Hc id. specialize (Hcnt Hp Hd Ho count eq_refl). specialize (Hrows Hp (K1 Hd)). rewrite L1 in Hrows.
  rewrite (Hrows Ho rows eq_refl), (all_rows_listed c e count); [|done|apply Hc|lia|done].
  rewrite rows_full. unfold clog. cbn. by rewrite L2, L1.
Qed.

(** The other caches are in use for the entity. *)
Definition unsparse (c : CS) (e : string) : Prop := e ∈ fullCacheRefused c \/ IsSparse (typ e) = false.

Lemma unsparse_unused (c : CS) e : unsparse c e -> IsSparse (typ e) = true -> e ∉ fullCacheRefused c -> False.
Proof. intros [?|?] ? ?; [done|congruence]. Qed.

Lemma reads_ids e c0 c m loaded refused :
  reads e c0 c -> unsparse c e -> (forall e', e' <> e -> m !! e' = fullIDCache c !! e' /\ (e' ∈ loaded <-> e' ∈ fullIDCacheLoaded c)) ->
  (persisted (typ e) -> dok (db c0) -> ordered_log typ (clog c0) -> coherent c0 -> e ∈ loaded -> forall id, is_Some (stored_data (clog c) e id) -> id ∈ default ∅ (m !! e)) ->
  reads e c0 (set_ids m loaded refused c).
Proof.
  intros [R1 R2 R3 R4] Hu Hm Hids. split; [|done|done|].
  - eapply frame_trans; [exact R1|]. split; try done; cbn; intros e' Hne; by destruct (Hm e' Hne).
  - intros Hp Hd Ho Hc. destruct (R4 Hp Hd Ho Hc) as [C1 C2 C3 C4 C5]. split; cbn; [done|intros id Hin Hs; by eapply Hids|done|done|].
    intros Hs Hr. by destruct (unsparse_unused c e).
Qed.

Lemma tryLoadFullIDCache_spec e k c r c' :
  unsparse c e -> tryLoadFullIDCache (typ e) k c = (r, c') -> reads e c c' /\ fullCacheLoaded c' = fullCacheLoaded c /\ unsparse c' e.
Proof.
  intros Hu. unfold tryLoadFullIDCache. rewrite db_GetEntityType_name.
  destruct (is_in e (fullIDCacheRefused c)) eqn:Er; [intros [= <- <-]; split; [apply reads_refl|done]|].
  destruct (is_in e (fullIDCacheLoaded c)) eqn:El; [intros [= <- <-]; split; [apply reads_refl|done]|].
  apply is_in_false in El.
  match goal with |- context [if k <? 0 then ?x else ?y] => set (first := if k <? 0 then x else y) end.
  assert (Hf : exists d1, first.2 = set_db d1 c /\ elog d1 = clog c /\ (dok (db c) -> dok d1)).
  { unfold first, with_db. destruct (k <? 0); [|exists (db c); split; [by destruct c|done]].
    destruct (db_countEntity (typ e) true (db c)) as [rc d1] eqn:Ec. apply countEntity_ok in Ec as (L1 & K1 & _).
    exists d1. by destruct rc. }
  destruct first as [rk c1]. cbn in Hf. destruct Hf as (d1 & -> & L1 & K1). pose proof (reads_db e c d1 L1 K1) as R1.
  destruct rk as [count|err]; [|intros [= <- <-]; by split]. destruct (_ <? wrap count).
  { intros [= <- <-]. split; [|done]. apply reads_ids; [done|done|done|]. intros _ _ _ _ Hin. by destruct El. }
  unfold with_db. cbn [db set_db]. destruct (db_getAllID (typ e) d1) as [ri d2] eqn:Ei.
  apply getAllID_ok in Ei as (L2 & K2 & Hids). pose proof (reads_db e (set_db d1 c) d2 L2 K2) as R2.
  destruct ri as [ids|err]; intros [= <- <-]; (split; [|done]); [|by eapply reads_trans].
  apply (reads_ids e c (set_db d2 (set_db d1 c))); [by eapply reads_trans|done|..].
  - intros e' Hne. cbn. rewrite lookup_insert_ne by done. split; [done|set_solver].
  - intros Hp Hd Ho _ _ id Hid. cbn. rewrite lookup_insert_eq. cbn. apply (Hids Hp (K1 Hd)); [by rewrite L1|done|].
    unfold clog in Hid. cbn in Hid. by rewrite L2 in Hid.
Qed.

Lemma tryLoadCache_spec e c r c' :
  IsCache (typ e) = false -> tryLoadCache (typ e) c = (r, c') ->
  reads e c c' /\ forall l, r = inl l -> e ∈ fullCacheLoaded c' \/ unsparse c' e.
Proof.
  intros Hic. unfold tryLoadCache. destruct (tryLoadFullCache (typ e) c) as [r1 c1] eqn:E1.
  destruct (tryLoadFullCache_spec e c r1 c1 Hic E1) as [R1 H1].
  destruct r1 as [[[[] loaded] k]|err]; [|specialize (H1 false loaded k eq_refl); cbn in H1|].
  - intros [= <- <-]. split; [done|]. intros l _. left. exact (H1 true loaded k eq_refl).
  - intros E2. destruct (tryLoadFullIDCache_spec e k c1 r c' H1 E2) as (R2 & _ & Hu). split; [by eapply reads_trans|]. by right.
  - intros [= <- <-]. by split.
Qed.

(** ** Reading an entity *)

Lemma other_key e e' id id' :
  IsCache (typ e) = false -> persisted (typ e') -> e' <> e -> chainStoreCacheKey e' id' <> chainStoreCacheKey e id.
Proof.
  intros Hc [_ Hc'] Hne E. apply chainStoreCacheKey_inj in E as [-> _]; [done|by apply db_GetEntityType_plain..].
Qed.

Lemma same_key e id id' : IsCache (typ e) = false -> chainStoreCacheKey e id = chainStoreCacheKey e id' -> id = id'.
Proof. intros Hc E. apply chainStoreCacheKey_inj in E as [_ ->]; [done|by apply db_GetEntityType_plain..]. Qed.

Lemma reads_lru_same e c l : lru_map l = lru_map (lruCache c) -> reads e c (set_lru l c).
Proof.
  intros Hl. assert (Hca : forall e id, cached_at (set_lru l c) e id = cached_at c e id) by (intros; unfold cached_at; cbn; by rewrite Hl).
  split; [split; try done|done|done|]; [intros ? ? ?; by rewrite Hca|]. intros Hp _ _ [_ Hc]. destruct (Hc e Hp) as [C1 C2 C3 C4 C5].
  split; cbn; [done|done|intros id b; rewrite Hca; apply C3|done|]. intros Hs Hr. destruct (C5 Hs Hr). split; [done|].
  intros id. by rewrite Hca.
Qed.

Lemma reads_add e id b c0 c :
  IsCache (typ e) = false -> reads e c0 c -> unsparse c e ->
  (persisted (typ e) -> dok (db c0) -> ordered_log typ (clog c0) -> last (of_entity e id (clog c)) = Some b /\ is_Some (Data b)) ->
  reads e c0 (set_lru (lru_Add (chainStoreCacheKey e id) b (lruCache c)) c).
Proof.
  intros Hic [R1 R2 R3 R4] Hu Hb.
  assert (Hca : forall e' id' x, cached_at (set_lru (lru_Add (chainStoreCacheKey e id) b (lruCache c)) c) e' id' = Some x ->
            (<[chainStoreCacheKey e id := b]> (lru_map (lruCache c))) !! chainStoreCacheKey e' id' = Some x)
    by (intros e' id' x Hx; unfold cached_at in Hx; cbn in Hx; by eapply lookup_weaken, Add_map).
  split; [|done|done|].
  - eapply frame_trans; [exact R1|]. split; try done. intros e' id' x Hp Hne Hx%Hca. rewrite lookup_insert_ne in Hx; [done|].
    intros E. symmetry in E. by apply (other_key e e' id id') in E.
  - intros Hp Hd Ho Hc. destruct (R4 Hp Hd Ho Hc) as [C1 C2 C3 C4 C5]. split; cbn; [done|done| |done|].
    + intros id' x Hx%Hca. apply lookup_insert_Some in Hx as [[E <-]|[_ Hx]]; [|by apply C3]. apply same_key in E as <-; [|done]. by apply Hb.
    + intros Hs Hr. by destruct (unsparse_unused c e).
Qed.

Lemma full_entry_data et log id : (full_entry et log id ≫= fun c => live (cBox c)) ≫= Data = stored_data log (Name et) id.
Proof.
  unfold full_entry, stored_row, stored_data. destruct (last (of_entity (Name et) id log)) as [b|]; [|done]. cbn.
  destruct (useVersionedCollapsingTable et); cbn; unfold live; destruct (Data b) eqn:E; cbn; rewrite ?E; done.
Qed.

Lemma live_data b : live b ≫= Data = Data b.
Proof. unfold live. by destruct (Data b) eqn:E. Qed.

(** A read of the chain store: the caches stay right, and the answer is the stored data. *)
Definition answers (e id : string) (c : CS) (r : (option EntityBox * bool) + EntityError) (c' : CS) : Prop :=
  clog c' = clog c /\
  (persisted (typ e) -> dok (db c) -> ordered_log typ (clog c) -> coherent c ->
   dok (db c') /\ coherent c' /\ forall box fromCache, r = inl (box, fromCache) -> (box ≫= Data) = stored_data (clog c) e id).

Lemma reads_answers e id c r c' :
  reads e c c' ->
  (persisted (typ e) -> dok (db c) -> ordered_log typ (clog c) -> coherent c ->
   forall box fromCache, r = inl (box, fromCache) -> (box ≫= Data) = stored_data (clog c) e id) ->
  answers e id c r c'.
Proof. intros R Hr. split; [apply R|]. intros Hp Hd Ho Hc. split_and!; [by apply R|by eapply reads_all|by apply Hr]. Qed.

(** The LRU path. *)
Lemma lru_path_answers e id c0 c r c' fromCache :
  IsCache (typ e) = false -> reads e c0 c -> unsparse c e ->
  (let key := chainStoreCacheKey e id in
   let '(cached, l) := lru_Get key (lruCache c) in
   let c := set_lru l c in
   match cached with
   | Some box => (inl (Some box, fromCache), c)
   | None =>
       match with_db (db_getEntity (typ e) id) c with
       | (inr err, c) => (inr err, c)
       | (inl row, c) =>
           match row ≫= fun row => live (rBox row) with
           | Some box => (inl (Some box, false), set_lru (lru_Add key box (lruCache c)) c)
           | None => (inl (None, false), c)
           end
       end
   end) = (r, c') ->
  answers e id c0 r c'.
Proof.
  intros Hic R0 Hu. cbn zeta. destruct (Get_map (chainStoreCacheKey e id) (lruCache c)) as [G1 G2].
  destruct (lru_Get (chainStoreCacheKey e id) (lruCache c)) as [cached l] eqn:Eg. cbn [fst snd] in G1, G2.
  pose proof (reads_trans e c0 c _ R0 (reads_lru_same e c l G2)) as R1. destruct cached as [box|].
  { intros [= <- <-]. apply reads_answers; [done|]. intros Hp Hd Ho Hc box' f [= <- _].
    destruct (rd_coherent _ _ _ R0 Hp Hd Ho Hc) as [_ _ C3 _ _]. destruct (C3 id box) as [Hl _]; [by symmetry|].
    rewrite (rd_log _ _ _ R0) in Hl. unfold stored_data. by rewrite Hl. }
  unfold with_db. destruct (db_getEntity (typ e) id (db (set_lru l c))) as [rr d1] eqn:Ed. apply getEntity_ok in Ed as (L1 & K1 & Hrow).
  pose proof (reads_trans e c0 _ _ R1 (reads_db e (set_lru l c) d1 L1 K1)) as R2. destruct rr as [row|err].
  2:{ intros [= <- <-]. by apply reads_answers. }
  assert (Hlast : persisted (typ e) -> dok (db c0) -> ordered_log typ (clog c0) -> (rBox <$> row) = last (of_entity e id (clog c0))).
  { intros Hp Hd Ho. rewrite <- (rd_log _ _ _ R0) in *. apply Hrow; [done|by apply R0|done|done]. }
  assert (Hdata : persisted (typ e) -> dok (db c0) -> ordered_log typ (clog c0) ->
            (row ≫= fun row => live (rBox row)) ≫= Data = stored_data (clog c0) e id).
  { intros Hp Hd Ho. unfold stored_data. rewrite <- Hlast by done. destruct row as [row|]; [|done]. cbn. apply live_data. }
  destruct (row ≫= fun row => live (rBox row)) as [box|] eqn:Eb; intros [= <- <-]; (apply reads_answers;
    [|intros Hp Hd Ho _ box' f [= <- _]; by rewrite <- Hdata]); [|done].
  apply reads_add; [done|done|done|]. intros Hp Hd Ho. rewrite (rd_log _ _ _ R2), <- Hlast by done.
  destruct row as [row|]; [|done]. cbn in Eb |- *. unfold live in Eb. destruct (Data (rBox row)) eqn:Ed; [|done]. injection Eb as <-.
  split; [done|by eexists].
Qed.

Lemma GetEntity_answers e id c r c' : GetEntity (typ e) id c = (r, c') -> answers e id c r c'.
Proof.
  unfold GetEntity. rewrite db_GetEntityType_name. destruct (IsCache (typ e)) eqn:Hic.
  { assert (Hno : ~ persisted (typ e)) by (intros [_ ?]; congruence). destruct (cacheEntity c !! e) as [cache|]; [destruct (lru_Get id cache)|];
      intros [= <- <-]; by split. }
  destruct (tryLoadCache (typ e) c) as [r1 c1] eqn:E1. destruct (tryLoadCache_spec e c r1 c1 Hic E1) as [R1 H1].
  destruct r1 as [fromCache|err]; [|intros [= <- <-]; by apply reads_answers]. specialize (H1 fromCache eq_refl).
  destruct (is_in e (fullCacheLoaded c1)) eqn:El.
  { apply is_in_true in El. intros [= <- <-]. apply reads_answers; [done|]. intros Hp Hd Ho Hc box f [= <- _].
    destruct (ec_full _ _ (rd_coherent _ _ _ R1 Hp Hd Ho Hc) El) as (m & Hm & Hid). rewrite Hm. cbn. rewrite Hid.
    by rewrite full_entry_data, db_GetEntityType_name, (rd_log _ _ _ R1). }
  apply is_in_false in El. destruct H1 as [?|Hu]; [done|].
  destruct (is_in e (fullIDCacheLoaded c1) && negb (contains (fullIDCache c1) e id)) eqn:Ei; [|by apply lru_path_answers].
  apply andb_prop in Ei as [Ei Hn]. apply is_in_true in Ei. intros [= <- <-]. apply reads_answers; [done|].
  intros Hp Hd Ho Hc box f [= <- _]. cbn. destruct (stored_data (clog c) e id) eqn:Es; [exfalso|done].
  pose proof (ec_ids _ _ (rd_coherent _ _ _ R1 Hp Hd Ho Hc) id Ei) as Hin. rewrite (rd_log _ _ _ R1), Es in Hin.
  unfold contains in Hn. rewrite bool_decide_eq_true_2 in Hn by (apply Hin; by eexists). done.
Qed.

(** ** Writing *)

(** What the LRU path of a write does to the caches. *)
Record lru_updated (e : string) (l : list (string * EntityBox)) (c c' : CS) : Prop := mkLruUpdated {
  lu_db : db c' = db c;
  lu_full : fullCache c' = fullCache c;
  lu_sets : fullCacheLoaded c' = fullCacheLoaded c /\ fullCacheRefused c' = fullCacheRefused c /\ fullIDCacheLoaded c' = fullIDCacheLoaded c;
  lu_limit : fullCacheDataLimit c' = fullCacheDataLimit c;
  lu_ids_other e' : e' <> e -> fullIDCache c' !! e' = fullIDCache c !! e';
  lu_ids id : e ∈ fullIDCacheLoaded c ->
    (id ∈ default ∅ (fullIDCache c' !! e) <->
     match (list_to_map l : gmap string EntityBox) !! id with Some b => is_Some (Data b) | None => id ∈ default ∅ (fullIDCache c !! e) end);
  lu_lru_other e' id b : persisted (typ e') -> e' <> e -> cached_at c' e' id = Some b -> cached_at c e' id = Some b;
  lu_lru id b : cached_at c' e id = Some b ->
    match (list_to_map l : gmap string EntityBox) !! id with Some x => x = b /\ is_Some (Data x) | None => cached_at c e id = Some b end
}.

(** One step of it. *)
Record lru_step (e id : string) (x : EntityBox) (c c' : CS) : Prop := mkLruStep {
  ls_db : db c' = db c;
  ls_full : fullCache c' = fullCache c;
  ls_sets : fullCacheLoaded c' = fullCacheLoaded c /\ fullCacheRefused c' = fullCacheRefused c /\ fullIDCacheLoaded c' = fullIDCacheLoaded c;
  ls_limit : fullCacheDataLimit c' = fullCacheDataLimit c;
  ls_ids_other e' : e' <> e -> fullIDCache c' !! e' = fullIDCache c !! e';
  ls_ids j : e ∈ fullIDCacheLoaded c ->
    (j ∈ default ∅ (fullIDCache c' !! e) <-> if decide (j = id) then is_Some (Data x) else j ∈ default ∅ (fullIDCache c !! e));
  ls_lru k b : lru_map (lruCache c') !! k = Some b ->
    if decide (k = chainStoreCacheKey e id) then b = x /\ is_Some (Data x) else lru_map (lruCache c) !! k = Some b
}.

Lemma update_lru_one_step e id x c : lru_step e id x c (update_lru_one e c (id, x)).
Proof.
  unfold update_lru_one. destruct (is_in e (fullIDCacheLoaded c)) eqn:El.
  - destruct (Data x) as [d|] eqn:Ed; split; cbn; try done.
    + intros e' Hne. by rewrite lookup_insert_ne.
    + intros j _. rewrite lookup_insert_eq. cbn. case_decide; [split; [by eexists|set_solver]|set_solver].
    + intros k b Hb. pose proof (lookup_weaken _ _ _ _ Hb (Add_map _ _ _)) as Hi. apply lookup_insert_Some in Hi as [[<- <-]|[Hne Hi]].
      * rewrite decide_True by done. split; [done|by eexists].
      * by rewrite decide_False.
    + intros e' Hne. by rewrite lookup_insert_ne.
    + intros j _. rewrite lookup_insert_eq. cbn. case_decide; [split; [set_solver|rewrite Ed; by intros [? ?]]|set_solver].
    + intros k b. rewrite Remove_map. intros [Hne Hk]%lookup_delete_Some. by rewrite decide_False.
  - apply is_in_false in El. destruct (Data x) as [d|] eqn:Ed; split; cbn; try done.
    + intros k b Hb. pose proof (lookup_weaken _ _ _ _ Hb (Add_map _ _ _)) as Hi. apply lookup_insert_Some in Hi as [[<- <-]|[Hne Hi]].
      * rewrite decide_True by done. split; [done|by eexists].
      * by rewrite decide_False.
    + intros k b. rewrite Remove_map. intros [Hne Hk]%lookup_delete_Some. by rewrite decide_False.
Qed.

Lemma update_lru_spec e l c :
  IsCache (typ e) = false -> NoDup l.*1 -> lru_updated e l c (foldl (update_lru_one e) c l).
Proof.
  intros Hic. revert c. induction l as [|[id x] l IH]; intros c Hnd; [by split|]. cbn [foldl]. apply NoDup_cons in Hnd as [Hni Hnd].
  destruct (update_lru_one_step e id x c) as [S1 S2 (S3 & S4 & S5) S6 S7 S8 S9].
  destruct (IH (update_lru_one e c (id, x)) Hnd) as [U1 U2 (U3 & U4 & U5) U6 U7 U8 U9 U10].
  assert (Hid : (list_to_map l : gmap string EntityBox) !! id = None) by by apply (not_elem_of_list_to_map_1 (M := gmap string)).
  split; [congruence|congruence|split_and!; congruence|congruence|..].
  - intros e' Hne. by rewrite U7, S7.
  - intros j Hin. rewrite U8 by (by rewrite S5). cbn. destruct (decide (j = id)) as [->|Hne].
    + rewrite Hid, lookup_insert_eq, S8 by done. by rewrite decide_True.
    + rewrite lookup_insert_ne by done. destruct (list_to_map l !! j); [done|]. rewrite S8 by done. by rewrite decide_False.
  - intros e' j b Hp Hne Hb%U9; [|done|done]. apply S9 in Hb. rewrite decide_False in Hb; [done|]. by apply other_key.
  - intros j b Hb%U10. cbn. destruct (decide (j = id)) as [->|Hne].
    + rewrite Hid in Hb. rewrite lookup_insert_eq. apply S9 in Hb. rewrite decide_True in Hb by done. by destruct Hb as [-> ?].
    + rewrite lookup_insert_ne by done. destruct (list_to_map l !! j); [done|]. apply S9 in Hb. rewrite decide_False in Hb; [done|].
      by intros ?%same_key.
Qed.

(** What is known of the latest boxes. *)
Lemma latest_of_entity e boxes part id :
  Forall (fun b => Entity b = e) boxes -> of_entity e id part = of_entity e id boxes ->
  (list_to_map (map_to_list (latest boxes)) : gmap string EntityBox) !! id = last (of_entity e id part).
Proof. intros Hf Hp. by rewrite list_to_map_to_list, latest_last, Hp, of_entity_with_id. Qed.

(** A write that went to the table, by the LRU path. *)
Lemma lru_write_coherent e boxes part c c' :
  IsCache (typ e) = false -> Forall (fun b => Entity b = e) boxes -> (forall id, of_entity e id part = of_entity e id boxes) ->
  clog c' = clog c ++ part -> (exists c2, c2 = set_db (db c') c /\ c' = foldl (update_lru_one e) c2 (map_to_list (latest boxes))) ->
  unsparse c e -> entity_coherent c e -> entity_coherent c' e.
Proof.
  intros Hic Hf Hpart Hlog (c2 & Hc2 & Hc') Hu [C1 C2 C3 C4 C5].
  destruct (update_lru_spec e (map_to_list (latest boxes)) c2 Hic (NoDup_fst_map_to_list _)) as [U1 U2 (U3 & U4 & U5) U6 U7 U8 U9 U10].
  rewrite <- Hc' in *. assert (Hl : forall id, _) by exact (fun id => latest_of_entity e boxes part id Hf (Hpart id)).
  assert (Hno : e ∉ fullCacheLoaded c) by (intros Hin; destruct (C4 Hin); by destruct (unsparse_unused c e)).
  rewrite Hc2 in *. cbn in *. split.
  - by rewrite U3.
  - intros id. rewrite U5, Hlog, stored_data_app. intros Hin. rewrite U8, Hl by done. destruct (last (of_entity e id part)); [done|]. by apply C2.
  - intros id b Hb%U10. rewrite Hl in Hb. rewrite Hlog, of_entity_app. destruct (of_entity e id part) as [|y t _] using rev_ind.
    + rewrite app_nil_r. by apply C3.
    + rewrite last_snoc in Hb. rewrite app_assoc, last_snoc. by destruct Hb as [-> ?].
  - by rewrite U3.
  - rewrite U4. intros Hs Hr. by destruct (unsparse_unused c e).
Qed.

(** The full cache behind a write. *)
Lemma update_full_map_spec et boxes log part (m : gmap string cachedEntityBox) id :
  Forall (fun b => Entity b = Name et) boxes -> (forall id, of_entity (Name et) id part = of_entity (Name et) id boxes) ->
  (forall id, m !! id = full_entry et log id) ->
  update_full_map (useVersionedCollapsingTable et) boxes m !! id = full_entry et (log ++ part) id.
Proof.
  intros Hf Hpart Hm. pose proof (latest_of_entity (Name et) boxes part id Hf (Hpart id)) as Hl.
  unfold update_full_map, full_entry, stored_row, row_version. rewrite of_entity_app.
  destruct (useVersionedCollapsingTable et) eqn:Ev; cbn [negb].
  - rewrite (foldl_set _ (fun id b => Some (mkCached b
      (match m !! id with Some existing => cVersion existing | None => 0 end + default 0 (idWriteCount boxes !! id)))));
      [|intros; cbn; by rewrite lookup_insert_eq|intros; cbn; by rewrite lookup_insert_ne|apply NoDup_fst_map_to_list].
    rewrite Hl, idWriteCount_length, <- (of_entity_with_id (Name et)), <- Hpart, Hm by done.
    unfold full_entry, stored_row, row_version. rewrite Ev. cbn [negb].
    destruct (of_entity (Name et) id part) as [|y t _] using rev_ind; [by rewrite app_nil_r|].
    rewrite app_assoc, !last_snoc, !length_app. cbn. f_equal. f_equal. destruct (last (of_entity (Name et) id log)) as [b|] eqn:El; cbn.
    + lia.
    + apply last_None in El. by rewrite El.
  - rewrite (foldl_set _ (fun id b => match Data b with None => None | Some _ => Some (mkCached b 0) end)).
    + rewrite Hl, Hm. unfold full_entry, stored_row, row_version. rewrite Ev. cbn [negb].
      destruct (of_entity (Name et) id part) as [|y t _] using rev_ind; [by rewrite app_nil_r|].
      rewrite app_assoc, !last_snoc. cbn. unfold live. by destruct (Data y).
    + intros m' k v. cbn. destruct (Data v); [by rewrite lookup_insert_eq|by rewrite lookup_delete_eq].
    + intros m' k v j Hne. cbn. destruct (Data v); [by rewrite lookup_insert_ne|by rewrite lookup_delete_ne].
    + apply NoDup_fst_map_to_list.
Qed.

Lemma full_write_coherent e boxes part c d :
  Forall (fun b => Entity b = e) boxes -> (forall id, of_entity e id part = of_entity e id boxes) ->
  elog d = clog c ++ part -> e ∈ fullCacheLoaded c -> entity_coherent c e -> entity_coherent (update_full (typ e) boxes (set_db d c)) e.
Proof.
  intros Hf Hpart Hlog Hin [C1 C2 C3 C4 C5]. destruct (C4 Hin) as [Hs Hr]. destruct (C5 Hs Hr) as [Hids Hlru].
  destruct (C1 Hin) as (m & Hm & Hid). pose proof (db_GetEntityType_name e) as Hname.
  unfold update_full. rewrite Hname. cbn [fullCache set_db]. rewrite Hm. cbn [default from_option id]. unfold clog in *.
  destruct (_ <? _); split; cbn; try done.
  - intros [_ Hn]%elem_of_difference. by destruct Hn; apply elem_of_singleton.
  - intros id b Hb. change (cached_at c e id = Some b) in Hb. by rewrite Hlru in Hb.
  - intros [_ Hn]%elem_of_difference. by destruct Hn; apply elem_of_singleton.
  - intros _. eexists. rewrite lookup_insert_eq. split; [done|]. intros id. unfold clog. cbn. rewrite Hlog.
    apply update_full_map_spec; [by rewrite Hname|by rewrite Hname|done].
  - intros id b Hb. change (cached_at c e id = Some b) in Hb. by rewrite Hlru in Hb.
Qed.

Lemma frame_update_full e boxes (c : CS) : frame e c (update_full (typ e) boxes c).
Proof.
  unfold update_full. rewrite db_GetEntityType_name. destruct (_ <? _); split; try done; cbn; try set_solver.
  - intros e' Hne. by rewrite lookup_delete_ne.
  - intros e' Hne. by rewrite lookup_insert_ne.
Qed.

Lemma frame_update_lru e l (c : CS) : IsCache (typ e) = false -> NoDup l.*1 -> frame e c (foldl (update_lru_one e) c l).
Proof.
  intros Hic Hnd. destruct (update_lru_spec e l c Hic Hnd) as [U1 U2 (U3 & U4 & U5) U6 U7 U8 U9 U10]. split; [done|..].
  - intros e' Hne. by rewrite U3, U4, U5.
  - intros e' Hne. rewrite U2, U7 by done. done.
  - done.
  - intros e' id Hne. unfold clog. by rewrite U1.
Qed.

Lemma update_lru_db e l (c : CS) : IsCache (typ e) = false -> NoDup l.*1 -> db (foldl (update_lru_one e) c l) = db c.
Proof. intros Hic Hnd. apply (update_lru_spec e l c Hic Hnd). Qed.

(** What is passed on of the values before the write is right. *)
Lemma getter_right e (c : CS) g id :
  (persisted (typ e) -> entity_coherent c e) -> knownPreBoxGetter (typ e) c = Some g -> g id = full_entry (typ e) (clog c) id.
Proof.
  intros Hc. unfold knownPreBoxGetter. rewrite db_GetEntityType_name.
  destruct (IsCache (typ e)) eqn:E1, (IsTimeSeries (typ e)) eqn:E2; cbn; try done.
  destruct (useVersionedCollapsingTable (typ e)), (is_in e (fullCacheLoaded c)) eqn:El; cbn; try done. intros [= <-].
  apply is_in_true in El. destruct (ec_full _ _ (Hc (conj E2 E1)) El) as (m & Hm & Hid). by rewrite Hm.
Qed.

(** ** [SetEntities] *)

(** The caches behind a write that succeeded. *)
Definition update_caches (et : EntityType) (boxes : list EntityBox) (c : CS) : CS :=
  let e := Name et in
  if IsTimeSeries et then c
  else if IsCache et then update_cacheEntity et (map_to_list (latest boxes)) c
  else if is_in e (fullCacheRefused c) || negb (IsSparse et) then foldl (update_lru_one e) c (map_to_list (latest boxes))
  else if is_in e (fullCacheLoaded c) then update_full et boxes c
  else c.

Lemma update_caches_db e boxes (c : CS) : db (update_caches (typ e) boxes c) = db c.
Proof.
  unfold update_caches. destruct (IsTimeSeries (typ e)); [done|]. destruct (IsCache (typ e)) eqn:Hic; [done|].
  rewrite db_GetEntityType_name. destruct (_ || _); [by apply update_lru_db, NoDup_fst_map_to_list|].
  destruct (is_in e _); [|done]. unfold update_full. by destruct (_ <? _).
Qed.

Lemma frame_update_caches e boxes (c : CS) : frame e c (update_caches (typ e) boxes c).
Proof.
  unfold update_caches. destruct (IsTimeSeries (typ e)); [apply frame_refl|]. destruct (IsCache (typ e)) eqn:Hic; [by split|].
  rewrite db_GetEntityType_name. destruct (_ || _); [by apply frame_update_lru, NoDup_fst_map_to_list|].
  destruct (is_in e _); [apply frame_update_full|apply frame_refl].
Qed.

Lemma update_caches_coherent e boxes part c d :
  persisted (typ e) -> Forall (fun b => Entity b = e) boxes -> (forall id, of_entity e id part = of_entity e id boxes) ->
  elog d = clog c ++ part -> e ∈ fullCacheLoaded c \/ unsparse c e -> entity_coherent c e ->
  entity_coherent (update_caches (typ e) boxes (set_db d c)) e.
Proof.
  intros [Hts Hic] Hf Hpart Hlog Hor Hc. pose proof (update_caches_db e boxes (set_db d c)) as Hdb.
  revert Hdb. unfold update_caches. rewrite Hts, Hic, db_GetEntityType_name. cbn [fullCacheRefused fullCacheLoaded set_db]. intros Hdb.
  destruct (is_in e (fullCacheRefused c) || negb (IsSparse (typ e))) eqn:Eu.
  - apply (lru_write_coherent e boxes part c); [done|done|done|unfold clog; by rewrite Hdb| | |done].
    + eexists. split; [|reflexivity]. by rewrite Hdb.
    + apply orb_prop in Eu as [Eu|Eu]; [left; by apply is_in_true|right; by destruct (IsSparse (typ e))].
  - apply orb_false_elim in Eu as [Er%is_in_false Es%negb_false_iff]. destruct Hor as [Hl|Hu]; [|by destruct (unsparse_unused c e)].
    rewrite (proj2 (is_in_true e (fullCacheLoaded c)) Hl). by apply (full_write_coherent e boxes part).
Qed.

Lemma SetEntities_spec e boxes c n err c' :
  SetEntities (typ e) boxes c = ((n, err), c') -> Forall (fun b => Entity b = e) boxes ->
  exists part, frame e c c' /\ clog c' = clog c ++ part /\ (forall b, b ∈ part -> b ∈ boxes) /\
    (err = None -> IsCache (typ e) = false -> forall id, ascending (of_entity e id boxes) -> of_entity e id part = of_entity e id boxes) /\
    (dok (db c) -> ordered_log typ (clog c) -> coherent c ->
     (persisted (typ e) -> forall id, ascending (of_entity e id (clog c ++ boxes))) -> dok (db c') /\ (err = None -> coherent c')).
Proof.
  unfold SetEntities. intros E Hf. rewrite db_GetEntityType_name in E.
  match type of E with context [if ?b then ?x else (inl false, c)] => destruct (if b then x else (inl false, c)) as [rl c1] eqn:El end.
  assert (R1 : reads e c c1 /\ (persisted (typ e) -> forall l, rl = inl l -> e ∈ fullCacheLoaded c1 \/ unsparse c1 e)).
  { destruct (IsCache (typ e)) eqn:Hic, (IsTimeSeries (typ e)) eqn:Hts; cbn in El; try (injection El as <- <-; split; [apply reads_refl|]);
      try (intros [? ?]; congruence). destruct (tryLoadCache_spec e c rl c1 Hic El) as [R H]. by split. }
  destruct R1 as [R1 Hl]. destruct rl as [fc|er].
  2:{ injection E as _ <- <-. exists []. rewrite app_nil_r. split_and!; [apply R1|apply R1|by intros b ?%not_elem_of_nil|done|].
      intros Hd _ _ _. split; [by apply R1|done]. }
  unfold with_db in E. destruct (db_setEntities (typ e) boxes _ _ (db c1)) as [[created er] d] eqn:Ed.
  apply setEntities_ok in Ed as (part & Hlog & Hsub & Hall & Hok); [|done].
  fold (clog c1) in Hlog, Hok. rewrite (rd_log _ _ _ R1) in Hlog, Hok. exists part.
  assert (Hd : dok (db c) -> ordered_log typ (clog c) -> coherent c ->
     (persisted (typ e) -> forall id, ascending (of_entity e id (clog c ++ boxes))) -> dok d).
  { intros Hd Ho Hc Hasc. apply Hok; [by apply R1|done|done|]. intros g Hg id. rewrite <- (rd_log _ _ _ R1).
    apply (getter_right e c1 g id); [|done]. intros Hp. by apply R1. }
  assert (Hfr : frame e c1 (set_db d c1)).
  { apply frame_db. intros e' id Hne. rewrite Hlog, (rd_log _ _ _ R1), of_entity_app.
    rewrite (of_entity_other e e' id part), app_nil_r; [done|done|]. apply Forall_forall. intros b Hb. rewrite Forall_forall in Hf. by apply Hf, Hsub. }
  destruct er as [er|].
  { injection E as _ <- <-. split_and!; [eapply frame_trans; [apply R1|done]|done|done|done|]. intros Hd0 Ho Hc Hasc. split; [by apply Hd|done]. }
  assert (E' : c' = update_caches (typ e) boxes (set_db d c1) /\ err = None).
  { unfold update_caches. rewrite db_GetEntityType_name.
    destruct (IsTimeSeries (typ e)); [by injection E|]. destruct (IsCache (typ e)); [by injection E|].
    destruct (_ || _); [by injection E|]. destruct (is_in e _); by injection E. }
  destruct E' as [-> ->]. clear E. assert (Hfr' : frame e c1 (update_caches (typ e) boxes (set_db d c1)))
    by (eapply frame_trans; [exact Hfr|apply frame_update_caches]).
  unfold clog. rewrite update_caches_db. cbn [db set_db]. fold (clog c).
  split_and!; [eapply frame_trans; [apply R1|done]|done|done|done|]. intros Hd0 Ho Hc Hasc. split; [by apply Hd|]. intros _.
  apply (frame_coherent e c1); [done|by eapply reads_all|].
  intros Hp. apply (update_caches_coherent e boxes part); [done|done| |by rewrite (rd_log _ _ _ R1)|by apply (Hl Hp fc)|by apply R1].
  intros id. apply (Hall eq_refl (proj2 Hp)). specialize (Hasc Hp id). rewrite of_entity_app in Hasc. by eapply ascending_app_r.
Qed.

(** ** Going back *)

Lemma purged_coherent (c : CS) d m : 0 <= fullCacheDataLimit c < 2 ^ 63 -> coherent (set_db d (set_cacheEntity m (purgeCache c))).
Proof.
  intros Hl. split; [done|]. intros e Hp. split; cbn; try set_solver; unfold cached_at; cbn; rewrite Purge_map; [by intros id b|].
  intros _ _. split; [set_solver|done].
Qed.

(** ** The chain store as a store *)

Lemma coherent_db (c : CS) d : elog d = clog c -> coherent c -> coherent (set_db d c).
Proof.
  intros Hl [H1 H2]. split; [done|]. intros e Hp. destruct (H2 e Hp) as [C1 C2 C3 C4 C5]. unfold clog in *. split; unfold clog; cbn; rewrite ?Hl; done.
Qed.

Definition limits_ok (c : CS) : Prop := 0 <= fullCacheDataLimit c < 2 ^ 63.

Lemma chain_store_GetEntity e id c r c' :
  st_GetEntity (st_GetEntityType e) id c = (r, c') ->
  clog c' = clog c /\
  (persisted (st_GetEntityType e) -> (dok (db c) /\ coherent c) -> ordered_log st_GetEntityType (clog c) ->
   (dok (db c') /\ coherent c') /\ forall box, r = inl box -> (box ≫= Data) = stored_data (clog c) e id).
Proof.
  cbn. destruct (GetEntity (typ e) id c) as [r1 c1] eqn:E. apply GetEntity_answers in E as [Hl Ha]. intros [= <- <-].
  split; [done|]. intros Hp [Hd Hc] Ho. destruct (Ha Hp Hd Ho Hc) as (H1 & H2 & H3). split; [done|]. intros box Hb.
  destruct r1 as [[b f]|]; [|done]. injection Hb as <-. by eapply H3.
Qed.

#[refine, global] Instance chain_store_laws : ChainStoreLaws ChainStoreState :=
  { slog := clog; sbase m c := dbase m (db c) /\ limits_ok c; sclean c := dok (db c) /\ coherent c }.
Proof.
  - intros c m [Hd [Hl _]]. split; [by apply dok_base|done].
  - apply db_GetEntityType_name.
  - apply chain_store_GetEntity.
  - intros e c r c'. cbn. unfold GetTimeSeriesEntityMaxID, with_db. destruct (db_getMaxID (typ e) (db c)) as [r1 d] eqn:E.
    apply getMaxID_ok in E as (L1 & K1 & Hm). intros [= <- <-]. split; [done|]. split; [|done]. intros [Hd Hc]. split; [by apply K1|].
    by apply coherent_db.
  - intros e boxes c n err c' E Hf. destruct (SetEntities_spec e boxes c n err c' E Hf) as (part & P0 & P1 & P2 & P3 & P4).
    exists part. split_and!; [done|done|done|]. intros [Hd Hc] Ho Hasc. destruct (P4 Hd Ho Hc Hasc) as [Hd' Hc'].
    split; [intros m; split; [by apply dok_base|]|intros He; split; [done|by apply Hc']].
    unfold limits_ok. rewrite (fr_limit _ _ _ P0). apply Hc.
  - intros t c e c'. cbn. unfold ChainStore_GrowthAggregation, with_db. destruct (db_growthAggregation t (db c)) as [r1 d] eqn:E.
    apply growthAggregation_ok in E as (L1 & K1). intros [= <- <-]. split; [done|]. intros [Hd Hc]. split; [by apply K1|by apply coherent_db].
  - intros n c err c'. cbn. unfold ChainStore_Reorg, with_db. cbn [db set_cacheEntity purgeCache].
    destruct (db_reorg n (db c)) as [e d] eqn:E. apply reorg_ok in E as (Hb & Hs & Hk & Hn). intros [= <- <-].
    split_and!; [|done|done|done]. intros m Hm [Hbase Hl]. destruct (Hb m Hm Hbase) as [Hb1 Hb2]. split; [done|]. intros ->.
    split; [by apply Hb2|by apply purged_coherent].
Defined.
End Spec.
