(* ===== verification/ChainStoreList.v ===== *)
(** * Listing from the chain store

    [ListEntities] returns the first entities, in the order of their ids, that pass the
    filters, whether it answers from the full cache or from the tables. *)
From Stdlib Require Import ZArith Lia Ascii String.
From stdpp Require Import base numbers option strings pretty sorting gmap list.
From S2P Require Import Prelude BlockCache RangeText EntityValue EntityHistory EntityMerge EntityCtrl EntityRich EntityFilter ChainStore EntitySpec ChainStoreSpec.

Section Listing.
Context `{HD : Decimal} `{HC : !Conversions}.
Context {L Db : Type} `{HLru : !LRU L} `{HLL : !LRULaws L} `{HDb : !EntityStore Db} `{HDL : !EntityStoreLaws}.

Abbreviation CS := (ChainStoreState (L := L) (Db := Db)).
Abbreviation typ := db_GetEntityType.

(** The entities of a type that are not deleted, ordered by id. *)
Definition live_box (e : string) (log : list EntityBox) (id : string) : option EntityBox := last (of_entity e id log) ≫= live.
Definition live_boxes (e : string) (log : list EntityBox) : list EntityBox := omap (live_box e log) (sorted_ids e log).

Lemma table_rows_live e log : map rBox (table_rows (typ e) true log) = live_boxes e log.
Proof.
  unfold table_rows, live_boxes. rewrite map_omap, db_GetEntityType_name. apply omap_ext_in. intros id _.
  unfold stored_row, live_box. rewrite db_GetEntityType_name. destruct (last (of_entity e id log)) as [b|]; [|done]. cbn.
  unfold live. by destruct (Data b).
Qed.

(** What passes, up to a limit. *)
Definition listed (pass : EntityBox -> bool) (limit : Z) (l : list EntityBox) : list EntityBox :=
  take (Z.to_nat limit) (filter (fun b => pass b = true) l).

(** ** The full cache *)

Lemma list_full_spec fs limit pass (m : gmap string cachedEntityBox) ids boxes :
  (forall id, id ∈ ids -> exists cb, m !! id = Some cb /\ is_Some (Data (cBox cb)) /\ CheckFilters fs (Data (cBox cb)) = Ok (inl (pass (cBox cb)))) ->
  list_full fs limit m ids boxes =
    Ok (inl (boxes ++ listed pass (limit - Z.of_nat (length boxes)) (omap (fun id => cBox <$> m !! id) ids))).
Proof.
  revert boxes. induction ids as [|id ids IH]; intros boxes Hm; cbn [list_full].
  { unfold listed. cbn. by rewrite take_nil, app_nil_r. }
  bcase.
  { unfold listed. rewrite Z2Nat.nonpos by lia. by rewrite take_0, app_nil_r. }
  destruct (Hm id) as (cb & Hcb & [d Hd] & Hp); [by left|]. rewrite Hcb, Hd. rewrite Hd in Hp. rewrite Hp. cbn [obind].
  rewrite IH by (intros j Hj; apply Hm; by right). f_equal. f_equal. cbn. rewrite Hcb. cbn.
  unfold listed. rewrite filter_cons. destruct (pass (cBox cb)) eqn:Ep.
  - rewrite decide_True by done. rewrite length_app. cbn. rewrite <- app_assoc. f_equal.
    replace (Z.to_nat (limit - Z.of_nat (length boxes))) with (S (Z.to_nat (limit - Z.of_nat (length boxes + 1)))) by lia. done.
  - by rewrite decide_False.
Qed.

(** The ids of the full cache are those of the entities that are not deleted, in order. *)
Lemma cached_ids_live e log (m : gmap string cachedEntityBox) :
  (forall id, m !! id = full_entry (typ e) log id) ->
  cached_ids m = filter (fun id => is_Some (live_box e log id)) (sorted_ids e log).
Proof.
  intros Hm.
  assert (Hlive : forall id, (m !! id ≫= fun cb => live (cBox cb)) = live_box e log id).
  { intros id. rewrite Hm. unfold full_entry, stored_row, live_box. rewrite db_GetEntityType_name.
    destruct (last (of_entity e id log)) as [b|]; [|done]. cbn. destruct (useVersionedCollapsingTable (typ e)); cbn; [done|].
    unfold live. destruct (Data b) eqn:E; cbn; by rewrite ?E. }
  assert (Hid : forall id b, live_box e log id = Some b -> ID b = id).
  { intros id b. unfold live_box. destruct (last (of_entity e id log)) as [x|] eqn:E; [|done]. cbn. unfold live.
    apply last_Some_elem_of, list_elem_of_filter in E as [[_ Hx] _]. destruct (Data x); [|done]. by intros [= <-]. }
  apply (StronglySorted_unique String.le).
  - unfold cached_ids. apply StronglySorted_merge_sort; apply _.
  - eapply StronglySorted_sublist; [apply sublist_filter|]. apply StronglySorted_merge_sort; apply _.
  - unfold cached_ids. rewrite merge_sort_Permutation.
    rewrite (omap_filter _ fst (fun kv => is_Some (live_box e log kv.1))).
    2:{ intros [k cb] Hk%elem_of_map_to_list. cbn. specialize (Hlive k). rewrite Hk in Hlive. cbn in Hlive. rewrite Hlive.
        destruct (live_box e log k) as [b|] eqn:E; [rewrite decide_True by (by eexists); cbn; by rewrite (Hid k b E)|].
        by rewrite decide_False by (by intros [? ?]). }
    apply NoDup_Permutation.
    + apply (sublist_NoDup _ _ (NoDup_fst_map_to_list m)). apply sublist_map, sublist_filter.
    + apply NoDup_filter, sorted_ids_nodup.
    + intros id. rewrite list_elem_of_fmap, list_elem_of_filter, elem_of_sorted_ids. split.
      * intros ([k cb] & -> & [Hl Hk%elem_of_map_to_list]%list_elem_of_filter). split; [done|].
        cbn in *. intros Hn. unfold live_box in Hl. rewrite Hn in Hl. by destruct Hl.
      * intros [Hl _]. pose proof Hl as [b Hb]. rewrite <- Hlive in Hb. destruct (m !! id) as [cb|] eqn:E; [|done].
        exists (id, cb). split; [done|]. apply list_elem_of_filter. split; [done|by apply elem_of_map_to_list].
Qed.

(** ** Listing *)

(** The filters decide about every entity that is not deleted, and the condition made of
    them for the table decides the same. *)
Definition decided (fs : list EntityFilter) (pass : EntityBox -> bool) (l : list EntityBox) : Prop :=
  forall b, b ∈ l -> CheckFilters fs (Data b) = Ok (inl (pass b)) /\ sql_match fs b = pass b.

Lemma ListEntities_answers e fs limit pass (c : CS) :
  persisted (typ e) -> dok (db c) -> ordered_log typ (clog c) -> coherent c -> decided fs pass (live_boxes e (clog c)) ->
  exists r c', ListEntities (typ e) fs limit c = Ok (r, c') /\ clog c' = clog c /\ dok (db c') /\ coherent c' /\
    (forall boxes fromCache, r = inl (boxes, fromCache) -> boxes = listed pass limit (live_boxes e (clog c))) /\
    ((exists a c1, tryLoadFullCache (typ e) c = (inl a, c1)) -> (forall d, exists l, (db_listEntities (typ e) fs true limit d).1 = inl l) -> exists x, r = inl x).
Proof.
  intros Hp Hd Ho Hc Hdec. unfold ListEntities. rewrite (proj2 Hp), db_GetEntityType_name.
  destruct (tryLoadFullCache (typ e) c) as [r1 c1] eqn:E1. destruct (tryLoadFullCache_spec e c r1 c1 (proj2 Hp) E1) as [R1 H1].
  pose proof (rd_log _ _ _ R1) as L1. pose proof (rd_ok _ _ _ R1 Hd) as D1. pose proof (reads_all _ _ _ R1 Hd Ho Hc) as C1.
  destruct r1 as [[[has fc] k]|err]; [|eexists _, c1; split; [reflexivity|]; split_and!; [done..|]; by intros (? & ? & [=])]. specialize (H1 has fc k eq_refl). destruct has.
  - destruct (ec_full _ _ (proj2 C1 e Hp) H1) as (m & Hm & Hid). rewrite Hm. cbn [default from_option id]. rewrite L1 in Hid.
    rewrite (cached_ids_live e (clog c) m Hid).
    assert (Hbox : forall id, is_Some (live_box e (clog c) id) -> (fun cb => cBox cb) <$> m !! id = live_box e (clog c) id).
    { intros id. rewrite Hid. unfold full_entry, stored_row, live_box. rewrite db_GetEntityType_name.
      destruct (last (of_entity e id (clog c))) as [b|]; [|done]. cbn. unfold live.
      destruct (useVersionedCollapsingTable (typ e)), (Data b) eqn:Eb; cbn; by intros [? ?]. }
    rewrite (list_full_spec fs limit pass).
    + cbn [obind]. eexists _, c1. split; [reflexivity|]. split_and!; [done..| |by eexists]. intros boxes f [= <- _]. rewrite Z.sub_0_r. f_equal.
      unfold live_boxes. rewrite <- (omap_some_filter (live_box e (clog c))). apply omap_ext_in.
      intros id [Hl _]%list_elem_of_filter. by apply Hbox.
    + intros id [Hl Hin]%list_elem_of_filter. pose proof Hl as [b Hb]. pose proof (Hbox id Hl) as Hbx. rewrite Hb in Hbx.
      destruct (m !! id) as [cb|] eqn:Ecb; [|done]. injection Hbx as Hcb. exists cb. split; [done|]. rewrite Hcb.
      assert (Hdb : is_Some (Data b)).
      { unfold live_box in Hb. destruct (last (of_entity e id (clog c))) as [x|]; [|done]. cbn in Hb. unfold live in Hb.
        destruct (Data x) eqn:Ex; [|done]. injection Hb as <-. by eexists. }
      split; [done|]. apply Hdec. apply list_elem_of_omap. by exists id.
  - unfold with_db. destruct (db_listEntities (typ e) fs true limit (db c1)) as [r2 d2] eqn:E2. pose proof E2 as E2'.
    apply listEntities_ok in E2 as (L2 & K2 & Hr).
    assert (Hall : forall x : ((list EntityBox * bool) + EntityError),
      (forall boxes f, x = inl (boxes, f) -> boxes = listed pass limit (live_boxes e (clog c))) ->
      ((forall d, exists l, (db_listEntities (typ e) fs true limit d).1 = inl l) -> exists y, x = inl y) ->
      exists r c', (Ok (x, set_db d2 c1) : Outcome (((list EntityBox * bool) + EntityError) * CS)) = Ok (r, c') /\ clog c' = clog c /\ dok (db c') /\ coherent c' /\
        (forall boxes f, r = inl (boxes, f) -> boxes = listed pass limit (live_boxes e (clog c))) /\
        ((exists a c0, (inl (false, fc, k) : (bool * bool * Z) + EntityError, c1) = (inl a, c0)) -> (forall d, exists l, (db_listEntities (typ e) fs true limit d).1 = inl l) -> exists y, r = inl y)).
    { intros x Hx Hy. eexists _, _. split; [reflexivity|]. split_and!; [unfold clog in *; cbn; congruence|by apply K2|by apply coherent_db|done|]. intros _ Hw. by apply Hy. }
    destruct r2 as [rows|err]; apply Hall; [|by eexists|done|]. 2:{ intros Hw. destruct (Hw (db c1)) as [l Hl]. rewrite E2' in Hl. done. } intros boxes f [= <- _]. fold (clog c1) in Hr. rewrite L1 in Hr.
    rewrite (Hr Hp D1 Ho rows eq_refl). unfold listed. rewrite <- table_rows_live in *. rewrite <- firstn_map, filter_map.
    f_equal. f_equal. apply filter_in. intros x Hx. destruct (Hdec (rBox x)) as [_ ->]; [|done].
    by apply list_elem_of_fmap_2.
Qed.
End Listing.
