(* ===== verification/EntityList.v ===== *)
(** * Listing entities: [driver/entity/persistent/controller.go]

    [ListEntity] and [ListRelated] of the entity controller. A page has first the
    uncommitted entities, sorted by id, then those of the store that have no uncommitted
    change; a cursor says in which part the page before has ended, and at which id. *)
From Stdlib Require Import ZArith Lia Ascii String.
From stdpp Require Import base numbers option strings pretty sorting gmap list.
From S2P Require Import Prelude BlockCache RangeBase RangeSet RangeSetOps RangeText EntityValue EntityHistory EntityMerge EntityCtrl EntityRich EntityFilter ChainStore.

(** ** Cursors *)

Definition splitListCursor (cursor : string) : bool * string :=
  match cursor with
  | EmptyString => (false, EmptyString)
  | String c rest => (Ascii.eqb c "@", rest)
  end.

Definition buildListCursor (persistent : bool) (id : string) : string := (if persistent then "@" else "#") +:+ id.

(** ** Relations of the schema *)

(** What a foreign key leads to: an entity, or the entities that implement an interface. *)
Record EntityOrInterface : Type := mkTarget {
  TargetFields : list FieldDefinition;
  ListTargets : list EntityType
}.

(** [GetForeignKeyFieldByName] of an entity or interface; any field will do. *)
Definition find_field (fields : list FieldDefinition) (name : string) : option FieldDefinition :=
  snd <$> list_find (fun f => FieldName f = name) fields.

(** The fields that a fixed field, a foreign key and a reverse foreign key are listed
    with. *)
Fixpoint ListForeignKeyFields (includePositive includeNegative : bool) (fs : list FieldDefinition) : list FieldDefinition :=
  match fs with
  | [] => []
  | f :: rest =>
      let l := ListForeignKeyFields includePositive includeNegative rest in
      if isFixedFieldType (FieldType f) then l
      else if negb (DerivedFrom f) && negb includePositive then l
      else if DerivedFrom f && negb includeNegative then l
      else f :: l
  end.

Fixpoint ListFields (includeFixed includePositiveFK includeNegativeFK : bool) (fs : list FieldDefinition) : list FieldDefinition :=
  match fs with
  | [] => []
  | f :: rest =>
      let l := ListFields includeFixed includePositiveFK includeNegativeFK rest in
      if isFixedFieldType (FieldType f) && negb includeFixed then l
      else if negb (DerivedFrom f) && negb includePositiveFK then l
      else if DerivedFrom f && negb includeNegativeFK then l
      else f :: l
  end.

Section Lists.
Context `{HD : Decimal} `{HC : !Conversions}.

(** The part of the store's interface that lists. *)
Class ChainLister (St : Type) : Type := {
  st_ListEntities : EntityType -> list EntityFilter -> Z -> St -> Outcome (((list EntityBox * bool) + EntityError) * St)
}.

(** The schema as [graphql-go] has parsed it: the argument of a [@derivedFrom] directive, and
    the entity or interface behind the name of an object type. *)
Class Relations : Type := {
  rel_derived : FieldDefinition -> string;
  rel_target : string -> EntityOrInterface
}.

Context {St : Type} `{HSt : !ChainStore St} `{HLs : !ChainLister St}.

Abbreviation State := (EState (St := St)).

Definition id_before (a b : EntityBox) : Prop := String.le (ID a) (ID b).
#[global] Instance id_before_dec a b : Decision (id_before a b) := _.

Definition SortEntityBoxes (l : list EntityBox) : list EntityBox := merge_sort id_before l.

(** ** The uncommitted part *)

(** The box of a change with its operators executed in place. *)
Definition uncommitted_box (et : EntityType) (id : string) (blockNumber : Z) (uctBox : UncommittedEntityBox) : SM State (EntityBox + EntityError) :=
  e ← (if bool_decide (Operators uctBox = ∅) then mret None
       else executeEntityOperator et (ID (ebox uctBox)) blockNumber);
  match e with
  | Some err => mret (inr err)
  | None =>
      s ← sget;
      match Latest (history (changes s) (Name et) id) blockNumber with
      | None => slift Panic
      | Some box => mret (inl (ebox box))
      end
  end.

(** The loop over the changes of the entity: the ids that have one up to the block, and the
    boxes behind the cursor that pass the filters. *)
Fixpoint list_changes (et : EntityType) (filters : list EntityFilter) (cp : bool) (cid : string) (blockNumber : Z)
    (ids : list string) (checked : gset string) (boxes : list EntityBox) : SM State ((gset string * list EntityBox) + EntityError) :=
  match ids with
  | [] => mret (inl (checked, boxes))
  | id :: rest =>
      s ← sget;
      match Latest (history (changes s) (Name et) id) blockNumber with
      | None => list_changes et filters cp cid blockNumber rest checked boxes
      | Some uctBox =>
          let checked := {[ ID (ebox uctBox) ]} ∪ checked in
          if cp || bool_decide (String.le (ID (ebox uctBox)) cid) then list_changes et filters cp cid blockNumber rest checked boxes
          else
            match Data (ebox uctBox) with
            | None => list_changes et filters cp cid blockNumber rest checked boxes
            | Some _ =>
                r ← uncommitted_box et id blockNumber uctBox;
                match r with
                | inr err => mret (inr err)
                | inl box =>
                    pass ← slift (CheckFilters filters (Data box));
                    match pass with
                    | inr _ => mret (inr filter_error)
                    | inl pass => list_changes et filters cp cid blockNumber rest checked (if pass : bool then boxes ++ [box] else boxes)
                    end
                end
            end
      end
  end.

(** ** A page *)

(** The ids of a set, in order. *)
Definition ordered_set (ids : gset string) : list string := merge_sort String.le (elements ids).

(** The filters of the persistent part. *)
Definition persistent_filters (primary : FieldDefinition) (checked : gset string) (cp : bool) (cid : string) : list EntityFilter :=
  mkFilter primary OpNotIn (map VString (ordered_set checked)) (Some checked) ::
  (if cp then [mkFilter primary OpGt [VString cid] None] else []).

(** A call of the store that may panic. *)
Definition with_lister {A} (f : St -> Outcome (A * St)) : SM State A :=
  fun s => let! (a, st) := f (store s) in Ok (a, mkEState (changes s) (committed s) (uniqTimeSeriesID s) st).

(** Every entity of a schema has a primary field. *)
Definition listEntity (et : EntityType) (filters : list EntityFilter) (cursor : string) (limit : Z) (blockNumber : Z)
    : SM State ((list EntityBox * option string) + EntityError) :=
  if limit =? 0 then mret (inl ([], None))
  else
    let '(cp, cid) := splitListCursor cursor in
    s ← sget;
    r ← list_changes et filters cp cid blockNumber (map fst (map_to_list (default ∅ (changes s !! Name et)))) ∅ [];
    match r with
    | inr err => mret (inr err)
    | inl (checked, boxes) =>
        let boxes := SortEntityBoxes boxes in
        if limit <=? Z.of_nat (length boxes) then
          if limit <? 0 then slift Panic
          else
            let boxes := take (Z.to_nat limit) boxes in
            match last boxes with
            | None => slift Panic
            | Some b => mret (inl (boxes, Some (buildListCursor false (ID b))))
            end
        else
          let limit := limit - Z.of_nat (length boxes) in
          match GetFieldByName et EntityPrimaryFieldName with
          | None => slift Panic
          | Some primary =>
              r ← with_lister (st_ListEntities et (filters ++ persistent_filters primary checked cp cid) limit);
              match r with
              | inr err => mret (inr err)
              | inl (persistentPart, _) =>
                  let boxes := boxes ++ persistentPart in
                  if Z.of_nat (length persistentPart) =? limit then
                    match last boxes with
                    | None => slift Panic
                    | Some b => mret (inl (boxes, Some (buildListCursor true (ID b))))
                    end
                  else mret (inl (boxes, None))
              end
          end
    end.

Definition ListEntity (et : EntityType) (filters : list EntityFilter) (cursor : string) (limit : Z) (blockNumber : Z)
    : SM State ((list EntityBox * option string) + EntityError) :=
  listEntity et filters cursor limit blockNumber.

(** ** Related entities *)

Definition maxInt : Z := 2 ^ 63 - 1.

Context `{HR : !Relations}.

(** [GetTarget]: [None] where the type of the field is no entity and no interface. *)
Definition GetTarget (f : FieldDefinition) : option EntityOrInterface :=
  match inner (FieldType f) with
  | ObjectType n | InterfaceType n => Some (rel_target n)
  | _ => None
  end.

Definition invalid_field : EntityError := ErrOther "invalid field".

(** The loop over the target entities. *)
Fixpoint related (targets : list EntityType) (reverse : string) (id : string) (blockNumber : Z) (boxes : list EntityBox)
    : SM State (list EntityBox + EntityError) :=
  match targets with
  | [] => mret (inl boxes)
  | target :: rest =>
      match GetFieldByName target reverse with
      | None => slift Panic
      | Some targetField =>
          let many := 0 <? CountListLayer (BreakType (FieldType targetField)) in
          let filter := mkFilter targetField (if many then OpHasAny else OpEq) [VString id] None in
          r ← listEntity target [filter] EmptyString maxInt blockNumber;
          match r with
          | inr err => mret (inr err)
          | inl (targetBoxes, _) => related rest reverse id blockNumber (boxes ++ targetBoxes)
          end
      end
  end.

Definition ListRelated (et : EntityType) (id fieldName : string) (blockNumber : Z) : SM State (list EntityBox + EntityError) :=
  match GetFieldByName et fieldName with
  | None => mret (inr invalid_field)
  | Some field =>
      match GetTarget field with
      | None => mret (inr invalid_field)
      | Some target =>
          if negb (DerivedFrom field) then mret (inr invalid_field)
          else
            let reverse := rel_derived field in
            match find_field (TargetFields target) reverse with
            | None => mret (inr invalid_field)
            | Some _ => related (ListTargets target) reverse id blockNumber []
            end
      end
  end.
End Lists.

(** The chain store lists its entities. *)
#[global] Instance chain_lister `{HD : Decimal} `{HC : !Conversions} {L Db : Type} `{HLru : !LRU L} `{HDb : !EntityStore Db} : ChainLister (ChainStoreState (L := L) (Db := Db)) := {
  st_ListEntities := ListEntities
}.
