(* ===== verification/TableRows.v ===== *)
(** * The rows of the entity tables

    What the rows of a versioned table are: for every change of an id, the row that cancels
    the one before and the new one. Sums over the versions, cuts at a block, groups, the
    row with the greatest block number. *)
From Stdlib Require Import ZArith Lia Ascii String.
From stdpp Require Import base numbers option strings pretty sorting gmap list.
From S2P Require Import Prelude BlockCache RangeText EntityValue EntityHistory EntityMerge EntityCtrl EntityRich EntityFilter EntitySql ChainStore EntitySpec EntityTable.
#[local] Open Scope Z_scope.

Section Rows.
Context `{HD : Decimal} `{HC : !Conversions} `{HS : !Store}.

(** ** The rows of an id *)

(** The rows of the changes of an id behind a version. *)
Fixpoint expand_from (v : Z) (pre : option EntityBox) (l : list EntityBox) : list entityRow :=
  match l with
  | [] => []
  | b :: rest =>
      match pre with Some p => [mkRow (restamp p b) storeChain (-1) v] | None => [] end ++
      mkRow b storeChain 1 (v + 1) :: expand_from (v + 1) (Some b) rest
  end.

Definition expand (l : list EntityBox) : list entityRow := expand_from 0 None l.

Definition last_or (pre : option EntityBox) (l : list EntityBox) : option EntityBox := match last l with Some b => Some b | None => pre end.

Lemma last_or_cons pre b l : last_or pre (b :: l) = last_or (Some b) l.
Proof. unfold last_or. rewrite last_cons. by destruct (last l). Qed.

Lemma expand_from_app v pre l1 l2 :
  expand_from v pre (l1 ++ l2) = expand_from v pre l1 ++ expand_from (v + Z.of_nat (length l1)) (last_or pre l1) l2.
Proof.
  revert v pre. induction l1 as [|b l1 IH]; intros v pre; cbn [app expand_from length].
  - cbn. by rewrite Z.add_0_r.
  - rewrite IH, last_or_cons, <- app_assoc. cbn [app]. replace (v + 1 + Z.of_nat (length l1)) with (v + Z.of_nat (S (length l1))) by lia. done.
Qed.

Lemma expand_app l1 l2 : expand (l1 ++ l2) = expand l1 ++ expand_from (Z.of_nat (length l1)) (last l1) l2.
Proof. unfold expand. rewrite expand_from_app. unfold last_or. by destruct (last l1). Qed.

Lemma expand_positive v pre l : map rowBox (filter (fun r => 0 < Sign r) (expand_from v pre l)) = l.
Proof.
  revert v pre. induction l as [|b l IH]; intros v pre; [done|]. cbn [expand_from]. rewrite filter_app, filter_cons.
  rewrite decide_True by done. rewrite map_app. cbn [map rowBox]. rewrite IH. by destruct pre.
Qed.

Lemma elem_of_expand_from v pre l r :
  r ∈ expand_from v pre l -> v <= Version r <= v + Z.of_nat (length l) /\ GenBlockChain r = storeChain /\
  (Version r = v -> exists p b, pre = Some p /\ b ∈ l /\ r = mkRow (restamp p b) storeChain (-1) v) /\
  exists b, (b ∈ l \/ pre = Some b) /\ row_id r = ID b /\ Entity (rowBox r) = Entity b /\ Data (rowBox r) = Data b.
Proof.
  revert v pre. induction l as [|b l IH]; intros v pre; cbn [expand_from]; [by intros ?%not_elem_of_nil|].
  rewrite elem_of_app, elem_of_cons. cbn [length]. intros [Hr|[->|Hr]].
  - destruct pre as [p|]; [|by apply not_elem_of_nil in Hr]. apply list_elem_of_singleton in Hr as ->. cbn.
    split_and!; [lia|lia|done| |]; [|exists p; split_and!; auto]. intros _. exists p, b. split_and!; [done|by left|done].
  - cbn. split_and!; [lia|lia|done|lia|]. exists b. split_and!; [left; by left|done..].
  - destruct (IH _ _ Hr) as (H1 & H2 & _ & x & H4 & H5). split_and!; [lia|lia|done|lia|].
    exists x. split; [|done]. left. destruct H4 as [?|[= <-]]; [by right|by left].
Qed.

(** The row of the last change has the greatest version, alone. *)
Lemma expand_last l b : last l = Some b -> mkRow b storeChain 1 (Z.of_nat (length l)) ∈ expand l.
Proof.
  intros [l' ->]%last_Some. rewrite expand_app, length_app. apply elem_of_app. right. cbn [expand_from].
  apply elem_of_app. right. apply elem_of_cons. left. f_equal. cbn. lia.
Qed.

Lemma expand_last_unique l r :
  r ∈ expand l -> Version r = Z.of_nat (length l) -> exists b, last l = Some b /\ r = mkRow b storeChain 1 (Z.of_nat (length l)).
Proof.
  destruct l as [|b l _] using rev_ind; [by intros ?%not_elem_of_nil|]. rewrite expand_app, length_app. cbn [length].
  intros [Hr|Hr]%elem_of_app Hv.
  - apply elem_of_expand_from in Hr as (Hr & _). lia.
  - rewrite last_snoc. exists b. split; [done|]. cbn [expand_from] in Hr. apply elem_of_app in Hr as [Hr|Hr].
    + destruct (last l) as [p|]; [|by apply not_elem_of_nil in Hr]. apply list_elem_of_singleton in Hr as ->. cbn in Hv. lia.
    + apply list_elem_of_singleton in Hr as ->. f_equal. lia.
Qed.

(** ** Sums over a version *)

Lemma sum_sign_app l1 l2 : sum_sign (l1 ++ l2) = sum_sign l1 + sum_sign l2.
Proof. unfold sum_sign. induction l1 as [|r l1 IH]; [done|]. cbn. lia. Qed.

(** A condition that looks at the id and the data only. *)
Definition on_data (P : entityRow -> bool) : Prop :=
  forall r r', row_id r = row_id r' -> Data (rowBox r) = Data (rowBox r') -> P r = P r'.

Definition weight (P : entityRow -> bool) (b : EntityBox) : Z := if P (mkRow b storeChain 1 0) then 1 else 0.

Definition at_version (P : entityRow -> bool) (w : Z) (l : list entityRow) : list entityRow := filter (fun r => P r = true /\ Version r = w) l.

Lemma at_version_app P w l1 l2 : at_version P w (l1 ++ l2) = at_version P w l1 ++ at_version P w l2.
Proof. apply filter_app. Qed.

Lemma weight_row P b s v : on_data P -> (if P (mkRow b storeChain s v) then 1 else 0) = weight P b.
Proof. intros HP. unfold weight. by rewrite (HP _ (mkRow b storeChain 1 0)). Qed.

Lemma at_version_one P w b s v :
  on_data P -> sum_sign (at_version P w [mkRow b storeChain s v]) = if v =? w then s * weight P b else 0.
Proof.
  intros HP. unfold at_version. rewrite filter_cons, filter_nil. pose proof (weight_row P b s v HP) as Hw. cbn [Version].
  destruct (Z.eqb_spec v w) as [->|Hv]; [|by rewrite decide_False by (by intros [_ ?])].
  destruct (P (mkRow b storeChain s w)); [rewrite decide_True by done|rewrite decide_False by (by intros [? _])]; cbn; lia.
Qed.

Lemma sum_expand_from P w v pre l :
  on_data P ->
  sum_sign (at_version P w (expand_from v pre l)) =
  match last l with
  | None => 0
  | Some b => (if w =? v + Z.of_nat (length l) then weight P b else 0) - match pre with Some p => if w =? v then weight P p else 0 | None => 0 end
  end.
Proof.
  intros HP. revert v pre. induction l as [|b l IH]; intros v pre; [done|]. cbn [expand_from]. rewrite at_version_app.
  change (mkRow b storeChain 1 (v + 1) :: expand_from (v + 1) (Some b) l) with ([mkRow b storeChain 1 (v + 1)] ++ expand_from (v + 1) (Some b) l).
  rewrite at_version_app, !sum_sign_app, IH, at_version_one by done.
  assert (Hpre : sum_sign (at_version P w match pre with Some p => [mkRow (restamp p b) storeChain (-1) v] | None => [] end) =
    - match pre with Some p => if w =? v then weight P p else 0 | None => 0 end).
  { destruct pre as [p|]; [|done]. rewrite at_version_one by done. unfold weight.
    rewrite (HP (mkRow (restamp p b) storeChain 1 0) (mkRow p storeChain 1 0)) by done. rewrite Z.eqb_sym. destruct (w =? v); lia. }
  rewrite Hpre. rewrite last_cons. cbn [length]. rewrite (Z.eqb_sym (v + 1) w). destruct (last l) as [c|] eqn:El.
  - replace (v + 1 + Z.of_nat (length l)) with (v + Z.of_nat (S (length l))) by lia. destruct (w =? v + 1), (w =? v + Z.of_nat (S (length l))); lia.
  - apply last_None in El as ->. cbn [length]. replace (v + Z.of_nat 1) with (v + 1) by lia. destruct (w =? v + 1); lia.
Qed.

Lemma sum_expand P w l :
  on_data P ->
  sum_sign (at_version P w (expand l)) = match last l with Some b => if w =? Z.of_nat (length l) then weight P b else 0 | None => 0 end.
Proof. intros HP. unfold expand. rewrite sum_expand_from by done. destruct (last l); [|done]. rewrite Z.add_0_l. lia. Qed.

(** ** Cuts *)

Definition upto_gen (n : Z) (l : list EntityBox) : list EntityBox := filter (fun b => GenBlockNumber b <= n) l.

Lemma upto_gen_none n l : Forall (fun b => n < GenBlockNumber b) l -> upto_gen n l = [].
Proof. rewrite Forall_forall. intros H. apply filter_none. intros b Hb. specialize (H b Hb). lia. Qed.

Lemma ascending_cons b l : ascending (b :: l) <-> ascending l /\ Forall (fun c => GenBlockNumber b < GenBlockNumber c) l.
Proof.
  unfold ascending. cbn. split.
  - intros Hs. apply StronglySorted_inv in Hs as [? Hf]. by rewrite Forall_map in Hf.
  - intros [? ?]. constructor; [done|]. by rewrite Forall_map.
Qed.

Lemma expand_cut n v pre l :
  ascending l -> filter (fun r => row_gen r <= n) (expand_from v pre l) = expand_from v pre (upto_gen n l).
Proof.
  revert v pre. induction l as [|b l IH]; intros v pre Ha; [done|]. apply ascending_cons in Ha as [Ha Hb]. cbn [expand_from].
  assert (Hun : row_gen (mkRow b storeChain 1 (v + 1)) = GenBlockNumber b) by done.
  assert (Hpre : forall p, row_gen (mkRow (restamp p b) storeChain (-1) v) = GenBlockNumber b) by done.
  unfold upto_gen. rewrite (filter_cons (fun b => GenBlockNumber b <= n)), filter_app, (filter_cons _ (mkRow b storeChain 1 (v + 1))), Hun. case_decide as Hd.
  - cbn [expand_from]. rewrite IH by done. f_equal. destruct pre as [p|]; [|done]. rewrite filter_cons, Hpre, decide_True by done. done.
  - fold (upto_gen n l). rewrite IH by done. rewrite upto_gen_none by (eapply Forall_impl; [exact Hb|cbn; lia]). cbn [expand_from].
    rewrite app_nil_r. destruct pre as [p|]; [|done]. by rewrite filter_cons, Hpre, decide_False.
Qed.

Lemma upto_gen_ascending n l : ascending l -> ascending (upto_gen n l).
Proof. intros Ha. unfold ascending in *. eapply StronglySorted_sublist; [|exact Ha]. apply sublist_map, sublist_filter. Qed.

(** A cut of a series in order is a beginning of it. *)
Lemma upto_gen_prefix n l : ascending l -> upto_gen n l `prefix_of` l.
Proof.
  induction l as [|b l IH]; intros Ha; [done|]. apply ascending_cons in Ha as [Ha Hb]. unfold upto_gen. rewrite filter_cons. case_decide.
  - apply prefix_cons, IH, Ha.
  - fold (upto_gen n l). rewrite upto_gen_none; [apply prefix_nil|]. eapply Forall_impl; [exact Hb|cbn; lia].
Qed.

(** ** The row with the greatest block number *)

Definition gens_ascending (l : list entityRow) : Prop := StronglySorted Z.lt (map row_gen l).

Lemma gens_ascending_sorted l : gens_ascending l -> StronglySorted gen_le l.
Proof.
  unfold gens_ascending. induction l as [|r l IH]; cbn [map]; intros Hs; [constructor|]. apply StronglySorted_inv in Hs as [Hs Hf].
  constructor; [by apply IH|]. rewrite Forall_map in Hf. eapply Forall_impl; [exact Hf|]. intros x Hx. unfold gen_le. cbn in Hx. lia.
Qed.

Lemma gens_ascending_inj l x y : gens_ascending l -> x ∈ l -> y ∈ l -> row_gen x = row_gen y -> x = y.
Proof.
  unfold gens_ascending. induction l as [|r l IH]; cbn [map]; intros Hs; [by intros ?%not_elem_of_nil|]. apply StronglySorted_inv in Hs as [Hs Hf].
  rewrite Forall_map, Forall_forall in Hf. intros [->|Hx]%elem_of_cons [->|Hy]%elem_of_cons E; [done|..].
  - specialize (Hf y Hy). cbn in Hf. lia.
  - specialize (Hf x Hx). cbn in Hf. lia.
  - by apply IH.
Qed.

Lemma gen_le_total : Total gen_le.
Proof. intros a b. unfold gen_le. lia. Qed.

Lemma gen_le_trans : Transitive gen_le.
Proof. intros a b c. unfold gen_le. lia. Qed.

Lemma arg_max_last l : gens_ascending l -> arg_max l = last l.
Proof.
  intros Hs. unfold arg_max. f_equal. pose proof gen_le_total. pose proof gen_le_trans.
  apply (StronglySorted_unique_strong gen_le).
  - intros x y Hx Hy Hxy Hyx. rewrite merge_sort_Permutation in Hx. apply (gens_ascending_inj l); [done..|]. unfold gen_le in *. lia.
  - by apply StronglySorted_merge_sort.
  - by apply gens_ascending_sorted.
  - apply merge_sort_Permutation.
Qed.

(** ** Groups *)

Section Groups.
Context {K : Type} `{EqDecision K} (key : entityRow -> K).

Lemma elem_of_groups l g : g ∈ groups key l <-> exists r, r ∈ l /\ g = filter (fun x => key x = key r) l.
Proof.
  unfold groups. rewrite list_elem_of_fmap. setoid_rewrite elem_of_remove_dups. setoid_rewrite list_elem_of_fmap. split.
  - intros (k & -> & r & -> & Hr). by exists r.
  - intros (r & Hr & ->). exists (key r). split; [done|]. by exists r.
Qed.

Lemma group_head l g r : g ∈ groups key l -> head g = Some r -> r ∈ l /\ g = filter (fun x => key x = key r) l.
Proof.
  intros (r0 & Hr0 & ->)%elem_of_groups Hh. apply head_Some_elem_of, list_elem_of_filter in Hh as [Hk Hr]. by rewrite Hk.
Qed.

Lemma group_nonempty l g : g ∈ groups key l -> exists r, head g = Some r.
Proof.
  intros (r0 & Hr0 & ->)%elem_of_groups. destruct (filter (fun x => key x = key r0) l) as [|x t] eqn:E; [|by eexists].
  exfalso. apply (not_elem_of_nil r0). rewrite <- E. by apply list_elem_of_filter.
Qed.

Lemma groups_keys l : omap (fun g => key <$> head g) (groups key l) = remove_dups (map key l).
Proof.
  unfold groups. assert (Hin : forall k, k ∈ remove_dups (map key l) -> exists r, r ∈ l /\ key r = k).
  { intros k. rewrite elem_of_remove_dups, list_elem_of_fmap. intros (r & -> & Hr). by exists r. }
  revert Hin. generalize (remove_dups (map key l)). intros ks. induction ks as [|k ks IH]; intros Hin; [done|]. cbn.
  rewrite IH by (intros k' Hk'; apply Hin; by right). destruct (Hin k) as (r & Hr & Hk); [by left|].
  destruct (filter (fun x => key x = k) l) as [|x t] eqn:E.
  - exfalso. apply (not_elem_of_nil r). rewrite <- E. by apply list_elem_of_filter.
  - cbn. assert (Hx : x ∈ filter (fun x => key x = k) l) by (rewrite E; by left). apply list_elem_of_filter in Hx as [-> _]. done.
Qed.
End Groups.
End Rows.
