(* ===== verification/TableSpec.v ===== *)
(** * What the entity tables hold

    The invariant of the tables: the raw rows of an id are those of its changes, and the
    latest table has the same rows but for some cancelled pairs. Every event keeps it. On
    tables that keep it [getEntity] and [listEntities] answer with the current rows. *)
From Stdlib Require Import ZArith Lia Ascii String.
From stdpp Require Import base numbers option strings pretty sorting gmap list.
From S2P Require Import Prelude BlockCache RangeText EntityValue EntityHistory EntityMerge EntityTyping EntityCtrl EntityRich EntityFilter EntitySql ChainStore EntitySpec ChainStoreSpec EntityTable TableRows.
#[local] Open Scope Z_scope.

Section Spec.
Context `{HD : Decimal} `{HC : !Conversions} `{HS : !Store}.

(** What the schema promises. Entities that are immutable and not time series are left out:
    such an id may get two rows. *)
Class StoreOk : Prop := {
  ok_name e : Name (sch_type e) = e;
  ok_listed e : IsCache (sch_type e) = false -> e ∈ sch_entities /\ plain_name e = true /\ FieldsDefinition (sch_type e) <> [];
  ok_mutable e : persisted (sch_type e) -> IsImmutable (sch_type e) = false;
  ok_id e : let f := primary_key_field (sch_type e) in
    FieldName f = EntityPrimaryFieldName /\ DerivedFrom f = false /\ (0 <? CountListLayer (BreakType (FieldType f))) = false;
  ok_batch : BatchInsertSizeLimit <= MaxInt
}.

Context `{HOk : !StoreOk}.

(** ** The invariant *)

(** The rows that stand for a change. *)
Definition known (r : entityRow) : Prop := GenBlockChain r = storeChain /\ 0 < Sign r /\ Entity (rowBox r) ∈ sch_entities.
#[global] Instance known_dec r : Decision (known r) := _.

Definition table_log (t : Tables) : list EntityBox := map rowBox (filter known (rows t)).

Definition id_rows (e id : string) (l : list entityRow) : list entityRow := filter (fun r => in_chain e r /\ row_id r = id) l.

Definition plain_row (b : EntityBox) : entityRow := mkRow b storeChain 1 1.

Definition rows_of (et : EntityType) (l : list EntityBox) : list entityRow := if versioned et then expand l else map plain_row l.

Abbreviation boxes_of t e id := (of_entity e id (table_log t)).

Definition raw_ok (t : Tables) (e : string) : Prop :=
  forall id, ascending (boxes_of t e id) /\ id_rows e id (rows t) = rows_of (sch_type e) (boxes_of t e id).

(** Some rows of a series of changes: pairs of some versions are gone. *)
Definition part_of (collapsed : list Z) (l : list EntityBox) : list entityRow := filter (fun r => Version r ∉ collapsed) (expand l).

(** The latest table is right up to a block. *)
Definition latest_upto (m : Z) (t : Tables) (e : string) : Prop :=
  versioned (sch_type e) = true -> forall id, exists collapsed l,
    ascending l /\ upto_gen m l = upto_gen m (boxes_of t e id) /\ id_rows e id (latestRows t) = part_of collapsed l.

(** The latest table is right; what is collapsed is out of date. *)
Definition latest_ok (t : Tables) (e : string) : Prop :=
  versioned (sch_type e) = true -> forall id, exists collapsed,
    Forall (fun v => v < Z.of_nat (length (boxes_of t e id))) collapsed /\ id_rows e id (latestRows t) = part_of collapsed (boxes_of t e id).

(** The latest table lacks pairs, perhaps current rows too. *)
Definition latest_partial (t : Tables) (e : string) : Prop :=
  forall id, exists collapsed, id_rows e id (latestRows t) = part_of collapsed (boxes_of t e id).

Definition tables_base (m : Z) (t : Tables) : Prop := forall e, persisted (sch_type e) -> raw_ok t e /\ latest_upto m t e.
Definition tables_ok (t : Tables) : Prop := forall e, persisted (sch_type e) -> raw_ok t e /\ latest_ok t e.

Lemma latest_ok_upto m t e : raw_ok t e -> latest_ok t e -> latest_upto m t e.
Proof. intros Hr Hl Hv id. destruct (Hl Hv id) as (C & _ & E). exists C, (boxes_of t e id). split_and!; [apply Hr|done|done]. Qed.

Lemma tables_ok_base t m : tables_ok t -> tables_base m t.
Proof. intros Ht e He. destruct (Ht e He). split; [done|]. by apply latest_ok_upto. Qed.

(** ** Events *)

Lemma id_rows_app e id l1 l2 : id_rows e id (l1 ++ l2) = id_rows e id l1 ++ id_rows e id l2.
Proof. apply filter_app. Qed.

Lemma elem_of_id_rows e id l r : r ∈ id_rows e id l <-> r ∈ l /\ in_chain e r /\ row_id r = id.
Proof. unfold id_rows. rewrite list_elem_of_filter. tauto. Qed.

Lemma collapse_id_rows e id l k :
  id_rows e id (collapse l k) = id_rows e id l \/
  exists v, id_rows e id (collapse l k) = filter (fun r => Version r <> v) (id_rows e id l) /\
    (exists r, r ∈ id_rows e id l /\ Version r = v /\ Sign r < 0).
Proof.
  unfold collapse. destruct (existsb _ l && existsb _ l) eqn:Eb; [|by left]. apply andb_prop in Eb as [_ Hneg].
  apply existsb_exists in Hneg as (r & Hr%list_elem_of_In & [Hk%bool_decide_eq_true Hs%Z.ltb_lt]%andb_prop).
  destruct (decide (in_chain e r /\ row_id r = id)) as [[[He Hc] Hid]|Hno].
  - right. exists (Version r). split.
    + unfold id_rows. rewrite !list_filter_filter. apply list_filter_iff. intros x. rewrite <- Hk. unfold in_chain, row_id, row_key in *. split.
      * intros ([[Hx1 Hx2] Hx3] & Hne). split; [|done]. intros Hv. apply Hne. congruence.
      * intros (Hv & [Hx1 Hx2] & Hx3). split; [done|]. intros [=]. done.
    + exists r. split; [|done]. by apply elem_of_id_rows.
  - left. unfold id_rows. rewrite list_filter_filter. apply list_filter_iff. intros x. rewrite <- Hk. split; [by intros [? _]|].
    intros Hx. split; [done|]. unfold row_key, in_chain, row_id in *. intros [=]. destruct Hx as [[? ?] ?]. apply Hno. split_and!; congruence.
Qed.

Lemma part_of_drop C l v : filter (fun r => Version r <> v) (part_of C l) = part_of (v :: C) l.
Proof. unfold part_of. rewrite list_filter_filter. apply list_filter_iff. intros r. rewrite not_elem_of_cons. tauto. Qed.

Lemma elem_of_part_of C l r : r ∈ part_of C l <-> Version r ∉ C /\ r ∈ expand l.
Proof. unfold part_of. by rewrite list_elem_of_filter. Qed.

(** A row that is cancelled is not the last one. *)
Lemma cancelled_version l r : r ∈ expand l -> Sign r < 0 -> Version r < Z.of_nat (length l).
Proof.
  intros Hr Hs. pose proof (elem_of_expand_from _ _ _ _ Hr) as ([_ Hv] & _).
  destruct (decide (Version r = Z.of_nat (length l))) as [E|]; [|lia]. destruct (expand_last_unique l r Hr E) as (b & _ & ->). cbn in Hs. lia.
Qed.

Lemma collapse_part C e id l L k :
  id_rows e id l = part_of C L -> exists C', id_rows e id (collapse l k) = part_of C' L /\ forall v, v ∈ C' -> v ∈ C \/ v < Z.of_nat (length L).
Proof.
  intros E. destruct (collapse_id_rows e id l k) as [->|(v & -> & r & Hr & Hv & Hs)]; [exists C; split; [done|tauto]|].
  exists (v :: C). rewrite E, part_of_drop. split; [done|]. intros w [->|?]%elem_of_cons; [right|by left]. rewrite E in Hr.
  apply elem_of_part_of in Hr as [_ Hr]. rewrite <- Hv. by apply cancelled_version.
Qed.

Lemma collapses_part C e id l L ks :
  id_rows e id l = part_of C L ->
  exists C', id_rows e id (foldl collapse l ks) = part_of C' L /\ forall v, v ∈ C' -> v ∈ C \/ v < Z.of_nat (length L).
Proof.
  revert C l. induction ks as [|k ks IH]; intros C l E; [exists C; split; [done|tauto]|]. cbn.
  destruct (collapse_part C e id l L k E) as (C1 & E1 & H1). destruct (IH C1 _ E1) as (C2 & E2 & H2). exists C2. split; [done|].
  intros v Hv. destruct (H2 v Hv) as [Hv1|?]; [|by right]. by apply H1.
Qed.

(** What an event may do. *)
Record tolerates (t t' : Tables) : Prop := mkTolerates {
  tl_rows : rows t' = rows t;
  tl_latest e m : latest_upto m t e -> latest_upto m t' e;
  tl_ok e : latest_ok t e -> latest_ok t' e;
  tl_partial e : latest_partial t e -> latest_partial t' e;
  tl_empty e id : id_rows e id (latestRows t) = [] -> id_rows e id (latestRows t') = []
}.

Lemma tolerates_refl t : tolerates t t.
Proof. by split. Qed.

Lemma tolerates_trans t1 t2 t3 : tolerates t1 t2 -> tolerates t2 t3 -> tolerates t1 t3.
Proof. intros [A1 A2 A3 A4 A5] [B1 B2 B3 B4 B5]. split; [congruence|auto..]. Qed.

Lemma tolerates_log t t' : tolerates t t' -> table_log t' = table_log t.
Proof. intros [Hr _ _ _ _]. unfold table_log. by rewrite Hr. Qed.

Lemma tolerates_raw t t' e : tolerates t t' -> raw_ok t e -> raw_ok t' e.
Proof. intros Ht Hr id. rewrite (tolerates_log t t' Ht), (tl_rows _ _ Ht). apply Hr. Qed.

Lemma tolerates_tables t t' : tolerates t t' -> tables_ok t -> tables_ok t'.
Proof. intros Ht Hok e He. destruct (Hok e He). split; [by eapply tolerates_raw|by apply (tl_ok _ _ Ht)]. Qed.

Lemma tolerates_base t t' m : tolerates t t' -> tables_base m t -> tables_base m t'.
Proof. intros Ht Hok e He. destruct (Hok e He). split; [by eapply tolerates_raw|by apply (tl_latest _ _ Ht)]. Qed.

Lemma next_event_tolerates t flt t' : next_event t = (flt, t') -> tolerates t t'.
Proof.
  unfold next_event. destruct (events t) as [|ev rest]; intros [= <- <-]; [apply tolerates_refl|]. split; [done|..].
  - intros e m Hl Hv id. destruct (Hl Hv id) as (C & L & H1 & H2 & H3). destruct (collapses_part C e id _ L (merges ev) H3) as (C' & E & _).
    exists C', L. split_and!; [done|done|exact E].
  - intros e Hl Hv id. destruct (Hl Hv id) as (C & H1 & H2). destruct (collapses_part C e id _ _ (merges ev) H2) as (C' & E & HC').
    exists C'. split; [|exact E]. apply Forall_forall. intros v Hv'. rewrite Forall_forall in H1. destruct (HC' v Hv') as [?|?]; [by apply H1|done].
  - intros e Hl id. destruct (Hl id) as (C & H2). destruct (collapses_part C e id _ _ (merges ev) H2) as (C' & E & _). by exists C'.
  - intros e id. cbn [latestRows]. generalize (latestRows t). induction (merges ev) as [|k ks IH]; [done|]. intros l E. cbn. apply IH.
    by destruct (collapse_id_rows e id l k) as [->|(v & -> & _)]; rewrite E.
Qed.

Lemma query_spec {A} (f : Tables -> A) t r t' :
  query f t = (r, t') -> tolerates t t' /\ (r = inl (f t') \/ exists err, r = inr err).
Proof.
  unfold query. destruct (next_event t) as [flt t1] eqn:E. intros Hq. apply next_event_tolerates in E.
  destruct flt; injection Hq as <- <-; (split; [done|]); [right; by eexists|by left].
Qed.

Lemma exec_spec f t err t' :
  exec f t = (err, t') -> exists t1, tolerates t t1 /\ (t' = f t1 \/ err <> None /\ t' = t1).
Proof.
  unfold exec. destruct (next_event t) as [flt t1] eqn:E. intros Hq. apply next_event_tolerates in E. exists t1.
  destruct flt as [flt|]; [destruct (applied flt)|]; injection Hq as <- <-; (split; [done|]); [by left|by right|by left].
Qed.
End Spec.
