(* ===== verification/TableRead.v ===== *)
(** * Reading, counting and collecting the ids of the entity tables

    On tables that keep the invariant, [getEntity] and [listEntities] answer with the current
    rows of the ids, whichever of the layouts the tables have. The buckets of a count that
    exceeds the memory limit cover every id once; whether the table has deletions, which may be
    asked before the count, does not change meanwhile. *)
From Stdlib Require Import ZArith Lia Ascii String.
From stdpp Require Import base numbers option strings pretty sorting gmap list.
From S2P Require Import Prelude RangeText BlockCache EntityValue EntityHistory EntityMerge EntityTyping EntityCtrl EntityRich EntityFilter EntitySql ChainStore EntityTable EntitySpec ChainStoreSpec TableRows TableSpec.
#[local] Open Scope Z_scope.

Lemma string_le_antisym a b : String.le a b -> String.le b a -> a = b.
Proof. unfold String.le. intros H1 H2. by apply (anti_symm String.le). Qed.

Section Spec.
Context `{HD : Decimal} `{HC : !Conversions} `{HS : !Store} `{HOk : !StoreOk}.

Abbreviation boxes_of t e id := (of_entity e id (table_log t)).

(** ** Current rows *)

Definition current_of (et : EntityType) (l : list EntityBox) : option entityRow :=
  (fun b => mkRow b storeChain 1 (if versioned et then Z.of_nat (length l) else 1)) <$> last l.

(** The current row of an id. *)
Definition current (t : Tables) (e id : string) : option entityRow := current_of (sch_type e) (boxes_of t e id).

Lemma boxes_of_elem t e id b : b ∈ boxes_of t e id -> Entity b = e /\ ID b = id.
Proof. by intros [[? ?] _]%list_elem_of_filter. Qed.

Lemma current_some t e id r : current t e id = Some r -> row_id r = id /\ Entity (rowBox r) = e /\ GenBlockChain r = storeChain.
Proof.
  unfold current, current_of. intros (b & Hb & ->)%fmap_Some. apply last_Some_elem_of, boxes_of_elem in Hb as [<- <-]. done.
Qed.

Lemma rows_positive et l : map rowBox (filter (fun r => 0 < Sign r) (rows_of et l)) = l.
Proof.
  unfold rows_of. destruct (versioned et); [apply expand_positive|]. induction l as [|b l IH]; [done|]. cbn [map].
  rewrite filter_cons, decide_True by done. cbn. by rewrite IH.
Qed.

(** The row with the greatest block number is the current one. *)
Lemma arg_max_box l L : map rowBox l = L -> ascending L -> arg_max l = last l /\ rowBox <$> arg_max l = last L.
Proof.
  intros Hm Ha. assert (Hg : gens_ascending l).
  { unfold gens_ascending. unfold ascending in Ha. rewrite <- Hm, map_map in Ha. exact Ha. }
  rewrite (arg_max_last l Hg). split; [done|]. by rewrite <- fmap_last, <- Hm.
Qed.

Lemma plain_current et L : versioned et = false -> ascending L -> arg_max (rows_of et L) = current_of et L.
Proof.
  intros Hv Ha. unfold rows_of, current_of. rewrite Hv.
  destruct (arg_max_box (map plain_row L) L) as [-> _]; [rewrite map_map; apply map_id|done|]. apply fmap_last.
Qed.

(** The current row among those of an id. *)
Lemma current_in_rows et L r : current_of et L = Some r -> r ∈ rows_of et L.
Proof.
  unfold current_of, rows_of. intros (b & Hb & ->)%fmap_Some. destruct (versioned et); [by apply expand_last|].
  apply list_elem_of_fmap. exists b. split; [done|]. by apply last_Some_elem_of.
Qed.

Lemma current_in_table t e id r : raw_ok t e -> current t e id = Some r -> r ∈ table_of e (rows t).
Proof.
  intros Hr Hc. destruct (Hr id) as [_ E]. apply current_in_rows in Hc. rewrite <- E in Hc. apply elem_of_id_rows in Hc as (Hc & Hch & _).
  by apply list_elem_of_filter.
Qed.

(** ** One row *)

Lemma id_rows_table e id l : filter (fun r => row_id r = id) (table_of e l) = id_rows e id l.
Proof. unfold table_of, id_rows. rewrite list_filter_filter. apply list_filter_iff. tauto. Qed.

Lemma getEntity_rows e id t r t' :
  store_getEntity (sch_type e) id t = (r, t') -> tolerates t t' /\
  (persisted (sch_type e) -> tables_ok t -> forall row, r = inl row -> (rBox <$> row) = last (boxes_of t e id)).
Proof.
  unfold store_getEntity. destruct (IsCache (sch_type e)) eqn:Ec.
  { intros [= <- <-]. split; [apply tolerates_refl|]. intros [_ ?]. congruence. }
  rewrite ok_name. intros [Ht Hr]%query_spec. split; [done|]. intros Hp Hok row ->. destruct Hr as [[= ->]|[? ?]]; [|done].
  destruct (Hok e Hp) as [Hraw _]. destruct (Hraw id) as [Ha E]. rewrite id_rows_table, (tl_rows _ _ Ht), E. rewrite (ok_mutable e Hp).
  destruct (versioned (sch_type e)) eqn:Ev.
  - destruct (arg_max_box _ _ (rows_positive (sch_type e) (boxes_of t e id)) Ha) as [_ <-].
    by destruct (arg_max (filter _ _)).
  - rewrite plain_current by done. unfold current_of. by destruct (last (boxes_of t e id)).
Qed.

(** ** Lists of current rows *)

(** Exactly the current rows that satisfy a condition. *)
Definition currents (t : Tables) (e : string) (Q : entityRow -> bool) (M : list entityRow) : Prop :=
  NoDup M /\ forall r, r ∈ M <-> current t e (row_id r) = Some r /\ Q r = true.

Definition pick (t : Tables) (e : string) (Q : entityRow -> bool) (id : string) : option entityRow :=
  current t e id ≫= fun r => if Q r then Some r else None.

Lemma pick_some t e Q id r : pick t e Q id = Some r <-> current t e id = Some r /\ Q r = true.
Proof.
  unfold pick. destruct (current t e id) as [x|]; cbn; [|naive_solver]. destruct (Q x) eqn:E; naive_solver congruence.
Qed.

Lemma pick_id t e Q id r : pick t e Q id = Some r -> row_id r = id.
Proof. by intros [[? _]%current_some _]%pick_some. Qed.

Lemma elem_of_picks t e Q (ids : list string) r : r ∈ omap (pick t e Q) ids <-> row_id r ∈ ids /\ pick t e Q (row_id r) = Some r.
Proof.
  rewrite list_elem_of_omap. split.
  - intros (id & Hin & Hp). by rewrite (pick_id _ _ _ _ _ Hp).
  - intros [? ?]. by exists (row_id r).
Qed.

Lemma picks_nodup t e Q (ids : list string) : NoDup ids -> NoDup (omap (pick t e Q) ids).
Proof.
  induction 1 as [|id ids Hni Hnd IH]; [constructor|]. cbn. destruct (pick t e Q id) as [r|] eqn:E; [|done]. constructor; [|done].
  intros [Hin _]%elem_of_picks. by rewrite (pick_id _ _ _ _ _ E) in Hin.
Qed.

Lemma picks_sorted t e Q (ids : list string) : StronglySorted String.le ids -> StronglySorted id_le (omap (pick t e Q) ids).
Proof.
  induction 1 as [|id ids Hs IH Hf]; [constructor|]. cbn. destruct (pick t e Q id) as [r|] eqn:E; [|done]. constructor; [done|].
  apply Forall_forall. intros x [Hx _]%elem_of_picks. rewrite Forall_forall in Hf. unfold id_le. rewrite (pick_id _ _ _ _ _ E). by apply Hf.
Qed.

Lemma table_rows_nodup et excl log : NoDup (map (fun r => ID (rBox r)) (table_rows et excl log)).
Proof.
  unfold table_rows. rewrite map_omap. generalize (sorted_ids_nodup (Name et) log). generalize (sorted_ids (Name et) log). intros ids.
  induction 1 as [|id ids Hni Hnd IH]; [constructor|]. cbn. destruct (stored_row et excl log id) as [r|] eqn:Er; [|done]. cbn. constructor; [|done].
  rewrite (stored_row_id _ _ _ _ _ Er). rewrite list_elem_of_omap. intros (id' & Hin & (r' & Hr' & E)%fmap_Some). apply stored_row_id in Hr'. congruence.
Qed.

Lemma id_le_total : Total id_le.
Proof. intros a b. unfold id_le. apply (total String.le). Qed.

Lemma id_le_trans : Transitive id_le.
Proof. intros a b c. unfold id_le. apply (transitivity (R := String.le)). Qed.

Lemma sorted_ids_sorted e log : StronglySorted String.le (sorted_ids e log).
Proof. unfold sorted_ids. apply StronglySorted_merge_sort; apply _. Qed.

Lemma current_sorted_id t e id r : current t e id = Some r -> id ∈ sorted_ids e (table_log t).
Proof. unfold current, current_of. intros (b & Hb & _)%fmap_Some. apply elem_of_sorted_ids. intros E. by rewrite E in Hb. Qed.

Lemma currents_sorted t e Q M : currents t e Q M -> merge_sort id_le M = omap (pick t e Q) (sorted_ids e (table_log t)).
Proof.
  intros [Hnd HM]. pose proof id_le_total. pose proof id_le_trans. apply (StronglySorted_unique_strong id_le).
  - intros x y Hx Hy H1 H2. rewrite merge_sort_Permutation in Hx. apply HM in Hx as [Hx _].
    apply elem_of_picks in Hy as [_ [Hy _]%pick_some]. rewrite (string_le_antisym _ _ H1 H2) in Hx. congruence.
  - by apply StronglySorted_merge_sort.
  - apply picks_sorted, sorted_ids_sorted.
  - rewrite merge_sort_Permutation. apply NoDup_Permutation; [done|apply picks_nodup, sorted_ids_nodup|]. intros r. rewrite HM, elem_of_picks, pick_some.
    split; [|tauto]. intros [Hc HQ]. split; [by eapply current_sorted_id|done].
Qed.

Lemma read_current et L b :
  read_row et (mkRow b storeChain 1 (if versioned et then Z.of_nat (length L) else 1)) = mkStored b (row_version et L).
Proof. unfold read_row, row_version. cbn. by destruct (versioned et). Qed.

Lemma ordered_take limit l : ordered limit l = take (Z.to_nat limit) (merge_sort id_le l).
Proof.
  unfold ordered. assert (Hl : length (merge_sort id_le l) = length l) by (apply Permutation_length, merge_sort_Permutation).
  destruct (decide (limit <= Z.of_nat (length l))); [by rewrite Z.min_l|]. rewrite Z.min_r by lia. rewrite !take_ge by lia. done.
Qed.

(** Current rows as the list query of the laws has them. *)
Lemma currents_listed t e et excl (Q : entityRow -> bool) (S : storedRow -> bool) M limit :
  sch_type e = et -> currents t e Q M ->
  (forall r, Entity (rowBox r) = e -> Q r = not_excluded excl r && S (read_row et r)) ->
  map (read_row et) (ordered limit M) = take (Z.to_nat limit) (filter (fun r => S r = true) (table_rows et excl (table_log t))).
Proof.
  intros <- HM HQ. rewrite ordered_take. rewrite (currents_sorted t e Q M HM), <- firstn_map. f_equal. unfold table_rows. rewrite ok_name.
  rewrite map_omap, filter_omap. apply omap_ext_in. intros id _. unfold pick, stored_row. rewrite ok_name.
  destruct (current t e id) as [r|] eqn:Ec; unfold current, current_of in Ec.
  - destruct (current_some t e id r Ec) as (_ & He & _). cbn. rewrite (HQ r He).
    apply fmap_Some in Ec as (b & Hb & ->). rewrite Hb. cbn [option_bind mbind].
    rewrite read_current. unfold not_excluded, deleted, live. cbn [rowBox].
    assert (Hif : forall x : bool, read_row (sch_type e) <$> (if x then Some (mkRow b storeChain 1 (if versioned (sch_type e) then Z.of_nat (length (boxes_of t e id)) else 1)) else None) =
      if x then Some (mkStored b (row_version (sch_type e) (boxes_of t e id))) else None) by (intros []; [cbn; by rewrite read_current|done]).
    rewrite Hif. by destruct excl, (Data b).
  - apply fmap_None in Ec. by rewrite Ec.
Qed.

(** ** Groups of versions *)

(** One row of each group whose signs do not cancel. *)
Definition uncancelled (Q : entityRow -> bool) (l : list entityRow) : list entityRow :=
  omap head (filter (fun g => 0 < sum_sign g) (groups id_version (filter (fun r => Q r = true) l))).

Lemma group_sum C L Q v :
  on_data Q -> 0 < sum_sign (at_version Q v (part_of C L)) <->
  v ∉ C /\ v = Z.of_nat (length L) /\ exists b, last L = Some b /\ Q (mkRow b storeChain 1 v) = true.
Proof.
  intros HQ. destruct (decide (v ∈ C)) as [Hv|Hv].
  - split; [|tauto]. unfold at_version, part_of. rewrite list_filter_filter, filter_none; [cbn; lia|]. intros x _ [[_ <-] ?]. done.
  - assert (at_version Q v (part_of C L) = at_version Q v (expand L)) as ->.
    { unfold at_version, part_of. rewrite list_filter_filter. apply list_filter_iff. intros x. split; [tauto|]. intros [? <-]. done. }
    rewrite sum_expand by done. destruct (last L) as [b|]; [|split; [lia|naive_solver]].
    pose proof (weight_row Q b 1 v HQ) as Hw. split.
    + destruct (Z.eqb_spec v (Z.of_nat (length L))); [|lia]. intros Hp. split_and!; [done|done|]. exists b. split; [done|].
      destruct (Q _); [done|lia].
    + intros (_ & -> & b' & [= <-] & Hb). rewrite Z.eqb_refl. rewrite Hb in Hw. lia.
Qed.

Lemma version_group e X Q r :
  filter (fun x => id_version x = id_version r) (filter (fun r => Q r = true) (table_of e X)) =
  at_version Q (Version r) (id_rows e (row_id r) X).
Proof.
  unfold at_version, id_rows, table_of. rewrite !list_filter_filter. apply list_filter_iff. intros x. unfold id_version.
  split; intros ?; destruct_and!; simplify_eq/=; split_and!; congruence.
Qed.

Lemma elem_of_uncancelled e X Q r C L :
  on_data Q -> id_rows e (row_id r) X = part_of C L ->
  r ∈ uncancelled Q (table_of e X) <->
  (exists b, last L = Some b /\ r = mkRow b storeChain 1 (Z.of_nat (length L))) /\ Z.of_nat (length L) ∉ C /\ Q r = true.
Proof.
  intros HQ HX. unfold uncancelled. rewrite list_elem_of_omap. split.
  - intros (g & [Hs Hg]%list_elem_of_filter & Hh). destruct (group_head id_version _ _ _ Hg Hh) as [Hr ->].
    rewrite version_group, HX in Hs. apply group_sum in Hs as (HvC & Hv & b & Hb & _); [|done].
    apply list_elem_of_filter in Hr as [HQr [Hch Hr]%list_elem_of_filter].
    assert (Hre : r ∈ part_of C L) by (rewrite <- HX; by apply elem_of_id_rows). apply elem_of_part_of in Hre as [_ Hre].
    destruct (expand_last_unique L r Hre Hv) as (b' & Hb' & Hr'). split_and!; [by exists b'|by rewrite <- Hv|done].
  - intros ((b & Hb & Hr) & HC1 & HQr). assert (Hin : r ∈ id_rows e (row_id r) X).
    { rewrite HX. apply elem_of_part_of. rewrite Hr. split; [done|]. by apply expand_last. }
    apply elem_of_id_rows in Hin as (Hin & Hch & _). set (l := filter (fun r => Q r = true) (table_of e X)).
    assert (Hl : r ∈ l) by (apply list_elem_of_filter; split; [done|]; by apply list_elem_of_filter).
    assert (Hg : filter (fun x => id_version x = id_version r) l ∈ groups id_version l) by (apply elem_of_groups; by exists r).
    exists (filter (fun x => id_version x = id_version r) l). split.
    + apply list_elem_of_filter. split; [|done]. unfold l. rewrite version_group, HX. apply group_sum; [done|]. rewrite Hr at 1 2. cbn [Version].
      split_and!; [done|done|]. exists b. split; [done|]. by rewrite Hr in HQr |- *.
    + destruct (group_nonempty id_version _ _ Hg) as [r' Hh]. rewrite Hh. f_equal. apply head_Some_elem_of in Hh. unfold l in Hh. rewrite version_group, HX in Hh.
      apply list_elem_of_filter in Hh as [[_ Hv] [_ Hre]%elem_of_part_of]. rewrite Hr in Hv. cbn in Hv.
      destruct (expand_last_unique L r' Hre Hv) as (b' & Hb' & ->). congruence.
Qed.

Lemma uncancelled_nodup Q l : NoDup (uncancelled Q l).
Proof.
  unfold uncancelled. apply (NoDup_fmap_1 id_version). change (NoDup (map id_version (omap head (filter (fun g => 0 < sum_sign g)
    (groups id_version (filter (fun r => Q r = true) l)))))). rewrite map_omap.
  eapply sublist_NoDup; [|apply sublist_omap, sublist_filter]. rewrite groups_keys. apply NoDup_remove_dups.
Qed.

(** In a versioned table the rows that are not cancelled are the current ones. *)
Lemma uncancelled_currents t e X Q :
  versioned (sch_type e) = true -> on_data Q ->
  (forall id, exists C, Forall (fun v => v < Z.of_nat (length (boxes_of t e id))) C /\ id_rows e id X = part_of C (boxes_of t e id)) ->
  currents t e Q (uncancelled Q (table_of e X)).
Proof.
  intros Hv HQ HX. split; [apply uncancelled_nodup|]. intros r. destruct (HX (row_id r)) as (C & HC1 & HX1).
  rewrite (elem_of_uncancelled e X Q r C _ HQ HX1). unfold current, current_of. rewrite Hv, fmap_Some.
  split; [tauto|]. intros [Hb HQr]. split_and!; [done| |done]. intros Hin. rewrite Forall_forall in HC1. specialize (HC1 _ Hin). cbn in HC1. lia.
Qed.

Lemma raw_part_of t e : raw_ok t e -> versioned (sch_type e) = true ->
  forall id, exists C, Forall (fun v => v < Z.of_nat (length (boxes_of t e id))) C /\ id_rows e id (rows t) = part_of C (boxes_of t e id).
Proof.
  intros Hr Hv id. exists []. split; [constructor|]. destruct (Hr id) as [_ ->]. unfold rows_of, part_of. rewrite Hv. symmetry. apply filter_all.
  intros x _. apply not_elem_of_nil.
Qed.

(** In a plain table those with the greatest block number are. *)
Lemma latest_currents t e (pk Q : entityRow -> bool) :
  versioned (sch_type e) = false -> raw_ok t e -> (forall r r', row_id r = row_id r' -> pk r = pk r') ->
  currents t e (fun r => pk r && Q r)
    (filter (fun r => Q r = true) (omap arg_max (groups row_id (filter (fun r => pk r = true) (table_of e (rows t)))))).
Proof.
  intros Hv Hraw Hpk. set (l := filter (fun r => pk r = true) (table_of e (rows t))).
  assert (Hg : forall r, r ∈ l -> arg_max (filter (fun x => row_id x = row_id r) l) = current t e (row_id r)).
  { intros r [Hp _]%list_elem_of_filter. destruct (Hraw (row_id r)) as [Ha E]. unfold current. rewrite <- plain_current, <- E by done. f_equal.
    unfold l, id_rows, table_of. rewrite !list_filter_filter. apply list_filter_iff. intros x. split; [tauto|]. intros [Hc Hx]. rewrite (Hpk x r Hx). tauto. }
  split.
  - eapply sublist_NoDup; [|apply sublist_filter]. apply (NoDup_fmap_1 row_id).
    change (NoDup (map row_id (omap arg_max (groups row_id l)))). rewrite map_omap.
    assert (Heq : forall gs, (forall g, g ∈ gs -> g ∈ groups row_id l) -> omap (fun g => row_id <$> arg_max g) gs `sublist_of` omap (fun g => row_id <$> head g) gs).
    { induction gs as [|g gs IH]; intros Hgs; [done|]. cbn. specialize (IH (fun g Hg => Hgs g (proj2 (elem_of_cons _ _ _) (or_intror Hg)))).
      destruct (proj1 (elem_of_groups row_id l g) (Hgs g ltac:(by left))) as (r & Hr & Hgr).
      destruct (group_nonempty row_id l g ltac:(apply Hgs; by left)) as [r' Hh]. rewrite Hh. cbn. rewrite Hgr, (Hg r Hr).
      destruct (current t e (row_id r)) as [c|] eqn:Ec; cbn; [|by constructor].
      apply head_Some_elem_of in Hh. rewrite Hgr in Hh. apply list_elem_of_filter in Hh as [-> _]. rewrite (proj1 (current_some _ _ _ _ Ec)). by constructor. }
    eapply sublist_NoDup; [|apply Heq; tauto]. rewrite groups_keys. apply NoDup_remove_dups.
  - intros r. rewrite list_elem_of_filter, list_elem_of_omap, andb_true_iff. split.
    + intros (HQr & g & (r0 & Hr0 & ->)%elem_of_groups & Hm). rewrite (Hg r0 Hr0) in Hm. destruct (current_some _ _ _ _ Hm) as [Hid _]. rewrite Hid.
      split_and!; [done| |done]. apply list_elem_of_filter in Hr0 as [Hp _]. by rewrite (Hpk r r0).
    + intros (Hc & Hp & HQr). split; [done|]. assert (Hl : r ∈ l) by (apply list_elem_of_filter; split; [done|]; by eapply current_in_table).
      exists (filter (fun x => row_id x = row_id r) l). split; [|by rewrite (Hg r Hl)]. apply elem_of_groups. by exists r.
Qed.

(** ** Conditions *)

(** A filter selects a box. *)
Definition filter_selects (row : string -> Value) (f : EntityFilter) : bool :=
  match buildCondition HugeIDSetSize f with inl c => selected row c | inr _ => false end.

Definition box_columns (b : EntityBox) : string -> Value := columns (sch_type (Entity b)) (plain_row b).

Definition table_match (fs : list EntityFilter) (b : EntityBox) : bool := forallb (filter_selects (box_columns b)) fs.

Lemma selected_filters row fs cs : buildConditions HugeIDSetSize fs = inl cs -> selected_all row cs = forallb (filter_selects row) fs.
Proof.
  revert cs. induction fs as [|f fs IH]; intros cs; cbn [buildConditions]; [by intros [= <-]|].
  destruct (buildCondition HugeIDSetSize f) as [c|] eqn:Ec; [|done]. destruct (buildConditions HugeIDSetSize fs) as [cs'|]; [|done]. intros [= <-].
  cbn [selected_all forallb]. unfold selected_all in *. cbn [forallb]. rewrite (IH cs' eq_refl). unfold filter_selects at 2. by rewrite Ec.
Qed.

(** A condition looks at the column of its field only. *)
Lemma filter_selects_field row row' f : row (FieldName (fField f)) = row' (FieldName (fField f)) -> filter_selects row f = filter_selects row' f.
Proof.
  intros E. unfold filter_selects. destruct (buildCondition HugeIDSetSize f) as [c|] eqn:Ec; [|done]. unfold selected.
  assert (eval_condition row c = eval_condition row' c) as ->; [|done]. revert Ec. unfold buildCondition.
  repeat (case_match || discriminate); intros [= <-]; cbn -[sql_in sql_like]; by rewrite ?E.
Qed.

Lemma forallb_split {A} (P : A -> bool) (D : A -> Prop) `{!forall x, Decision (D x)} l :
  forallb P l = forallb P (filter D l) && forallb P (filter (fun x => ~ D x) l).
Proof.
  induction l as [|x l IH]; [done|]. rewrite !filter_cons. cbn [forallb]. rewrite IH. destruct (decide (D x)).
  - rewrite decide_False by tauto. cbn [forallb]. by rewrite andb_assoc.
  - rewrite decide_True by done. cbn [forallb]. destruct (P x); [done|]. by rewrite andb_false_r.
Qed.

Lemma columns_id et r r' : row_id r = row_id r' -> columns et r EntityPrimaryFieldName = columns et r' EntityPrimaryFieldName.
Proof. unfold columns. by intros ->. Qed.

Lemma columns_data et r r' : row_id r = row_id r' -> Data (rowBox r) = Data (rowBox r') -> columns et r = columns et r'.
Proof. unfold columns. by intros -> ->. Qed.

Lemma satisfies_on_data et cs excl : on_data (fun r => not_excluded excl r && satisfies et cs r).
Proof.
  intros r r' Hid Hd. unfold not_excluded, deleted, satisfies. rewrite Hd. by rewrite (columns_data et r r').
Qed.

Lemma primary_key_selects et fs r r' :
  row_id r = row_id r' -> forallb (filter_selects (columns et r)) (splitFilters fs).1 = forallb (filter_selects (columns et r')) (splitFilters fs).1.
Proof.
  intros Hid. cbn [splitFilters fst]. assert (Hf : Forall (fun f => FieldName (fField f) = EntityPrimaryFieldName) (splitFilters fs).1).
  { apply Forall_forall. by intros f [? _]%list_elem_of_filter. }
  cbn [splitFilters fst] in Hf. induction Hf as [|f l Hf _ IH]; [done|]. cbn [forallb]. rewrite IH. f_equal. apply filter_selects_field. rewrite Hf. by apply columns_id.
Qed.

Lemma box_columns_row e r : Entity (rowBox r) = e -> box_columns (rowBox r) = columns (sch_type e) r.
Proof. intros <-. by apply columns_data. Qed.

(** ** Listing *)

Lemma list_once_rows e fs excl limit t r t' :
  list_once (sch_type e) fs excl limit t = (r, t') -> tolerates t t' /\
  (persisted (sch_type e) -> tables_ok t -> forall l, r = inl l ->
   l = take (Z.to_nat limit) (filter (fun r => table_match fs (rBox r) = true) (table_rows (sch_type e) excl (table_log t)))).
Proof.
  unfold list_once. destruct (IsCache (sch_type e)) eqn:Ec.
  { intros [= <- <-]. split; [apply tolerates_refl|]. intros [_ ?]. congruence. }
  destruct (decide (persisted (sch_type e))) as [Hp|Hnp].
  2:{ intros H. split; [|done]. revert H. cbn [splitFilters]. repeat case_match; intros Hq; try (apply query_spec in Hq as [? _]; done); injection Hq as _ <-; apply tolerates_refl. }
  rewrite (ok_mutable e Hp). destruct (versioned (sch_type e)) eqn:Ev.
  - destruct (buildConditions HugeIDSetSize fs) as [cs|] eqn:Ebc; [|intros [= <- <-]; by split; [apply tolerates_refl|]].
    intros [Ht Hr]%query_spec. split; [done|]. intros _ Hok l ->. destruct Hr as [[= ->]|[? ?]]; [|done].
    destruct (Hok e Hp) as [Hraw _]. pose proof (tolerates_raw t t' e Ht Hraw) as Hraw'. rewrite <- (tolerates_log t t' Ht).
    apply (currents_listed t' e _ excl (fun r => not_excluded excl r && satisfies (sch_type e) cs r) (fun r => table_match fs (rBox r))).
    + done.
    + unfold list_versioned. rewrite ok_name. apply (uncancelled_currents t' e (rows t')); [done|apply satisfies_on_data|by apply raw_part_of].
    + intros x Hx. f_equal. unfold satisfies, table_match. cbn [rBox read_row]. rewrite (box_columns_row e x Hx). by apply selected_filters.
  - destruct (splitFilters fs) as [pkf otf] eqn:Es.
    destruct (buildConditions HugeIDSetSize pkf) as [pk|] eqn:Epk; [|intros [= <- <-]; by split; [apply tolerates_refl|]].
    destruct (buildConditions HugeIDSetSize otf) as [ot|] eqn:Eot; [|intros [= <- <-]; by split; [apply tolerates_refl|]].
    intros [Ht Hr]%query_spec. split; [done|]. intros _ Hok l ->. destruct Hr as [[= ->]|[? ?]]; [|done].
    destruct (Hok e Hp) as [Hraw _]. pose proof (tolerates_raw t t' e Ht Hraw) as Hraw'. rewrite <- (tolerates_log t t' Ht).
    eapply (currents_listed t' e _ excl _ (fun r => table_match fs (rBox r))); [done|unfold list_latest; rewrite ok_name; apply latest_currents; [done|done|]|].
    + intros x y Hxy. unfold satisfies. rewrite !(selected_filters _ pkf pk Epk). pose proof (primary_key_selects (sch_type e) fs x y Hxy) as Hpk. by rewrite Es in Hpk.
    + intros x Hx. cbn [rBox read_row]. unfold satisfies, table_match. rewrite (box_columns_row e x Hx).
      rewrite (selected_filters _ pkf pk Epk), (selected_filters _ otf ot Eot).
      rewrite (forallb_split (filter_selects (columns (sch_type e) x)) (fun f => FieldName (fField f) = EntityPrimaryFieldName) fs).
      injection Es as <- <-. destruct (not_excluded excl x); cbn; [done|]. by rewrite andb_false_r.
Qed.

Lemma list_retry_rows retry e fs excl limit t r t' :
  list_retry retry (sch_type e) fs excl limit t = (r, t') -> tolerates t t' /\
  (persisted (sch_type e) -> tables_ok t -> forall l, r = inl l ->
   l = take (Z.to_nat limit) (filter (fun r => table_match fs (rBox r) = true) (table_rows (sch_type e) excl (table_log t)))).
Proof.
  revert t. induction retry as [|retry IH]; intros t; cbn [list_retry]; destruct (list_once (sch_type e) fs excl limit t) as [[l1|err] t1] eqn:E1;
    apply list_once_rows in E1 as [Ht1 Hl1].
  1,3: intros [= <- <-]; by split.
  1: intros [= <- <-]; by split.
  destruct (Contains (error_text err) "does not exist"); [|intros [= <- <-]; by split].
  intros [Ht2 Hl2]%IH. split; [by eapply tolerates_trans|]. intros Hp Hok l ->. rewrite <- (tolerates_log t t1 Ht1). apply Hl2; [done| |done].
  by eapply tolerates_tables.
Qed.
End Spec.

Section Spec.
Context `{HD : Decimal} `{HC : !Conversions} `{HS : !Store} `{HOk : !StoreOk}.

Abbreviation boxes_of t e id := (of_entity e id (table_log t)).

(** ** Buckets *)

Section Buckets.
Context {A : Type} (once : Extra -> Tables -> (A + EntityError) * Tables) (zero : A) (join : A -> A -> A).
Context (I : Tables -> Prop) (covers : Extra -> A -> Prop).
Context (Honce : forall extra t r t', I t -> once extra t = (r, t') -> I t' /\ forall a, r = inl a -> covers extra a).
Context (Hzero : covers (fun _ => false) zero).
Context (Hjoin : forall x y a b, covers x a -> covers y b -> (forall id, x id = true -> y id = false) -> covers (fun id => x id || y id) (join a b)).
Context (Hext : forall x y a, (forall id, x id = y id) -> covers x a -> covers y a).

Definition in_buckets (buckets : Z) (bis : list Z) : Extra := fun id => existsb (Z.eqb (cityHash64 id mod buckets)) bis.

Lemma each_bucket_covers buckets bis x acc t r t' :
  I t -> NoDup bis -> covers x acc -> (forall id, x id = true -> in_buckets buckets bis id = false) ->
  each_bucket once join buckets bis acc t = (r, t') ->
  I t' /\ forall a, r = inl a -> covers (fun id => x id || in_buckets buckets bis id) a.
Proof.
  revert x acc t. induction bis as [|bi bis IH]; intros x acc t HI Hnd Hx Hdis; cbn [each_bucket].
  { intros [= <- <-]. split; [done|]. intros a [= <-]. eapply Hext; [|exact Hx]. intros id. by rewrite orb_false_r. }
  apply NoDup_cons in Hnd as [Hni Hnd]. destruct (once (in_bucket buckets bi) t) as [[a|err] t1] eqn:E1; destruct (Honce _ _ _ _ HI E1) as [HI1 Hc1].
  2:{ intros [= <- <-]. by split. }
  intros H2. assert (Hdis1 : forall id, x id = true -> in_bucket buckets bi id = false /\ in_buckets buckets bis id = false).
  { intros id Hid. specialize (Hdis id Hid). unfold in_buckets in *. cbn in Hdis. by apply orb_false_iff in Hdis. }
  apply (IH (fun id => x id || in_bucket buckets bi id)) in H2 as [HI2 Hc2]; [|done|done|..].
  - split; [done|]. intros a' Ha'. eapply Hext; [|apply (Hc2 a' Ha')]. intros id. unfold in_buckets, in_bucket. cbn. by rewrite orb_assoc.
  - apply Hjoin; [done|by apply Hc1|]. intros id Hid. by apply Hdis1.
  - intros id [Hid|Hid]%orb_true_iff; [by apply Hdis1|]. unfold in_bucket in Hid. apply Z.eqb_eq in Hid. unfold in_buckets.
    apply not_true_iff_false. rewrite existsb_exists. intros (y & Hy%list_elem_of_In & E%Z.eqb_eq). subst y. by rewrite Hid in Hy.
Qed.

Lemma all_buckets_covers buckets t r t' :
  0 < buckets -> I t -> each_bucket once join buckets (seqZ 0 buckets) zero t = (r, t') ->
  I t' /\ forall a, r = inl a -> covers (fun _ => true) a.
Proof.
  intros Hb HI He. apply (each_bucket_covers _ _ (fun _ => false)) in He as [HI' Hc]; [|done|apply NoDup_seqZ|done|done].
  split; [done|]. intros a Ha. eapply Hext; [|by apply Hc]. intros id. cbn. unfold in_buckets. apply existsb_exists.
  exists (cityHash64 id mod buckets). split; [|apply Z.eqb_refl]. apply list_elem_of_In, elem_of_seqZ. pose proof (Z.mod_pos_bound (cityHash64 id) buckets Hb). lia.
Qed.

Lemma try_buckets_covers sizes err t r t' :
  Forall (Z.lt 0) sizes -> I t -> try_buckets once zero join sizes err t = (r, t') -> I t' /\ forall a, r = inl a -> covers (fun _ => true) a.
Proof.
  intros Hs. revert err t. induction Hs as [|size sizes Hsz _ IH]; intros err t HI; cbn [try_buckets].
  { intros [= <- <-]. by split. }
  destruct (each_bucket once join size (seqZ 0 size) zero t) as [[a|err1] t1] eqn:E1; destruct (all_buckets_covers _ _ _ _ Hsz HI E1) as [HI1 Hc1].
  - intros [= <- <-]. split; [done|]. intros a' [= <-]. by apply Hc1.
  - destruct (isQueryMemoryLimitExceededError err1); [|intros [= <- <-]; by split]. by apply IH.
Qed.

Lemma bucketed_covers t r t' : I t -> bucketed once zero join t = (r, t') -> I t' /\ forall a, r = inl a -> covers (fun _ => true) a.
Proof.
  intros HI. unfold bucketed. destruct (once (fun _ => true) t) as [[a|err1] t1] eqn:E1; destruct (Honce _ _ _ _ HI E1) as [HI1 Hc1].
  - intros [= <- <-]. split; [done|]. intros a' [= <-]. by apply Hc1.
  - destruct (isQueryMemoryLimitExceededError err1); [|intros [= <- <-]; by split]. apply try_buckets_covers; [|done]. repeat constructor; lia.
Qed.
End Buckets.

(** ** Ids *)

(** The id has a row, or one that is not deleted. *)
Definition has_row (t : Tables) (e : string) (excl : bool) (id : string) : Prop := is_Some (stored_row (sch_type e) excl (table_log t) id).

Lemma has_row_boxes t e excl id : has_row t e excl id -> exists b, last (boxes_of t e id) = Some b /\ (excl = true -> is_Some (Data b)).
Proof.
  unfold has_row, stored_row. rewrite ok_name. destruct (last (boxes_of t e id)) as [b|]; [|by intros [? ?]]. intros [r Hr]. exists b. split; [done|].
  intros ->. cbn in Hr. unfold live in Hr. by destruct (Data b).
Qed.

Lemma elem_of_view t e id b : raw_ok t e -> b ∈ boxes_of t e id -> exists r, r ∈ entity_view (sch_type e) t /\ rowBox r = b.
Proof.
  intros Hr Hb. destruct (Hr id) as [_ E]. pose proof (rows_positive (sch_type e) (boxes_of t e id)) as Hpos.
  assert (Hb' := Hb). rewrite <- Hpos in Hb'. apply list_elem_of_fmap in Hb' as (r & -> & [Hs Hin]%list_elem_of_filter). exists r. split; [|done].
  rewrite <- E in Hin. apply elem_of_id_rows in Hin as (Hin & Hch & _). unfold entity_view. rewrite ok_name.
  assert (Ht : r ∈ table_of e (rows t)) by (by apply list_elem_of_filter). destruct (versioned (sch_type e)); [|done]. by apply list_elem_of_filter.
Qed.

Lemma view_ids t e excl extra id : raw_ok t e -> has_row t e excl id -> extra id = true -> id ∈ distinct_ids (with_extra extra (entity_view (sch_type e) t)).
Proof.
  intros Hr (b & Hb & _)%has_row_boxes He. apply last_Some_elem_of in Hb. destruct (elem_of_view t e id b Hr Hb) as (r & Hin & <-).
  apply boxes_of_elem in Hb as [_ Hid]. unfold distinct_ids. rewrite elem_of_remove_dups, list_elem_of_fmap. exists r. split; [done|].
  apply list_elem_of_filter. unfold row_id. by rewrite Hid.
Qed.

(** The ids that are not deleted, in both layouts. *)
Lemma live_ids_elem t e extra id :
  raw_ok t e -> latest_ok t e -> has_row t e true id -> extra id = true -> id ∈ live_ids (sch_type e) extra t.
Proof.
  intros Hraw Hlat (b & Hb & Hd)%has_row_boxes Hex. specialize (Hd eq_refl). destruct (Hraw id) as [Ha Eraw].
  pose proof (boxes_of_elem t e id b (last_Some_elem_of _ _ Hb)) as [_ Hid]. unfold live_ids. rewrite ok_name. destruct (versioned (sch_type e)) eqn:Ev.
  - set (Q := fun r : entityRow => negb (deleted r) && extra (row_id r)). destruct (Hlat Ev id) as (C & HC1 & Elat).
    set (r := mkRow b storeChain 1 (Z.of_nat (length (boxes_of t e id)))).
    assert (Hr : r ∈ uncancelled Q (table_of e (latestRows t))).
    { apply (elem_of_uncancelled e _ Q r C (boxes_of t e id)).
      - intros x y Hxy Hdxy. unfold Q, deleted. by rewrite Hxy, Hdxy.
      - unfold row_id, r. cbn. by rewrite Hid.
      - split_and!; [by exists b| |].
        + intros Hin. rewrite Forall_forall in HC1. specialize (HC1 _ Hin). cbn in HC1. lia.
        + unfold Q, r, deleted, row_id. cbn. rewrite Hid, Hex. by destruct Hd as [? ->]. }
    assert (Hrw : filter (fun r => deleted r = false) (with_extra extra (table_of e (latestRows t))) = filter (fun r => Q r = true) (table_of e (latestRows t))).
    { unfold with_extra. rewrite list_filter_filter. apply list_filter_iff. intros x. unfold Q. rewrite andb_true_iff, negb_true_iff. done. }
    rewrite Hrw. unfold uncancelled in Hr. apply list_elem_of_omap in Hr as (g & Hg & Hh). apply list_elem_of_omap. exists g. split; [done|].
    rewrite Hh. cbn. unfold row_id, r. cbn. by rewrite Hid.
  - apply list_elem_of_omap. set (l := with_extra extra (table_of e (rows t))). set (r := plain_row b).
    assert (Hcur : current t e id = Some r) by (unfold current, current_of; rewrite Hb, Ev; done).
    assert (Hrid : row_id r = id) by done.
    assert (Hl : r ∈ l) by (apply list_elem_of_filter; rewrite Hrid; split; [done|]; by eapply current_in_table).
    exists (filter (fun x => row_id x = id) l). split; [apply elem_of_groups; exists r; by rewrite Hrid|].
    assert (arg_max (filter (fun x => row_id x = id) l) = Some r) as ->.
    { rewrite <- Hcur. unfold current. rewrite <- plain_current, <- Eraw by done. f_equal. unfold l, with_extra, id_rows, table_of.
      rewrite !list_filter_filter. apply list_filter_iff. intros x. split; [tauto|]. intros [Hc <-]. tauto. }
    unfold deleted. cbn. destruct Hd as [? ->]. by rewrite Hrid.
Qed.

(** Without a deleted row nothing has been deleted. *)
Lemma no_deletions t t' e extra id b :
  tolerates t t' -> raw_ok t e -> existsb deleted (with_extra extra (entity_view (sch_type e) t)) = false -> extra id = true ->
  last (boxes_of t' e id) = Some b -> is_Some (Data b).
Proof.
  intros Ht Hr Hno He Hb. rewrite (tolerates_log t t' Ht) in Hb. apply last_Some_elem_of in Hb.
  destruct (elem_of_view t e id b Hr Hb) as (r & Hin & <-). destruct (Data (rowBox r)) eqn:E; [done|]. exfalso. apply not_true_iff_false in Hno. apply Hno.
  apply existsb_exists. exists r. split; [|unfold deleted; by rewrite E]. apply list_elem_of_In, list_elem_of_filter.
  split; [|done]. unfold row_id. by rewrite (proj2 (boxes_of_elem _ _ _ _ Hb)).
Qed.

(** ** Collecting the ids *)

Definition same_log (log : list EntityBox) (t : Tables) : Prop := table_log t = log /\ tables_ok t.

Lemma same_log_tolerates log t t' : tolerates t t' -> same_log log t -> same_log log t'.
Proof. intros Ht [<- Hok]. split; [by apply tolerates_log|by eapply tolerates_tables]. Qed.

Lemma ids_once_rows e extra t r t' :
  ids_once (sch_type e) extra t = (r, t') -> tolerates t t' /\
  (persisted (sch_type e) -> tables_ok t -> forall ids, r = inl ids -> forall id, has_row t e true id -> extra id = true -> id ∈ ids).
Proof.
  unfold ids_once. destruct (IsImmutable (sch_type e)) eqn:Ei.
  { intros [Ht _]%query_spec. split; [done|]. intros Hp. by rewrite (ok_mutable e Hp) in Ei. }
  unfold has_deletions. destruct (query _ t) as [[del|err] t1] eqn:E1; apply query_spec in E1 as [Ht1 Hdel]; [|intros [= <- <-]; by split].
  intros [Ht2 Hids]%query_spec. split; [by eapply tolerates_trans|]. intros Hp Hok ids -> id Hid He. destruct Hids as [[= ->]|[? ?]]; [|done].
  pose proof (tolerates_trans _ _ _ Ht1 Ht2) as Ht. destruct (tolerates_tables _ _ Ht Hok e Hp) as [Hraw Hlat].
  assert (Hid' : has_row t' e true id) by (unfold has_row; by rewrite (tolerates_log _ _ Ht)).
  destruct del; apply elem_of_list_to_set; [by apply live_ids_elem|by eapply view_ids].
Qed.

Lemma getAllID_rows e t r t' :
  store_getAllID (sch_type e) t = (r, t') -> table_log t' = table_log t /\ (tables_ok t -> tables_ok t') /\
  (persisted (sch_type e) -> tables_ok t -> forall ids, r = inl ids -> forall id, has_row t e true id -> id ∈ ids).
Proof.
  intros Hg. assert (Htol : tolerates t t').
  { apply (bucketed_covers _ _ _ (tolerates t) (fun _ _ => True)) in Hg; [apply Hg|..]; try done.
    intros extra t1 r1 t2 Ht1 [Ht2 _]%ids_once_rows. split; [by eapply tolerates_trans|done]. }
  split; [by apply tolerates_log|]. split; [by apply tolerates_tables|]. intros Hp Hok.
  apply (bucketed_covers _ _ _ (same_log (table_log t)) (fun extra ids => forall id, has_row t e true id -> extra id = true -> id ∈ ids)) in Hg.
  - intros ids Hids id Hid. by apply (proj2 Hg ids Hids).
  - intros extra t1 r1 t2 [Hl1 Hok1] [Ht2 Hids]%ids_once_rows. split; [by eapply same_log_tolerates|]. intros ids Eids id Hid.
    apply Hids; [done|done|done|]. unfold has_row. by rewrite Hl1.
  - done.
  - intros x y a b Ha Hb _ id Hid [Hx|Hy]%orb_true_iff; apply elem_of_union; [left; by apply Ha|right; by apply Hb].
  - intros x y a Hxy Ha id. rewrite <- Hxy. apply Ha.
  - by split.
Qed.

(** ** Counting *)

(** The ids that have a row, in order. *)
Definition row_ids (t : Tables) (e : string) (excl : bool) : list string := map (fun r => ID (rBox r)) (table_rows (sch_type e) excl (table_log t)).

Lemma elem_of_row_ids t e excl id : id ∈ row_ids t e excl <-> has_row t e excl id.
Proof.
  unfold row_ids, table_rows. rewrite list_elem_of_fmap. setoid_rewrite list_elem_of_omap. split.
  - intros (r & -> & id' & _ & Hr). unfold has_row. by rewrite (stored_row_id _ _ _ _ _ Hr).
  - intros [r Hr]. exists r. split; [symmetry; by eapply stored_row_id|]. exists id. split; [|done]. rewrite ok_name. apply elem_of_sorted_ids.
    destruct (has_row_boxes t e excl id) as (b & Hb & _); [by exists r|]. intros E. by rewrite E in Hb.
Qed.

Lemma row_ids_nodup t e excl : NoDup (row_ids t e excl).
Proof. apply table_rows_nodup. Qed.

Definition counts (ids : list string) (extra : Extra) (n : Z) : Prop := Z.of_nat (length (filter (fun id => extra id = true) ids)) <= n.

Lemma counts_list ids extra l : NoDup ids -> (forall id, id ∈ ids -> extra id = true -> id ∈ l) -> counts ids extra (Z.of_nat (length l)).
Proof.
  intros Hnd Hin. unfold counts. apply inj_le, submseteq_length, NoDup_submseteq; [by apply NoDup_filter|].
  intros id [Hx Hid]%list_elem_of_filter. by apply Hin.
Qed.

Lemma counts_join ids x y a b :
  counts ids x a -> counts ids y b -> (forall id, x id = true -> y id = false) -> counts ids (fun id => x id || y id) (a + b).
Proof.
  unfold counts. intros Ha Hb Hdis. enough (length (filter (fun id => x id || y id = true) ids) =
    length (filter (fun id => x id = true) ids) + length (filter (fun id => y id = true) ids))%nat by lia. clear Ha Hb.
  induction ids as [|id ids IH]; [done|]. rewrite !filter_cons. specialize (Hdis id). destruct (x id) eqn:Ex; cbn [orb].
  - rewrite (Hdis eq_refl). rewrite !decide_True, decide_False by done. cbn. lia.
  - rewrite (decide_False (P := false = true)) by done. destruct (y id); [rewrite !decide_True by done|rewrite !decide_False by done]; cbn; lia.
Qed.

Lemma count_once_rows e excl extra t r t' :
  count_once (sch_type e) excl extra t = (r, t') -> tolerates t t' /\
  (persisted (sch_type e) -> tables_ok t -> forall n, r = inl n -> counts (row_ids t e excl) extra n).
Proof.
  unfold count_once. destruct (IsImmutable (sch_type e)) eqn:Ei.
  { intros [Ht _]%query_spec. split; [done|]. intros Hp. by rewrite (ok_mutable e Hp) in Ei. }
  assert (Hfirst : exists del t1, tolerates t t1 /\ (if excl then has_deletions (sch_type e) extra t else (inl false, t)) = (del, t1) /\
    (excl = false -> del = inl false)).
  { destruct excl; [|exists (inl false), t; split; [apply tolerates_refl|done]]. destruct (has_deletions (sch_type e) extra t) as [del t1] eqn:E1.
    exists del, t1. apply query_spec in E1 as [? _]. by split. }
  destruct Hfirst as (del & t1 & Ht1 & -> & Hdel). destruct del as [del|err]; [|intros [= <- <-]; by split].
  intros [Ht2 Hn]%query_spec. pose proof (tolerates_trans _ _ _ Ht1 Ht2) as Ht. split; [done|]. intros Hp Hok n ->. destruct Hn as [[= ->]|[? ?]]; [|done].
  destruct (tolerates_tables _ _ Ht Hok e Hp) as [Hraw Hlat].
  assert (Hrow : forall id, id ∈ row_ids t e excl -> has_row t' e excl id).
  { intros id. rewrite elem_of_row_ids. unfold has_row. by rewrite (tolerates_log _ _ Ht). }
  destruct del.
  - destruct excl; [|by specialize (Hdel eq_refl)]. apply counts_list; [apply row_ids_nodup|]. intros id Hid%Hrow Hx. by apply live_ids_elem.
  - apply counts_list; [apply row_ids_nodup|]. intros id Hid%Hrow Hx. by eapply view_ids.
Qed.

Lemma countEntity_rows e excl t r t' :
  store_countEntity (sch_type e) excl t = (r, t') -> table_log t' = table_log t /\ (tables_ok t -> tables_ok t') /\
  (persisted (sch_type e) -> tables_ok t -> forall n, r = inl n -> Z.of_nat (length (table_rows (sch_type e) excl (table_log t))) <= n).
Proof.
  intros Hg. assert (Htol : tolerates t t').
  { apply (bucketed_covers _ _ _ (tolerates t) (fun _ _ => True)) in Hg; [apply Hg|..]; try done.
    intros extra t1 r1 t2 Ht1 [Ht2 _]%count_once_rows. split; [by eapply tolerates_trans|done]. }
  split; [by apply tolerates_log|]. split; [by apply tolerates_tables|]. intros Hp Hok.
  apply (bucketed_covers _ _ _ (same_log (table_log t)) (counts (row_ids t e excl))) in Hg.
  - intros n Hn. pose proof (proj2 Hg n Hn) as Hc. unfold counts in Hc. rewrite filter_all in Hc by done. unfold row_ids in Hc. by rewrite length_map in Hc.
  - intros extra t1 r1 t2 [Hl1 Hok1] [Ht2 Hids]%count_once_rows. split; [by eapply same_log_tolerates|]. intros n En.
    unfold row_ids. rewrite <- Hl1. by apply Hids.
  - unfold counts. rewrite filter_none by done. done.
  - intros x y a b. apply counts_join.
  - intros x y a Hxy. unfold counts. by rewrite (list_filter_iff _ (fun id => y id = true) (row_ids t e excl)) by (intros; by rewrite Hxy).
  - by split.
Qed.

(** The greatest number of a time series. *)
Lemma foldr_max_le (z : Z) (l : list Z) x : x ∈ z :: l -> x <= foldr Z.max z l.
Proof.
  intros [->|Hx]%elem_of_cons; [induction l as [|y l IH]; cbn; lia|]. induction l as [|y l IH]; [by apply not_elem_of_nil in Hx|].
  cbn. apply elem_of_cons in Hx as [->|Hx]; [lia|]. specialize (IH Hx). lia.
Qed.

Lemma foldr_max_bound (z : Z) (l : list Z) lo hi : lo <= z < hi -> Forall (fun x => lo <= x < hi) l -> lo <= foldr Z.max z l < hi.
Proof. intros Hz Hl. induction Hl as [|y l Hy _ IH]; cbn; lia. Qed.

Lemma signed_digits_bound neg l : - 2 ^ 63 <= signed_digits neg l < 2 ^ 63.
Proof. unfold signed_digits. repeat case_match; lia. Qed.

Lemma ParseInt_bound s : - 2 ^ 63 <= ParseInt s < 2 ^ 63.
Proof. unfold ParseInt. destruct (list_ascii_of_string s) as [|c t]; [lia|]. repeat case_match; apply signed_digits_bound. Qed.

Lemma getMaxID_rows e t r t' :
  store_getMaxID (sch_type e) t = (r, t') -> tolerates t t' /\
  (forall m, r = inl m -> - 2 ^ 63 <= m < 2 ^ 63 /\ Forall (fun b => Entity b = e -> ParseInt (ID b) <= m) (table_log t)).
Proof.
  unfold store_getMaxID. destruct (IsTimeSeries (sch_type e)) eqn:Ets; cbn [negb]; [|intros [= <- <-]; by split; [apply tolerates_refl|]].
  intros [Ht Hm]%query_spec. split; [done|]. intros m ->. destruct Hm as [[= ->]|[? ?]]; [|done].
  assert (Hin : forall b, b ∈ table_log t -> Entity b = e -> ParseInt (ID b) ∈ map (fun r => ParseInt (row_id r)) (entity_view (sch_type e) t')).
  { intros b (r & -> & [(Hch & _ & _) Hr]%list_elem_of_filter)%list_elem_of_fmap He. apply list_elem_of_fmap. exists r. split; [done|].
    unfold entity_view, versioned, IsImmutable. rewrite Ets, andb_false_r, ok_name, (tl_rows _ _ Ht). by apply list_elem_of_filter. }
  assert (Hb : Forall (fun x => - 2 ^ 63 <= x < 2 ^ 63) (map (fun r => ParseInt (row_id r)) (entity_view (sch_type e) t'))).
  { apply Forall_map, Forall_true. intros. apply ParseInt_bound. }
  destruct (map (fun r => ParseInt (row_id r)) (entity_view (sch_type e) t')) as [|x l].
  - split; [lia|]. apply Forall_forall. intros b Hb' He. specialize (Hin b Hb' He). by apply not_elem_of_nil in Hin.
  - apply Forall_cons in Hb as [Hx Hl]. split; [by apply foldr_max_bound|]. apply Forall_forall. intros b Hb' He. by apply foldr_max_le, Hin.
Qed.
End Spec.
