(* ===== verification/TableWrite.v ===== *)
(** * Writing the entity tables

    [setEntities] appends the boxes, in batches: the rows of a batch are those that the
    changes of each id call for, the values before from the cache or the table. *)
From Stdlib Require Import ZArith Lia Ascii String.
From stdpp Require Import base numbers option strings pretty sorting gmap list.
From S2P Require Import Prelude BlockCache RangeText EntityValue EntityHistory EntityMerge EntityTyping EntityCtrl EntityRich EntityFilter EntitySql ChainStore EntitySpec ChainStoreSpec EntityTable TableRows TableSpec TableRead.
#[local] Open Scope Z_scope.

(** ** The histories *)

Section Histories.
Context `{HD : Decimal} `{HC : !Conversions} `{HS : !Store}.

Lemma with_id_app id l1 l2 : with_id id (l1 ++ l2) = with_id id l1 ++ with_id id l2.
Proof. apply filter_app. Qed.

Lemma with_id_one id b : with_id id [b] = if bool_decide (ID b = id) then [b] else [].
Proof. unfold with_id. rewrite filter_cons, filter_nil. by case_decide; case_bool_decide. Qed.

Lemma with_id_cons id b l : with_id id (b :: l) = with_id id [b] ++ with_id id l.
Proof. apply (with_id_app id [b] l). Qed.

Lemma collected_boxes entities id :
  foldl (fun (m : gmap string (list EntityBox)) b => <[ID b := default [] (m !! ID b) ++ [b]]> m) ∅ entities !! id =
  match with_id id entities with [] => None | l => Some l end.
Proof.
  induction entities as [|b entities IH] using rev_ind; [done|]. rewrite foldl_snoc, with_id_app, with_id_one. case_bool_decide as Hid.
  - rewrite Hid, lookup_insert_eq, IH. by destruct (with_id id entities).
  - by rewrite lookup_insert_ne, app_nil_r.
Qed.

Lemma values_with_id (m : gmap string (list EntityBox)) id :
  (forall k l, m !! k = Some l -> Forall (fun b => ID b = k) l) ->
  with_id id (concat (map snd (map_to_list m))) = default [] (m !! id).
Proof.
  intros Hm. assert (Hl : forall k l, (k, l) ∈ map_to_list m -> Forall (fun b => ID b = k) l) by (intros k l ?%elem_of_map_to_list; by apply Hm).
  rewrite <- (list_to_map_to_list m) at 2. revert Hl. generalize (NoDup_fst_map_to_list m). generalize (map_to_list m). clear.
  induction l as [|[k l] ls IH]; intros Hnd Hl; [done|]. apply NoDup_cons in Hnd as [Hni Hnd]. cbn [map concat snd list_to_map foldr].
  rewrite with_id_app, IH; [|done|intros k' l' H'; apply Hl; by right]. specialize (Hl k l ltac:(by left)). cbn [uncurry fst snd].
  destruct (decide (k = id)) as [->|Hne].
  - rewrite lookup_insert_eq. rewrite (not_elem_of_list_to_map_1 (M := gmap string)) by done. unfold with_id. rewrite filter_all by (by apply Forall_forall).
    apply app_nil_r.
  - rewrite lookup_insert_ne by done. unfold with_id at 1. rewrite filter_none; [done|]. intros b Hb. rewrite Forall_forall in Hl. by rewrite (Hl b Hb).
Qed.

Lemma ascending_sort l : ascending l -> merge_sort by_gen l = l.
Proof.
  intros Ha. assert (Hs : StronglySorted by_gen l).
  { induction l as [|b l IH]; [constructor|]. apply ascending_cons in Ha as [Ha Hf]. constructor; [by apply IH|].
    eapply Forall_impl; [exact Hf|]. unfold by_gen. cbn. lia. }
  pose proof by_gen_total. assert (Transitive by_gen) by (intros ? ? ?; unfold by_gen; lia). apply (StronglySorted_unique_strong by_gen).
  - intros x y Hx Hy H1 H2. rewrite merge_sort_Permutation in Hx. unfold by_gen in *. assert (E : GenBlockNumber x = GenBlockNumber y) by lia.
    clear -Ha Hx Hy E. induction l as [|b l IH]; [by apply not_elem_of_nil in Hx|]. apply ascending_cons in Ha as [Ha Hf]. rewrite Forall_forall in Hf.
    apply elem_of_cons in Hx as [->|Hx], Hy as [->|Hy]; [done| | |by apply IH]; [specialize (Hf y Hy)|specialize (Hf x Hx)]; cbn in Hf; lia.
  - by apply StronglySorted_merge_sort.
  - done.
  - apply merge_sort_Permutation.
Qed.

Definition flush_order (entities : list EntityBox) : list EntityBox := concat (map snd (map_to_list (histories entities))).

Lemma histories_lookup entities k l : histories entities !! k = Some l -> l = merge_sort by_gen (with_id k entities).
Proof.
  unfold histories. rewrite lookup_fmap, collected_boxes. destruct (with_id k entities); [done|]. by intros [= <-].
Qed.

Lemma flush_order_with_id entities id : with_id id (flush_order entities) = merge_sort by_gen (with_id id entities).
Proof.
  unfold flush_order. rewrite values_with_id.
  - unfold histories. rewrite lookup_fmap, collected_boxes. by destruct (with_id id entities).
  - intros k l ->%histories_lookup. rewrite merge_sort_Permutation. apply Forall_forall. by intros b [? _]%list_elem_of_filter.
Qed.

Lemma elem_of_flush_order entities b : b ∈ flush_order entities -> b ∈ entities.
Proof.
  intros Hb. assert (Hw : b ∈ with_id (ID b) (flush_order entities)) by (by apply list_elem_of_filter).
  rewrite flush_order_with_id, merge_sort_Permutation in Hw. by apply list_elem_of_filter in Hw as [_ ?].
Qed.
End Histories.

Section Spec.
Context `{HD : Decimal} `{HC : !Conversions} `{HS : !Store} `{HOk : !StoreOk}.

Abbreviation boxes_of t e id := (of_entity e id (table_log t)).

(** ** The rows of a batch *)

Lemma batch_rows_positive et e queue pre l pre' :
  e ∈ sch_entities -> Forall (fun b => Entity b = e) queue -> batch_rows et queue pre = (l, pre') -> map rowBox (filter known l) = queue.
Proof.
  intros He Hq. assert (Hcur : forall b v rest, Entity b = e -> filter known (mkRow b storeChain 1 v :: rest) = mkRow b storeChain 1 v :: filter known rest).
  { intros b v rest Hb. rewrite filter_cons, decide_True; [done|]. unfold known. cbn. by rewrite Hb. }
  revert pre l pre'. induction Hq as [|b queue Hb _ IH]; intros pre l pre'; cbn [batch_rows]; [by intros [= <- <-]|]. destruct (versioned et).
  - destruct (batch_rows et queue _) as [rest pre1] eqn:Er. intros [= <- <-]. rewrite filter_app, map_app, Hcur by done. cbn [map rowBox].
    rewrite (IH _ _ _ Er). destruct (pre !! ID b) as [p|]; [|done]. rewrite filter_cons, decide_False; [done|]. unfold known. cbn. lia.
  - destruct (batch_rows et queue pre) as [rest pre1] eqn:Er. intros [= <- <-]. rewrite Hcur by done. cbn [map rowBox]. by rewrite (IH _ _ _ Er).
Qed.

Lemma batch_rows_plain et queue pre : versioned et = false -> (batch_rows et queue pre).1 = map plain_row queue.
Proof. intros Hv. induction queue as [|b queue IH]; [done|]. cbn [batch_rows]. rewrite Hv. destruct (batch_rows et queue pre). cbn in *. by rewrite IH. Qed.

Lemma batch_pre_plain et queue pre : versioned et = false -> (batch_rows et queue pre).2 = pre.
Proof. intros Hv. induction queue as [|b queue IH]; [done|]. cbn [batch_rows]. rewrite Hv. by destruct (batch_rows et queue pre). Qed.

Lemma id_rows_plain e id queue : Forall (fun b => Entity b = e) queue -> id_rows e id (map plain_row queue) = map plain_row (with_id id queue).
Proof.
  induction 1 as [|b queue Hb _ IH]; [done|]. cbn [map]. unfold id_rows, with_id in *. rewrite !filter_cons, IH.
  destruct (decide (ID b = id)); [by rewrite decide_True|]. rewrite decide_False by (by intros [_ ?]). done.
Qed.

(** What a batch adds to the rows of an id. *)
Lemma batch_rows_versioned et e queue pre (L : string -> list EntityBox) l pre' :
  versioned et = true -> Forall (fun b => Entity b = e) queue ->
  (forall id b, last (L id) = Some b -> Entity b = e /\ ID b = id) ->
  (forall b, b ∈ queue -> pre !! ID b = current_of et (L (ID b))) -> batch_rows et queue pre = (l, pre') ->
  Forall (in_chain e) l /\
  (forall id, id_rows e id l = expand_from (Z.of_nat (length (L id))) (last (L id)) (with_id id queue)) /\
  (forall id, pre !! id = current_of et (L id) -> pre' !! id = current_of et (L id ++ with_id id queue)) /\
  (forall id, with_id id queue = [] -> pre' !! id = pre !! id).
Proof.
  intros Hv Hq. revert pre L l pre'. induction Hq as [|b queue Hb _ IH]; intros pre L l pre' HL Hpre; cbn [batch_rows].
  { intros [= <- <-]. split_and!; [constructor|done| |done]. intros id. cbn. by rewrite app_nil_r. }
  rewrite Hv. set (undo := match pre !! ID b with Some p => [mkRow (restamp (rowBox p) b) (GenBlockChain p) (-1) (Version p)] | None => [] end). set (cur := mkRow b storeChain 1 _).
  destruct (batch_rows et queue (<[ID b := cur]> pre)) as [rest pre1] eqn:Er. intros [= <- <-].
  pose proof (Hpre b ltac:(by left)) as Hp. unfold current_of in Hp. rewrite Hv in Hp.
  assert (Hcur : cur = mkRow b storeChain 1 (Z.of_nat (length (L (ID b))) + 1)).
  { unfold cur. rewrite Hp. destruct (last (L (ID b))) eqn:El; [done|]. by apply last_None in El as ->. }
  assert (Hundo : undo = match last (L (ID b)) with Some p => [mkRow (restamp p b) storeChain (-1) (Z.of_nat (length (L (ID b))))] | None => [] end).
  { unfold undo. rewrite Hp. by destruct (last (L (ID b))). }
  set (L' := fun id => L id ++ with_id id [b]).
  assert (HL' : L' (ID b) = L (ID b) ++ [b]) by (unfold L'; by rewrite with_id_one, bool_decide_eq_true_2).
  assert (HLo : forall id, id <> ID b -> L' id = L id) by (intros id Hne; unfold L'; rewrite with_id_one, bool_decide_eq_false_2, app_nil_r by done; done).
  assert (Hcu : current_of et (L' (ID b)) = Some cur).
  { rewrite HL', Hcur. unfold current_of. rewrite last_snoc, Hv, length_app. cbn. do 2 f_equal. lia. }
  assert (HL1 : forall id x, last (L' id) = Some x -> Entity x = e /\ ID x = id).
  { intros id x. destruct (decide (id = ID b)) as [->|Hne]; [rewrite HL', last_snoc; by intros [= <-]|rewrite HLo by done; apply HL]. }
  assert (Hpre1 : forall x, x ∈ queue -> <[ID b := cur]> pre !! ID x = current_of et (L' (ID x))).
  { intros x Hx. destruct (decide (ID x = ID b)) as [E|Hne]; [by rewrite E, lookup_insert_eq, Hcu|].
    rewrite lookup_insert_ne, HLo by done. apply Hpre. by right. }
  destruct (IH _ L' _ _ HL1 Hpre1 Er) as (I1 & I2 & I3 & I4).
  assert (Hch : Forall (in_chain e) (undo ++ [cur])).
  { rewrite Hundo, Hcur. apply Forall_app. split; [|by repeat constructor]. destruct (last (L (ID b))) as [p|] eqn:El; [|constructor].
    destruct (HL _ _ El) as [Hpe _]. by repeat constructor. }
  assert (Hids : forall id, id_rows e id (undo ++ [cur]) = if bool_decide (ID b = id) then undo ++ [cur] else []).
  { intros id. unfold id_rows. case_bool_decide as Hid.
    - apply filter_all. intros r Hr. split; [by eapply Forall_forall in Hch|]. rewrite <- Hid. rewrite Hundo, Hcur in Hr. apply elem_of_app in Hr as [Hr|Hr].
      + destruct (last (L (ID b))) as [p|] eqn:El; [|by apply not_elem_of_nil in Hr]. apply list_elem_of_singleton in Hr as ->. apply (HL _ _ El).
      + by apply list_elem_of_singleton in Hr as ->.
    - apply filter_none. intros r Hr [_ Hrid]. apply Hid. rewrite <- Hrid. rewrite Hundo, Hcur in Hr. apply elem_of_app in Hr as [Hr|Hr].
      + destruct (last (L (ID b))) as [p|] eqn:El; [|by apply not_elem_of_nil in Hr]. apply list_elem_of_singleton in Hr as ->. symmetry. apply (HL _ _ El).
      + by apply list_elem_of_singleton in Hr as ->. }
  replace (undo ++ cur :: rest) with ((undo ++ [cur]) ++ rest) by (by rewrite <- app_assoc). split_and!.
  - by apply Forall_app.
  - intros id. rewrite id_rows_app, Hids, I2, with_id_cons, with_id_one. case_bool_decide as Hid.
    + subst id. rewrite HL', last_snoc, length_app. cbn [app expand_from length]. rewrite Hundo, Hcur. rewrite <- app_assoc. cbn [app].
      rewrite Nat2Z.inj_add. reflexivity.
    + cbn [app]. by rewrite HLo.
  - intros id Hpid. rewrite with_id_cons, app_assoc. fold (L' id). apply I3. destruct (decide (id = ID b)) as [->|Hne]; [by rewrite lookup_insert_eq, Hcu|].
    by rewrite lookup_insert_ne, HLo.
  - intros id Hn. rewrite with_id_cons, with_id_one in Hn. case_bool_decide as Hid; [done|]. rewrite I4 by done. by rewrite lookup_insert_ne.
Qed.

(** ** The rows with given ids *)

Lemma sql_in_strings s l : sql_in (VString s) (map VString l) = Some (bool_decide (s ∈ l)).
Proof.
  induction l as [|x l IH]; [by rewrite bool_decide_eq_false_2 by apply not_elem_of_nil|]. cbn [map sql_in]. rewrite IH.
  unfold sql_eq. cbn [unwrap deref_value holds value_order]. destruct (decide (s = x)) as [->|Hne].
  - pose proof (String.compare_antisym x x) as Hx. rewrite (bool_decide_eq_true_2 (x ∈ x :: l)) by (by left). by destruct (String.compare x x).
  - rewrite (bool_decide_ext (s ∈ x :: l) (s ∈ l)) by (rewrite elem_of_cons; naive_solver).
    destruct (String.compare s x) eqn:Ec; [by apply String.compare_eq_iff in Ec|..]; cbn; by destruct (bool_decide (s ∈ l)).
Qed.

Lemma elem_of_ordered_ids id ids : id ∈ ordered_ids ids <-> id ∈ ids.
Proof. unfold ordered_ids. rewrite merge_sort_Permutation. apply elem_of_elements. Qed.

Lemma in_ids_match e ids b : Entity b = e -> table_match [in_ids (sch_type e) ids] b = bool_decide (ID b ∈ ids).
Proof.
  intros He. unfold table_match. cbn [forallb]. rewrite andb_true_r. unfold filter_selects, buildCondition. cbn [fField fOp fValue in_ids].
  destruct (ok_id e) as (Hf & Hd & Ha). rewrite Hf, Hd, Ha.
  rewrite <- (bool_decide_ext (ID b ∈ ordered_ids ids) (ID b ∈ ids)) by apply elem_of_ordered_ids.
  assert (Hcol : box_columns b EntityPrimaryFieldName = VString (ID b)) by done.
  destruct (ordered_ids ids) as [|i l] eqn:El; [done|]. rewrite (bool_decide_eq_true_2 (EntityPrimaryFieldName = EntityPrimaryFieldName)) by done.
  cbn [map andb]. change (VString i :: map VString l) with (map VString (i :: l)). destruct (HugeIDSetSize <? _).
  - unfold selected. cbn [eval_condition negate]. rewrite Hcol, sql_in_strings. by destruct (bool_decide (ID b ∈ i :: l)).
  - assert (filter (fun v => isNil_sql v = false) (map VString (i :: l)) = map VString (i :: l)) as ->.
    { apply filter_all. by intros v (x & -> & _)%list_elem_of_fmap. }
    assert (existsb isNil_sql (map VString (i :: l)) = false) as ->.
    { apply not_true_iff_false. rewrite existsb_exists. intros (v & Hv%list_elem_of_In & Hn). by apply list_elem_of_fmap in Hv as (x & -> & _). }
    change (map VString (i :: l)) with (VString i :: map VString l) at 1. cbn beta iota zeta. unfold selected. cbn [eval_condition negate].
    rewrite Hcol, sql_in_strings. by destruct (bool_decide (ID b ∈ i :: l)).
Qed.

(** ** The values before *)

Definition cached_row (c : cachedEntityBox) : entityRow := mkRow (cBox c) storeChain 1 (cVersion c).

Lemma pre_from_cache_lookup getter ids pre id :
  (pre_from_cache getter ids pre).1 !! id =
  match pre !! id with Some r => Some r | None => if bool_decide (id ∈ ids) then cached_row <$> getter id else None end.
Proof.
  unfold pre_from_cache. generalize 0. revert pre. induction ids as [|i ids IH]; intros pre n; cbn [foldl fst].
  { rewrite bool_decide_eq_false_2 by apply not_elem_of_nil. by destruct (pre !! id). }
  assert (Hext : i <> id -> bool_decide (id ∈ i :: ids) = bool_decide (id ∈ ids)) by (intros Hne; apply bool_decide_ext; rewrite elem_of_cons; naive_solver).
  destruct (pre !! i) as [r|] eqn:Ei.
  { rewrite IH. destruct (decide (i = id)) as [->|Hne]; [by rewrite Ei|by rewrite Hext]. }
  destruct (getter i) as [c|] eqn:Eg; rewrite IH; destruct (decide (i = id)) as [->|Hne].
  - by rewrite lookup_insert_eq, Ei, bool_decide_eq_true_2, Eg by (by left).
  - by rewrite lookup_insert_ne, Hext.
  - rewrite Ei, (bool_decide_eq_true_2 (id ∈ id :: ids)), Eg by (by left). by destruct (bool_decide (id ∈ ids)).
  - by rewrite Hext.
Qed.

Lemma full_entry_current t e id : versioned (sch_type e) = true -> cached_row <$> full_entry (sch_type e) (table_log t) id = current t e id.
Proof.
  intros Hv. unfold full_entry, stored_row, current, current_of, row_version. cbn [useVersionedCollapsingTable entity_tables]. rewrite ok_name, Hv. cbn [negb].
  by destruct (last (boxes_of t e id)).
Qed.

Lemma stored_row_current t e id : versioned (sch_type e) = true ->
  (fun r => mkRow (rBox r) storeChain 1 (rVersion r)) <$> stored_row (sch_type e) false (table_log t) id = current t e id.
Proof. intros Hv. rewrite <- full_entry_current by done. unfold full_entry. cbn [useVersionedCollapsingTable entity_tables]. rewrite Hv. cbn [negb]. by destruct (stored_row _ _ _ _). Qed.

Lemma stored_row_entity t e excl id r : stored_row (sch_type e) excl (table_log t) id = Some r -> Entity (rBox r) = e.
Proof.
  unfold stored_row. rewrite ok_name. destruct (last (boxes_of t e id)) as [b|] eqn:E; [|done]. cbn. apply last_Some_elem_of, boxes_of_elem in E as [<- _].
  destruct excl; [unfold live; destruct (Data b)|]; cbn; by intros [= <-].
Qed.

Lemma pre_from_table_lookup t e (ids : gset string) pre id :
  versioned (sch_type e) = true -> pre !! id = None \/ id ∉ ids ->
  pre_from_table (filter (fun r => table_match [in_ids (sch_type e) ids] (rBox r) = true) (table_rows (sch_type e) false (table_log t))) pre !! id =
  if bool_decide (id ∈ ids) then current t e id else pre !! id.
Proof.
  intros Hv Hpre. unfold table_rows, pre_from_table. rewrite (filter_omap _ (fun r => table_match [in_ids (sch_type e) ids] (rBox r))).
  set (f := fun x => stored_row (sch_type e) false (table_log t) x ≫= _).
  assert (Hf : forall i, f i = if bool_decide (i ∈ ids) then stored_row (sch_type e) false (table_log t) i else None).
  { intros i. unfold f. destruct (stored_row (sch_type e) false (table_log t) i) as [r|] eqn:Er; cbn [mbind option_bind]; cbv beta; [|by case_bool_decide].
    rewrite (in_ids_match e) by (by eapply stored_row_entity). by rewrite (stored_row_id _ _ _ _ _ Er). }
  rewrite (foldl_collect f (fun r => ID (rBox r)) (fun r => mkRow (rBox r) storeChain 1 (rVersion r))); [|..|apply sorted_ids_nodup].
  2:{ intros i r. rewrite Hf. case_bool_decide; [apply stored_row_id|done]. }
  rewrite Hf, ok_name. rewrite <- (stored_row_current t e id Hv).
  destruct (decide (id ∈ ids)) as [Hid|Hid]; [rewrite !(bool_decide_eq_true_2 (id ∈ ids)) by done|
    rewrite !(bool_decide_eq_false_2 (id ∈ ids)) by done; by destruct (bool_decide (id ∈ sorted_ids e (table_log t)))].
  destruct Hpre as [->|?]; [|done]. case_bool_decide as Hs; [by destruct (stored_row _ _ _ _)|]. rewrite elem_of_sorted_ids in Hs.
  unfold stored_row. rewrite ok_name. destruct (boxes_of t e id); [done|]. by destruct Hs.
Qed.

(** ** What is appended *)

Lemma prepare_tolerates e checker getter newIds st t r t' : prepare (sch_type e) checker getter newIds st t = (r, t') -> tolerates t t'.
Proof.
  unfold prepare. destruct (versioned (sch_type e)).
  - destruct getter as [g|]; [destruct (pre_from_cache _ _ _); intros [= <- <-]; apply tolerates_refl|].
    destruct (store_listEntities (sch_type e) _ _ _ t) as [[l|err] t1] eqn:El; apply list_retry_rows in El as [Ht _]; by intros [= <- <-].
  - assert (Hq : forall x t1, match checker with
      | Some known => (inl (filter (fun id => known id = true) (ordered_ids newIds)), t)
      | None => queryExistEntity (sch_type e) (ordered_ids newIds) t end = (x, t1) -> tolerates t t1).
    { intros x t1. destruct checker; [intros [= <- <-]; apply tolerates_refl|]. unfold queryExistEntity.
      destruct (ordered_ids newIds); [intros [= <- <-]; apply tolerates_refl|]. by intros [? _]%query_spec. }
    destruct (match checker with Some _ => _ | None => _ end) as [[l|err] t1] eqn:El; specialize (Hq _ _ eq_refl); [|by intros [= <- <-]].
    destruct (IsImmutable (sch_type e) && _); by intros [= <- <-].
Qed.

Lemma table_log_insert et l t : table_log (insert_rows et l t) = table_log t ++ map rowBox (filter known l).
Proof. unfold table_log, insert_rows. cbn [rows]. by rewrite filter_app, map_app. Qed.

Lemma flush_log e checker getter queue st t st' err t' :
  IsCache (sch_type e) = false -> Forall (fun b => Entity b = e) queue ->
  flush (sch_type e) checker getter queue st t = ((st', err), t') ->
  table_log t' = table_log t ++ queue \/ err <> None /\ table_log t' = table_log t.
Proof.
  intros Hc Hq. destruct (ok_listed e Hc) as (He & _ & _). unfold flush. destruct queue as [|b0 queue0] eqn:Eq.
  { intros [= <- <- <-]. left. by rewrite app_nil_r. }
  rewrite <- Eq in *. destruct (IsImmutable (sch_type e) && _); [intros [= <- <- <-]; by right|].
  destruct (prepare (sch_type e) checker getter _ st t) as [[st1|perr] t1] eqn:Ep; apply prepare_tolerates in Ep as Ht1.
  2:{ intros [= <- <- <-]. right. split; [done|]. by apply tolerates_log. }
  destruct (batch_rows (sch_type e) queue (preBoxes st1)) as [l pre] eqn:Eb.
  destruct (exec (insert_rows (sch_type e) l) t1) as [xerr t2] eqn:Ex. apply exec_spec in Ex as (t3 & Ht3 & Hx).
  assert (Hlog3 : table_log t3 = table_log t) by (rewrite (tolerates_log _ _ Ht3); by apply tolerates_log).
  intros Hres. assert (xerr = err /\ t2 = t') as [-> ->] by (destruct xerr; by injection Hres as <- <- <-). destruct Hx as [->|[Hne ->]]; [left|by right].
  by rewrite table_log_insert, Hlog3, (batch_rows_positive _ e _ _ _ _ He Hq Eb).
Qed.

Lemma flush_loop_log e checker getter batchSize boxes queue st t st' err t' :
  IsCache (sch_type e) = false -> Forall (fun b => Entity b = e) (queue ++ boxes) ->
  flush_loop (sch_type e) checker getter batchSize boxes queue st t = ((st', err), t') ->
  exists part, table_log t' = table_log t ++ part /\ part `prefix_of` queue ++ boxes /\ (err = None -> part = queue ++ boxes).
Proof.
  intros Hc. revert queue st t. induction boxes as [|b boxes IH]; intros queue st t Hf; cbn [flush_loop].
  { rewrite app_nil_r in Hf |- *. intros Hfl. apply flush_log in Hfl; [|done|done]. destruct Hfl as [H|[H1 H2]]; [by exists queue|]. exists []. rewrite app_nil_r.
    split_and!; [done|apply prefix_nil|done]. }
  assert (Hf1 : Forall (fun b => Entity b = e) ((queue ++ [b]) ++ boxes)) by (by rewrite <- app_assoc).
  replace (queue ++ b :: boxes) with ((queue ++ [b]) ++ boxes) by (by rewrite <- app_assoc).
  destruct (batchSize <=? _); [|by apply IH]. apply Forall_app in Hf1 as [Hfq Hfb].
  destruct (flush (sch_type e) checker getter (queue ++ [b]) st t) as [[st1 [err1|]] t1] eqn:E1; (apply flush_log in E1; [|done|done]).
  - intros [= <- <- <-]. destruct E1 as [E1|[_ E1]]; [exists (queue ++ [b])|exists []]; rewrite ?app_nil_r; split_and!; try done; [by apply prefix_app_r|apply prefix_nil].
  - destruct E1 as [E1|[? _]]; [|done]. intros (part & H1 & H2 & H3)%IH; [|done]. cbn [app] in *. exists ((queue ++ [b]) ++ part).
    split_and!; [by rewrite H1, E1, <- (app_assoc (table_log t))|by apply prefix_app|]. intros Hn. by rewrite (H3 Hn).
Qed.

(** ** The invariant between the batches *)

Record flushing (log0 : list EntityBox) (e : string) (st : Flush) (t : Tables) : Prop := mkFlushing {
  fl_ok : tables_ok t;
  fl_todo id : id ∉ doneIds st -> boxes_of t e id = of_entity e id log0 /\ preBoxes st !! id = None;
  fl_done id : versioned (sch_type e) = true -> id ∈ doneIds st -> preBoxes st !! id = current t e id
}.

Definition getter_right (e : string) (log : list EntityBox) (getter : option (string -> option cachedEntityBox)) : Prop :=
  forall g, getter = Some g -> forall id, g id = full_entry (sch_type e) log id.

Lemma prepare_spec log0 e checker getter newIds st t st' t' :
  persisted (sch_type e) -> flushing log0 e st t -> getter_right e log0 getter ->
  newIds ## doneIds st -> Z.of_nat (size newIds) <= MaxInt ->
  prepare (sch_type e) checker getter newIds st t = (inl st', t') ->
  doneIds st' = doneIds st /\
  (versioned (sch_type e) = false -> preBoxes st' = preBoxes st) /\
  (versioned (sch_type e) = true -> forall id, preBoxes st' !! id = if bool_decide (id ∈ newIds) then current t e id else preBoxes st !! id).
Proof.
  intros Hp [F1 F2 F3] Hg Hdis Hsize. unfold prepare. destruct (versioned (sch_type e)) eqn:Hv.
  2:{ destruct (match checker with Some _ => _ | None => _ end) as [[l|err] t1]; [|done]. destruct (IsImmutable (sch_type e) && _); [done|].
      intros [= <- <-]. done. }
  assert (Hcur : forall id, id ∈ newIds -> preBoxes st !! id = None /\ of_entity e id log0 = boxes_of t e id).
  { intros id Hid. destruct (F2 id) as [H1 H2]; [intros ?; by apply (Hdis id)|]. done. }
  destruct getter as [g|].
  - destruct (pre_from_cache g (ordered_ids newIds) (preBoxes st)) as [pre n] eqn:Epre. intros [= <- <-]. split_and!; [done|done|]. intros _ id.
    pose proof (pre_from_cache_lookup g (ordered_ids newIds) (preBoxes st) id) as Hl. rewrite Epre in Hl. cbn [fst preBoxes] in *. rewrite Hl.
    rewrite (bool_decide_ext (id ∈ ordered_ids newIds) (id ∈ newIds)) by apply elem_of_ordered_ids. destruct (bool_decide (id ∈ newIds)) eqn:Hid; [apply bool_decide_eq_true in Hid|by destruct (preBoxes st !! id)].
    destruct (Hcur id Hid) as [-> Hbox]. rewrite (Hg g eq_refl). rewrite <- (full_entry_current t e id Hv). f_equal. apply full_entry_log. by rewrite ok_name.
  - destruct (store_listEntities (sch_type e) _ _ _ t) as [[l|err] t1] eqn:El; [|done]. apply list_retry_rows in El as [_ Hl]. intros [= <- <-].
    split_and!; [done|done|]. intros _ id. cbn [preBoxes]. specialize (Hl Hp F1 l eq_refl). rewrite take_ge in Hl.
    + rewrite Hl. apply pre_from_table_lookup; [done|]. destruct (decide (id ∈ newIds)) as [Hid|Hid]; [left; by apply Hcur|by right].
    + assert (Hlen : (length (filter (fun r => table_match [in_ids (sch_type e) newIds] (rBox r) = true) (table_rows (sch_type e) false (table_log t))) <= size newIds)%nat).
      { rewrite <- (length_map (fun r => ID (rBox r))). rewrite <- (size_list_to_set (C := gset string)).
        - apply subseteq_size. intros i0 (r & -> & [Hm Hin]%list_elem_of_filter)%elem_of_list_to_set%list_elem_of_fmap.
          apply list_elem_of_omap in Hin as (i & _ & Hr). rewrite (in_ids_match e) in Hm by (by eapply stored_row_entity). by apply bool_decide_eq_true in Hm.
        - eapply sublist_NoDup; [apply table_rows_nodup|apply sublist_map, sublist_filter]. }
      unfold MaxInt in *. lia.
Qed.

(** ** A batch keeps the invariant *)

Lemma versioned_persisted e : IsCache (sch_type e) = false -> versioned (sch_type e) = true -> persisted (sch_type e).
Proof.
  unfold versioned, IsImmutable. intros Hc [_ Hi]%andb_prop. split; [|done]. by destruct (IsTimeSeries (sch_type e)).
Qed.

Lemma id_rows_other e e' id l : e' <> e -> Forall (in_chain e) l -> id_rows e' id l = [].
Proof. intros Hne Hl. apply filter_none. intros r Hr [[He' _] _]. rewrite Forall_forall in Hl. destruct (Hl r Hr). congruence. Qed.

Lemma part_of_app C l1 l2 :
  Forall (fun v => v < Z.of_nat (length l1)) C -> part_of C l1 ++ expand_from (Z.of_nat (length l1)) (last l1) l2 = part_of C (l1 ++ l2).
Proof.
  intros HC1. unfold part_of. rewrite expand_app, filter_app. f_equal. symmetry. apply filter_all. intros r Hr Hin.
  apply elem_of_expand_from in Hr as (Hr & _). rewrite Forall_forall in HC1. specialize (HC1 _ Hin). cbn in HC1. lia.
Qed.

Lemma insert_tables_ok e l t queue :
  IsCache (sch_type e) = false -> tables_ok t -> Forall (in_chain e) l -> map rowBox (filter known l) = queue -> Forall (fun b => Entity b = e) queue ->
  (persisted (sch_type e) -> forall id, ascending (boxes_of t e id ++ with_id id queue) /\
     id_rows e id l = if versioned (sch_type e) then expand_from (Z.of_nat (length (boxes_of t e id))) (last (boxes_of t e id)) (with_id id queue)
                      else map plain_row (with_id id queue)) ->
  tables_ok (insert_rows (sch_type e) l t).
Proof.
  intros Hc Hok Hl Hpos Hq Hid e' Hp'. destruct (Hok e' Hp') as [Hraw Hlat].
  assert (Hlog : forall id, boxes_of (insert_rows (sch_type e) l t) e' id = boxes_of t e' id ++ of_entity e' id queue).
  { intros id. by rewrite table_log_insert, Hpos, of_entity_app. }
  destruct (decide (e' = e)) as [->|Hne].
  - specialize (Hid Hp'). assert (Hlog' : forall id, boxes_of (insert_rows (sch_type e) l t) e id = boxes_of t e id ++ with_id id queue).
    { intros id. rewrite Hlog. f_equal. by apply of_entity_with_id. }
    split.
    + intros id. destruct (Hid id) as [Ha Hrows], (Hraw id) as [_ Hr]. rewrite Hlog'. split; [done|]. cbn [rows insert_rows]. rewrite id_rows_app, Hr, Hrows.
      unfold rows_of. destruct (versioned (sch_type e)); [by rewrite expand_app|by rewrite map_app].
    + intros Hv id. destruct (Hid id) as [Ha Hrows], (Hlat Hv id) as (C & HC1 & HC2). exists C. rewrite Hlog'. split.
      * eapply Forall_impl; [exact HC1|]. intros v. cbn. rewrite length_app. lia.
      * unfold insert_rows. cbn [latestRows]. rewrite Hv in *. by rewrite id_rows_app, HC2, Hrows, part_of_app.
  - assert (Hlog' : forall id, boxes_of (insert_rows (sch_type e) l t) e' id = boxes_of t e' id).
    { intros id. rewrite Hlog, (of_entity_other e e' id queue (not_eq_sym Hne) Hq). apply app_nil_r. }
    assert (Hrows' : forall id l0, id_rows e' id (l0 ++ l) = id_rows e' id l0) by (intros id l0; by rewrite id_rows_app, (id_rows_other e e' id l Hne Hl), app_nil_r).
    split.
    + intros id. rewrite Hlog'. cbn [rows insert_rows]. rewrite Hrows'. apply Hraw.
    + intros Hv id. destruct (Hlat Hv id) as (C & HC1 & HC2). exists C. rewrite Hlog'. split; [done|]. unfold insert_rows. cbn [latestRows].
      destruct (versioned (sch_type e)); [by rewrite Hrows'|done].
Qed.

(** ** A batch goes on from the one before *)

Lemma batch_chain e queue pre l pre' :
  versioned (sch_type e) = false -> Forall (fun b => Entity b = e) queue -> batch_rows (sch_type e) queue pre = (l, pre') -> Forall (in_chain e) l.
Proof.
  intros Hv Hq Hb. pose proof (batch_rows_plain (sch_type e) queue pre Hv) as E. rewrite Hb in E. cbn in E. subst l.
  apply Forall_map. eapply Forall_impl; [exact Hq|]. by intros b <-.
Qed.

Lemma fetchIDSet_elem id queue : id ∈ fetchIDSet queue <-> with_id id queue <> [].
Proof.
  unfold fetchIDSet. rewrite elem_of_list_to_set, list_elem_of_fmap. split.
  - intros (b & -> & Hb) E. apply (not_elem_of_nil b). rewrite <- E. by apply list_elem_of_filter.
  - destruct (with_id id queue) as [|b l] eqn:E; [done|]. intros _. assert (Hb : b ∈ with_id id queue) by (rewrite E; by left).
    apply list_elem_of_filter in Hb as [<- Hb]. by exists b.
Qed.

Lemma fetchIDSet_size queue : (size (fetchIDSet queue) <= length queue)%nat.
Proof.
  unfold fetchIDSet. induction queue as [|b queue IH]; [done|]. cbn [map list_to_set length].
  rewrite (size_union_alt {[ID b]}), size_singleton.
  pose proof (subseteq_size (list_to_set (map ID queue) ∖ {[ID b]}) (list_to_set (C := gset string) (map ID queue)) ltac:(set_solver)). lia.
Qed.

Lemma flush_flushing log0 e checker getter queue st t st' err t' :
  persisted (sch_type e) -> flushing log0 e st t -> getter_right e log0 getter -> Forall (fun b => Entity b = e) queue ->
  Z.of_nat (length queue) <= MaxInt -> (forall id, ascending (boxes_of t e id ++ with_id id queue)) ->
  flush (sch_type e) checker getter queue st t = ((st', err), t') -> tables_ok t' /\ (err = None -> flushing log0 e st' t').
Proof.
  intros Hp Hfl Hg Hq Hlen Hasc. pose proof Hfl as [F1 F2 F3]. unfold flush. destruct queue as [|b0 queue0] eqn:Eq; [by intros [= <- <- <-]|].
  rewrite <- Eq in *. rewrite (ok_mutable e Hp). cbn [andb].
  set (newIds := fetchIDSet queue ∖ doneIds st). destruct (prepare (sch_type e) checker getter newIds st t) as [[st1|perr] t1] eqn:Ep;
    pose proof (prepare_tolerates _ _ _ _ _ _ _ _ Ep) as Ht1.
  2:{ intros [= <- <- <-]. split; [by eapply tolerates_tables|done]. }
  apply (prepare_spec log0) in Ep as (D1 & D2 & D3); [|done|done|done|by intros i [_ ?]%elem_of_difference|].
  2:{ pose proof (fetchIDSet_size queue). pose proof (subseteq_size newIds (fetchIDSet queue) ltac:(by intros i [? _]%elem_of_difference)). lia. }
  destruct (batch_rows (sch_type e) queue (preBoxes st1)) as [l pre] eqn:Eb.
  destruct (exec (insert_rows (sch_type e) l) t1) as [xerr t2] eqn:Ex. apply exec_spec in Ex as (t3 & Ht3 & Hx).
  pose proof (tolerates_trans _ _ _ Ht1 Ht3) as Ht. assert (Hlog3 : table_log t3 = table_log t) by by apply tolerates_log.
  assert (Hok3 : tables_ok t3) by by eapply tolerates_tables. destruct (ok_listed e (proj2 Hp)) as (He & _ & _).
  pose proof (batch_rows_positive _ e _ _ _ _ He Hq Eb) as Hpos.
  assert (Hv1 : versioned (sch_type e) = true -> forall b, b ∈ queue -> preBoxes st1 !! ID b = current_of (sch_type e) (boxes_of t e (ID b))).
  { intros Hv b Hb. rewrite (D3 Hv). case_bool_decide as Hin; [done|]. apply F3; [done|]. destruct (decide (ID b ∈ doneIds st)); [done|]. exfalso. apply Hin.
    apply elem_of_difference. split; [|done]. unfold fetchIDSet. apply elem_of_list_to_set, list_elem_of_fmap. by exists b. }
  assert (Hbatch : versioned (sch_type e) = true -> _) by (intros Hv; exact (batch_rows_versioned _ e queue _ (fun id => boxes_of t e id) l pre Hv Hq
    ltac:(intros id b Hb; by eapply boxes_of_elem, last_Some_elem_of) (Hv1 Hv) Eb)).
  assert (Hins : tables_ok (insert_rows (sch_type e) l t3)).
  { apply (insert_tables_ok e l t3 queue); [apply Hp|done| |done|done|].
    - destruct (versioned (sch_type e)) eqn:Hv; [apply (Hbatch ltac:(done))|by eapply batch_chain].
    - intros _ id. rewrite Hlog3. split; [done|]. destruct (versioned (sch_type e)) eqn:Hv; [apply (Hbatch ltac:(done))|].
      pose proof (batch_rows_plain (sch_type e) queue (preBoxes st1) Hv) as E. rewrite Eb in E. cbn in E. rewrite E. by apply id_rows_plain. }
  intros Hres. assert (xerr = err /\ t2 = t') as [-> ->] by (destruct xerr; by injection Hres as <- <- <-).
  split; [by destruct Hx as [->|[_ ->]]|]. intros ->. injection Hres as <-. destruct Hx as [->|[? _]]; [|done].
  assert (Hlog' : forall id, boxes_of (insert_rows (sch_type e) l t3) e id = boxes_of t e id ++ with_id id queue).
  { intros id. rewrite table_log_insert, Hpos, Hlog3, of_entity_app. f_equal. by apply of_entity_with_id. }
  split; cbn [doneIds preBoxes]; [done|..].
  - intros id Hid. assert (Hw : with_id id queue = []).
    { destruct (with_id id queue) eqn:E; [done|]. exfalso. apply Hid. rewrite D1. destruct (decide (id ∈ doneIds st)); [by apply elem_of_union_l|]. apply elem_of_union_r, elem_of_difference.
      split; [|done]. apply fetchIDSet_elem. by rewrite E. }
    rewrite D1 in Hid. destruct (F2 id) as [T1 T2]; [intros ?; apply Hid; by apply elem_of_union_l|]. rewrite Hlog', Hw, app_nil_r. split; [done|].
    destruct (versioned (sch_type e)) eqn:Hv.
    + destruct (Hbatch ltac:(done)) as (_ & _ & _ & H4). rewrite H4 by done. rewrite (D3 ltac:(done)), bool_decide_eq_false_2; [done|].
      intros [Hin _]%elem_of_difference. by apply fetchIDSet_elem in Hin.
    + pose proof (batch_pre_plain (sch_type e) queue (preBoxes st1) Hv) as E. rewrite Eb in E. cbn in E. by rewrite E, (D2 ltac:(done)).
  - intros id Hv Hid. destruct (Hbatch ltac:(done)) as (_ & _ & H3 & _). unfold current. rewrite Hlog'. apply H3. rewrite (D3 Hv). case_bool_decide as Hin; [done|].
    apply F3; [done|]. rewrite D1 in Hid. by apply elem_of_union in Hid as [?|?].
Qed.

(** ** All batches *)

Lemma flush_loop_ok log0 e checker getter batchSize boxes queue st t st' err t' :
  persisted (sch_type e) -> 0 < batchSize <= MaxInt -> flushing log0 e st t -> getter_right e log0 getter ->
  Forall (fun b => Entity b = e) (queue ++ boxes) -> Z.of_nat (length queue) < batchSize ->
  (forall id, ascending (boxes_of t e id ++ with_id id (queue ++ boxes))) ->
  flush_loop (sch_type e) checker getter batchSize boxes queue st t = ((st', err), t') -> tables_ok t'.
Proof.
  intros Hp Hb. revert queue st t. induction boxes as [|b boxes IH]; intros queue st t Hfl Hg Hf Hlen Hasc; cbn [flush_loop].
  { rewrite app_nil_r in Hf, Hasc. intros Hflush. apply (flush_flushing log0) in Hflush; [exact (proj1 Hflush)|try done..]. lia. }
  replace (queue ++ b :: boxes) with ((queue ++ [b]) ++ boxes) in Hf, Hasc by (by rewrite <- app_assoc).
  assert (Hlen1 : Z.of_nat (length (queue ++ [b])) = Z.of_nat (length queue) + 1) by (rewrite length_app; cbn; lia).
  destruct (Z.leb_spec batchSize (Z.of_nat (length (queue ++ [b])))) as [Hle|Hle]; [|by apply IH].
  apply Forall_app in Hf as Hf2. destruct Hf2 as [Hfq Hfb].
  destruct (flush (sch_type e) checker getter (queue ++ [b]) st t) as [[st1 err1] t1] eqn:E1.
  pose proof (flush_log _ _ _ _ _ _ _ _ _ (proj2 Hp) Hfq E1) as Hlog. apply (flush_flushing log0) in E1 as [Hok1 Hfl1]; [|try done..].
  - destruct err1 as [err1|]; [by intros [= <- <- <-]|]. destruct Hlog as [Hlog|[? _]]; [|done]. apply IH; [by apply Hfl1|done|done|cbn; lia|].
    intros id. rewrite Hlog, of_entity_app, (of_entity_with_id e id (queue ++ [b])), <- app_assoc, <- with_id_app by done. apply Hasc.
  - lia.
  - intros id. specialize (Hasc id). rewrite with_id_app, app_assoc in Hasc. unfold ascending in *. eapply StronglySorted_sublist; [|exact Hasc].
    apply sublist_map. by apply sublist_inserts_r.
Qed.

Lemma flush_plain_ok e checker getter queue st t st' err t' :
  IsCache (sch_type e) = false -> ~ persisted (sch_type e) -> Forall (fun b => Entity b = e) queue -> tables_ok t ->
  flush (sch_type e) checker getter queue st t = ((st', err), t') -> tables_ok t'.
Proof.
  intros Hc Hnp Hq Hok. destruct (ok_listed e Hc) as (He & _ & _).
  assert (Hv : versioned (sch_type e) = false) by (destruct (versioned (sch_type e)) eqn:E; [by apply versioned_persisted in E|done]).
  unfold flush. destruct queue as [|b0 queue0] eqn:Eq; [by intros [= <- <- <-]|]. rewrite <- Eq in *.
  destruct (IsImmutable (sch_type e) && _); [by intros [= <- <- <-]|].
  destruct (prepare (sch_type e) checker getter _ st t) as [[st1|perr] t1] eqn:Ep; apply prepare_tolerates in Ep as Ht1.
  2:{ intros [= <- <- <-]. by eapply tolerates_tables. }
  destruct (batch_rows (sch_type e) queue (preBoxes st1)) as [l pre] eqn:Eb.
  destruct (exec (insert_rows (sch_type e) l) t1) as [xerr t2] eqn:Ex. apply exec_spec in Ex as (t3 & Ht3 & Hx).
  assert (Hok3 : tables_ok t3) by (eapply tolerates_tables; [|exact Hok]; by eapply tolerates_trans).
  intros Hres. assert (t2 = t') as -> by (destruct xerr; by injection Hres as <- <- <-). destruct Hx as [->|[_ ->]]; [|done].
  apply (insert_tables_ok e l t3 queue); [done|done|by eapply batch_chain|by eapply batch_rows_positive|done|done].
Qed.

Lemma flush_loop_plain_ok e checker getter batchSize boxes queue st t st' err t' :
  IsCache (sch_type e) = false -> ~ persisted (sch_type e) -> Forall (fun b => Entity b = e) (queue ++ boxes) -> tables_ok t ->
  flush_loop (sch_type e) checker getter batchSize boxes queue st t = ((st', err), t') -> tables_ok t'.
Proof.
  intros Hc Hnp. revert queue st t. induction boxes as [|b boxes IH]; intros queue st t Hf Hok; cbn [flush_loop].
  { rewrite app_nil_r in Hf. by apply flush_plain_ok. }
  replace (queue ++ b :: boxes) with ((queue ++ [b]) ++ boxes) in Hf by (by rewrite <- app_assoc).
  destruct (batchSize <=? _); [|by apply IH]. apply Forall_app in Hf as [Hfq Hfb].
  destruct (flush (sch_type e) checker getter (queue ++ [b]) st t) as [[st1 [err1|]] t1] eqn:E1; apply flush_plain_ok in E1; try done.
  - by intros [= <- <- <-].
  - by apply IH.
Qed.

Lemma setEntities_rows e boxes checker getter t n err t' :
  store_setEntities (sch_type e) boxes checker getter t = ((n, err), t') -> Forall (fun b => Entity b = e) boxes ->
  exists part, table_log t' = table_log t ++ part /\ (forall b, b ∈ part -> b ∈ boxes) /\
    (err = None -> IsCache (sch_type e) = false -> forall id, ascending (of_entity e id boxes) -> of_entity e id part = of_entity e id boxes) /\
    (tables_ok t -> (persisted (sch_type e) -> forall id, ascending (of_entity e id (table_log t ++ boxes))) ->
     getter_right e (table_log t) getter -> tables_ok t').
Proof.
  unfold store_setEntities. intros Hs Hb. destruct (IsCache (sch_type e)) eqn:Hc.
  { injection Hs as <- <- <-. exists []. rewrite app_nil_r. split_and!; [done|by intros b ?%not_elem_of_nil|done|done]. }
  set (batchSize := if BatchInsertSizeLimit <=? 0 then DefaultBatchInsertSizeLimit else BatchInsertSizeLimit) in *.
  assert (Hbatch : 0 < batchSize <= MaxInt).
  { unfold batchSize, DefaultBatchInsertSizeLimit. pose proof ok_batch. destruct (Z.leb_spec BatchInsertSizeLimit 0); unfold MaxInt in *; lia. }
  fold (flush_order boxes) in Hs. assert (Hin : forall b, b ∈ flush_order boxes -> b ∈ boxes) by apply elem_of_flush_order.
  assert (Hf : Forall (fun b => Entity b = e) (flush_order boxes)).
  { apply Forall_forall. intros b ?%Hin. rewrite Forall_forall in Hb. by apply Hb. }
  assert (Hord : forall id, ascending (of_entity e id boxes) -> with_id id (flush_order boxes) = of_entity e id boxes).
  { intros id Ha. rewrite flush_order_with_id, (of_entity_with_id e id boxes Hb) in *. by apply ascending_sort. }
  destruct (flush_loop (sch_type e) checker getter batchSize (flush_order boxes) [] (mkFlush 0 ∅ ∅) t) as [[st e1] t1] eqn:El. injection Hs as <- <- <-.
  pose proof El as Hlog. apply flush_loop_log in Hlog as (part & H1 & H2 & H3); [|done|done]. cbn [app] in *. exists part. split_and!; [done|..].
  - intros b Hb'. apply Hin. destruct H2 as [rest ->]. by apply elem_of_app; left.
  - intros Hn _ id Ha. rewrite (H3 Hn), of_entity_with_id by done. by apply Hord.
  - intros Hok Hasc Hg. destruct (decide (persisted (sch_type e))) as [Hp|Hnp]; [|by eapply flush_loop_plain_ok in El].
    eapply (flush_loop_ok (table_log t)) in El; [done|done|done| |done|done|cbn; lia|].
    + split; [done|..]; cbn [doneIds preBoxes]; [by intros|]. intros id _ Hid. by apply not_elem_of_empty in Hid.
    + intros id. specialize (Hasc Hp id). rewrite of_entity_app in Hasc. cbn [app]. by rewrite Hord by (by eapply ascending_app_r).
Qed.
End Spec.
