(* ===== verification/TableReorg.v ===== *)
(** * Going back with the entity tables

    [reorg] removes the rows beyond a block from every table. What an earlier failure has
    left in the latest table is found by comparing two numbers of ids, and the table is
    then made anew: a reorg that succeeds leaves the tables right, one that fails leaves
    them right up to its block. With that the entity tables are tables in the sense of the
    chain store ([EntityStoreLaws]). *)
From Stdlib Require Import ZArith Lia Ascii String.
From stdpp Require Import base numbers option strings pretty sorting gmap list.
From S2P Require Import Prelude BlockCache RangeText EntityValue EntityHistory EntityMerge EntityTyping EntityCtrl EntityRich EntityFilter EntitySql ChainStore EntitySpec ChainStoreSpec EntityTable TableRows TableSpec TableRead TableWrite.
#[local] Open Scope Z_scope.

Section Spec.
Context `{HD : Decimal} `{HC : !Conversions} `{HS : !Store} `{HOk : !StoreOk}.

Abbreviation boxes_of t e id := (of_entity e id (table_log t)).

(** ** Cuts *)

Definition cut_raw (e : string) (n : Z) (t : Tables) : Tables := mkTables (delete_above e n (rows t)) (latestRows t) (events t).
Definition cut_latest (e : string) (n : Z) (t : Tables) : Tables := mkTables (rows t) (delete_above e n (latestRows t)) (events t).

Definition cut_log (e : string) (n : Z) (l : list EntityBox) : list EntityBox := filter (fun b => ~ (Entity b = e /\ n < GenBlockNumber b)) l.

Lemma cut_log_twice e n l : cut_log e n (cut_log e n l) = cut_log e n l.
Proof. unfold cut_log. rewrite list_filter_filter. apply list_filter_iff. tauto. Qed.

Lemma cut_raw_log e n t : table_log (cut_raw e n t) = cut_log e n (table_log t).
Proof.
  unfold table_log, cut_raw, cut_log, delete_above. cbn [rows]. induction (rows t) as [|r l IH]; [done|]. rewrite !filter_cons.
  assert (Hk : known r -> in_chain e r <-> Entity (rowBox r) = e) by (unfold known, in_chain; tauto).
  destruct (decide (known r)) as [Hkr|Hkr]; [specialize (Hk Hkr)|].
  - cbn [map]. rewrite filter_cons. destruct (decide (~ (Entity (rowBox r) = e /\ n < GenBlockNumber (rowBox r)))) as [Hd|Hd].
    + rewrite decide_True by (unfold row_gen; tauto). rewrite filter_cons, decide_True by done. cbn [map]. by rewrite IH.
    + rewrite decide_False by (unfold row_gen; tauto). done.
  - destruct (decide (~ (in_chain e r /\ n < row_gen r))); [|done]. by rewrite filter_cons, decide_False.
Qed.

Lemma cut_log_boxes e n e' id l : of_entity e' id (cut_log e n l) = if bool_decide (e' = e) then upto_gen n (of_entity e' id l) else of_entity e' id l.
Proof.
  unfold of_entity, cut_log, upto_gen. case_bool_decide as He.
  - rewrite !list_filter_filter. apply list_filter_iff. intros b. unfold box_is. subst e'. split; [|intros (H1 & H2 & H3); split; [done|]; lia].
    intros ((H1 & H2) & H3). split; [|done]. destruct (decide (n < GenBlockNumber b)); [tauto|lia].
  - rewrite list_filter_filter. apply list_filter_iff. unfold box_is. intros b. split; [tauto|]. intros [<- <-]. tauto.
Qed.

Lemma id_rows_cut e n e' id l :
  id_rows e' id (delete_above e n l) = if bool_decide (e' = e) then filter (fun r => row_gen r <= n) (id_rows e' id l) else id_rows e' id l.
Proof.
  unfold id_rows, delete_above. case_bool_decide as He.
  - rewrite !list_filter_filter. apply list_filter_iff. intros r. subst e'. split; [|intros (H1 & H2 & H3); split; [done|]; lia].
    intros ((H1 & H2) & H3). split; [|done]. destruct (decide (n < row_gen r)); [tauto|lia].
  - rewrite list_filter_filter. apply list_filter_iff. unfold in_chain. intros r. split; [tauto|]. intros [[<- ?] <-]. tauto.
Qed.

Lemma rows_of_cut et n l : ascending l -> filter (fun r => row_gen r <= n) (rows_of et l) = rows_of et (upto_gen n l).
Proof.
  intros Ha. unfold rows_of. destruct (versioned et); [by apply expand_cut|]. unfold upto_gen. clear Ha. induction l as [|b l IH]; [done|]. cbn [map].
  rewrite !filter_cons, IH. unfold row_gen. cbn. by destruct (decide (GenBlockNumber b <= n)).
Qed.

Lemma part_of_cut C n l : ascending l -> filter (fun r => row_gen r <= n) (part_of C l) = part_of C (upto_gen n l).
Proof.
  intros Ha. unfold part_of, expand. rewrite <- expand_cut by done. rewrite !list_filter_filter. apply list_filter_iff. tauto.
Qed.

Lemma upto_gen_upto n m l : n <= m -> upto_gen n (upto_gen m l) = upto_gen n l.
Proof. intros Hnm. unfold upto_gen. rewrite list_filter_filter. apply list_filter_iff. intros b. lia. Qed.

Lemma upto_gen_weaken n m l l' : n <= m -> upto_gen m l = upto_gen m l' -> upto_gen n l = upto_gen n l'.
Proof. intros Hnm E. by rewrite <- (upto_gen_upto n m l), E, upto_gen_upto. Qed.

Lemma cut_raw_boxes e n t e' id : boxes_of (cut_raw e n t) e' id = if bool_decide (e' = e) then upto_gen n (boxes_of t e' id) else boxes_of t e' id.
Proof. rewrite cut_raw_log. apply cut_log_boxes. Qed.

(** ** Steps of a reorg *)

(** What a step may do to the tables. *)
Record safe (e : string) (n : Z) (t t' : Tables) : Prop := mkSafe {
  sf_log : table_log t' = table_log t \/ table_log t' = cut_log e n (table_log t);
  sf_raw e' : raw_ok t e' -> raw_ok t' e';
  sf_upto m e' : n <= m -> raw_ok t e' -> latest_upto m t e' -> latest_upto n t' e';
  sf_ok e' : e' <> e -> latest_ok t e' -> latest_ok t' e'
}.

Lemma safe_trans e n t1 t2 t3 : safe e n t1 t2 -> safe e n t2 t3 -> safe e n t1 t3.
Proof.
  intros [A1 A2 A3 A4] [B1 B2 B3 B4]. split; [|auto| |auto].
  - destruct A1 as [A1|A1], B1 as [B1|B1]; rewrite B1, A1; [by left|by right|by right|right; apply cut_log_twice].
  - intros m e' Hm Hr Hl. apply (B3 n); [lia|by apply A2|by apply (A3 m)].
Qed.

Lemma latest_upto_weaken n m t e : n <= m -> latest_upto m t e -> latest_upto n t e.
Proof.
  intros Hnm Hl Hv id. destruct (Hl Hv id) as (C & L & H1 & H2 & H3). exists C, L. split_and!; [done|by eapply upto_gen_weaken|done].
Qed.

Lemma tolerates_safe e n t t' : tolerates t t' -> safe e n t t'.
Proof.
  intros Ht. split; [left; by apply tolerates_log|intros e'; by apply tolerates_raw| |intros e' _; by apply (tl_ok _ _ Ht)].
  intros m e' Hm _ Hl. eapply latest_upto_weaken; [exact Hm|]. by apply (tl_latest _ _ Ht).
Qed.

Lemma safe_refl e n t : safe e n t t.
Proof. apply tolerates_safe, tolerates_refl. Qed.

Lemma cut_raw_safe e n t : safe e n t (cut_raw e n t).
Proof.
  split; [right; apply cut_raw_log|..].
  - intros e' Hr id. destruct (Hr id) as [Ha Hrows]. rewrite cut_raw_boxes. cbn [rows cut_raw]. rewrite id_rows_cut, Hrows. case_bool_decide; [|done].
    split; [by apply upto_gen_ascending|by apply rows_of_cut].
  - intros m e' Hm _ Hl Hv id. destruct (Hl Hv id) as (C & L & H1 & H2 & H3). exists C, L. split_and!; [done| |done]. rewrite cut_raw_boxes.
    rewrite (upto_gen_weaken n m L _ Hm H2). case_bool_decide; [|done]. by rewrite upto_gen_upto.
  - intros e' Hne Hl Hv id. destruct (Hl Hv id) as (C & H1 & H2). exists C. rewrite cut_raw_boxes, bool_decide_eq_false_2 by done. done.
Qed.

Lemma cut_latest_safe e n t : safe e n t (cut_latest e n t).
Proof.
  split; [by left|by intros e' ?|..].
  - intros m e' Hm _ Hl Hv id. destruct (Hl Hv id) as (C & L & H1 & H2 & H3). cbn [latestRows cut_latest]. rewrite id_rows_cut, H3. case_bool_decide.
    + exists C, (upto_gen n L). split_and!; [by apply upto_gen_ascending| |by apply part_of_cut]. rewrite upto_gen_upto by lia. by eapply upto_gen_weaken.
    + exists C, L. split_and!; [done|by eapply upto_gen_weaken|done].
  - intros e' Hne Hl Hv id. destruct (Hl Hv id) as (C & H1 & H2). exists C. cbn [latestRows cut_latest]. by rewrite id_rows_cut, bool_decide_eq_false_2.
Qed.

(** Every pair of a series is gone. *)
Definition all_versions (l : list EntityBox) : list Z := seqZ 0 (Z.of_nat (length l) + 1).

Lemma part_of_all l : part_of (all_versions l) l = [].
Proof.
  apply filter_none. intros r Hr Hn. apply Hn, elem_of_seqZ. apply elem_of_expand_from in Hr as (Hr & _). lia.
Qed.

Definition drop_latest (e : string) (t : Tables) : Tables := mkTables (rows t) (filter (fun r => ~ in_chain e r) (latestRows t)) (events t).
Definition refill_latest (e : string) (n : Z) (t : Tables) : Tables := mkTables (rows t) (latestRows t ++ rows_upto e n (rows t)) (events t).

Lemma id_rows_drop e e' id l : id_rows e' id (filter (fun r => ~ in_chain e r) l) = if bool_decide (e' = e) then [] else id_rows e' id l.
Proof.
  unfold id_rows. rewrite list_filter_filter. case_bool_decide as He.
  - apply filter_none. intros r _ [[H1 _] H2]. by subst e'.
  - apply list_filter_iff. unfold in_chain. intros r. split; [tauto|]. intros [[<- ?] <-]. tauto.
Qed.

Lemma drop_latest_safe e n t : safe e n t (drop_latest e t).
Proof.
  split; [by left|by intros e' ?|..].
  - intros m e' Hm Hr Hl Hv id. destruct (Hl Hv id) as (C & L & H1 & H2 & H3). cbn [latestRows drop_latest]. rewrite id_rows_drop. case_bool_decide.
    + exists (all_versions (boxes_of t e' id)), (boxes_of t e' id). split_and!; [apply Hr|done|by rewrite part_of_all].
    + exists C, L. split_and!; [done|by eapply upto_gen_weaken|done].
  - intros e' Hne Hl Hv id. destruct (Hl Hv id) as (C & H1 & H2). exists C. cbn [latestRows drop_latest]. by rewrite id_rows_drop, bool_decide_eq_false_2.
Qed.

Lemma rows_upto_chain e n l : Forall (in_chain e) (rows_upto e n l).
Proof. apply Forall_forall. by intros r [[? _] _]%list_elem_of_filter. Qed.

Lemma id_rows_upto e n id l : id_rows e id (rows_upto e n l) = filter (fun r => row_gen r <= n) (id_rows e id l).
Proof. unfold id_rows, rows_upto. rewrite !list_filter_filter. apply list_filter_iff. tauto. Qed.

(** An empty latest table is filled from the raw one. *)
Lemma refill_latest_safe e n t :
  (forall id, id_rows e id (latestRows t) = []) -> safe e n t (refill_latest e n t).
Proof.
  intros Hempty. split; [by left|by intros e' ?|..].
  - intros m e' Hm Hr Hl Hv id. destruct (Hl Hv id) as (C & L & H1 & H2 & H3). cbn [latestRows refill_latest]. rewrite id_rows_app.
    destruct (decide (e' = e)) as [->|Hne].
    + destruct (Hr id) as [Ha Hrows]. rewrite Hempty, id_rows_upto, Hrows. unfold rows_of. rewrite Hv. cbn [app].
      exists [], (upto_gen n (boxes_of t e id)). split_and!; [by apply upto_gen_ascending|by rewrite upto_gen_upto|].
      unfold expand. rewrite expand_cut by done. unfold part_of. symmetry. apply filter_all. intros x _. apply not_elem_of_nil.
    + rewrite (id_rows_other e e' id _ Hne (rows_upto_chain e n (rows t))), app_nil_r. exists C, L. split_and!; [done|by eapply upto_gen_weaken|done].
  - intros e' Hne Hl Hv id. destruct (Hl Hv id) as (C & H1 & H2). exists C. cbn [latestRows refill_latest].
    by rewrite id_rows_app, (id_rows_other e e' id _ Hne (rows_upto_chain e n (rows t))), app_nil_r.
Qed.

Lemma delete_rows_spec sel del e n t err t' :
  (forall t, filter (fun r => in_chain e r /\ n < row_gen r) (sel t) = [] -> del t = t) ->
  delete_rows sel del e n t = (err, t') -> exists t1, tolerates t t1 /\ (t' = del t1 \/ err <> None /\ t' = t1).
Proof.
  intros Hdel. unfold delete_rows. destruct (query _ t) as [[count|qerr] t1] eqn:Eq; apply query_spec in Eq as [Ht Hq].
  2:{ intros [= <- <-]. exists t1. split; [done|]. by right. }
  destruct Hq as [[= ->]|[? ?]]; [|done]. destruct (Z.eqb_spec (Z.of_nat (length (filter (fun r => in_chain e r /\ n < row_gen r) (sel t1)))) 0) as [E|].
  - intros [= <- <-]. exists t1. split; [done|]. left. symmetry. apply Hdel. apply nil_length_inv. lia.
  - intros (t2 & Ht2 & Hx)%exec_spec. exists t2. split; [by eapply tolerates_trans|done].
Qed.

Lemma nothing_above e n l : filter (fun r => in_chain e r /\ n < row_gen r) l = [] -> delete_above e n l = l.
Proof.
  intros E. apply filter_all. intros r Hr Hin. apply (not_elem_of_nil r). rewrite <- E. by apply list_elem_of_filter.
Qed.

Lemma reorgInTable_spec e n t err t' :
  reorgInTable e n t = (err, t') -> exists t1, tolerates t t1 /\ (t' = cut_raw e n t1 \/ err <> None /\ t' = t1).
Proof. apply delete_rows_spec. intros [r l ev] H. cbn [rows latestRows events] in *. by rewrite (nothing_above _ _ _ H). Qed.

Lemma reorgInLatest_spec e n t err t' :
  reorgInLatest e n t = (err, t') -> exists t1, tolerates t t1 /\ (t' = cut_latest e n t1 \/ err <> None /\ t' = t1).
Proof. apply delete_rows_spec. intros [r l ev] H. cbn [rows latestRows events] in *. by rewrite (nothing_above _ _ _ H). Qed.

(** ** The number of ids *)

Definition raw_below (n : Z) (t : Tables) (e : string) : Prop := forall id, upto_gen n (boxes_of t e id) = boxes_of t e id.

Lemma cut_partial m n t e :
  versioned (sch_type e) = true -> latest_upto m t e -> n <= m -> raw_below n t e -> latest_partial (cut_latest e n t) e.
Proof.
  intros Hv Hl Hm Hb id. destruct (Hl Hv id) as (C & L & H1 & H2 & H3). exists C. cbn [latestRows cut_latest].
  rewrite id_rows_cut, bool_decide_eq_true_2, H3, part_of_cut by done. f_equal. change (table_log (cut_latest e n t)) with (table_log t).
  rewrite <- (Hb id). by eapply upto_gen_weaken.
Qed.

(** A table with no rows of an entity beyond the block. *)
Lemma rows_upto_all e n l : (forall id, filter (fun r => row_gen r <= n) (id_rows e id l) = id_rows e id l) -> rows_upto e n l = table_of e l.
Proof.
  intros H. unfold rows_upto, table_of. apply filter_in. intros r Hr. split; [tauto|]. intros Hc. split; [done|].
  assert (Hin : r ∈ id_rows e (row_id r) l) by (by apply elem_of_id_rows). rewrite <- H in Hin. by apply list_elem_of_filter in Hin as [? _].
Qed.

Lemma partial_below n t e id : raw_ok t e -> raw_below n t e -> latest_partial t e ->
  filter (fun r => row_gen r <= n) (id_rows e id (latestRows t)) = id_rows e id (latestRows t).
Proof. intros Hr Hb Hp. destruct (Hp id) as [C E]. destruct (Hr id) as [Ha _]. by rewrite E, part_of_cut, (Hb id). Qed.

Lemma raw_below_rows n t e id : raw_ok t e -> raw_below n t e -> filter (fun r => row_gen r <= n) (id_rows e id (rows t)) = id_rows e id (rows t).
Proof. intros Hr Hb. destruct (Hr id) as [Ha E]. by rewrite E, rows_of_cut, (Hb id). Qed.

Lemma rows_of_nil et l : rows_of et l = [] <-> l = [].
Proof. unfold rows_of, expand. destruct (versioned et); destruct l; cbn; done. Qed.

Lemma elem_of_table_ids t e id : raw_ok t e -> id ∈ distinct_ids (table_of e (rows t)) <-> boxes_of t e id <> [].
Proof.
  intros Hr. destruct (Hr id) as [_ E]. rewrite <- (rows_of_nil (sch_type e)), <- E. unfold distinct_ids. rewrite elem_of_remove_dups, list_elem_of_fmap. split.
  - intros (r & -> & [Hch Hin]%list_elem_of_filter) En. apply (not_elem_of_nil r). rewrite <- En. by apply elem_of_id_rows.
  - destruct (id_rows e id (rows t)) as [|r l] eqn:El; [done|]. intros _. assert (Hin : r ∈ id_rows e id (rows t)) by (rewrite El; by left).
    apply elem_of_id_rows in Hin as (Hin & Hch & <-). exists r. split; [done|]. by apply list_elem_of_filter.
Qed.

Lemma uncancelled_length (l : list entityRow) :
  length (filter (fun g => 0 < sum_sign g) (groups id_version l)) = length (uncancelled (fun _ => true) l).
Proof.
  unfold uncancelled. rewrite (filter_all (fun _ => true = true)) by done.
  assert (Hg : forall g, g ∈ filter (fun g => 0 < sum_sign g) (groups id_version l) -> exists r, head g = Some r).
  { intros g [_ Hg]%list_elem_of_filter. by apply (group_nonempty id_version l). }
  induction (filter (fun g => 0 < sum_sign g) (groups id_version l)) as [|g gs IH]; [done|]. cbn.
  destruct (Hg g) as [r ->]; [by left|]. cbn. f_equal. apply IH. intros g' ?. apply Hg. by right.
Qed.

(** Where the numbers agree no current row is missing; so nothing more is needed. *)
Lemma counts_agree t e :
  versioned (sch_type e) = true -> raw_ok t e -> latest_partial t e ->
  length (distinct_ids (table_of e (rows t))) = length (filter (fun g => 0 < sum_sign g) (groups id_version (table_of e (latestRows t)))) ->
  latest_ok t e.
Proof.
  intros Hv Hr Hp. rewrite uncancelled_length. set (M := uncancelled (fun _ => true) (table_of e (latestRows t))). intros Hlen.
  assert (HM : forall r, r ∈ M -> exists C b, id_rows e (row_id r) (latestRows t) = part_of C (boxes_of t e (row_id r)) /\ Z.of_nat (length (boxes_of t e (row_id r))) ∉ C /\
    last (boxes_of t e (row_id r)) = Some b /\ r = mkRow b storeChain 1 (Z.of_nat (length (boxes_of t e (row_id r))))).
  { intros r Hin. destruct (Hp (row_id r)) as [C EC]. destruct (proj1 (elem_of_uncancelled e _ (fun _ => true) r C _ (fun _ _ _ _ => eq_refl) EC) Hin) as ((b & Hb & Hrb) & Hn & _).
    by exists C, b. }
  assert (Hnd : NoDup (map row_id M)).
  { apply NoDup_fmap_2_strong; [|apply uncancelled_nodup]. intros x y Hx Hy Hxy. destruct (HM x Hx) as (C1 & b & _ & _ & Hb & Ex), (HM y Hy) as (C2 & b' & _ & _ & Hb' & Ey).
    rewrite Hxy in Hb, Ex. congruence. }
  assert (Hperm : map row_id M ≡ₚ distinct_ids (table_of e (rows t))).
  { apply submseteq_length_Permutation; [|rewrite length_map; lia]. apply NoDup_submseteq; [done|]. intros id (r & -> & Hin)%list_elem_of_fmap.
    apply elem_of_table_ids; [done|]. destruct (HM r Hin) as (C1 & b & _ & _ & Hb & _). intros E. by rewrite E in Hb. }
  intros _ id. destruct (Hp id) as [C EC]. exists (filter (fun v => v < Z.of_nat (length (boxes_of t e id))) C).
  split; [apply Forall_forall; by intros v [? _]%list_elem_of_filter|]. rewrite EC. unfold part_of. apply filter_in. intros r Hrin.
  rewrite list_elem_of_filter. split; [tauto|]. intros Hn HinC. apply Hn. split; [|done].
  pose proof (elem_of_expand_from _ _ _ _ Hrin) as ([_ Hle] & _). destruct (decide (Version r = Z.of_nat (length (boxes_of t e id)))) as [Ev|]; [|lia]. exfalso.
  assert (Hid : id ∈ map row_id M).
  { rewrite Hperm. apply elem_of_table_ids; [done|]. intros E0. rewrite E0 in Hrin. by apply not_elem_of_nil in Hrin. }
  apply list_elem_of_fmap in Hid as (x & -> & Hx). 
  destruct (proj1 (elem_of_uncancelled e _ (fun _ => true) x C _ (fun _ _ _ _ => eq_refl) EC) Hx) as (_ & Hnin & _). by rewrite <- Ev in Hnin.
Qed.

(** ** A table *)

Lemma raw_below_tolerates n t t' e : tolerates t t' -> raw_below n t e -> raw_below n t' e.
Proof. intros Ht Hb id. rewrite (tolerates_log _ _ Ht). apply Hb. Qed.

(** The table is made anew. *)
Lemma refilled_ok e n t : raw_ok t e -> raw_below n t e -> (forall id, id_rows e id (latestRows t) = []) -> latest_ok (refill_latest e n t) e.
Proof.
  intros Hr Hb He Hv id. exists []. split; [constructor|]. cbn [latestRows refill_latest]. change (table_log (refill_latest e n t)) with (table_log t).
  rewrite id_rows_app, He, id_rows_upto, raw_below_rows by done. destruct (Hr id) as [_ ->]. unfold rows_of, part_of. rewrite Hv. symmetry. apply filter_all.
  intros x _. apply not_elem_of_nil.
Qed.

(** What holds between the steps on the latest table. *)
Record going (e : string) (n : Z) (t0 t : Tables) : Prop := mkGoing {
  go_safe : safe e n t0 t;
  go_raw : raw_ok t0 e -> raw_below n t0 e -> raw_ok t e /\ raw_below n t e;
  go_partial m : versioned (sch_type e) = true -> raw_ok t0 e -> raw_below n t0 e -> n <= m -> latest_upto m t0 e -> latest_partial t e
}.

Lemma going_tolerates e n t0 t t' : going e n t0 t -> tolerates t t' -> going e n t0 t'.
Proof.
  intros [G1 G2 G3] Ht. split.
  - eapply safe_trans; [done|by apply tolerates_safe].
  - intros H1 H2. destruct (G2 H1 H2). split; [by eapply tolerates_raw|by eapply raw_below_tolerates].
  - intros m H1 H2 H3 H4 H5. apply (tl_partial _ _ Ht). by eapply G3.
Qed.

Lemma latest_cut_going e n t t1 : tolerates t t1 -> going e n t (cut_latest e n t1).
Proof.
  intros Ht. split.
  - eapply safe_trans; [by apply tolerates_safe|apply cut_latest_safe].
  - intros H1 H2. split; [exact (tolerates_raw t t1 e Ht H1)|exact (raw_below_tolerates n t t1 e Ht H2)].
  - intros m Hv Hr Hb Hm Hl. eapply cut_partial; [done|by apply (tl_latest _ _ Ht)|done|by eapply raw_below_tolerates].
Qed.

Lemma reorgInVersionedLatestTable_spec e n t err t' :
  reorgInVersionedLatestTable e n t = (err, t') -> safe e n t t' /\ table_log t' = table_log t /\
  (err = None -> forall m, n <= m -> raw_ok t e -> raw_below n t e -> latest_upto m t e -> latest_ok t' e).
Proof.
  unfold reorgInVersionedLatestTable. destruct (reorgInLatest e n t) as [[err1|] t1] eqn:E1; apply reorgInLatest_spec in E1 as (t1' & Ht1 & Hx1).
  { intros [= <- <-]. split_and!; [|destruct Hx1 as [->|[_ ->]]; exact (tolerates_log t t1' Ht1)|done]. destruct Hx1 as [->|[_ ->]]; [|by apply tolerates_safe].
    apply (go_safe _ _ _ _ (latest_cut_going e n t t1' Ht1)). }
  destruct Hx1 as [->|[? _]]; [|done]. pose proof (latest_cut_going e n t t1' Ht1) as G1. assert (L1 : table_log (cut_latest e n t1') = table_log t) by exact (tolerates_log t t1' Ht1).
  destruct (query _ (cut_latest e n t1')) as [[expCount|err2] t2] eqn:E2; apply query_spec in E2 as [Ht2 Hq2]; apply (going_tolerates _ _ _ _ _ G1) in Ht2 as G2;
    (assert (L2 : table_log t2 = table_log t) by (rewrite <- L1; exact (tolerates_log _ _ Ht2))); [|intros [= <- <-]; split_and!; [apply G2|done|done]].
  destruct (query _ t2) as [[realCount|err3] t3] eqn:E3; apply query_spec in E3 as [Ht3 Hq3]; apply (going_tolerates _ _ _ _ _ G2) in Ht3 as G3;
    (assert (L3 : table_log t3 = table_log t) by (rewrite <- L2; by apply tolerates_log)); [|intros [= <- <-]; split_and!; [apply G3|done|done]].
  destruct Hq2 as [[= ->]|[? ?]]; [|done]. destruct Hq3 as [[= ->]|[? ?]]; [|done].
  destruct (Nat.eqb_spec (length (distinct_ids (rows_upto e n (rows t2)))) (length (filter (fun g => 0 < sum_sign g) (groups id_version (rows_upto e n (latestRows t3)))))) as [Ecount|_].
  - intros [= <- <-]. split_and!; [apply G3|done|]. intros _ m Hm Hr Hb Hl. destruct (versioned (sch_type e)) eqn:Hv; [|intros ?; congruence].
    destruct G3 as [_ S2 S3]. destruct (S2 Hr Hb) as [Hr3 Hb3]. pose proof (S3 m Hv Hr Hb Hm Hl) as Hp3. apply counts_agree; [done|done|done|].
    rewrite <- (tl_rows _ _ Ht3) in Ecount.
    rewrite (rows_upto_all e n (rows t3)), (rows_upto_all e n (latestRows t3)) in Ecount; [done|..]; intros id; [by apply partial_below|by apply raw_below_rows].
  - destruct (exec _ t3) as [err4 t4] eqn:E4. apply exec_spec in E4 as (t4' & Ht4 & Hx4). pose proof (going_tolerates _ _ _ _ _ G3 Ht4) as G4.
    fold (drop_latest e t4') in Hx4. assert (L4 : table_log t4' = table_log t) by (rewrite <- L3; by apply tolerates_log).
    assert (G4' : safe e n t t4) by (destruct Hx4 as [->|[_ ->]]; [eapply safe_trans; [apply G4|apply drop_latest_safe]|apply G4]).
    assert (L4' : table_log t4 = table_log t) by (by destruct Hx4 as [->|[_ ->]]).
    destruct err4 as [err4|]; [intros [= <- <-]; by split_and!|]. destruct Hx4 as [->|[? _]]; [|done].
    destruct (exec _ (drop_latest e t4')) as [err5 t5] eqn:E5. apply exec_spec in E5 as (t5' & Ht5 & Hx5). fold (refill_latest e n t5') in Hx5. intros [= <- <-].
    assert (Hempty : forall id, id_rows e id (latestRows t5') = []).
    { intros id. apply (tl_empty _ _ Ht5). cbn [latestRows drop_latest]. by rewrite id_rows_drop, bool_decide_eq_true_2. }
    assert (G5 : safe e n t t5') by (eapply safe_trans; [exact G4'|by apply tolerates_safe]). assert (L5 : table_log t5' = table_log t) by (rewrite <- L4'; by apply tolerates_log).
    destruct Hx5 as [->|[? ->]]; [|by split_and!]. split_and!; [eapply safe_trans; [exact G5|by apply refill_latest_safe]|done|]. intros _ m Hm Hr Hb _.
    apply refilled_ok; [by apply (sf_raw _ _ _ _ G5)| |done]. intros id. rewrite L5. apply Hb.
Qed.

Lemma reorg_entity_spec e n t err t' :
  reorg_entity e n t = (err, t') -> safe e n t t' /\ (err = None -> table_log t' = cut_log e n (table_log t)) /\
  (err = None -> forall m, n <= m -> raw_ok t e -> latest_upto m t e -> latest_ok t' e).
Proof.
  unfold reorg_entity. destruct (reorgInTable e n t) as [[err1|] t1] eqn:E1; apply reorgInTable_spec in E1 as (t1' & Ht1 & Hx1).
  { intros [= <- <-]. split_and!; [|done|done]. destruct Hx1 as [->|[_ ->]]; [|by apply tolerates_safe].
    eapply safe_trans; [by apply tolerates_safe|apply cut_raw_safe]. }
  destruct Hx1 as [->|[? _]]; [|done]. assert (S1 : safe e n t (cut_raw e n t1')) by (eapply safe_trans; [by apply tolerates_safe|apply cut_raw_safe]).
  assert (L1 : table_log (cut_raw e n t1') = cut_log e n (table_log t)) by (by rewrite cut_raw_log, (tolerates_log _ _ Ht1)).
  destruct (versioned (sch_type e)) eqn:Hv; [|intros [= <- <-]; split_and!; [done|done|]; intros ? ? ? ? ? ?; congruence].
  intros (S2 & L2 & Hok)%reorgInVersionedLatestTable_spec. split_and!; [by eapply safe_trans|by rewrite L2|]. intros Hn m Hm Hr Hl.
  apply (Hok Hn n); [lia|by apply (sf_raw _ _ _ _ S1)| |by apply (sf_upto _ _ _ _ S1 m)]. intros id.
  rewrite cut_raw_boxes, bool_decide_eq_true_2 by done. by rewrite upto_gen_upto.
Qed.

(** ** All tables *)

Definition kept_upto (es : list string) (n : Z) (l : list EntityBox) : list EntityBox := filter (fun b => ~ (Entity b ∈ es /\ n < GenBlockNumber b)) l.

Lemma cut_log_sublist e n l : cut_log e n l `sublist_of` l.
Proof. apply sublist_filter. Qed.

Lemma cut_log_below e n l : upto_gen n (cut_log e n l) = upto_gen n l.
Proof.
  unfold upto_gen, cut_log. rewrite list_filter_filter. apply list_filter_iff. intros b. split; [tauto|]. intros H. split; [done|]. lia.
Qed.

Lemma kept_upto_cons e es n l : kept_upto es n (cut_log e n l) = kept_upto (e :: es) n l.
Proof.
  unfold kept_upto, cut_log. rewrite list_filter_filter. apply list_filter_iff. intros b. rewrite elem_of_cons. tauto.
Qed.

Lemma safe_log e n t t' : safe e n t t' -> table_log t' `sublist_of` table_log t /\ upto_gen n (table_log t') = upto_gen n (table_log t).
Proof. intros [[->| ->] _ _ _]; [done|]. split; [apply cut_log_sublist|apply cut_log_below]. Qed.

Lemma reorg_entities_spec es n t err t' :
  reorg_entities es n t = (err, t') ->
  (table_log t' `sublist_of` table_log t /\ upto_gen n (table_log t') = upto_gen n (table_log t) /\ (err = None -> table_log t' = kept_upto es n (table_log t))) /\
  (forall e, raw_ok t e -> raw_ok t' e) /\
  (forall m e, n <= m -> raw_ok t e -> latest_upto m t e -> latest_upto n t' e /\ (err = None -> e ∈ es \/ latest_ok t e -> latest_ok t' e)).
Proof.
  revert t. induction es as [|e es IH]; intros t; cbn [reorg_entities].
  { intros [= <- <-]. split_and!; [done|done| |done|].
    - intros _. symmetry. apply filter_all. intros b _ [Hin _]. by apply not_elem_of_nil in Hin.
    - intros m e Hm Hr Hl. split; [by eapply latest_upto_weaken|]. intros _ [?%not_elem_of_nil|?]; done. }
  destruct (reorg_entity e n t) as [[err1|] t1] eqn:E1; apply reorg_entity_spec in E1 as (S1 & L1 & Hok1); destruct (safe_log _ _ _ _ S1) as [Sub1 Up1].
  { intros [= <- <-]. split_and!; [done|done|done|apply S1|]. intros m e' Hm Hr Hl. split; [by apply (sf_upto _ _ _ _ S1 m)|done]. }
  specialize (L1 eq_refl). intros ((Sub2 & Up2 & L2) & R2 & B2)%IH. split_and!.
  - by etrans.
  - by rewrite Up2.
  - intros Hn. by rewrite (L2 Hn), L1, kept_upto_cons.
  - intros e' Hr. apply R2. by apply (sf_raw _ _ _ _ S1).
  - intros m e' Hm Hr Hl. pose proof (sf_raw _ _ _ _ S1 e' Hr) as Hr1. pose proof (sf_upto _ _ _ _ S1 m e' Hm Hr Hl) as Hl1.
    destruct (B2 n e' ltac:(lia) Hr1 Hl1) as [Hl2 Hok2]. split; [done|]. intros Hn Hin. apply (Hok2 Hn).
    destruct (decide (e' ∈ es)) as [|Hnin]; [by left|right]. destruct (decide (e' = e)) as [->|Hne]; [by apply (Hok1 eq_refl m)|].
    apply (sf_ok _ _ _ _ S1); [done|]. destruct Hin as [Hin|?]; [|done]. by apply elem_of_cons in Hin as [?|?].
Qed.

Lemma elsewhere_tolerates k t err t' : elsewhere k t = (err, t') -> tolerates t t'.
Proof.
  revert t. induction k as [|k IH]; intros t; cbn [elsewhere]; [intros [= <- <-]; apply tolerates_refl|].
  destruct (exec id t) as [err1 t1] eqn:E1. apply exec_spec in E1 as (t1' & Ht1 & Hx).
  assert (Ht : tolerates t t1) by (by destruct Hx as [->|[_ ->]]). destruct err1; [by intros [= <- <-]|]. intros Hk%IH. by eapply tolerates_trans.
Qed.

Lemma kept_upto_listed n t : kept_upto sch_entities n (table_log t) = upto_gen n (table_log t).
Proof.
  unfold kept_upto, upto_gen. apply filter_in. intros b (r & -> & [(_ & _ & Hin) _]%list_elem_of_filter)%list_elem_of_fmap. split; [|lia].
  intros Hn. destruct (decide (n < GenBlockNumber (rowBox r))); [tauto|lia].
Qed.

Lemma reorg_rows n t err t' :
  store_reorg n t = (err, t') ->
  (forall m, n <= m -> tables_base m t -> tables_base n t' /\ (err = None -> tables_ok t')) /\ table_log t' `sublist_of` table_log t /\
  upto_gen n (table_log t') = upto_gen n (table_log t) /\ (err = None -> table_log t' = upto_gen n (table_log t)).
Proof.
  unfold store_reorg. destruct (reorg_entities sch_entities n t) as [err1 t1] eqn:E1. apply reorg_entities_spec in E1 as ((Sub & Up & L) & R & B).
  assert (Hbase : forall m, n <= m -> tables_base m t -> tables_base n t1 /\ (err1 = None -> tables_ok t1)).
  { intros m Hm Hb. split.
    - intros e He. destruct (Hb e He) as [Hr Hl]. split; [by apply R|by apply (B m)].
    - intros Hn e He. destruct (Hb e He) as [Hr Hl]. split; [by apply R|]. apply (B m); [done|done|done|done|]. left. by apply (ok_listed e (proj2 He)). }
  destruct err1 as [err1|].
  { intros [= <- <-]. split_and!; [|done|done|done]. intros m Hm Hb. split; [by eapply Hbase|done]. }
  intros Ht%elsewhere_tolerates. rewrite (tolerates_log _ _ Ht). split_and!; [|done|done|intros _; rewrite (L eq_refl); apply kept_upto_listed].
  intros m Hm Hb. destruct (Hbase m Hm Hb) as [H1 H2]. split; [by eapply tolerates_base|]. intros _. eapply tolerates_tables; [done|by apply H2].
Qed.

(** ** The tables as those of the chain store *)

#[global] Instance entity_tables_laws : EntityStoreLaws (Db := Tables).
Proof.
  refine {| elog := table_log; dbase := tables_base; dok := tables_ok; sql_match := table_match |}.
  - intros d m. apply tables_ok_base.
  - done.
  - apply ok_name.
  - intros e Hc. by apply ok_listed.
  - intros e id d r d' [Ht Hr]%getEntity_rows. split_and!; [by apply tolerates_log|by apply tolerates_tables|]. intros Hp Hok _. by apply Hr.
  - intros e fs excl limit d r d' [Ht Hr]%list_retry_rows. split_and!; [by apply tolerates_log|by apply tolerates_tables|]. intros Hp Hok _. by apply Hr.
  - intros e excl d r d' (H1 & H2 & H3)%countEntity_rows. split_and!; [done|done|]. intros Hp Hok _. by apply H3.
  - intros e d r d' (H1 & H2 & H3)%getAllID_rows. split_and!; [done|done|]. intros Hp Hok _ ids Hids id Hid. apply (H3 Hp Hok ids Hids).
    unfold has_row, stored_row. rewrite ok_name. unfold stored_data in Hid. destruct (last (of_entity e id (table_log d))) as [b|]; [|by destruct Hid].
    cbn in Hid |- *. unfold live. by destruct (Data b); [eexists|destruct Hid].
  - intros e d r d' [Ht Hr]%getMaxID_rows. split_and!; [by apply tolerates_log|by apply tolerates_tables|done].
  - intros e boxes checker getter d n err d' Hs Hb. destruct (setEntities_rows _ _ _ _ _ _ _ _ Hs Hb) as (part & H1 & H2 & H3 & H4).
    exists part. split_and!; [done|done|done|]. intros Hok _ Hasc Hg. by apply H4.
  - intros t d e d' Ht%elsewhere_tolerates. split; [by apply tolerates_log|by apply tolerates_tables].
  - intros n d e d' H. by apply reorg_rows in H.
Defined.
End Spec.
