(* ===== verification/ChainStack.v ===== *)
(** * The entity stack: controller, caches and tables

    The controller of [driver/entity/persistent] on the chain store, the chain store on the
    entity tables. A new chain store on tables in order is a store in order, and no part of
    the stack fails by itself: with a database whose statements do not fail every operation
    on an entity succeeds. *)
From Stdlib Require Import ZArith Lia Ascii String.
From stdpp Require Import base numbers option strings pretty sorting gmap list.
From S2P Require Import Prelude BlockCache RangeText EntityValue EntityHistory EntityMerge EntityTyping EntityCtrl EntityRich EntityFilter EntitySql ChainStore EntityTable EntitySpec ChainStoreSpec TableRows TableSpec TableRead TableWrite TableReorg.
#[local] Open Scope Z_scope.

(** ** Caches that work on tables that work *)

Section Works.
Context `{HD : Decimal} `{HC : !Conversions} {L Db : Type} `{HLru : !LRU L} `{HDb : !EntityStore Db}.

(** Tables whose operations do not fail. *)
Record DbWorks : Prop := mkDbWorks {
  dw_get e id d : exists r, (db_getEntity (db_GetEntityType e) id d).1 = inl r;
  dw_list e excl limit d : exists l, (db_listEntities (db_GetEntityType e) [] excl limit d).1 = inl l;
  dw_count e excl d : exists n, (db_countEntity (db_GetEntityType e) excl d).1 = inl n;
  dw_ids e d : exists ids, (db_getAllID (db_GetEntityType e) d).1 = inl ids;
  dw_set e boxes checker getter d : IsTimeSeries (db_GetEntityType e) = false -> (db_setEntities (db_GetEntityType e) boxes checker getter d).1.2 = None;
  dw_growth t d : (db_growthAggregation t d).1 = None;
  dw_reorg n d : (db_reorg n d).1 = None;
  dw_check et data : db_CheckValue et data = true
}.

Context (Hw : DbWorks).

Abbreviation CS := (ChainStoreState (L := L) (Db := Db)).

Lemma with_db_works {A} (f : Db -> (A + EntityError) * Db) (c : CS) :
  (forall d, exists a, (f d).1 = inl a) -> exists a c', with_db f c = (inl a, c').
Proof. intros Hf. unfold with_db. destruct (Hf (db c)) as [a Ha]. destruct (f (db c)) as [r d]. cbn in Ha. subst r. by eexists _, _. Qed.

Lemma tryLoadFullCache_works e (c : CS) : exists a c', tryLoadFullCache (db_GetEntityType e) c = (inl a, c').
Proof.
  unfold tryLoadFullCache. destruct (is_in _ _ || _); [by eexists _, _|]. destruct (is_in _ _); [by eexists _, _|].
  destruct (with_db_works _ c (dw_count Hw e (negb (useVersionedCollapsingTable (db_GetEntityType e))))) as (count & c1 & ->).
  destruct (_ <? count); [by eexists _, _|].
  destruct (with_db_works _ c1 (dw_list Hw e (negb (useVersionedCollapsingTable (db_GetEntityType e))) MaxInt)) as (l & c2 & ->). by eexists _, _.
Qed.

Lemma tryLoadFullIDCache_works e known (c : CS) : exists a c', tryLoadFullIDCache (db_GetEntityType e) known c = (inl a, c').
Proof.
  unfold tryLoadFullIDCache. destruct (is_in _ _); [by eexists _, _|]. destruct (is_in _ _); [by eexists _, _|].
  assert (Hcount : exists n c1, (if known <? 0 then
             match with_db (db_countEntity (db_GetEntityType e) true) c with
             | (inr err, c) => (inr err, c)
             | (inl count, c) => (inl (to_int64 count), c)
             end
           else (inl known, c)) = (inl n, c1)).
  { destruct (known <? 0); [|by eexists _, _]. destruct (with_db_works _ c (dw_count Hw e true)) as (count & c1 & ->). by eexists _, _. }
  destruct Hcount as (n & c1 & ->). destruct (fullIDCacheMaxCount c1 <? wrap n); [by eexists _, _|].
  destruct (with_db_works _ c1 (dw_ids Hw e)) as (ids & c2 & ->). by eexists _, _.
Qed.

Lemma tryLoadCache_works e (c : CS) : exists a c', tryLoadCache (db_GetEntityType e) c = (inl a, c').
Proof.
  unfold tryLoadCache. destruct (tryLoadFullCache_works e c) as ([[[] loaded] known] & c1 & ->); [by eexists _, _|]. apply tryLoadFullIDCache_works.
Qed.

Lemma GetEntity_works e id (c : CS) : exists a c', GetEntity (db_GetEntityType e) id c = (inl a, c').
Proof.
  unfold GetEntity. destruct (IsCache _).
  { destruct (cacheEntity c !! _); [|by eexists _, _]. destruct (lru_Get id _). by eexists _, _. }
  destruct (tryLoadCache_works e c) as (a & c1 & ->). destruct (is_in _ (fullCacheLoaded c1)); [by eexists _, _|].
  destruct (is_in _ _ && _); [by eexists _, _|]. destruct (lru_Get _ (lruCache c1)) as [[box|] l]; [by eexists _, _|].
  destruct (with_db_works _ (set_lru l c1) (dw_get Hw e id)) as (row & c2 & ->). destruct (row ≫= _); by eexists _, _.
Qed.

Lemma SetEntities_works e boxes (c : CS) : IsTimeSeries (db_GetEntityType e) = false -> (SetEntities (db_GetEntityType e) boxes c).1.2 = None.
Proof.
  intros Hts. unfold SetEntities. rewrite Hts. assert (Hl : exists a c1, (if negb (IsCache (db_GetEntityType e)) && negb false then tryLoadCache (db_GetEntityType e) c else (inl false, c)) = (inl a, c1)).
  { destruct (IsCache _); cbn [negb andb]; [by eexists _, _|]. apply tryLoadCache_works. }
  destruct Hl as (a & c1 & ->). unfold with_db. set (checker := knownExistingIDChecker _ c1). set (getter := knownPreBoxGetter _ c1).
  pose proof (dw_set Hw e boxes checker getter (db c1) Hts) as Hs. destruct (db_setEntities _ boxes checker getter (db c1)) as [[n err] d]. cbn in Hs. subst err.
  repeat case_match; done.
Qed.

Lemma chain_store_works : StoreWorks (St := CS).
Proof.
  split.
  - intros e id c. cbn. destruct (GetEntity_works e id c) as ([box f] & c' & E). cbn in E. rewrite E. by eexists.
  - apply (dw_check Hw).
  - intros e boxes c. apply SetEntities_works.
  - intros t c. cbn. unfold ChainStore_GrowthAggregation, with_db. pose proof (dw_growth Hw t (db c)) as H. by destruct (db_growthAggregation t (db c)).
  - intros n c. cbn. unfold ChainStore_Reorg, with_db. match goal with |- context [db_reorg n ?d] => pose proof (dw_reorg Hw n d) as H; by destruct (db_reorg n d) end.
Qed.
End Works.

(** ** Tables that work *)

Section Tables.
Context `{HD : Decimal} `{HC : !Conversions} `{HS : !Store} `{HOk : !StoreOk}.

(** No statement fails, and every value is accepted. *)
Context (Hno : Failure -> False) (Hcheck : forall et data, store_CheckValue et data = true).

Lemma query_works {A} (f : Tables -> A) t : exists a, (query f t).1 = inl a.
Proof. unfold query. destruct (next_event t) as [[flt|] t']; [by destruct (Hno flt)|by eexists]. Qed.

Lemma query_works' {A} (f : Tables -> A) t : exists a t', query f t = (inl a, t').
Proof. destruct (query_works f t) as [a Ha]. destruct (query f t) as [r t']. cbn in Ha. subst r. by eexists _, _. Qed.

Lemma exec_works f t : exists t', exec f t = (None, t').
Proof. unfold exec. destruct (next_event t) as [[flt|] t']; [by destruct (Hno flt)|by eexists]. Qed.

Lemma list_works e fs cs pk ot excl limit t :
  buildConditions HugeIDSetSize fs = inl cs -> buildConditions HugeIDSetSize (splitFilters fs).1 = inl pk -> buildConditions HugeIDSetSize (splitFilters fs).2 = inl ot ->
  exists l, (store_listEntities (sch_type e) fs excl limit t).1 = inl l.
Proof.
  intros H1 H2 H3. unfold store_listEntities. assert (Ho : exists l t', list_once (sch_type e) fs excl limit t = (inl l, t')).
  { unfold list_once. rewrite H1. destruct (splitFilters fs) as [a b]. cbn in H2, H3. rewrite H2, H3.
    destruct (IsCache _); [by eexists _, _|]. destruct (versioned _); [apply query_works'|]. destruct (IsImmutable _); apply query_works'. }
  destruct Ho as (l & t' & E). cbn [list_retry]. rewrite E. by eexists.
Qed.

Lemma bucketed_works {A} (once : Extra -> Tables -> (A + EntityError) * Tables) zero join t :
  (forall extra t, exists a, (once extra t).1 = inl a) -> exists a, (bucketed once zero join t).1 = inl a.
Proof. intros Ho. unfold bucketed. destruct (Ho (fun _ => true) t) as [a Ha]. destruct (once (fun _ => true) t) as [r t']. cbn in Ha. subst r. by eexists. Qed.

Lemma count_once_works et excl extra t : exists a, (count_once et excl extra t).1 = inl a.
Proof.
  unfold count_once. destruct (IsImmutable et); [apply query_works|]. destruct excl; [|apply query_works]. unfold has_deletions.
  destruct (query_works' (fun t => existsb deleted (with_extra extra (entity_view et t))) t) as (a & t' & ->). apply query_works.
Qed.

Lemma ids_once_works et extra t : exists a, (ids_once et extra t).1 = inl a.
Proof.
  unfold ids_once. destruct (IsImmutable et); [apply query_works|]. unfold has_deletions.
  destruct (query_works' (fun t => existsb deleted (with_extra extra (entity_view et t))) t) as (a & t' & ->). apply query_works.
Qed.

Lemma in_ids_builds e ids : exists cs pk ot, buildConditions HugeIDSetSize [in_ids (sch_type e) ids] = inl cs /\
  buildConditions HugeIDSetSize (splitFilters [in_ids (sch_type e) ids]).1 = inl pk /\ buildConditions HugeIDSetSize (splitFilters [in_ids (sch_type e) ids]).2 = inl ot.
Proof.
  destruct (ok_id e) as (Hf & Hd & Ha). assert (Hc : exists c, buildCondition HugeIDSetSize (in_ids (sch_type e) ids) = inl c).
  { unfold buildCondition. cbn [fField fOp fValue in_ids]. rewrite Hd, Ha. destruct (map VString (ordered_ids ids)) as [|v l]; [by eexists|].
    destruct (bool_decide _ && _); [by eexists|]. destruct (filter _ (v :: l)); by eexists. }
  destruct Hc as [c Hc]. assert (Hall : buildConditions HugeIDSetSize [in_ids (sch_type e) ids] = inl [c]) by (cbn [buildConditions]; by rewrite Hc).
  assert (Hs1 : (splitFilters [in_ids (sch_type e) ids]).1 = [in_ids (sch_type e) ids]) by (cbn [splitFilters fst]; rewrite filter_cons, decide_True by done; done).
  assert (Hs2 : (splitFilters [in_ids (sch_type e) ids]).2 = []) by (cbn [splitFilters snd]; rewrite filter_cons, decide_False by (intros Hn; by apply Hn); done).
  exists [c], [c], []. by rewrite Hs1, Hs2.
Qed.

Lemma prepare_works e checker getter newIds st t : IsImmutable (sch_type e) = false -> exists st' t', prepare (sch_type e) checker getter newIds st t = (inl st', t').
Proof.
  intros Hi. unfold prepare. rewrite Hi. destruct (versioned (sch_type e)).
  - destruct getter as [g|]; [destruct (pre_from_cache _ _ _); by eexists _, _|]. destruct (in_ids_builds e newIds) as (cs & pk & ot & H1 & H2 & H3).
    destruct (list_works e _ cs pk ot false MaxInt t H1 H2 H3) as [l Hl]. destruct (store_listEntities _ _ _ _ t) as [r t']. cbn in Hl. subst r. by eexists _, _.
  - destruct checker as [known|]; [by eexists _, _|]. unfold queryExistEntity. destruct (ordered_ids newIds) as [|i l] eqn:El; [by eexists _, _|].
    match goal with |- context [query ?f t] => destruct (query_works' f t) as (a & t' & ->) end. by eexists _, _.
Qed.

Lemma flush_works e checker getter queue st t : IsImmutable (sch_type e) = false -> exists st' t', flush (sch_type e) checker getter queue st t = ((st', None), t').
Proof.
  intros Hi. unfold flush. destruct queue as [|b queue]; [by eexists _, _|]. rewrite Hi. cbn [andb].
  match goal with |- context [prepare _ _ _ ?ids _ _] => destruct (prepare_works e checker getter ids st t Hi) as (st1 & t1 & ->) end.
  destruct (batch_rows _ _ _) as [l pre]. destruct (exec_works (insert_rows (sch_type e) l) t1) as [t2 ->]. by eexists _, _.
Qed.

Lemma flush_loop_works e checker getter batchSize boxes queue st t :
  IsImmutable (sch_type e) = false -> exists st' t', flush_loop (sch_type e) checker getter batchSize boxes queue st t = ((st', None), t').
Proof.
  intros Hi. revert queue st t. induction boxes as [|b boxes IH]; intros queue st t; cbn [flush_loop]; [by apply flush_works|].
  destruct (batchSize <=? _); [|apply IH]. destruct (flush_works e checker getter (queue ++ [b]) st t Hi) as (st1 & t1 & ->). apply IH.
Qed.

Lemma delete_rows_works sel del e n t : exists t', delete_rows sel del e n t = (None, t').
Proof.
  unfold delete_rows. match goal with |- context [query ?f t] => destruct (query_works' f t) as (a & t1 & ->) end. destruct (a =? 0); [by eexists|]. apply exec_works.
Qed.

Lemma reorg_latest_works e n t : exists t', reorgInVersionedLatestTable e n t = (None, t').
Proof.
  unfold reorgInVersionedLatestTable. unfold reorgInLatest.
  match goal with |- context [delete_rows ?s ?d e n t] => destruct (delete_rows_works s d e n t) as [t1 ->] end.
  match goal with |- context [query ?f t1] => destruct (query_works' f t1) as (a & t2 & ->) end.
  match goal with |- context [query ?f t2] => destruct (query_works' f t2) as (b & t3 & ->) end.
  destruct (Nat.eqb a b); [by eexists|]. match goal with |- context [exec ?f t3] => destruct (exec_works f t3) as [t4 ->] end. apply exec_works.
Qed.

Lemma reorg_entities_works es n t : exists t', reorg_entities es n t = (None, t').
Proof.
  revert t. induction es as [|e es IH]; intros t; cbn [reorg_entities]; [by eexists|]. unfold reorg_entity, reorgInTable.
  match goal with |- context [delete_rows ?s ?d e n t] => destruct (delete_rows_works s d e n t) as [t1 ->] end.
  destruct (versioned (sch_type e)); [|apply IH]. destruct (reorg_latest_works e n t1) as [t2 ->]. apply IH.
Qed.

Lemma elsewhere_works k t : exists t', elsewhere k t = (None, t').
Proof. revert t. induction k as [|k IH]; intros t; cbn [elsewhere]; [by eexists|]. destruct (exec_works id t) as [t1 ->]. apply IH. Qed.

Lemma entity_tables_work : DbWorks (Db := Tables).
Proof.
  split.
  - intros e id d. cbn. unfold store_getEntity. destruct (IsCache _); [by eexists|]. apply query_works.
  - intros e excl limit d. by apply (list_works e [] [] [] []).
  - intros e excl d. apply bucketed_works. intros. apply count_once_works.
  - intros e d. apply bucketed_works. intros. apply ids_once_works.
  - intros e boxes checker getter d Hts. cbn. unfold store_setEntities. destruct (IsCache (sch_type e)) eqn:Hc; [done|].
    match goal with |- context [flush_loop _ _ _ ?bs ?bx ?q ?st ?t] => destruct (flush_loop_works e checker getter bs bx q st t) as (st1 & t1 & ->) end; [|done].
    apply ok_mutable. by split.
  - intros t d. cbn. unfold store_growthAggregation. by match goal with |- context [elsewhere ?k d] => destruct (elsewhere_works k d) as [t1 ->] end.
  - intros n d. cbn. unfold store_reorg. destruct (reorg_entities_works sch_entities n d) as [t1 ->].
    by match goal with |- context [elsewhere ?k t1] => destruct (elsewhere_works k t1) as [t2 ->] end.
  - apply Hcheck.
Qed.
End Tables.

(** ** A new stack *)

Section New.
Context `{HD : Decimal} `{HC : !Conversions} {L : Type} `{HLru : !LRU L} `{HLL : !LRULaws L} `{HS : !Store} `{HOk : !StoreOk}.

(** Tables with nothing in them. *)
Definition empty_tables (events : list Event) : Tables := mkTables [] [] events.

Lemma empty_tables_ok evs : tables_ok (empty_tables evs).
Proof.
  intros e _. split; [intros id; split; [constructor|]|intros _ id; exists []; split; [constructor|done]].
  unfold rows_of. by destruct (versioned (sch_type e)).
Qed.

Lemma new_chain_store (t : Tables) cap dlim idmax (c : ChainStoreState (L := L)) :
  0 <= dlim < 2 ^ 63 -> NewChainStore t cap dlim idmax = Ok c -> clog c = table_log t /\ (tables_ok t -> sclean c) /\ (forall m, tables_base m t -> sbase m c).
Proof.
  intros Hl. unfold NewChainStore. destruct (cap <=? 0); [done|]. intros [= <-]. split_and!; [done|..].
  - intros Hok. split; [done|]. split; [done|]. intros e Hp.
    assert (Hnone : forall id, cached_at (mkChainStore t (NewLRU cap) ∅ ∅ ∅ ∅ ∅ ∅ ∅ dlim idmax) e id = None) by (intros id; unfold cached_at; cbn; by rewrite NewLRU_map).
    split; [intros Hin|intros id Hin|intros id b Hb; by rewrite Hnone in Hb|intros Hin|intros _ _; split; [apply not_elem_of_empty|done]];
      by apply not_elem_of_empty in Hin.
  - intros m Hb. by split.
Qed.
End New.
