(* ===== verification/EntityWrite.v ===== *)
(** * Writing entities

    What [SetEntity] of the entity controller does to the value of an entity at a block. *)
From Stdlib Require Import ZArith Lia Ascii String.
From stdpp Require Import base numbers option strings pretty sorting gmap list.
From S2P Require Import Prelude BlockCache RangeBase RangeSet RangeSetOps RangeText EntityValue EntityHistory EntityMerge EntityCtrl EntitySpec.

Section Writing.
Context `{HD : Decimal}.

Abbreviation DataMap := (gmap string Value).

Lemma upto_app m h1 h2 : upto m (h1 ++ h2) = upto m h1 ++ upto m h2.
Proof. apply filter_app. Qed.

Lemma upto_all m h : Forall (fun b => gen b <= m) h -> upto m h = h.
Proof. intros Hf. apply filter_all. by rewrite Forall_forall in Hf. Qed.

Lemma upto_empty m h : Forall (fun b => m < gen b) h -> upto m h = [].
Proof. intros Hf. apply filter_none. rewrite Forall_forall in Hf. intros x Hx. specialize (Hf x Hx). lia. Qed.

Lemma upto_upto m n h : upto m (upto n h) = upto (Z.min m n) h.
Proof. unfold upto. rewrite list_filter_filter. apply list_filter_iff. intros b. lia. Qed.

(** Where a history has two parts and a block between them. *)
Lemma upto_split m c lo hi :
  Forall (fun b => gen b < c) lo -> Forall (fun b => c < gen b) hi ->
  upto m (lo ++ hi) = if m <? c then upto m lo else lo ++ upto m hi.
Proof.
  intros Hlo Hhi. rewrite upto_app. bcase.
  - rewrite (upto_empty m hi), app_nil_r; [done|]. eapply Forall_impl; [exact Hhi|]. simpl. lia.
  - rewrite (upto_all m lo); [done|]. eapply Forall_impl; [exact Hlo|]. simpl. lia.
Qed.

Lemma beyond_split c lo hi :
  Forall (fun b => gen b <= c) lo -> Forall (fun b => c < gen b) hi -> beyond c (lo ++ hi) = hi.
Proof.
  intros Hlo Hhi. unfold beyond. rewrite filter_app, filter_none, filter_all; [done|by rewrite Forall_forall in Hhi|].
  intros x Hx. rewrite Forall_forall in Hlo. specialize (Hlo x Hx). lia.
Qed.

(** The box of the same block, if there is one, can be merged exactly with the new one. *)
Definition mergeable (et : EntityType) (prev : option DataMap) (h : list UncommittedEntityBox) (nw : UncommittedEntityBox) : Prop :=
  forall lo old hi p, h = lo ++ old :: hi -> gen old = gen nw -> eval et prev lo = Ok p -> ops_exact et (default ∅ p) old nw.

Definition about (nw : UncommittedEntityBox) (b : UncommittedEntityBox) : Prop :=
  box_is (Entity (ebox nw)) (ID (ebox nw)) (ebox b).

Lemma Merge_about et e n m : Merge et e n = Ok m -> about n m.
Proof.
  unfold Merge. case_bool_decide as H1; [done|]. case_bool_decide as H2; [done|].
  destruct (Data (ebox n)), (Data (ebox e)); try (by intros [= <-]; split).
  - destruct (merge_ops _ _ _ _) as [[d ops]| |]; try done. intros [= <-]. by split.
  - destruct (calc_all _ _ _ _) as [d'| |]; try done. intros [= <-]. by split.
Qed.

(** What a pushed box does to the history: nothing below its block; from its block on the
    later boxes work on what it makes of the value at its block. *)
Record pushed (et : EntityType) (prev v1 : option DataMap) (nw : UncommittedEntityBox) (h h' : list UncommittedEntityBox) : Prop := mkPushed {
  pu_below m : m < gen nw -> upto m h' = upto m h;
  pu_from m : gen nw <= m -> eval et prev (upto m h') = eval et v1 (upto m (beyond (gen nw) h));
  pu_gens x : x ∈ h' -> gen x = gen nw \/ x ∈ h;
  pu_here : exists x, x ∈ h' /\ gen x = gen nw
}.

Lemma Push_eval et prev h nw v0 v1 :
  hist_ok h -> Forall (box_ok et) h -> Forall (about nw) h -> box_ok et nw -> mergeable et prev h nw ->
  eval et prev (upto (gen nw) h) = Ok v0 -> exec_box et (default ∅ v0) nw = Ok v1 ->
  exists merged b h', Push et nw h = Ok ((merged, b), h') /\ h' <> [] /\ hist_ok h' /\ Forall (box_ok et) h' /\ Forall (about nw) h' /\
    pushed et prev v1 nw h h'.
Proof.
  intros Hh Hb Ha Hnw Hmg E0 E1.
  destruct (Push_spec et nw h Hh) as [(lo & hi & -> & Hlo & Hhi & Hp)|(lo & old & hi & -> & Hg & Hlo & Hhi & Hp)].
  - apply Forall_app in Hb as [B1 B2], Ha as [A1 A2]. rewrite Hp. eexists _, _, _. split; [reflexivity|].
    split; [by destruct lo|]. split; [by eapply Push_hist_ok|]. split; [by apply Forall_app; split; [|constructor]|].
    split; [by apply Forall_app; split; [|constructor]|].
    rewrite (upto_split _ _ _ _ Hlo Hhi), (proj2 (Z.ltb_ge _ _)) in E0 by lia. rewrite (upto_empty _ hi), app_nil_r in E0 by done.
    split.
    + intros m Hm. change (nw :: hi) with ([nw] ++ hi). rewrite !upto_app, (upto_empty m [nw]) by (by constructor). done.
    + intros m Hm. rewrite beyond_split; [|eapply Forall_impl; [exact Hlo|simpl; lia]|done].
      change (nw :: hi) with ([nw] ++ hi). rewrite !upto_app.
      rewrite (upto_all m lo) by (eapply Forall_impl; [exact Hlo|simpl; lia]). rewrite (upto_all m [nw]) by (repeat constructor; lia).
      rewrite !eval_app, E0. cbn [obind eval app]. by rewrite E1.
    + intros x. rewrite !elem_of_app, elem_of_cons. naive_solver.
    + exists nw. split; [|done]. rewrite elem_of_app, elem_of_cons. by right; left.
  - apply Forall_app in Hb as [B1 [Bo B2]%Forall_cons], Ha as [A1 [Ao A2]%Forall_cons].
    assert (Hup : upto (gen nw) (lo ++ old :: hi) = lo ++ [old]).
    { change (old :: hi) with ([old] ++ hi). rewrite !upto_app, (upto_empty _ hi), app_nil_r by done.
      rewrite (upto_all _ lo) by (eapply Forall_impl; [exact Hlo|simpl; lia]). rewrite upto_all by (repeat constructor; lia). done. }
    rewrite Hup, eval_app in E0. destruct (eval et prev lo) as [p| |] eqn:Ep; cbn [obind eval] in E0; try done.
    destruct (exec_box et (default ∅ p) old) as [d| |] eqn:Ed; cbn [obind] in E0; try done. injection E0 as ->.
    pose proof (Hmg lo old hi p eq_refl Hg Ep) as Hex. destruct Ao as [Ao1 Ao2].
    destruct (Merge_total et old nw (default ∅ p) v0 v1) as [mb Em]; [done..|]. rewrite Em in Hp. cbn [obind] in Hp.
    rewrite Hp. pose proof (Merge_gen _ _ _ _ Em) as Hgm. eexists _, _, _. split; [reflexivity|].
    split; [by destruct lo|]. split; [by eapply Push_hist_ok|].
    split; [apply Forall_app; split; [done|]; constructor; [exact (Merge_box_ok _ _ _ _ Bo Hnw Em)|done]|].
    split; [apply Forall_app; split; [done|]; constructor; [by eapply Merge_about|done]|]. split.
    + intros m Hm. change (mb :: hi) with ([mb] ++ hi). change (old :: hi) with ([old] ++ hi).
      rewrite !upto_app, (upto_empty m [mb]), (upto_empty m [old]) by (repeat constructor; lia). done.
    + intros m Hm. change (mb :: hi) with ([mb] ++ hi). change (old :: hi) with ([old] ++ hi).
      rewrite (app_assoc lo [old]), beyond_split; [|apply Forall_app; split;
        [eapply Forall_impl; [exact Hlo|simpl; lia]|repeat constructor; lia]|done]. rewrite !upto_app.
      rewrite (upto_all m lo) by (eapply Forall_impl; [exact Hlo|simpl; lia]). rewrite (upto_all m [mb]) by (repeat constructor; lia).
      rewrite !eval_app, Ep. cbn [obind eval app]. by rewrite (Merge_sequential et old nw mb (default ∅ p) v0 v1).
    + intros x. rewrite !elem_of_app, !elem_of_cons. naive_solver.
    + exists mb. split; [|done]. rewrite elem_of_app, elem_of_cons. by right; left.
Qed.
End Writing.

Section Store.
Context `{HD : Decimal} {St : Type} `{HSt : !ChainStore St} `{!ChainStoreLaws St}.

Abbreviation State := (EState (St := St)).

(** The box as [SetEntity] keeps it. *)
Definition stamped (e : string) (box : UncommittedEntityBox) : UncommittedEntityBox :=
  mkUncommitted (set_entity e (ebox box)) (Operators box).

(** What a written box does to its entity. *)
Definition written (e : string) (box : UncommittedEntityBox) (v1 : option (gmap string Value)) (s s' : State) : Prop :=
  let id := ID (ebox box) in
  pushed (st_GetEntityType e) (stored_data (slog (store s)) e id) v1 (stamped e box) (history (changes s) e id) (history (changes s') e id).

Lemma history_about cs e id : changes_ok cs -> Forall (fun b => box_is e id (ebox b)) (history cs e id).
Proof.
  intros Hc. unfold history. destruct (GetFromK2Map cs e id) as [h|] eqn:E; simpl; [by apply Hc in E as (_ & _ & ? & _)|constructor].
Qed.

Lemma push_change_spec e nw s v0 v1 :
  let et := st_GetEntityType e in let id := ID (ebox nw) in
  Entity (ebox nw) = e -> changes_ok (changes s) -> box_ok et nw ->
  mergeable et (stored_data (slog (store s)) e id) (history (changes s) e id) nw ->
  value s e id (gen nw) = Ok v0 -> exec_box et (default ∅ v0) nw = Ok v1 ->
  exists r s', push_change et nw s = Ok (r, s') /\ only_entity e id s s' /\ changes_ok (changes s') /\
    (r = None -> pushed et (stored_data (slog (store s)) e id) v1 nw (history (changes s) e id) (history (changes s') e id)) /\
    (StoreWorks (St := St) -> IsImmutable et = false -> r = None).
Proof.
  intros et id He Hc Hb Hm E0 E1. destruct (history_ok (changes s) e id Hc) as [Hh Hbx].
  assert (Ha : Forall (about nw) (history (changes s) e id)) by (unfold about; rewrite He; by apply history_about).
  unfold push_change, mbind, SM_bind, sget, slift, put_change, smodify. cbn [obind]. unfold et. rewrite GetEntityType_name.
  fold id et. destruct (bool_decide _ && IsImmutable et) eqn:Ei.
  { eexists _, s. split; [reflexivity|]. split; [done|]. split; [done|]. split; [done|]. intros _ Hi. rewrite Hi, andb_false_r in Ei. done. }
  destruct (Push_eval et _ _ nw v0 v1 Hh Hbx Ha Hb Hm E0 E1) as (mg & mb & h' & Hp & Hne & Hh' & Hb' & Ha' & Hv).
  rewrite Hp. cbn [obind]. set (s' := set_changes (PutIntoK2Map (changes s) e id h') s).
  assert (Hs' : only_entity e id s s' /\ changes_ok (changes s') /\
    pushed et (stored_data (slog (store s)) e id) v1 nw (history (changes s) e id) (history (changes s') e id)).
  { split_and!.
    - split_and!; [done|done| |done]. intros e' id' Hd. by apply Get_Put_ne.
    - apply changes_ok_put; try done. unfold about in Ha'. by rewrite He in Ha'.
    - cbn [set_changes changes s']. by rewrite history_put, decide_True. }
  destruct Hs' as (S1 & S2 & S3). destruct mg, (Data (ebox mb)) as [d|]; [destruct (st_CheckValue et d) eqn:Ek|..];
    (eexists _, s'; split; [reflexivity|]; split_and!; try done). intros Hw _. by rewrite (sw_check Hw) in Ek.
Qed.

Lemma stamped_exec e box prev : exec_box (st_GetEntityType e) prev (stamped e box) = exec_box (st_GetEntityType e) prev box.
Proof. done. Qed.

Lemma stamped_ok et e box : box_ok et box -> box_ok et (stamped e box).
Proof. intros [H1 H2 H3]. by split. Qed.

(** [SetEntity] on an entity that is not a time series. *)
Lemma SetEntity_spec e box s v0 v1 :
  let et := st_GetEntityType e in let id := ID (ebox box) in
  IsTimeSeries et = false -> changes_ok (changes s) -> (forall c, committed s = Some c -> c < gen box) -> box_ok et box ->
  mergeable et (stored_data (slog (store s)) e id) (history (changes s) e id) (stamped e box) ->
  value s e id (gen box) = Ok v0 -> exec_box et (default ∅ v0) box = Ok v1 ->
  exists r s', SetEntity et box s = Ok (r, s') /\ only_entity e id s s' /\ changes_ok (changes s') /\
    (r = None -> written e box v1 s s') /\ (StoreWorks (St := St) -> IsImmutable et = false -> r = None).
Proof.
  intros et id Hts Hc Hcm Hb Hm E0 E1.
  destruct (push_change_spec e (stamped e box) s v0 v1 eq_refl Hc (stamped_ok _ e _ Hb) Hm E0 E1) as (r & s' & Hp & Hr).
  unfold SetEntity, mbind, SM_bind, sget. cbn [obind].
  assert (Hn : Name et = e) by apply GetEntityType_name. rewrite !Hn.
  assert ((match committed s with Some c => gen box <=? c | None => false end) = false) as ->.
  { destruct (committed s) as [c|]; [|done]. specialize (Hcm c eq_refl). apply Z.leb_gt. lia. }
  fold (stamped e box). change (Data (ebox (stamped e box))) with (Data (ebox box)). rewrite Hts.
  destruct (Data (ebox box)) as [d|]; [destruct (st_CheckValue et d) eqn:Ek|]; try (exists r, s'; split; [exact Hp|exact Hr]).
  eexists _, s. split; [reflexivity|]. split_and!; [done|done|done|]. intros Hw. by rewrite (sw_check Hw) in Ek.
Qed.

(** An immutable entity with a change is not changed again. *)
Lemma SetEntity_immutable e box s :
  let et := st_GetEntityType e in let id := ID (ebox box) in
  IsTimeSeries et = false -> IsImmutable et = true -> changes_ok (changes s) ->
  (forall c, committed s = Some c -> c < gen box) ->
  upto maxU64 (history (changes s) e id) <> [] ->
  exists err, SetEntity et box s = Ok (Some err, s).
Proof.
  intros et id Hts Him Hc Hcm Hne. unfold SetEntity, mbind, SM_bind, sget. cbn [obind].
  assert ((match committed s with Some c => gen box <=? c | None => false end) = false) as ->.
  { destruct (committed s) as [c|]; [|done]. specialize (Hcm c eq_refl). apply Z.leb_gt. lia. }
  rewrite Hts. assert (Hpush : forall b, ID (ebox b) = id -> exists err, push_change et b s = Ok (Some err, s)).
  { intros b Hb. unfold push_change, mbind, SM_bind, sget. cbn [obind]. 
    assert (Hn : Name et = e) by apply GetEntityType_name. rewrite !Hn, Hb.
    rewrite Latest_last by apply (history_ok _ _ _ Hc). fold (upto maxU64 (history (changes s) e id)).
    destruct (last (upto maxU64 (history (changes s) e id))) as [x|] eqn:El; [|by apply last_None in El].
    rewrite bool_decide_eq_true_2 by done. rewrite Him. by eexists. }
  cbn [ebox Data set_entity]. destruct (Data (ebox box)) as [d|]; [|by apply Hpush].
  destruct (st_CheckValue et d); [by apply Hpush|by eexists].
Qed.
End Store.
