(* ===== verification/EntityCommit.v ===== *)
(** * Committing and going back

    The numbers a commit gives to time series entities, and what [Commit] and [Reorg] of
    the entity controller do to the store, to the changes and to the value of an entity at
    a block. *)
From Stdlib Require Import ZArith Lia Ascii String.
From stdpp Require Import base numbers option strings pretty sorting gmap list.
From S2P Require Import Prelude BlockCache RangeBase RangeSet RangeSetOps RangeText EntityValue EntityHistory EntityMerge EntityCtrl EntitySpec EntityWrite.

(** ** The numbers of generated ids *)

Lemma FormatInt_inj n m : FormatInt n = FormatInt m -> n = m.
Proof. unfold FormatInt. by intros ?%(inj pretty). Qed.

(** A number that is found is the first behind the given one that is not taken. *)
Lemma next_free_some fuel manual x n :
  next_free fuel manual (wrap_int64 x) = Ok n ->
  exists k, 1 <= k <= Z.of_nat fuel /\ n = wrap_int64 (x + k) /\ FormatInt n ∉ manual.
Proof.
  revert x. induction fuel as [|fuel IH]; intros x; simpl; [done|]. rewrite wrap_int64_succ. case_bool_decide as Hm.
  - intros (k & Hk & -> & Hn)%IH. exists (k + 1). split_and!; [lia|lia|f_equal; lia|done].
  - intros [= <-]. exists 1. split_and!; [lia|lia|done|done].
Qed.

Lemma next_free_none fuel manual x :
  (forall n, next_free fuel manual (wrap_int64 x) <> Ok n) ->
  forall k, 1 <= k <= Z.of_nat fuel -> FormatInt (wrap_int64 (x + k)) ∈ manual.
Proof.
  revert x. induction fuel as [|fuel IH]; intros x; simpl; [lia|]. rewrite wrap_int64_succ. case_bool_decide as Hm.
  - intros Hn k Hk. destruct (decide (k = 1)) as [->|Hne]; [done|].
    replace (x + k) with (x + 1 + (k - 1)) by lia. apply IH; [done|lia].
  - intros Hn. by destruct (Hn (wrap_int64 (x + 1))).
Qed.

(** One more attempt than there are ids that are taken is enough. *)
Lemma next_free_pigeon manual x :
  Z.of_nat (size manual) + 1 < 2 ^ 64 -> (forall n, next_free (S (size manual)) manual (wrap_int64 x) <> Ok n) -> False.
Proof.
  intros Hsz Hno. pose proof (next_free_none _ _ _ Hno) as Hall.
  set (l := map (fun k => FormatInt (wrap_int64 (x + k))) (seqZ 1 (Z.of_nat (S (size manual))))).
  assert (Hnd : NoDup l).
  { apply NoDup_fmap_2_strong; [|apply NoDup_seqZ]. intros a b Ha%elem_of_seqZ Hb%elem_of_seqZ Heq%FormatInt_inj.
    apply (wrap_int64_inj x); [lia|lia|done]. }
  assert (Hsub : l ⊆ elements manual).
  { intros y Hy. apply list_elem_of_fmap in Hy as (k & -> & Hk%elem_of_seqZ). apply elem_of_elements, Hall. lia. }
  pose proof (submseteq_length _ _ (NoDup_submseteq _ _ Hnd Hsub)) as Hlen. unfold l in Hlen.
  rewrite length_map, length_seqZ in Hlen. change (length (elements manual)) with (size manual) in Hlen. lia.
Qed.

Lemma next_free_total manual x :
  Z.of_nat (size manual) + 1 < 2 ^ 64 -> exists n, next_free (S (size manual)) manual (wrap_int64 x) = Ok n.
Proof.
  intros Hsz. destruct (next_free (S (size manual)) manual (wrap_int64 x)) as [n| |] eqn:E; [by exists n|exfalso..];
    apply (next_free_pigeon manual x Hsz); intros n; by rewrite E.
Qed.

Section Ids.
Context `{HD : Decimal}.

(** The box that is written for a box of the changes. *)
Definition numbered (manual : gset string) (maxID : Z) (b b' : EntityBox) : Prop :=
  if HasAt (ID b) then exists n, maxID < n /\ FormatInt n ∉ manual /\ b' = set_id (FormatInt n) b else b' = b.

Lemma assign_ids_total manual x boxes :
  Z.of_nat (size manual) + 1 < 2 ^ 64 -> exists l, assign_ids manual (wrap_int64 x) boxes = Ok l.
Proof.
  intros Hsz. revert x. induction boxes as [|b boxes IH]; intros x; cbn [assign_ids]; [by eexists|]. destruct (HasAt (ID b)).
  - destruct (next_free_total manual x Hsz) as [n En]. rewrite En. cbn [obind].
    destruct (next_free_some _ _ _ _ En) as (k & _ & -> & _). destruct (IH (x + k)) as [l ->]. by eexists.
  - destruct (IH x) as [l ->]. by eexists.
Qed.

(** The ids that were generated, in the order they are given out. *)
Definition fresh_ids (boxes l : list EntityBox) : list string :=
  omap (fun p => if HasAt (ID p.1) then Some (ID p.2) else None) (zip boxes l).

(** The boxes keep their order, a given id is kept, and the generated ids are numbers
    above the largest stored one, ascending and not among the given ones. *)
Lemma assign_ids_spec manual maxID boxes l :
  - 2 ^ 63 <= maxID -> maxID + Z.of_nat (length boxes) * (Z.of_nat (size manual) + 1) < 2 ^ 63 ->
  assign_ids manual maxID boxes = Ok l ->
  Forall2 (numbered manual maxID) boxes l /\
  exists ns, fresh_ids boxes l = map FormatInt ns /\ StronglySorted Z.lt ns /\ Forall (fun n => maxID < n) ns.
Proof.
  revert maxID l. induction boxes as [|b boxes IH]; intros maxID l Hlo Hroom; cbn [assign_ids].
  { intros [= <-]. split; [constructor|]. exists []. split_and!; [done|constructor|constructor]. }
  cbn [length] in Hroom. unfold fresh_ids. destruct (HasAt (ID b)) eqn:Eb.
  - destruct (next_free (S (size manual)) manual maxID) as [n| |] eqn:En; cbn [obind]; try done.
    rewrite <- (wrap_int64_id maxID) in En by lia. apply next_free_some in En as (k & Hk & Hn & Hfree).
    rewrite wrap_int64_id in Hn by lia. subst n.
    destruct (assign_ids manual (maxID + k) boxes) as [t| |] eqn:Et; cbn [obind]; try done. intros [= <-].
    destruct (IH (maxID + k) t) as (H1 & ns & H2 & H3 & H4); [lia|lia|done|]. split.
    + constructor.
      * unfold numbered. rewrite Eb. exists (maxID + k). split_and!; [lia|done|done].
      * eapply Forall2_impl; [exact H1|]. intros x y. unfold numbered. destruct (HasAt (ID x)); [|done].
        intros (n & ? & ? & ->). exists n. split_and!; [lia|done|done].
    + exists (maxID + k :: ns). cbn. rewrite Eb. cbn. fold (fresh_ids boxes t). rewrite H2.
      split_and!; [done|by constructor|constructor; [lia|]]. eapply Forall_impl; [exact H4|]. simpl. lia.
  - destruct (assign_ids manual maxID boxes) as [t| |] eqn:Et; cbn [obind]; try done. intros [= <-].
    destruct (IH maxID t) as (H1 & ns & H2 & H3 & H4); [lia|lia|done|]. split.
    + constructor; [|done]. unfold numbered. by rewrite Eb.
    + exists ns. cbn. rewrite Eb. fold (fresh_ids boxes t). done.
Qed.
End Ids.

Section Store.
Context `{HD : Decimal} {St : Type} `{HSt : !ChainStore St} `{!ChainStoreLaws St}.

Abbreviation State := (EState (St := St)).

(** ** Splitting a change set *)

Lemma Split_get cs n e id :
  GetFromK2Map (changeSet_Split cs n).1 e id = (h ← GetFromK2Map cs e id; nonempty_list (Split h n).1) /\
  GetFromK2Map (changeSet_Split cs n).2 e id = (h ← GetFromK2Map cs e id; nonempty_list (Split h n).2).
Proof.
  unfold GetFromK2Map, changeSet_Split. cbn [fst snd]. rewrite !lookup_omap.
  destruct (cs !! e) as [set|]; [|done]. cbn. unfold nonempty_map. split; case_bool_decide as Hm; cbn; rewrite <- lookup_omap; try done;
    by rewrite Hm.
Qed.

Lemma nonempty_default {A} (l : list A) : default [] (nonempty_list l) = l.
Proof. by destruct l. Qed.

Lemma Split_history cs n e id :
  changes_ok cs ->
  history (changeSet_Split cs n).1 e id = upto n (history cs e id) /\
  history (changeSet_Split cs n).2 e id = beyond n (history cs e id).
Proof.
  intros Hc. unfold history. destruct (Split_get cs n e id) as [-> ->]. destruct (GetFromK2Map cs e id) as [h|] eqn:E; [|done].
  destruct (Hc e id h E) as (_ & Hh & _). unfold mbind, option_bind. by rewrite !nonempty_default, Split_spec.
Qed.

(** The part of a history on one side of a block. *)
Lemma changes_ok_part cs cs' (P : UncommittedEntityBox -> Prop) `{forall b, Decision (P b)} :
  changes_ok cs -> (forall e id, GetFromK2Map cs' e id = (h ← GetFromK2Map cs e id; nonempty_list (filter P h))) -> changes_ok cs'.
Proof.
  intros Hc Hg e id h' E. rewrite Hg in E. destruct (GetFromK2Map cs e id) as [h|] eqn:Eh; [|done]. cbn in E.
  destruct (Hc e id h Eh) as (_ & H1 & H2 & H3). assert (h' = filter P h /\ h' <> []) as [-> Hne].
  { destruct (filter P h); [done|]. by injection E as <-. }
  pose proof (sublist_filter P h) as Hsub.
  split_and!; [done|by eapply hist_ok_sublist|by eapply Forall_sublist|by eapply Forall_sublist].
Qed.

Lemma Split_ok cs n : changes_ok cs -> changes_ok (changeSet_Split cs n).1 /\ changes_ok (changeSet_Split cs n).2.
Proof.
  intros Hc. split; [apply (changes_ok_part cs _ (fun b => gen b <= n) Hc)|apply (changes_ok_part cs _ (fun b => n < gen b) Hc)];
    intros e id; destruct (Split_get cs n e id) as [H1 H2]; rewrite ?H1, ?H2; destruct (GetFromK2Map cs e id) as [h|] eqn:E; try done;
    destruct (Hc e id h E) as (_ & Hh & _); unfold mbind, option_bind; by rewrite Split_spec.
Qed.

(** An entity is kept only where it has a history. *)
Lemma kept_nonempty cs n e set :
  (changeSet_Split cs n).1 !! e = Some set -> exists id, history (changeSet_Split cs n).1 e id <> [].
Proof.
  intros Hs. assert (Hne : exists id h, set !! id = Some h /\ h <> []).
  { unfold changeSet_Split in Hs. cbn [fst] in Hs. rewrite lookup_omap in Hs. destruct (cs !! e) as [set0|]; [|done].
    cbn [mbind option_bind] in Hs. unfold nonempty_map in Hs. case_bool_decide as Hm; [done|]. injection Hs as <-.
    destruct (map_choose _ Hm) as (id & h & Hid). exists id, h. split; [done|]. rewrite lookup_omap in Hid.
    destruct (set0 !! id) as [h0|]; [|done]. cbn [mbind option_bind] in Hid. destruct (Split h0 n).1; [done|].
    by injection Hid as <-. }
  destruct Hne as (id & h & Hid & Hh). exists id. unfold history, GetFromK2Map. rewrite Hs. cbn [mbind option_bind]. by rewrite Hid.
Qed.

Lemma history_dom cs e id : changes_ok cs -> id ∈ dom (default ∅ (cs !! e)) <-> history cs e id <> [].
Proof.
  intros Hc. rewrite elem_of_dom. unfold history. pose proof (Hc e id) as He. unfold GetFromK2Map in *.
  destruct (cs !! e) as [set|]; cbn in *; [|by rewrite lookup_empty; split; [intros []|]].
  destruct (set !! id) as [h|]; [|by split; [intros []|]]. destruct (He h eq_refl) as [Hne _]. by split; [|eexists].
Qed.

(** ** Executing all the operators *)

(** The boxes up to the block have no operators left. *)
Definition plain (n : Z) (h : list UncommittedEntityBox) : Prop := Forall (fun b => Operators b = ∅) (upto n h).

Lemma executed_plain et prev n h h' : hist_ok h -> executed et prev n h = Ok h' -> plain n h'.
Proof.
  revert prev h'. induction h as [|b t IH]; intros prev h' Hs E; [injection E as <-; constructor|].
  cbn [executed] in E. bcase_in E; [injection E as <-; unfold plain; by rewrite upto_none|].
  destruct (exec_box et (default ∅ prev) b) as [d| |]; cbn [obind] in E; try done.
  destruct (executed et d n t) as [t'| |] eqn:Et; cbn [obind] in E; try done. injection E as <-.
  unfold plain, upto. rewrite filter_cons_True by done. constructor; [done|]. apply hist_ok_cons in Hs as [Hs _]. by eapply IH.
Qed.

Lemma eval_plain et prev l :
  Forall (fun b => Operators b = ∅) l -> eval et prev l = Ok (match last l with Some b => Data (ebox b) | None => prev end).
Proof.
  induction l as [|b l _] using rev_ind; [done|]. intros [H1 H2]%Forall_app. apply Forall_cons in H2 as [H2 _].
  revert prev. induction l as [|c l IH]; intros prev; simpl.
  - by rewrite exec_box_plain.
  - apply Forall_cons in H1 as [Hc H1]. rewrite exec_box_plain by done. cbn [obind]. rewrite IH by done.
    rewrite app_comm_cons, !last_snoc. done.
Qed.

(** What has been executed: the values and the later boxes are as before. *)
Record all_executed (n : Z) (s s' : State) (l : list (string * string)) : Prop := mkAllExecuted {
  ax_ok : changes_ok (changes s');
  ax_value e id m : value s' e id m = value s e id m;
  ax_beyond e id : beyond n (history (changes s') e id) = beyond n (history (changes s) e id);
  ax_gens e id : map gen (history (changes s') e id) = map gen (history (changes s) e id);
  ax_plain e id : (e, id) ∈ l \/ plain n (history (changes s) e id) -> plain n (history (changes s') e id);
  ax_elsewhere : plain_elsewhere (changes s) -> plain_elsewhere (changes s')
}.

Lemma executed_no_operators et prev n h h' : executed et prev n h = Ok h' -> no_operators h -> no_operators h'.
Proof.
  revert prev h'. induction h as [|b t IH]; intros prev h'; cbn [executed]; [by intros [= <-]|]. bcase; [by intros [= <-]|].
  destruct (exec_box et (default ∅ prev) b) as [d| |]; cbn [obind]; try done.
  destruct (executed et d n t) as [t'| |] eqn:Et; cbn [obind]; try done. intros [= <-] [_ Ht]%Forall_cons. constructor; [done|by eapply IH].
Qed.

Lemma history_executed_all n s s' e id :
  changes_ok (changes s) -> changes_ok (changes s') -> only_entity e id s s' -> history_executed s e id n s' ->
  all_executed n s s' [(e, id)].
Proof.
  intros Hc Hc' Ho He. destruct (history_ok _ e id Hc) as [Hh _].
  split; [done|intros; by eapply executed_value| |intros; by eapply executed_all_gens| |intros Hpl];
    intros e' id'; (destruct (decide ((e', id') = (e, id))) as [[= -> ->]|Hne];
      [|unfold history; rewrite (proj1 (proj2 (proj2 Ho)) e' id' Hne); try done]).
  - by eapply executed_beyond.
  - intros _. by eapply executed_plain.
  - intros [Hin|?]; [|done]. by apply list_elem_of_singleton in Hin.
  - intros Hnp. by eapply executed_no_operators, Hpl.
  - apply Hpl.
Qed.

Lemma all_executed_trans n s1 s2 s3 l1 l2 :
  all_executed n s1 s2 l1 -> all_executed n s2 s3 l2 -> all_executed n s1 s3 (l1 ++ l2).
Proof.
  intros [A1 A2 A3 A4 A5 A6] [B1 B2 B3 B4 B5 B6]. split; [done|..|by intros Hp; apply B6, A6]; intros e id.
  - intros m. by rewrite B2.
  - by rewrite B3.
  - by rewrite B4.
  - intros [[Hin|Hin]%elem_of_app|Hp]; apply B5; [right; apply A5; by left|by left|right; apply A5; by right].
Qed.

Lemma exec_pairs_spec n l s :
  store_ok (store s) -> plain_elsewhere (changes s) ->
  changes_ok (changes s) -> (forall e id, exists v, value s e id n = Ok v) ->
  exists r s', exec_pairs n l s = Ok (r, s') /\ slog (store s') = slog (store s) /\ committed s' = committed s /\ store_ok (store s') /\
    (r = None -> all_executed n s s' l) /\ (StoreWorks (St := St) -> r = None).
Proof.
  revert s. induction l as [|[e id] l IH]; intros s Hso Hpl Hc Hv; cbn [exec_pairs].
  { eexists _, s. split; [reflexivity|]. split; [done|]. split; [done|]. split; [done|]. split; [|done]. intros _. split; try done. intros e id [Hin|?]; [|done].
    by apply not_elem_of_nil in Hin. }
  destruct (Hv e id) as [v Hve].
  destruct (executeEntityOperator_spec e id n s v (GetEntityType_name e) Hso Hpl Hc Hve) as (r & s1 & E & Ho & Hr & Hw).
  unfold mbind, SM_bind. rewrite E. cbn [obind]. pose proof Ho as (O1 & O2 & O3 & O4).
  destruct r as [err|]; [eexists _, s1; split_and!; try done; try (by apply O4); intros Hk; by discriminate (Hw Hk)|]. destruct (Hr eq_refl) as [He Hc1].
  pose proof (history_executed_all n s s1 e id Hc Hc1 Ho He) as Hax.
  destruct (IH s1) as (r & s2 & E2 & P1 & P2 & P5 & P3 & P4); [by apply O4|by apply (ax_elsewhere _ _ _ _ Hax)|done| |].
  { intros e' id'. rewrite (ax_value _ _ _ _ Hax). apply Hv. }
  exists r, s2. split_and!; [exact E2|congruence|congruence|done| |done]. intros ->.
  apply (all_executed_trans n s s1 s2 [(e, id)] l Hax). by apply P3.
Qed.

Lemma elem_of_pairs (cs : gmap string (gmap string (list UncommittedEntityBox))) e id :
  (e, id) ∈ pairs cs <-> is_Some (GetFromK2Map cs e id).
Proof.
  unfold pairs, GetFromK2Map. rewrite list_elem_of_In, in_concat. split.
  - intros (l & Hl & Hin). apply in_map_iff in Hl as ([e' set] & <- & Hs). apply in_map_iff in Hin as ([id' h] & Heq & Hh).
    apply list_elem_of_In, elem_of_map_to_list in Hs, Hh. cbn in *. injection Heq as -> ->. rewrite Hs. cbn. by exists h.
  - destruct (cs !! e) as [set|] eqn:E; [|by intros []]. intros [h Hh]. cbn in Hh.
    exists (map (fun ih => (e, ih.1)) (map_to_list set)). split.
    + apply in_map_iff. exists (e, set). split; [done|]. by apply list_elem_of_In, elem_of_map_to_list.
    + apply in_map_iff. exists (id, h). split; [done|]. by apply list_elem_of_In, elem_of_map_to_list.
Qed.

Lemma executeAll_spec n s :
  store_ok (store s) -> plain_elsewhere (changes s) ->
  changes_ok (changes s) -> (forall e id, exists v, value s e id n = Ok v) ->
  exists r s', executeAllEntityOperator n s = Ok (r, s') /\ slog (store s') = slog (store s) /\ committed s' = committed s /\ store_ok (store s') /\
    (r = None -> all_executed n s s' (pairs (changes s)) /\ forall e id, plain n (history (changes s') e id)) /\
    (StoreWorks (St := St) -> r = None).
Proof.
  intros Hso Hpl Hc Hv. destruct (exec_pairs_spec n (pairs (changes s)) s Hso Hpl Hc Hv) as (r & s' & E & P1 & P2 & P5 & P3 & P4).
  exists r, s'. split_and!; [exact E|done|done|done| |done]. intros ->. specialize (P3 eq_refl). split; [done|]. intros e id. apply P3.
  destruct (GetFromK2Map (changes s) e id) as [h|] eqn:Eh; [left; apply elem_of_pairs; by exists h|right].
  unfold history. rewrite Eh. constructor.
Qed.

(** ** What is written *)

Lemma assign_ids_entity manual maxID boxes l : assign_ids manual maxID boxes = Ok l -> map Entity l = map Entity boxes.
Proof.
  revert maxID l. induction boxes as [|b boxes IH]; intros maxID l; cbn [assign_ids]; [by intros [= <-]|].
  destruct (HasAt (ID b)); [destruct (next_free _ _ _) as [n| |]; cbn [obind]; try done|];
    destruct (assign_ids _ _ boxes) as [t| |] eqn:Et; cbn [obind]; try done; intros [= <-]; simpl; f_equal; by eapply IH.
Qed.

Lemma Forall_Entity e l l' : map Entity l = map Entity l' -> Forall (fun b => Entity b = e) l' -> Forall (fun b => Entity b = e) l.
Proof.
  intros Hm Hf. assert (Forall (fun x => x = e) (map Entity l)) as Hl by (rewrite Hm; by apply Forall_map).
  by apply Forall_map in Hl.
Qed.

(** The histories of an entity can be written: they are its own, and not too many. *)
Definition writable (e : string) (set : gmap string (list UncommittedEntityBox)) : Prop :=
  Forall (fun b => Entity b = e) (all_boxes set) /\ Z.of_nat (size set) + 1 < 2 ^ 64.

Lemma manual_ids_size (set : gmap string (list UncommittedEntityBox)) : (size (manual_ids set) <= size set)%nat.
Proof.
  unfold manual_ids. rewrite <- (size_dom set). apply subseteq_size. set_solver.
Qed.

Lemma time_series_boxes_spec e maxID set :
  writable e set -> - 2 ^ 63 <= maxID < 2 ^ 63 ->
  exists r, time_series_boxes e maxID set = Ok r /\ (forall l, r = inl l -> Forall (fun b => Entity b = e) l).
Proof.
  intros [Hw Hsz] Hm. unfold time_series_boxes. case_bool_decide; [by eexists|].
  destruct (assign_ids_total (manual_ids set) maxID (merge_sort by_gen (all_boxes set))) as [l El].
  { pose proof (manual_ids_size set). lia. }
  rewrite wrap_int64_id in El by done. rewrite El. eexists. split; [reflexivity|]. intros l' [= <-].
  eapply Forall_Entity; [by eapply assign_ids_entity|]. by rewrite merge_sort_Permutation.
Qed.

Lemma entity_boxes_spec e set s :
  writable e set ->
  exists r s', entity_boxes e set s = Ok (r, s') /\ same_store s s' /\
    (forall l, r = inl l -> Forall (fun b => Entity b = e) l /\ (IsTimeSeries (st_GetEntityType e) = false -> l = all_boxes set)) /\
    (IsTimeSeries (st_GetEntityType e) = false -> exists l, r = inl l).
Proof.
  intros Hw. unfold entity_boxes. destruct (IsTimeSeries (st_GetEntityType e)) eqn:Ets.
  - unfold mbind, SM_bind, with_store. destruct (st_GetTimeSeriesEntityMaxID _ (store s)) as [r st] eqn:Em.
    apply MaxID_ok in Em as (Hl & Hcl & Hm). cbn [obind].
    assert (Hso : store_ok (store s) -> store_ok st) by (intros [? ?]; split; [by apply Hcl|by rewrite Hl]). destruct r as [maxID|err].
    + destruct (Hm maxID eq_refl) as [Hr _]. destruct (time_series_boxes_spec e maxID set Hw Hr) as (r & Er & Hf).
      unfold slift. rewrite Er. cbn [obind]. eexists _, _. split; [reflexivity|]. split; [by unfold same_store|].
      split; [|done]. intros l ->. split; [by apply Hf|done].
    + eexists _, _. split; [reflexivity|]. split; [by unfold same_store|]. done.
  - eexists _, s. split; [reflexivity|]. split; [done|]. split; [|by eexists]. intros l [= <-]. split; [apply Hw|done].
Qed.

(** The loop appends the boxes of the entities to the store, all of them when it succeeds. *)
Lemma commit_entities_spec l st s :
  NoDup l.*1 -> (forall e set, (e, set) ∈ l -> writable e set) ->
  exists st' r s', commit_entities l st s = Ok ((st', r), s') /\ changes s' = changes s /\ committed s' = committed s /\
    exists w, slog (store s') = slog (store s) ++ w /\ (forall b, b ∈ w -> Entity b ∈ l.*1) /\
      (r = None -> forall e set id, (e, set) ∈ l -> persisted (st_GetEntityType e) -> ascending (of_entity e id (all_boxes set)) ->
         of_entity e id w = of_entity e id (all_boxes set)) /\
      (forall b, b ∈ w -> persisted (st_GetEntityType (Entity b)) -> exists set, (Entity b, set) ∈ l /\ b ∈ all_boxes set) /\
      (store_ok (store s) ->
       (forall e set id, (e, set) ∈ l -> persisted (st_GetEntityType e) -> ascending (of_entity e id (slog (store s) ++ all_boxes set))) ->
       (forall m, sbase m (store s')) /\ (r = None -> store_ok (store s'))) /\
      (StoreWorks (St := St) -> (forall e set, (e, set) ∈ l -> IsTimeSeries (st_GetEntityType e) = false) -> r = None).
Proof.
  revert st s. induction l as [|[e set] l IH]; intros st s Hnd Hw; cbn [commit_entities].
  { eexists _, _, s. split; [reflexivity|]. split; [done|]. split; [done|]. exists []. rewrite app_nil_r.
    split_and!; [done|by intros b ?%not_elem_of_nil| |by intros b ?%not_elem_of_nil| |done]; [by intros _ e set id ?%not_elem_of_nil|].
    intros [? ?] _. split; [intros m; by apply sclean_base|done]. }
  apply NoDup_cons in Hnd as [Hni Hnd]. assert (Hwe : writable e set) by (apply Hw; by left).
  destruct (entity_boxes_spec e set s Hwe) as (r & s1 & E1 & (C1 & C2 & C3 & C4) & Hr & Hsome).
  unfold mbind at 1, SM_bind at 1. rewrite E1. cbn [obind]. destruct r as [boxes|err].
  2:{ eexists _, _, s1. split; [reflexivity|]. split; [done|]. split; [done|]. exists []. rewrite app_nil_r.
      split_and!; [done|by intros b ?%not_elem_of_nil|done|by intros b ?%not_elem_of_nil|by intros [? ?]%C4 _; split; [intros m; apply sclean_base|]|].
      intros _ Hn. destruct Hsome as [l0 Hl0]; [apply (Hn e set); by left|done]. }
  destruct (Hr boxes eq_refl) as [Hbe Hbn]. unfold mbind at 1, SM_bind at 1, with_store.
  destruct (st_SetEntities (st_GetEntityType e) boxes (store s1)) as [[k er] st1] eqn:Es. pose proof Es as Es'.
  apply SetEntities_ok in Es as (part & Hlog & Hsub & Hall & Hcl); [|done]. cbn [obind]. rewrite C3 in *.
  assert (Hpart : Forall (fun b => Entity b = e) part)
    by (apply Forall_forall; intros b Hb; rewrite Forall_forall in Hbe; by apply Hbe, Hsub).
  assert (Hpin : forall b, b ∈ part -> Entity b ∈ ((e, set) :: l).*1)
    by (intros b Hb; rewrite Forall_forall in Hpart; rewrite (Hpart b Hb); by left).
  assert (Hpset : forall b, b ∈ part -> persisted (st_GetEntityType (Entity b)) -> exists set', (Entity b, set') ∈ (e, set) :: l /\ b ∈ all_boxes set').
  { intros b Hb Hp. rewrite Forall_forall in Hpart. rewrite (Hpart b Hb) in *. exists set. split; [by left|].
    rewrite <- (Hbn (proj1 Hp)). by apply Hsub. }
  assert (Hstep : store_ok (store s) ->
    (forall e' set' id, (e', set') ∈ (e, set) :: l -> persisted (st_GetEntityType e') -> ascending (of_entity e' id (slog (store s) ++ all_boxes set'))) ->
    (forall m, sbase m st1) /\ (er = None -> store_ok st1)).
  { intros Hso Hasc. assert (Hbx : persisted (st_GetEntityType e) -> forall id, ascending (of_entity e id (slog (store s) ++ boxes)))
      by (intros Hper id; rewrite (Hbn (proj1 Hper)); apply Hasc; [by left|done]).
    pose proof (C4 Hso) as [Hc1 Ho1]. rewrite C3 in Ho1. destruct (Hcl Hc1 Ho1 Hbx) as [Hb1 Hcl1]. split; [done|]. intros Her.
    split; [by apply Hcl1|]. rewrite Hlog. intros e' id Hper. rewrite of_entity_app. destruct (decide (e = e')) as [->|Hd].
    - specialize (Hbx Hper id). rewrite of_entity_app in Hbx. rewrite (Hall Her (proj2 Hper) id); [done|]. by eapply ascending_app_r.
    - rewrite (of_entity_other e e' id part), app_nil_r by done. by apply Ho1. }
  destruct er as [err|].
  { eexists _, _, _. split; [reflexivity|]. split; [done|]. split; [done|]. exists part.
    split_and!; [done|done|done|done|intros Hso Hasc; by destruct (Hstep Hso Hasc)|].
    intros Hk Hts. pose proof (sw_set Hk e boxes (store s1) ltac:(apply (Hts e set); by left)) as Hi. by rewrite Es' in Hi. }
  match goal with |- context [commit_entities l ?st1] => set (stat := st1) end.
  destruct (IH stat (mkEState (changes s1) (committed s1) (uniqTimeSeriesID s1) st1) Hnd)
    as (st' & r & s' & E' & D1 & D2 & w & W1 & W2 & W3 & W6 & W5 & W4).
  { intros e' set' Hin. apply Hw. by right. }
  rewrite E'. eexists _, _, _. split; [reflexivity|]. cbn [changes committed store] in *. split; [congruence|]. split; [congruence|].
  assert (Hne : forall e' set', (e', set') ∈ l -> e <> e') by (intros e' set' Hin ->; apply Hni, list_elem_of_fmap; by exists (e', set')).
  exists (part ++ w). split_and!.
  - by rewrite W1, Hlog, app_assoc.
  - intros b [Hb|Hb]%elem_of_app; [by apply Hpin|right; by apply W2].
  - intros Hn e' set' id Hin Hper Hasc. rewrite of_entity_app. apply elem_of_cons in Hin as [[= -> ->]|Hin].
    + rewrite <- (Hbn (proj1 Hper)) in *. rewrite (Hall eq_refl (proj2 Hper) id Hasc).
      assert (of_entity e id w = []) as ->; [apply filter_none|by rewrite app_nil_r]. intros x Hx [Hxe _]. apply Hni. cbn. rewrite <- Hxe. by apply W2.
    + rewrite (of_entity_other e e') by (by try eapply Hne). by apply W3.
  - intros b [Hb|Hb]%elem_of_app Hp; [by apply Hpset|]. destruct (W6 b Hb Hp) as (set' & ? & ?). exists set'. split; [by right|done].
  - intros Hso Hasc. destruct (Hstep Hso Hasc) as [_ Hst1]. apply W5; [by apply Hst1|].
    intros e' set' id Hin Hper. rewrite Hlog, !of_entity_app, (of_entity_other e e' id part), app_nil_r by (by try eapply Hne).
    rewrite <- of_entity_app. apply Hasc; [by right|done].
  - intros Hk Hn. apply W4; [done|]. intros e' set' Hin. apply (Hn e' set'). by right.
Qed.

(** The boxes of an id among those of its entity are its history. *)
Lemma all_boxes_app (l1 l2 : list (string * list UncommittedEntityBox)) :
  concat (map (fun ih => map ebox ih.2) (l1 ++ l2)) =
  concat (map (fun ih => map ebox ih.2) l1) ++ concat (map (fun ih => map ebox ih.2) l2).
Proof. by rewrite map_app, concat_app. Qed.

Lemma boxes_of_other (l : list (string * list UncommittedEntityBox)) id :
  id ∉ l.*1 -> (forall ih, ih ∈ l -> Forall (fun b => ID (ebox b) = ih.1) ih.2) ->
  filter (fun b => ID b = id) (concat (map (fun ih => map ebox ih.2) l)) = [].
Proof.
  intros Hni Hid. apply filter_none. intros b Hb%list_elem_of_In Hx. apply in_concat in Hb as (bs & Hbs & Hb).
  apply in_map_iff in Hbs as (ih & <- & Hin%list_elem_of_In). apply in_map_iff in Hb as (ub & <- & Hub%list_elem_of_In).
  specialize (Hid ih Hin). rewrite Forall_forall in Hid. rewrite (Hid ub Hub) in Hx. apply Hni. rewrite <- Hx.
  by apply list_elem_of_fmap_2.
Qed.

Lemma all_boxes_id cs e set id :
  changes_ok cs -> cs !! e = Some set -> filter (fun b => ID b = id) (all_boxes set) = map ebox (history cs e id).
Proof.
  intros Hc He. assert (Hid : forall ih, ih ∈ map_to_list set -> Forall (fun b => ID (ebox b) = ih.1) ih.2).
  { intros [i h] Hin%elem_of_map_to_list. destruct (Hc e i h) as (_ & _ & Hb & _).
    - unfold GetFromK2Map. by rewrite He.
    - eapply Forall_impl; [exact Hb|]. by intros b []. }
  unfold all_boxes, history, GetFromK2Map. rewrite He. cbn. pose proof (NoDup_fst_map_to_list set) as Hnd.
  destruct (set !! id) as [h|] eqn:Eh.
  - apply elem_of_map_to_list, list_elem_of_split in Eh as (l1 & l2 & Hl). rewrite Hl in *.
    change ((id, h) :: l2) with ([(id, h)] ++ l2) in *. rewrite !all_boxes_app, !filter_app. cbn.
    rewrite !fmap_app in Hnd. apply NoDup_app in Hnd as (_ & N1 & N2). apply NoDup_app in N2 as (_ & N3 & _).
    rewrite (boxes_of_other l1); [|intros Hin; apply (N1 id Hin); by left|intros ih Hin; apply Hid, elem_of_app; by left].
    rewrite (boxes_of_other l2); [|apply N3; by left|intros ih Hin; apply Hid; rewrite !elem_of_app; by right; right].
    rewrite !app_nil_r. apply filter_all. intros b Hb. apply list_elem_of_fmap in Hb as (ub & -> & Hub).
    assert (Hin : (id, h) ∈ l1 ++ [(id, h)] ++ l2) by (rewrite !elem_of_app, list_elem_of_singleton; by right; left).
    specialize (Hid _ Hin). rewrite Forall_forall in Hid. by apply Hid.
  - apply boxes_of_other; [|done]. intros ([i h] & -> & Hin%elem_of_map_to_list)%list_elem_of_fmap. cbn in Eh. congruence.
Qed.

(** What a commit writes for an entity is its history up to the block. *)
Lemma committed_entity cs w e id :
  changes_ok cs -> (forall b, b ∈ w -> Entity b ∈ (map_to_list cs).*1) ->
  (forall set, (e, set) ∈ map_to_list cs -> writable e set /\ of_entity e id w = of_entity e id (all_boxes set)) ->
  of_entity e id w = map ebox (history cs e id).
Proof.
  intros Hc Hin Hw. destruct (cs !! e) as [set|] eqn:E.
  - destruct (Hw set) as [[Hwe _] ->]; [by apply elem_of_map_to_list|]. rewrite of_entity_two, filter_entity by done. by apply all_boxes_id.
  - unfold history, GetFromK2Map. rewrite E. cbn. apply filter_none. intros b Hb [He _]. specialize (Hin b Hb).
    rewrite He in Hin. apply list_elem_of_fmap in Hin as ([e' set] & Hee & Hin%elem_of_map_to_list). cbn in Hee. congruence.
Qed.

Lemma last_map {A B} (f : A -> B) l : last (map f l) = f <$> last l.
Proof. induction l as [|a l IH] using rev_ind; [done|]. rewrite map_app. simpl. by rewrite !last_snoc. Qed.

(** ** Commit *)

(** Every entity has fewer changed ids than there are numbers. *)
Definition fits (cs : gmap string (gmap string (list UncommittedEntityBox))) : Prop :=
  forall e, Z.of_nat (size (default ∅ (cs !! e))) + 1 < 2 ^ 64.

Lemma changes_writable cs cs0 e set :
  changes_ok cs -> changes_ok cs0 -> fits cs0 ->
  (forall id, history cs e id <> [] -> history cs0 e id <> []) -> (e, set) ∈ map_to_list cs -> writable e set.
Proof.
  intros Hc Hc0 Hf Hsub Hin%elem_of_map_to_list. split.
  - apply Forall_forall. intros b Hb%list_elem_of_In. apply in_concat in Hb as (bs & Hbs & Hb).
    apply in_map_iff in Hbs as ([id h] & <- & Hih%list_elem_of_In). apply elem_of_map_to_list in Hih.
    destruct (Hc e id h) as (_ & _ & Ha & _); [unfold GetFromK2Map; by rewrite Hin|].
    apply in_map_iff in Hb as (ub & <- & Hub%list_elem_of_In). rewrite Forall_forall in Ha. by destruct (Ha ub Hub).
  - eapply Z.le_lt_trans; [|apply (Hf e)]. apply Zplus_le_compat_r, inj_le. rewrite <- !size_dom. apply subseteq_size.
    intros id Hid. apply (history_dom cs0 e id Hc0), Hsub, (history_dom cs e id Hc). by rewrite Hin.
Qed.

(** Whatever is changed of a persisted entity is changed beyond what is stored of it. *)
Definition log_before (l : list EntityBox) (cs : gmap string (gmap string (list UncommittedEntityBox))) : Prop :=
  forall e id b x, persisted (st_GetEntityType e) -> b ∈ of_entity e id l -> x ∈ history cs e id -> GenBlockNumber b < gen x.

(** What a commit leaves: the changes beyond the block, and the values from it on. *)
Record committed_to (n : Z) (s s' : State) : Prop := mkCommittedTo {
  cm_committed : committed s' = Some n;
  cm_ok : changes_ok (changes s');
  cm_elsewhere : plain_elsewhere (changes s');
  cm_store : log_before (slog (store s)) (changes s) -> store_ok (store s');
  cm_history e id : history (changes s') e id = beyond n (history (changes s) e id);
  cm_value e id m : persisted (st_GetEntityType e) -> n <= m -> value s' e id m = value s e id m;
  cm_log e id : persisted (st_GetEntityType e) ->
    exists l, of_entity e id (slog (store s')) = of_entity e id (slog (store s)) ++ map ebox l /\
      map gen l = map gen (upto n (history (changes s) e id)) /\
      forall m, m <= n -> value s e id m = Ok (match last (upto m l) with
                                               | Some b => Data (ebox b)
                                               | None => stored_data (slog (store s)) e id
                                               end)
}.

Lemma no_operators_sublist (h h' : list UncommittedEntityBox) : h' `sublist_of` h -> no_operators h -> no_operators h'.
Proof. intros Hs. by apply Forall_sublist. Qed.

Lemma kept_boxes cs e set id :
  changes_ok cs -> writable e set -> (e, set) ∈ map_to_list cs ->
  of_entity e id (all_boxes set) = map ebox (history cs e id).
Proof. intros Hc [Hw _] Hin%elem_of_map_to_list. rewrite of_entity_two, filter_entity by done. by apply all_boxes_id. Qed.

Lemma ascending_history cs e id : changes_ok cs -> ascending (map ebox (history cs e id)).
Proof. intros Hc. unfold ascending. rewrite map_map. apply (history_ok cs e id Hc). Qed.

Lemma ascending_app l1 l2 :
  ascending l1 -> ascending l2 -> (forall b c, b ∈ l1 -> c ∈ l2 -> GenBlockNumber b < GenBlockNumber c) -> ascending (l1 ++ l2).
Proof.
  unfold ascending. intros H1 H2 Hlt. rewrite map_app. apply StronglySorted_app_2; [|done|done].
  intros x y (b & -> & Hb)%list_elem_of_fmap (c & -> & Hc)%list_elem_of_fmap. by apply Hlt.
Qed.

Lemma stored_then_changed l cs e id :
  changes_ok cs -> persisted (st_GetEntityType e) -> ordered_log st_GetEntityType l -> log_before l cs ->
  ascending (of_entity e id l ++ map ebox (history cs e id)).
Proof.
  intros Hc Hp Ho Hb. apply ascending_app; [by apply Ho|by apply ascending_history|].
  intros b c Hbl (x & -> & Hx)%list_elem_of_fmap. by eapply Hb.
Qed.

(** A value at or beyond the block, from the data at the block. *)
Lemma eval_beyond et prev n m h :
  hist_ok h -> n <= m -> eval et prev (upto m h) = (let! d := eval et prev (upto n h) in eval et d (upto m (beyond n h))).
Proof.
  intros Hh Hm. rewrite (upto_beyond n h Hh) at 1. rewrite upto_app, (upto_all m (upto n h)), eval_app; [done|].
  apply Forall_forall. intros b [Hb _]%list_elem_of_filter. lia.
Qed.

Lemma committed_values n s1 st cs' c u w e id m :
  changes_ok (changes s1) -> plain n (history (changes s1) e id) ->
  history cs' e id = beyond n (history (changes s1) e id) ->
  slog st = slog (store s1) ++ w -> of_entity e id w = map ebox (upto n (history (changes s1) e id)) -> n <= m ->
  value (mkEState cs' c u st) e id m = value s1 e id m.
Proof.
  intros Hc Hp Hh Hl Hw Hm. unfold value. cbn [store changes]. rewrite Hh, Hl.
  rewrite (eval_beyond _ _ n m (history (changes s1) e id)); [|apply (history_ok _ _ _ Hc)|done].
  rewrite (eval_plain _ _ (upto n (history (changes s1) e id))) by done. cbn [obind]. rewrite stored_data_app, Hw, last_map.
  by destruct (last (upto n (history (changes s1) e id))).
Qed.

(** A commit may have added boxes: of changed entities, each at the block of a change. *)
Definition added (s s' : State) : Prop :=
  (exists w, slog (store s') = slog (store s) ++ w /\
     forall b, b ∈ w -> persisted (st_GetEntityType (Entity b)) ->
       exists x, x ∈ history (changes s) (Entity b) (ID b) /\ gen x = GenBlockNumber b) /\
  (log_before (slog (store s)) (changes s) -> forall m, sbase m (store s')).

Lemma all_boxes_history cs e set b :
  changes_ok cs -> (e, set) ∈ map_to_list cs -> b ∈ all_boxes set -> exists x, x ∈ history cs e (ID b) /\ b = ebox x.
Proof.
  intros Hc Hin%elem_of_map_to_list Hb. apply list_elem_of_In, in_concat in Hb as (bs & Hbs & Hb).
  apply in_map_iff in Hbs as ([id h] & <- & Hih%list_elem_of_In). apply elem_of_map_to_list in Hih.
  apply in_map_iff in Hb as (x & <- & Hx%list_elem_of_In). cbn in Hx. exists x. split; [|done].
  assert (Hget : GetFromK2Map cs e id = Some h) by (unfold GetFromK2Map; by rewrite Hin).
  destruct (Hc e id h Hget) as (_ & _ & Ha & _). rewrite Forall_forall in Ha. destruct (Ha x Hx) as [_ ->].
  unfold history. by rewrite Hget.
Qed.

Lemma Commit_spec n t s :
  store_ok (store s) -> plain_elsewhere (changes s) -> changes_ok (changes s) -> fits (changes s) -> (forall e id, exists v, value s e id n = Ok v) ->
  exists st r s', Commit n t s = Ok ((st, r), s') /\
    added s s' /\
    (r = None -> committed_to n s s') /\ (r <> None -> committed s' = committed s) /\
    (StoreWorks (St := St) -> (forall e id, history (changes s) e id <> [] -> IsTimeSeries (st_GetEntityType e) = false) -> r = None).
Proof.
  intros Hso Hpe Hc Hf Hv. destruct (executeAll_spec n s Hso Hpe Hc Hv) as (r & s1 & E1 & L1 & C1 & Hso1 & H1 & Wk1).
  unfold Commit, mbind at 1, SM_bind at 1. rewrite E1. cbn [obind]. destruct r as [err|].
  { eexists _, _, s1. split; [reflexivity|]. split.
    { split; [exists []; rewrite app_nil_r; split; [done|by intros b ?%not_elem_of_nil]|intros _ m; apply sclean_base, Hso1]. }
    split; [done|]. split; [done|].
    intros Hk. by discriminate (Wk1 Hk). }
  destruct (H1 eq_refl) as [Hax Hpl]. pose proof (ax_ok _ _ _ _ Hax) as Hc1.
  destruct (Split_ok (changes s1) n Hc1) as [Hk Hn]. pose proof (Split_history (changes s1) n) as Hsp.
  destruct (changeSet_Split (changes s1) n) as [kept newChanges] eqn:Esp. cbn [fst snd] in *.
  unfold mbind at 1, SM_bind at 1, sget at 1. cbn [obind]. rewrite Esp.
  unfold mbind at 1, SM_bind at 1, smodify at 1. cbn [obind].
  assert (Hkne : forall e id, history kept e id <> [] -> history (changes s) e id <> []).
  { intros e id. destruct (Hsp e id Hc1) as [-> _]. intros Hne E. apply Hne. pose proof (ax_gens _ _ _ _ Hax e id) as Hg.
    rewrite E in Hg. by destruct (history (changes s1) e id). }
  assert (Hkts : (forall e id, history (changes s) e id <> [] -> IsTimeSeries (st_GetEntityType e) = false) ->
            forall e set, (e, set) ∈ map_to_list kept -> IsTimeSeries (st_GetEntityType e) = false).
  { intros Hall e set Hin%elem_of_map_to_list. destruct (kept_nonempty (changes s1) n e set) as [id Hid]; [by rewrite Esp|].
    rewrite Esp in Hid. by apply (Hall e id), Hkne. }
  assert (Hwr : forall e set, (e, set) ∈ map_to_list kept -> writable e set).
  { intros e set. apply (changes_writable kept (changes s) e set Hk Hc Hf). intros id. apply Hkne. }
  destruct (commit_entities_spec (map_to_list kept) (mkCommitStat ∅ ∅) (set_changes kept s1)) as
    (st & r & s2 & E2 & D1 & D2 & w & W1 & W2 & W3 & W6 & W5 & W4).
  { apply NoDup_fst_map_to_list. }
  { done. }
  unfold mbind at 1, SM_bind at 1. rewrite E2. cbn [obind]. cbn [store set_changes committed] in *.
  assert (Hold : forall e id x, x ∈ history kept e id -> exists y, y ∈ history (changes s) e id /\ gen y = gen x).
  { intros e id x Hx. assert (Hg : gen x ∈ map gen (history (changes s) e id)).
    { rewrite <- (ax_gens _ _ _ _ Hax). apply list_elem_of_fmap_2. rewrite (proj1 (Hsp e id Hc1)) in Hx.
      by apply list_elem_of_filter in Hx as [_ ?]. }
    apply list_elem_of_fmap in Hg as (y & Hg & Hy). by exists y. }
  assert (Hlb1 : log_before (slog (store s)) (changes s) -> forall e set id, (e, set) ∈ map_to_list kept -> persisted (st_GetEntityType e) ->
            ascending (of_entity e id (slog (store s1) ++ all_boxes set))).
  { intros Hlb e set id Hin Hp. rewrite L1, of_entity_app, (kept_boxes kept) by auto.
    apply stored_then_changed; [done|done|by apply Hso|]. intros e' id' b x Hp' Hb (y & Hy & <-)%Hold. by eapply Hlb. }
  assert (Hadd : forall st', slog st' = slog (store s2) -> (log_before (slog (store s)) (changes s) -> forall m, sbase m st') -> forall cs' c u, added s (mkEState cs' c u st')).
  { intros st' Hl' Hb' cs' c u. split; cbn [store].
    - exists w. split; [congruence|]. intros b Hb Hp. destruct (W6 b Hb Hp) as (set & Hin & Hbs).
      destruct (all_boxes_history kept _ set b Hk Hin Hbs) as (x & Hx & Hbx). destruct (Hold _ _ x Hx) as (y & Hy & Hg).
      exists y. split; [done|]. rewrite Hg. by subst b.
    - exact Hb'. }
  destruct r as [err|].
  { eexists _, _, s2. split; [reflexivity|]. split.
    { destruct s2. apply Hadd; [done|]. intros Hlb. by apply (W5 Hso1 (Hlb1 Hlb)). } split; [done|]. split; [congruence|].
    intros Hw Hall. by discriminate (W4 Hw (Hkts Hall)). }
  unfold mbind at 1, SM_bind at 1, with_store. destruct (st_GrowthAggregation t (store s2)) as [er st2] eqn:Eg.
  pose proof Eg as Eg'. apply Growth_ok in Eg as (Eg & Hcl). cbn [obind].
  assert (Hst2 : log_before (slog (store s)) (changes s) -> store_ok st2).
  { intros Hlb. destruct (W5 Hso1 (Hlb1 Hlb)) as [_ [Hc2 Ho2]]; [done|]. split; [by apply Hcl|by rewrite Eg]. }
  assert (Hsb : log_before (slog (store s)) (changes s) -> forall m, sbase m st2) by (intros Hlb m; by apply sclean_base, Hst2).
  destruct er as [err|].
  { eexists _, _, _. split; [reflexivity|]. split; [by apply Hadd|]. split; [done|].
    split; [cbn [committed]; congruence|]. intros Hw _. pose proof (sw_growth Hw t (store s2)) as Hi. by rewrite Eg' in Hi. }
  assert (Hw : forall e id, persisted (st_GetEntityType e) -> of_entity e id w = map ebox (history kept e id)).
  { intros e id Hp. apply committed_entity; [done|done|]. intros set Hin. split; [by apply Hwr|]. apply W3; [done|done|done|].
    rewrite (kept_boxes kept) by auto. by apply ascending_history. }
  eexists _, _, _. split; [reflexivity|]. split; [by apply Hadd|]. split; [|done]. intros _.
  split; cbn [committed changes store]; [done|done|..].
  - intros e id Hp. destruct (Hsp e id Hc1) as [_ ->]. eapply no_operators_sublist; [apply sublist_filter|].
    by apply (ax_elsewhere _ _ _ _ Hax).
  - exact Hst2.
  - intros e id. destruct (Hsp e id Hc1) as [_ ->]. apply Hax.
  - intros e id m Hp Hm. rewrite <- (ax_value _ _ _ _ Hax e id m). destruct (Hsp e id Hc1) as [S1 S2].
    apply (committed_values n s1 _ _ _ _ w); [done|done|exact S2|congruence| |done]. rewrite <- S1. by apply Hw.
  - intros e id Hp. destruct (Hsp e id Hc1) as [S1 _]. exists (upto n (history (changes s1) e id)). split_and!.
    + rewrite <- S1, <- Hw, <- of_entity_app by done. congruence.
    + rewrite !upto_gens. by rewrite (ax_gens _ _ _ _ Hax).
    + intros m Hm. rewrite <- (ax_value _ _ _ _ Hax e id m), upto_upto, Z.min_l by done. unfold value. rewrite L1. apply eval_plain.
      eapply Forall_sublist; [|apply (Hpl e id)].
      rewrite <- (Z.min_l m n) by done. rewrite <- upto_upto. apply sublist_filter.
Qed.
End Store.
