(* ===== verification/EntityRefine.v ===== *)
(** * The entity controller as a table of versions

    The abstract specification keeps, for every entity, the writes in the order of their
    blocks; the value of an entity at a block is what the writes up to the block make of
    nothing, one after the other. It does not merge the writes of a block, execute
    operators in place, commit or store. The controller and its store implement it: every
    step of theirs corresponds to one of the table, and a read returns the table's value.
    Time series entities, whose ids change at a commit, and entities that are only cached
    are not in the table. *)
From Stdlib Require Import ZArith Lia Ascii String Relations.
From stdpp Require Import base numbers option strings pretty sorting gmap list.
From S2P Require Import Prelude BlockCache RangeBase RangeSet RangeSetOps RangeText EntityValue EntityHistory EntityMerge EntityCtrl EntitySpec EntityWrite EntityCommit.

Section Refine.
Context `{HD : Decimal} {St : Type} `{HSt : !ChainStore St} `{!ChainStoreLaws St}.

Abbreviation State := (EState (St := St)).

(** ** The specification *)

Definition Table : Type := string -> string -> list UncommittedEntityBox.

Definition table_value (A : Table) (e id : string) (m : Z) : Outcome (option (gmap string Value)) :=
  eval (st_GetEntityType e) None (upto m (A e id)).

Definition empty_table : Table := fun _ _ => [].

Definition table_write (e : string) (box : UncommittedEntityBox) (A : Table) : Table :=
  fun e' id' => if decide ((e', id') = (e, ID (ebox box))) then A e' id' ++ [box] else A e' id'.

Definition table_cut (n : Z) (A : Table) : Table := fun e id => upto n (A e id).

Lemma table_value_cut n A e id m : table_value (table_cut n A) e id m = table_value A e id (Z.min m n).
Proof. unfold table_value, table_cut. by rewrite upto_upto. Qed.

(** ** The versions of the concrete state *)

(** What the store has of an entity up to a block. *)
Definition entity_log (s : State) (e id : string) : list EntityBox := of_entity e id (slog (store s)).

Definition log_value (l : list EntityBox) (m : Z) : option (gmap string Value) :=
  last (filter (fun b => GenBlockNumber b <= m) l) ≫= Data.

Definition version (s : State) (e id : string) (m : Z) : Outcome (option (gmap string Value)) :=
  eval (st_GetEntityType e) (log_value (entity_log s e id) m) (upto m (history (changes s) e id)).

Definition in_table (e : string) : Prop := persisted (st_GetEntityType e).

(** The store is behind the changes. *)
Record ordered_at (s : State) (e id : string) : Prop := mkOrderedAt {
  oa_behind b x : b ∈ entity_log s e id -> x ∈ history (changes s) e id -> GenBlockNumber b < gen x;
  oa_committed c b : committed s = Some c -> b ∈ entity_log s e id -> GenBlockNumber b <= c;
  oa_beyond c x : committed s = Some c -> x ∈ history (changes s) e id -> c < gen x;
  oa_log_nonneg b : b ∈ entity_log s e id -> 0 <= GenBlockNumber b;
  oa_nonneg x : x ∈ history (changes s) e id -> 0 <= gen x
}.

Lemma log_value_all l m : (forall b, b ∈ l -> GenBlockNumber b <= m) -> log_value l m = last l ≫= Data.
Proof. intros Hl. unfold log_value. by rewrite filter_all. Qed.

Lemma log_value_filter l n m : log_value (filter (fun b => GenBlockNumber b <= n) l) m = log_value l (Z.min m n).
Proof.
  unfold log_value. rewrite list_filter_filter. f_equal. f_equal. apply list_filter_iff. intros b. lia.
Qed.

Lemma elem_of_upto m h x : x ∈ upto m h <-> gen x <= m /\ x ∈ h.
Proof. unfold upto. by rewrite list_elem_of_filter. Qed.

(** A version with changes is the current value; one without is in the store. *)
Lemma version_changed s e id m : ordered_at s e id -> upto m (history (changes s) e id) <> [] -> version s e id m = value s e id m.
Proof.
  intros Ho Hne. unfold version, value. rewrite log_value_all; [done|]. intros b Hb.
  destruct (upto m (history (changes s) e id)) as [|x t] eqn:E; [done|].
  assert (Hx : x ∈ upto m (history (changes s) e id)) by (rewrite E; by left). apply elem_of_upto in Hx as [Hm Hx].
  pose proof (oa_behind _ _ _ Ho b x Hb Hx). lia.
Qed.

Lemma version_stored s e id m : upto m (history (changes s) e id) = [] -> version s e id m = Ok (log_value (entity_log s e id) m).
Proof. intros E. unfold version. by rewrite E. Qed.

Lemma version_value s e id m : (forall b, b ∈ entity_log s e id -> GenBlockNumber b <= m) -> version s e id m = value s e id m.
Proof. intros Hl. unfold version, value. by rewrite log_value_all. Qed.

(** Where the gens of the history and the values stay, the versions stay. *)
Lemma version_same s s' e id m :
  ordered_at s e id -> ordered_at s' e id -> entity_log s' e id = entity_log s e id ->
  map gen (history (changes s') e id) = map gen (history (changes s) e id) -> value s' e id m = value s e id m ->
  version s' e id m = version s e id m.
Proof.
  intros Ho Ho' Hl Hg Hv.
  assert (Hn : upto m (history (changes s') e id) = [] <-> upto m (history (changes s) e id) = []).
  { pose proof (upto_gens m (history (changes s') e id)) as U'. rewrite Hg, <- upto_gens in U'.
    split; intros E; rewrite E in U'; [by destruct (upto m (history (changes s) e id))|by destruct (upto m (history (changes s') e id))]. }
  destruct (decide (length (upto m (history (changes s) e id)) = 0)%nat) as [E%length_zero_iff_nil|E].
  - rewrite !version_stored by (done || by apply Hn). by rewrite Hl.
  - assert (upto m (history (changes s) e id) <> []) by (intros E'; by rewrite E' in E).
    rewrite !version_changed by (done || by rewrite Hn). done.
Qed.

(** ** The refinement relation *)

Record implements (A : Table) (s : State) : Prop := mkImplements {
  im_ok : changes_ok (changes s);
  im_store : store_ok (store s);
  im_time_series e id : ~ in_table e -> history (changes s) e id = [];
  im_ordered e id : in_table e -> ordered_at s e id;
  im_gens e id x : in_table e -> x ∈ history (changes s) e id -> exists b, b ∈ A e id /\ gen b = gen x;
  im_value e id m : in_table e -> version s e id m = table_value A e id m;
  im_total e id m : in_table e -> exists v, table_value A e id m = Ok v
}.

#[global] Instance in_table_dec e : Decision (in_table e) := _.

Lemma implements_defined A s e id n : implements A s -> exists v, value s e id n = Ok v.
Proof.
  intros Him. destruct (decide (in_table e)) as [Ht|Ht].
  - destruct (decide (length (upto n (history (changes s) e id)) = 0)%nat) as [E%length_zero_iff_nil|E].
    + unfold value. rewrite E. by eexists.
    + rewrite <- version_changed; [|by apply Him|by intros E'; rewrite E' in E]. rewrite (im_value _ _ Him) by done. by apply Him.
  - unfold value. rewrite (im_time_series _ _ Him) by done. by eexists.
Qed.

Lemma implements_elsewhere A s : implements A s -> plain_elsewhere (changes s).
Proof. intros Him e id Hp. unfold no_operators. by rewrite (im_time_series _ _ Him). Qed.

Lemma implements_before A s : implements A s -> log_before (slog (store s)) (changes s).
Proof. intros Him e id b x Hp. by apply (oa_behind _ _ _ (im_ordered _ _ Him e id Hp)). Qed.

Lemma implements_empty st : slog st = [] -> sclean st -> implements empty_table (NewController st).
Proof.
  intros Hl Hcl. assert (Hlog : forall e id, entity_log (NewController st) e id = []) by (intros e id; unfold entity_log; cbn; by rewrite Hl).
  split; [done| |done| | | |by eexists].
  - split; [done|]. cbn. rewrite Hl. intros e id _. constructor.
  - intros e id _. split; intros *; rewrite ?Hlog; try (by intros ?%not_elem_of_nil); try (by intros _ ?%not_elem_of_nil); done.
  - intros e id x _ []%not_elem_of_nil.
  - intros e id m _. unfold version. by rewrite Hlog.
Qed.

(** Reading changes no version. *)
Lemma implements_read A s s' e id :
  implements A s -> only_entity e id s s' -> changes_ok (changes s') ->
  (forall e' id', map gen (history (changes s') e' id') = map gen (history (changes s) e' id')) ->
  (forall e' id' m, value s' e' id' m = value s e' id' m) -> implements A s'.
Proof.
  intros Him (Hl & Hcm & _ & Hso) Hc Hg Hv.
  assert (Hlog : forall e id, entity_log s' e id = entity_log s e id) by (intros; unfold entity_log; by rewrite Hl).
  assert (Hx : forall e id x, x ∈ history (changes s') e id -> exists y, y ∈ history (changes s) e id /\ gen y = gen x).
  { intros e' id' x Hx. assert (Hin : gen x ∈ map gen (history (changes s') e' id')) by by apply (list_elem_of_fmap_2 gen).
    rewrite Hg in Hin. apply list_elem_of_fmap in Hin as (y & ? & ?). by exists y. }
  assert (Ho : forall e id, in_table e -> ordered_at s' e id).
  { intros e' id' Ht. destruct (im_ordered _ _ Him e' id' Ht) as [O1 O2 O3 O4 O5]. split; intros *; rewrite ?Hlog, ?Hcm.
    - intros Hb (y & Hy & <-)%Hx. by apply O1.
    - apply O2.
    - intros Hc0 (y & Hy & <-)%Hx. by apply (O3 c).
    - apply O4.
    - intros (y & Hy & <-)%Hx. by apply O5. }
  split; [done|by apply Hso, Him| |done| | |apply Him].
  - intros e' id' Ht. pose proof (Hg e' id') as Hge. rewrite (im_time_series _ _ Him) in Hge by done.
    by destruct (history (changes s') e' id').
  - intros e' id' x Ht (y & Hy & <-)%Hx. by apply (im_gens _ _ Him e' id').
  - intros e' id' m Ht. rewrite <- (im_value _ _ Him e' id' m Ht). apply version_same; [by apply Him|by apply Ho|done|done|done].
Qed.

(** ** Writing *)

(** The conditions of a write: the writes of an entity come in the order of the blocks,
    behind what is stored and committed. *)
Record can_write (A : Table) (s : State) (e : string) (box : UncommittedEntityBox) (v1 : option (gmap string Value)) : Prop := mkCanWrite {
  cw_table : in_table e;
  cw_nonneg : 0 <= gen box;
  cw_box : box_ok (st_GetEntityType e) box;
  cw_committed c : committed s = Some c -> c < gen box;
  cw_order b : b ∈ A e (ID (ebox box)) -> gen b <= gen box;
  cw_stored b : b ∈ entity_log s e (ID (ebox box)) -> GenBlockNumber b < gen box;
  cw_mergeable : mergeable (st_GetEntityType e) (stored_data (slog (store s)) e (ID (ebox box)))
                   (history (changes s) e (ID (ebox box))) (stamped e box);
  cw_exec : (let! v0 := table_value A e (ID (ebox box)) (gen box) in exec_box (st_GetEntityType e) (default ∅ v0) box) = Ok v1
}.

Lemma table_write_value e box A v1 m :
  (forall b, b ∈ A e (ID (ebox box)) -> gen b <= gen box) ->
  (let! v0 := table_value A e (ID (ebox box)) (gen box) in exec_box (st_GetEntityType e) (default ∅ v0) box) = Ok v1 ->
  table_value (table_write e box A) e (ID (ebox box)) m = if m <? gen box then table_value A e (ID (ebox box)) m else Ok v1.
Proof.
  intros Hord Hex. unfold table_value, table_write in *. rewrite decide_True by done. rewrite upto_app. bcase.
  - by rewrite (upto_empty m [box]), app_nil_r by (by constructor).
  - rewrite (upto_all m [box]) by (by constructor). rewrite upto_all in Hex by (by apply Forall_forall).
    rewrite upto_all; [|apply Forall_forall; intros b Hb; specialize (Hord b Hb); lia]. rewrite eval_app.
    destruct (eval _ None (A e (ID (ebox box)))) as [v0| |]; cbn [obind eval] in *; try done. by rewrite Hex.
Qed.

Lemma implements_write A s s' e box v1 :
  implements A s -> can_write A s e box v1 -> only_entity e (ID (ebox box)) s s' -> changes_ok (changes s') ->
  written e box v1 s s' -> implements (table_write e box A) s'.
Proof.
  intros Him Hcw (Hl & Hcm & Hoth & Hso) Hc [P1 P2 P3 P4]. destruct Hcw as [Ht Hnn Hbx Hcg Hord Hst _ Hex].
  change (gen (stamped e box)) with (gen box) in *. set (id := ID (ebox box)) in *.
  assert (Hlog : forall e id, entity_log s' e id = entity_log s e id) by (intros; unfold entity_log; by rewrite Hl).
  assert (Hhist : forall e' id', (e', id') <> (e, id) -> history (changes s') e' id' = history (changes s) e' id')
    by (intros e' id' Hne; unfold history; by rewrite Hoth).
  assert (Htab : forall e' id', (e', id') <> (e, id) -> table_write e box A e' id' = A e' id')
    by (intros e' id' Hne; unfold table_write; by rewrite decide_False).
  assert (Ho : ordered_at s' e id).
  { destruct (im_ordered _ _ Him e id Ht) as [O1 O2 O3 O4 O5]. split; intros *; rewrite ?Hlog, ?Hcm.
    - intros Hb [->|Hx]%P3; [by apply Hst|by apply O1].
    - apply O2.
    - intros Hc0 [->|Hx]%P3; [by apply Hcg|by apply O3].
    - apply O4.
    - intros [->|Hx]%P3; [done|by apply O5]. }
  split; [done|by apply Hso, Him|..].
  - intros e' id' Ht'. rewrite Hhist by (intros [= -> _]; done). by apply Him.
  - intros e' id' Ht'. destruct (decide ((e', id') = (e, id))) as [[= -> ->]|Hne]; [done|].
    destruct (im_ordered _ _ Him e' id' Ht') as [O1 O2 O3 O4 O5]. split; intros *; rewrite ?Hlog, ?Hcm, ?Hhist by done; eauto.
  - intros e' id' x Ht'. destruct (decide ((e', id') = (e, id))) as [[= -> ->]|Hne].
    + unfold table_write. rewrite decide_True by done. intros [Hg|Hx]%P3.
      * exists box. split; [|done]. apply elem_of_app. right. by left.
      * destruct (im_gens _ _ Him e id x Ht Hx) as (b & Hb & Hg). exists b. split; [|done]. apply elem_of_app. by left.
    + rewrite Hhist, Htab by done. by apply Him.
  - intros e' id' m Ht'. destruct (decide ((e', id') = (e, id))) as [[= -> ->]|Hne].
    + unfold id. rewrite (table_write_value e box A v1 m Hord Hex). fold id. bcase.
      * rewrite <- (im_value _ _ Him) by done. unfold version. by rewrite Hlog, P1.
      * rewrite version_changed; [|done|]. 2:{ destruct P4 as (x & Hx & Hg). intros E. apply (not_elem_of_nil x). rewrite <- E.
          apply elem_of_upto. split; [lia|done]. }
        unfold value. rewrite Hl, P2 by done. assert (beyond (gen box) (history (changes s) e id) = []) as ->; [|done].
        apply filter_none. intros x Hx. destruct (im_gens _ _ Him e id x Ht Hx) as (b & Hb & Hg). specialize (Hord b Hb). lia.
    + unfold table_value. rewrite Htab by done. fold (table_value A e' id' m). rewrite <- (im_value _ _ Him) by done.
      unfold version. by rewrite Hlog, Hhist.
  - intros e' id' m Ht'. destruct (decide ((e', id') = (e, id))) as [[= -> ->]|Hne].
    + unfold id. rewrite (table_write_value e box A v1 m Hord Hex). bcase; [by apply Him|by eexists].
    + unfold table_value. rewrite Htab by done. by apply Him.
Qed.

(** ** Committing *)

(** A commit goes forward. *)
Definition can_commit (s : State) (n : Z) : Prop :=
  fits (changes s) /\ (forall c, committed s = Some c -> c <= n) /\
  forall e id b, in_table e -> b ∈ entity_log s e id -> GenBlockNumber b <= n.

Lemma log_value_app l1 l2 m :
  log_value (l1 ++ l2) m =
  match last (filter (fun b => GenBlockNumber b <= m) l2) with Some b => Data b | None => log_value l1 m end.
Proof.
  unfold log_value. rewrite filter_app. destruct (filter _ l2) as [|b t] using rev_ind; [by rewrite app_nil_r|].
  by rewrite app_assoc, !last_snoc.
Qed.

Lemma filter_ebox m l : filter (fun b => GenBlockNumber b <= m) (map ebox l) = map ebox (upto m l).
Proof. unfold upto. induction l as [|x l IH]; [done|]. simpl. rewrite !filter_cons. unfold gen. case_decide; simpl; by rewrite IH. Qed.

(** A version before the commit's block is now in the store. *)
Lemma commit_version n s s' e id m :
  in_table e -> ordered_at s e id -> (forall b, b ∈ entity_log s e id -> GenBlockNumber b <= n) -> committed_to n s s' ->
  version s' e id m = version s e id m.
Proof.
  intros Ht Ho Hn Hc. destruct (cm_log _ _ _ Hc e id Ht) as (l & Hl & Hg & Hv). fold (entity_log s' e id) (entity_log s e id) in Hl.
  assert (Hln : forall x, x ∈ l -> gen x <= n).
  { intros x Hx. assert (Hin : gen x ∈ map gen l) by by apply (list_elem_of_fmap_2 gen). rewrite Hg in Hin.
    apply list_elem_of_fmap in Hin as (y & -> & [Hy _]%elem_of_upto). done. }
  destruct (Z_le_gt_dec n m) as [Hm|Hm].
  - rewrite !version_value; [by apply (cm_value _ _ _ Hc)| |].
    + intros b Hb. specialize (Hn b Hb). lia.
    + rewrite Hl. intros b [Hb|Hb]%elem_of_app; [specialize (Hn b Hb); lia|].
      apply list_elem_of_fmap in Hb as (x & -> & Hx). specialize (Hln x Hx). unfold gen in Hln. lia.
  - assert (Hup : upto m (history (changes s') e id) = []).
    { rewrite (cm_history _ _ _ Hc). apply upto_empty, Forall_forall. intros x [Hx _]%list_elem_of_filter. lia. }
    rewrite version_stored by done. rewrite Hl, log_value_app, filter_ebox, last_map. specialize (Hv m ltac:(lia)).
    assert (Hlg : map gen (upto m l) = map gen (upto m (history (changes s) e id))).
    { rewrite (upto_gens m l), Hg, <- upto_gens, upto_upto, Z.min_l by lia. done. }
    destruct (last (upto m l)) as [b|] eqn:El; cbn.
    + rewrite version_changed; [by rewrite Hv|done|]. intros E. rewrite E in Hlg. by destruct (upto m l).
    + apply last_None in El. rewrite El in Hlg. rewrite version_stored; [done|]. by destruct (upto m (history (changes s) e id)).
Qed.

Lemma implements_commit A s s' n :
  implements A s -> can_commit s n -> committed_to n s s' -> implements A s'.
Proof.
  intros Him (_ & Hcn & Hn) Hc.
  assert (Hh : forall e id x, x ∈ history (changes s') e id -> x ∈ history (changes s) e id /\ n < gen x).
  { intros e id x. rewrite (cm_history _ _ _ Hc). by intros [? ?]%list_elem_of_filter. }
  assert (Hlog : forall e id b, in_table e -> b ∈ entity_log s' e id -> GenBlockNumber b <= n /\ 0 <= GenBlockNumber b).
  { intros e id b Ht. destruct (cm_log _ _ _ Hc e id Ht) as (l & Hl & Hg & _). unfold entity_log. rewrite Hl.
    intros [Hb|Hb]%elem_of_app; [split; [by eapply Hn|by eapply (oa_log_nonneg _ _ _ (im_ordered _ _ Him e id Ht))]|].
    apply list_elem_of_fmap in Hb as (x & -> & Hx). assert (Hin : gen x ∈ map gen l) by by apply (list_elem_of_fmap_2 gen).
    rewrite Hg in Hin. apply list_elem_of_fmap in Hin as (y & Hy & [Hyn Hyh]%elem_of_upto). fold (gen x). rewrite Hy.
    split; [done|]. by apply (oa_nonneg _ _ _ (im_ordered _ _ Him e id Ht)). }
  split; [apply Hc|by apply (cm_store _ _ _ Hc), (implements_before A)|..].
  - intros e id Ht. rewrite (cm_history _ _ _ Hc), (im_time_series _ _ Him) by done. done.
  - intros e id Ht. split.
    + intros b x Hb [_ Hx]%Hh. destruct (Hlog e id b Ht Hb). lia.
    + intros c b. rewrite (cm_committed _ _ _ Hc). intros [= <-] Hb. by destruct (Hlog e id b Ht Hb).
    + intros c x. rewrite (cm_committed _ _ _ Hc). intros [= <-] [_ Hx]%Hh. done.
    + intros b Hb. by destruct (Hlog e id b Ht Hb).
    + intros x [Hx _]%Hh. by apply (oa_nonneg _ _ _ (im_ordered _ _ Him e id Ht)).
  - intros e id x Ht [Hx _]%Hh. by apply (im_gens _ _ Him e id).
  - intros e id m Ht. rewrite (commit_version n s s' e id m Ht); [by apply Him|by apply Him|by intros b; apply Hn|done].
  - apply Him.
Qed.

(** ** Going back *)

(** The controller's part of a reorg, and the store's when it succeeds. *)
Record reorg_fields (n : Z) (s s' : State) : Prop := mkReorgFields {
  re_ok : changes_ok (changes s');
  re_base m : n <= m -> sbase m (store s) -> sbase n (store s');
  re_history e id : history (changes s') e id = if n <? 0 then [] else upto n (history (changes s) e id);
  re_committed : committed s' = if n <? 0 then None else Z.min n <$> committed s;
  re_kept : filter (fun b => GenBlockNumber b <= n) (slog (store s')) = filter (fun b => GenBlockNumber b <= n) (slog (store s))
}.

Definition reorged (n : Z) (s s' : State) : Prop :=
  reorg_fields n s s' /\ (forall m, n <= m -> sbase m (store s) -> sclean (store s')) /\ slog (store s') = filter (fun b => GenBlockNumber b <= n) (slog (store s)).

Lemma Reorg_spec n s :
  changes_ok (changes s) ->
  exists r s', Reorg n s = Ok (r, s') /\ reorg_fields n s s' /\ (r = None -> reorged n s s') /\ (StoreWorks (St := St) -> r = None).
Proof.
  intros Hc. unfold Reorg, mbind, SM_bind, smodify, with_store. cbn [obind].
  match goal with |- context [let '(_, _) := st_Reorg n (store ?x) in _] => set (s1 := x) end.
  assert (Hs1 : store s1 = store s) by (unfold s1; by destruct (n <? 0)).
  assert (Hc1 : changes_ok (changes s1)) by (unfold s1; destruct (n <? 0); cbn [changes]; [intros e id h; unfold GetFromK2Map; by rewrite lookup_empty|exact (proj1 (Split_ok _ n Hc))]).
  assert (Hh : forall e id, history (changes s1) e id = if n <? 0 then [] else upto n (history (changes s) e id))
    by (intros e id; unfold s1; destruct (n <? 0); cbn [changes]; [done|exact (proj1 (Split_history _ n e id Hc))]).
  assert (Hcm : committed s1 = if n <? 0 then None else Z.min n <$> committed s).
  { unfold s1. destruct (n <? 0); [done|]. cbn [committed]. destruct (committed s) as [c|]; [|done]. cbn [fmap option_fmap option_map]. bcase; f_equal; lia. }
  destruct (st_Reorg n (store s1)) as [r st] eqn:Er. pose proof Er as Er'. apply Reorg_ok in Er as (Hcl & _ & Hk & Hn). rewrite Hs1 in *.
  eexists _, _. split; [reflexivity|].
  assert (Hf : reorg_fields n s (mkEState (changes s1) (committed s1) (uniqTimeSeriesID s1) st)) by (split; [done|intros m Hm Hb; by apply (Hcl m)|done..]).
  split; [done|]. split; [intros ->; split_and!; [done|intros m Hm Hb; by apply (Hcl m)|by apply Hn]|]. intros Hw. pose proof (sw_reorg Hw n (store s1)) as Hi.
  rewrite Hs1, Er' in Hi. done.
Qed.

(** A reorg that failed in the store can be repeated. *)
Lemma reorged_retry n s s1 s2 : reorg_fields n s s1 -> reorged n s1 s2 -> reorged n s s2.
Proof.
  intros [A1 A1' A2 A3 A4] ([B1 B1' B2 B3 B4] & Hcl & Hl). split; [split; [done|intros m Hm Hb; apply (B1' n); [lia|by apply (A1' m)]|..]|split; [intros m Hm Hb; apply (Hcl n); [lia|by apply (A1' m)]|congruence]].
  - intros e id. rewrite B2, A2. destruct (n <? 0); [done|]. by rewrite upto_upto, Z.min_id.
  - rewrite B3, A3. destruct (n <? 0); [done|]. destruct (committed s); cbn; [|done]. by rewrite Z.min_assoc, Z.min_id.
  - congruence.
Qed.

Lemma of_entity_filter e id n l :
  of_entity e id (filter (fun b => GenBlockNumber b <= n) l) = filter (fun b => GenBlockNumber b <= n) (of_entity e id l).
Proof. unfold of_entity. rewrite !list_filter_filter. apply list_filter_iff. intros b. tauto. Qed.

(** A state that has what another has up to a block. *)
Lemma implements_cut A s s' n :
  implements A s -> changes_ok (changes s') -> sclean (store s') ->
  (committed s' = None \/ committed s' = Z.min n <$> committed s) ->
  (forall e id, in_table e -> history (changes s') e id = upto n (history (changes s) e id)) ->
  (forall e id, ~ in_table e -> history (changes s') e id = []) ->
  (forall e id, in_table e -> entity_log s' e id = filter (fun b => GenBlockNumber b <= n) (entity_log s e id)) ->
  implements (table_cut n A) s'.
Proof.
  intros Him Hok Hcl Hcm Hup Hts Hlog. split; [done|split; [done|]|done|..].
  - intros e id Hp. fold (entity_log s' e id). rewrite Hlog by done. unfold ascending. eapply StronglySorted_sublist; [|apply (im_store _ _ Him), Hp].
    apply sublist_map, sublist_filter.
  - intros e id Ht. destruct (im_ordered _ _ Him e id Ht) as [O1 O2 O3 O4 O5].
    split; intros *; rewrite ?(Hlog e id Ht), ?(Hup e id Ht), ?list_elem_of_filter, ?elem_of_upto.
    + intros [_ Hb] [_ Hx]. by apply O1.
    + destruct Hcm as [->|Hcm]; [done|]. rewrite Hcm. destruct (committed s) as [c0|]; [|done]. cbn. intros [= <-] [Hb1 Hb2].
      specialize (O2 c0 b eq_refl Hb2). lia.
    + destruct Hcm as [->|Hcm]; [done|]. rewrite Hcm. destruct (committed s) as [c0|]; [|done]. cbn. intros [= <-] [Hx1 Hx2].
      specialize (O3 c0 x eq_refl Hx2). lia.
    + intros [_ Hb]. by apply O4.
    + intros [_ Hx]. by apply O5.
  - intros e id x Ht. rewrite (Hup e id Ht). intros [Hx1 Hx2]%elem_of_upto. destruct (im_gens _ _ Him e id x Ht Hx2) as (b & Hb & Hg).
    exists b. split; [|done]. apply elem_of_upto. split; [lia|done].
  - intros e id m Ht. rewrite table_value_cut, <- (im_value _ _ Him) by done. unfold version.
    by rewrite Hlog, log_value_filter, Hup, upto_upto.
  - intros e id m Ht. rewrite table_value_cut. by apply Him.
Qed.

Lemma implements_reorg A s s' n : implements A s -> reorged n s s' -> implements (table_cut n A) s'.
Proof.
  intros Him ([Hok _ Hh Hcm _] & Hcl & Hl). apply (implements_cut A s); [done|done|apply (Hcl n); [lia|apply sclean_base, Him]|..].
  - rewrite Hcm. destruct (n <? 0); [by left|by right].
  - intros e id Ht. rewrite Hh. bcase; [|done]. symmetry. apply upto_empty, Forall_forall. intros x Hx.
    pose proof (oa_nonneg _ _ _ (im_ordered _ _ Him e id Ht) x Hx). lia.
  - intros e id Ht. rewrite Hh, (im_time_series _ _ Him) by done. by destruct (n <? 0).
  - intros e id _. unfold entity_log. by rewrite Hl, of_entity_filter.
Qed.

(** The block a new run goes on from: what was committed. *)
Definition last_committed (s : State) : Z := default (-1) (committed s).

Lemma nothing_committed A s e id : implements A s -> in_table e -> upto (last_committed s) (history (changes s) e id) = [].
Proof.
  intros Him Ht. apply upto_empty, Forall_forall. intros x Hx. unfold last_committed.
  destruct (committed s) as [c|] eqn:Ec; cbn; [by apply (oa_beyond _ _ _ (im_ordered _ _ Him e id Ht))|].
  pose proof (oa_nonneg _ _ _ (im_ordered _ _ Him e id Ht) x Hx). lia.
Qed.

(** A new controller on the store of an old one has what was committed. *)
Lemma implements_restart A s c st' :
  implements A s -> committed s = Some c -> slog st' = slog (store s) -> sclean st' -> implements (table_cut c A) (NewController st').
Proof.
  intros Him Hcm Hlog Hcl. apply (implements_cut A s); [done|done|done|by left| |done|].
  - intros e id Ht. pose proof (nothing_committed A s e id Him Ht) as Hn. unfold last_committed in Hn. rewrite Hcm in Hn. by symmetry.
  - intros e id Ht. unfold entity_log. cbn [store NewController]. rewrite Hlog. symmetry. apply filter_all. intros b Hb.
    by apply (oa_committed _ _ _ (im_ordered _ _ Him e id Ht) c).
Qed.

(** So has one that goes back to it behind a commit that did not succeed. *)
Lemma implements_recover A s s1 st' s' :
  implements A s -> added s s1 -> slog st' = slog (store s1) -> (forall m, sbase m (store s1) -> sbase m st') ->
  reorged (last_committed s) (NewController st') s' -> implements (table_cut (last_committed s) A) s'.
Proof.
  intros Him [(w & Hw & Hfrom) Hsb] Hlog' Hbase ([Hok _ Hh Hcm _] & Hcl & Hl).
  assert (Hnone : forall e id, history (changes s') e id = []) by (intros e id; rewrite Hh; by destruct (_ <? 0)).
  apply (implements_cut A s); [done|done|apply (Hcl (last_committed s)); [lia|by apply Hbase, Hsb, (implements_before A)]|..].
  - left. rewrite Hcm. by destruct (_ <? 0).
  - intros e id Ht. by rewrite Hnone, (nothing_committed A s).
  - intros e id _. apply Hnone.
  - intros e id Ht. unfold entity_log. rewrite Hl. cbn [store NewController]. rewrite Hlog', Hw, of_entity_filter, of_entity_app, filter_app.
    rewrite (filter_none _ (of_entity e id w)), app_nil_r; [done|]. intros b [[He Hid] Hb]%list_elem_of_filter Hle.
    destruct (Hfrom b Hb) as (x & Hx & Hg); [by rewrite He|]. rewrite He, Hid in Hx.
    assert (Hin : x ∈ upto (last_committed s) (history (changes s) e id)) by (apply elem_of_upto; split; [lia|done]).
    rewrite (nothing_committed A s e id Him Ht) in Hin. by apply not_elem_of_nil in Hin.
Qed.

(** ** Runs *)

(** The steps of the controller with those of the table. A restart goes on with a store
    that has the same boxes, and is as sound. *)
Inductive estep : Table * State -> Table * State -> Prop :=
| es_write A s e box v1 s' :
    can_write A s e box v1 -> SetEntity (st_GetEntityType e) box s = Ok (None, s') ->
    estep (A, s) (table_write e box A, s')
| es_read A s e id n box s' :
    in_table e -> getEntity (st_GetEntityType e) id n false s = Ok (inl box, s') -> estep (A, s) (A, s')
| es_commit A s n t st s' :
    can_commit s n -> Commit n t s = Ok ((st, None), s') -> estep (A, s) (A, s')
| es_reorg A s n s' :
    Reorg n s = Ok (None, s') -> estep (A, s) (table_cut n A, s')
| es_reorg_retry A s n err s1 s' :
    Reorg n s = Ok (Some err, s1) -> Reorg n s1 = Ok (None, s') -> estep (A, s) (table_cut n A, s')
| es_restart A s c st' :
    committed s = Some c -> slog st' = slog (store s) -> sclean st' -> estep (A, s) (table_cut c A, NewController st')
| es_recover A s n t st err s1 st' s' :
    can_commit s n -> Commit n t s = Ok ((st, Some err), s1) ->
    slog st' = slog (store s1) -> (forall m, sbase m (store s1) -> sbase m st') ->
    Reorg (last_committed s) (NewController st') = Ok (None, s') ->
    estep (A, s) (table_cut (last_committed s) A, s').

(** ** Each step of the controller is total and matches the table's *)

Lemma write_matches A s e box v1 :
  implements A s -> can_write A s e box v1 ->
  exists r s', SetEntity (st_GetEntityType e) box s = Ok (r, s') /\ (r = None -> implements (table_write e box A) s') /\
    (StoreWorks (St := St) -> IsImmutable (st_GetEntityType e) = false -> r = None).
Proof.
  intros Him Hcw. destruct (table_value A e (ID (ebox box)) (gen box)) as [v0| |] eqn:E0; pose proof (cw_exec _ _ _ _ _ Hcw) as Hex;
    rewrite E0 in Hex; cbn [obind] in Hex; try done.
  destruct (SetEntity_spec e box s v0 v1) as (r & s' & E & Ho & Hc & Hw & Hk); [apply (cw_table _ _ _ _ _ Hcw)|apply Him|apply Hcw|apply Hcw|apply Hcw| |done|].
  - rewrite <- E0, <- (im_value _ _ Him) by apply Hcw. symmetry. apply version_value. intros b Hb.
    pose proof (cw_stored _ _ _ _ _ Hcw b Hb). lia.
  - exists r, s'. split; [done|]. split; [|done]. intros ->. by apply (implements_write A s s' e box v1); [..|apply Hw].
Qed.

Lemma commit_matches A s n t :
  implements A s -> can_commit s n ->
  exists st r s', Commit n t s = Ok ((st, r), s') /\ added s s' /\ (r = None -> implements A s') /\ (StoreWorks (St := St) -> r = None).
Proof.
  intros Him Hcc. destruct (Commit_spec n t s) as (st & r & s' & E & Ha & Hr & _ & Hw);
    [apply Him|by eapply implements_elsewhere|apply Him|apply Hcc| |].
  - intros e id. by apply (implements_defined A).
  - exists st, r, s'. split; [done|]. split; [done|]. split; [intros ->; by apply (implements_commit A s s' n); [..|apply Hr]|].
    intros Hk. apply (Hw Hk). intros e id Hne. destruct (decide (in_table e)) as [Ht|Ht]; [apply Ht|].
    by destruct Hne; apply (im_time_series _ _ Him).
Qed.

(** Reading from a controller: the table's value. *)
Lemma read_matches A s e id n :
  implements A s -> in_table e -> exists r s', getEntity (st_GetEntityType e) id n false s = Ok (r, s') /\
    (forall box, r = inl box -> implements A s' /\
      ((forall b, b ∈ entity_log s e id -> GenBlockNumber b <= n) -> table_value A e id n = Ok (box ≫= Data))) /\
    (StoreWorks (St := St) -> exists box, r = inl box).
Proof.
  intros Him Ht. destruct (implements_defined A s e id n Him) as [v Hv].
  destruct (getEntity_spec e id n s v (GetEntityType_name e) Ht (im_store _ _ Him) (implements_elsewhere _ _ Him) (im_ok _ _ Him) Hv) as (r & s' & E & Ho & Hr & Hw).
  exists r, s'. split; [done|]. split; [|done]. intros box ->. destruct (Hr box eq_refl) as (Hd & Hc & Hg & Hvs).
  split; [by eapply implements_read|]. intros Hn. rewrite <- (im_value _ _ Him), version_value by done. by rewrite Hd.
Qed.

Lemma estep_implements x y : implements x.1 x.2 -> estep x y -> implements y.1 y.2.
Proof.
  intros Him Hst. destruct Hst as [A s e box v1 s' Hcw E|A s e id n box s' Ht E|A s n t st s' Hcc E|A s n s' E|A s n err s1 s' E E1|A s c st' E El Ec|A s n t st err s1 st' s' Hcc E El Eb E1]; cbn in *.
  - destruct (write_matches A s e box v1 Him Hcw) as (r & s2 & E2 & Hr & _). rewrite E in E2. injection E2 as <- <-. by apply Hr.
  - destruct (read_matches A s e id n Him Ht) as (r & s2 & E2 & Hr & _). rewrite E in E2. injection E2 as <- <-. by apply (Hr box).
  - destruct (commit_matches A s n t Him Hcc) as (st2 & r & s2 & E2 & _ & Hr & _). rewrite E in E2. injection E2 as _ <- <-. by apply Hr.
  - destruct (Reorg_spec n s (im_ok _ _ Him)) as (r & s2 & E2 & _ & Hr & _). rewrite E in E2. injection E2 as <- <-.
    apply (implements_reorg A s); [done|by apply Hr].
  - destruct (Reorg_spec n s (im_ok _ _ Him)) as (r & s2 & E2 & Hf & _). rewrite E in E2. injection E2 as <- <-.
    destruct (Reorg_spec n s1 (re_ok _ _ _ Hf)) as (r & s3 & E3 & _ & Hr & _). rewrite E1 in E3. injection E3 as <- <-.
    apply (implements_reorg A s); [done|]. apply (reorged_retry n s s1 s'); [done|by apply Hr].
  - by apply (implements_restart A s c).
  - destruct (commit_matches A s n t Him Hcc) as (st2 & r & s2 & E2 & Ha & _). rewrite E in E2. injection E2 as _ <- <-.
    destruct (Reorg_spec (last_committed s) (NewController st')) as (r & s3 & E3 & _ & Hr & _); [done|].
    rewrite E1 in E3. injection E3 as <- <-. apply (implements_recover A s s1 st'); [done|done|done|done|by apply Hr].
Qed.

Lemma run_implements x y : implements x.1 x.2 -> clos_refl_trans_1n _ estep x y -> implements y.1 y.2.
Proof. intros Him. induction 1 as [x|x y z Hxy _ IH]; [done|]. apply IH. by eapply estep_implements. Qed.
End Refine.
