(* ===== verification/EntityPages.v ===== *)
(** * Pages of entities

    The pages of a list, got by following the cursors, together have every entity that
    passes the filters once, with the value of the table: first those with an uncommitted
    change, then the others, each part in the order of the ids. *)
From Stdlib Require Import ZArith Lia Ascii String Relations.
From stdpp Require Import base numbers option strings pretty sorting gmap list.
From S2P Require Import Prelude BlockCache RangeBase RangeSet RangeSetOps RangeText EntityValue EntityHistory EntityMerge EntityCtrl EntityRich EntityStruct LikePattern EntityFilter EntitySql ChainStore EntitySpec ChainStoreSpec ChainStoreList EntityList EntityWrite EntityCommit EntityRefine.

(** ** Lists sorted by a key *)

Section Keyed.
Context {D : Type}.

Abbreviation entry := (string * D)%type.

Definition by_key (l : list entry) : Prop := StronglySorted String.le (map fst l) /\ NoDup (map fst l).

(** Entries that are determined by their keys. *)
Lemma keyed_eq (f : string -> option entry) (l1 l2 : list entry) :
  Forall (fun p => f p.1 = Some p) l1 -> Forall (fun p => f p.1 = Some p) l2 -> map fst l1 = map fst l2 -> l1 = l2.
Proof.
  revert l2. induction l1 as [|p l1 IH]; intros [|q l2] H1 H2 Hm; try done. inversion H1; inversion H2; subst. injection Hm as Hpq Hm.
  f_equal; [congruence|by apply IH].
Qed.

Lemma by_key_cons p l : by_key (p :: l) <-> by_key l /\ Forall (fun q => String.le p.1 q.1 /\ p.1 <> q.1) l.
Proof.
  unfold by_key. cbn [map]. rewrite NoDup_cons, Forall_and, list_elem_of_fmap. split.
  - intros [Hs [Hn Hd]]. apply StronglySorted_inv in Hs as [Hs Hf]. rewrite Forall_map in Hf. split_and!; [done..|].
    apply Forall_forall. intros q Hq E. apply Hn. by exists q.
  - intros ([Hs Hd] & Hf & Hne). rewrite Forall_forall in Hne. split; [constructor; [done|by rewrite Forall_map]|].
    split; [|done]. intros (q & E & Hq). by apply (Hne q).
Qed.

(** What is behind an entry of the list. *)
Lemma behind_entry (l : list entry) k p :
  by_key l -> l !! k = Some p -> filter (fun q => ~ String.le q.1 p.1) l = drop (S k) l.
Proof.
  revert k. induction l as [|x l IH]; intros k Hb Hk; [done|]. apply by_key_cons in Hb as [Hb Hx].
  rewrite filter_cons. destruct k as [|k]; cbn in Hk.
  - injection Hk as ->. rewrite decide_False by (intros H; by apply H). cbn. rewrite drop_0. apply filter_all. intros q Hq Hle.
    rewrite Forall_forall in Hx. destruct (Hx q Hq) as [Hxq Hne]. apply Hne. by apply (anti_symm String.le).
  - rewrite decide_False; [by apply IH|]. intros H. apply H. rewrite Forall_forall in Hx. apply Hx. by eapply list_elem_of_lookup_2.
Qed.

Lemma last_take (l : list entry) k : (0 < k)%nat -> (k <= length l)%nat -> last (take k l) = l !! (k - 1)%nat.
Proof.
  intros H0 Hk. rewrite last_lookup, length_take, Nat.min_l by done. destruct k as [|k]; [lia|]. cbn [pred].
  rewrite lookup_take_lt by lia. f_equal. lia.
Qed.

(** Entries made from ids in order. *)
Lemma by_key_omap (f : string -> option entry) (ids : list string) :
  (forall id p, f id = Some p -> p.1 = id) -> StronglySorted String.le ids -> NoDup ids -> by_key (omap f ids).
Proof.
  intros Hf Hs Hn. assert (Hsub : map fst (omap f ids) `sublist_of` ids).
  { clear Hs Hn. induction ids as [|id ids IH]; [done|]. cbn. destruct (f id) as [p|] eqn:E; cbn; [|by apply sublist_cons].
    rewrite (Hf _ _ E). by apply sublist_skip. }
  split; [by eapply StronglySorted_sublist|by apply (sublist_NoDup _ _ Hn)].
Qed.

Lemma omap_keyed (f : string -> option entry) (ids : list string) :
  (forall id p, f id = Some p -> p.1 = id) -> Forall (fun p => f p.1 = Some p) (omap f ids).
Proof. intros Hf. apply Forall_forall. intros p (id & _ & E)%list_elem_of_omap. by rewrite (Hf _ _ E). Qed.

(** Cutting the ids cuts the entries. *)
Lemma omap_filter_ids (f : string -> option entry) (P : string -> Prop) `{!forall x, Decision (P x)} (ids : list string) :
  (forall id p, f id = Some p -> p.1 = id) -> omap f (filter P ids) = filter (fun p => P p.1) (omap f ids).
Proof.
  intros Hf. induction ids as [|id ids IH]; [done|]. rewrite filter_cons. cbn [omap list_omap].
  destruct (f id) as [p|] eqn:E; case_decide as Hd; cbn [omap list_omap]; rewrite ?E, ?filter_cons, ?(Hf _ _ E), IH; [by rewrite decide_True|by rewrite decide_False|done..].
Qed.
End Keyed.

Section Pages.
Context `{HD : Decimal} `{HC : !Conversions} `{HDL : !DecimalLaws} `{HCL : !ConversionLaws}.
Context {St : Type} `{HSt : !ChainStore St} `{HSL : !ChainStoreLaws St} `{HLs : !ChainLister St}.

Abbreviation State := (EState (St := St)).
Abbreviation DataMap := (gmap string Value).
Abbreviation typ := st_GetEntityType.

(** ** What the controller asks of the store's lists *)

(** A condition can be made of the filter. *)
Definition filter_builds (f : EntityFilter) : bool := match buildCondition 0 f with inl _ => true | inr _ => false end.

(** The store answers with the first entities that pass the filters, in the order of the
    ids, where the filters have the types of the fields; a store that works does answer. *)
Class ChainListerLaws : Type := {
  lister_works : Prop;
  ListEntities_ok e fs limit pass st :
    persisted (typ e) -> store_ok st -> forallb filter_builds fs = true ->
    (forall b, b ∈ live_boxes e (slog st) ->
      Forall (fun f => filter_typed f (Data b)) fs /\ default ∅ (Data b) !! EntityPrimaryFieldName = Some (VString (ID b)) /\
      CheckFilters fs (Data b) = Ok (inl (pass b))) ->
    exists r st', st_ListEntities (typ e) fs limit st = Ok (r, st') /\ slog st' = slog st /\ store_ok st' /\
      (forall boxes fromCache, r = inl (boxes, fromCache) -> boxes = listed pass limit (live_boxes e (slog st))) /\
      (lister_works -> exists x, r = inl x)
}.

Context `{HLL : !ChainListerLaws}.

(** ** The answer *)

Definition passes (fs : list EntityFilter) (d : DataMap) : bool :=
  match CheckFilters fs (Some d) with Ok (inl b) => b | _ => false end.

(** The entity with an id at the block, where it passes the filters. *)
Definition answer_at (A : Table) (e : string) (n : Z) (fs : list EntityFilter) (id : string) : option (string * DataMap) :=
  match table_value A e id n with
  | Ok (Some d) => if passes fs d then Some (id, d) else None
  | _ => None
  end.

Definition changed_ids (s : State) (e : string) (n : Z) : gset string :=
  filter (fun id => is_Some (Latest (history (changes s) e id) n)) (dom (default ∅ (changes s !! e))).

(** The ids behind a cursor: the uncommitted ones, then those only the store has. *)
Definition fresh_ids (changed : gset string) (cp : bool) (cid : string) : list string :=
  if cp then [] else filter (fun id => ~ String.le id cid) (ordered_set changed).

Definition stored_ids (log : list EntityBox) (e : string) (changed : gset string) (cp : bool) (cid : string) : list string :=
  filter (fun id => id ∉ changed /\ (cp = true -> ~ String.le id cid)) (sorted_ids e log).

Definition remaining (A : Table) (s : State) (e : string) (n : Z) (fs : list EntityFilter) (cursor : string) : list (string * DataMap) :=
  let '(cp, cid) := splitListCursor cursor in
  omap (answer_at A e n fs) (fresh_ids (changed_ids s e n) cp cid) ++
  omap (answer_at A e n fs) (stored_ids (slog (store s)) e (changed_ids s e n) cp cid).

Definition view (b : EntityBox) : string * DataMap := (ID b, default ∅ (Data b)).

(** The conditions of a list: filters of the right types on every version of every entity,
    whose data has its id, and a primary field of a text type. *)
Record listable (A : Table) (e : string) (fs : list EntityFilter) : Prop := mkListable {
  ls_table : in_table e;
  ls_builds : forallb filter_builds fs = true;
  ls_typed id m d : table_value A e id m = Ok (Some d) -> Forall (fun f => filter_typed f (Some d)) fs;
  ls_id id m d : table_value A e id m = Ok (Some d) -> d !! EntityPrimaryFieldName = Some (VString id);
  ls_primary : exists f, GetFieldByName (typ e) EntityPrimaryFieldName = Some f /\ DerivedFrom f = false /\
    comparable (FieldType f) = true /\ forall x, operand (FieldType f) (VString x) = true
}.

(** ** What stays the same *)

Definition same_shape (s s' : State) : Prop :=
  slog (store s') = slog (store s) /\ forall e id, map gen (history (changes s') e id) = map gen (history (changes s) e id).

Lemma same_shape_trans s1 s2 s3 : same_shape s1 s2 -> same_shape s2 s3 -> same_shape s1 s3.
Proof. intros [H1 H2] [H3 H4]. split; [congruence|]. intros e id. by rewrite H4, H2. Qed.

Lemma latest_some (h : list UncommittedEntityBox) n : hist_ok h -> is_Some (Latest h n) <-> filter (fun z => z <= n) (map gen h) <> [].
Proof.
  intros Hh. rewrite Latest_last, <- upto_gens by done. fold (upto n h). rewrite last_is_Some. split; [|intros H E; by rewrite E in H].
  intros H E. apply H. by destruct (upto n h).
Qed.

Lemma elem_of_changed s e n id : changes_ok (changes s) -> id ∈ changed_ids s e n <-> is_Some (Latest (history (changes s) e id) n).
Proof.
  intros Hc. unfold changed_ids. rewrite elem_of_filter, (history_dom _ _ _ Hc). split; [by intros []|]. intros H. split; [done|].
  intros E. rewrite E in H. by destruct H.
Qed.

Lemma changed_same s s' e n : changes_ok (changes s) -> changes_ok (changes s') -> same_shape s s' -> changed_ids s' e n = changed_ids s e n.
Proof.
  intros Hc Hc' [_ Hg]. apply set_eq. intros id. rewrite !elem_of_changed by done.
  rewrite !latest_some by (by apply history_ok). by rewrite Hg.
Qed.

Lemma remaining_same A s s' e n fs c :
  changes_ok (changes s) -> changes_ok (changes s') -> same_shape s s' -> remaining A s' e n fs c = remaining A s e n fs c.
Proof.
  intros Hc Hc' Hs. unfold remaining. destruct (splitListCursor c). by rewrite (changed_same s s'), (proj1 Hs).
Qed.

(** ** Reading one uncommitted entity *)

(** The data of an uncommitted entity is there where its latest box has some. *)
Lemma eval_latest et prev (h : list UncommittedEntityBox) n u v :
  hist_ok h -> Latest h n = Some u -> eval et prev (upto n h) = Ok v -> is_Some v <-> is_Some (Data (ebox u)).
Proof.
  intros Hh Hl He. rewrite Latest_last in Hl by done. fold (upto n h) in Hl. apply last_Some in Hl as [l E]. rewrite E, eval_app in He.
  destruct (eval et prev l) as [d| |]; cbn [obind eval] in He; try done. unfold exec_box in He.
  destruct (Data (ebox u)) as [x|]; cbn [obind] in He; [|injection He as <-; done].
  destruct (calc_all _ _ _ _); cbn [obind] in He; try done. injection He as <-. by split; eexists.
Qed.

Lemma changed_value A s e id n u :
  implements A s -> in_table e -> Latest (history (changes s) e id) n = Some u ->
  exists v, table_value A e id n = Ok v /\ (is_Some v <-> is_Some (Data (ebox u))).
Proof.
  intros Him Ht Hl. destruct (im_total _ _ Him e id n Ht) as [v Hv]. exists v. split; [done|].
  destruct (history_ok _ e id (im_ok _ _ Him)) as [Hh _]. rewrite <- (im_value _ _ Him) in Hv by done. by apply (eval_latest _ _ _ _ _ _ Hh Hl) in Hv.
Qed.

Lemma latest_id (s : State) e id n u : changes_ok (changes s) -> Latest (history (changes s) e id) n = Some u -> ID (ebox u) = id.
Proof.
  intros Hc Hl. destruct (history_ok _ e id Hc) as [Hh _]. rewrite Latest_last in Hl by done. apply last_Some in Hl as [l El].
  assert (Hu : u ∈ history (changes s) e id).
  { eapply list_elem_of_filter. rewrite El. apply elem_of_app. right. by left. }
  unfold history in Hu. destruct (GetFromK2Map (changes s) e id) as [h|] eqn:E; cbn in Hu; [|by apply not_elem_of_nil in Hu].
  apply Hc in E as (_ & _ & Hb & _). rewrite Forall_forall in Hb. by apply Hb.
Qed.

(** Reading an uncommitted entity is [getEntity], which keeps the shape. *)
Lemma uncommitted_box_spec A s e id n u :
  implements A s -> in_table e -> Latest (history (changes s) e id) n = Some u ->
  exists r s', uncommitted_box (typ e) id n u s = Ok (r, s') /\
    (forall box, r = inl box -> implements A s' /\ same_shape s s' /\ table_value A e id n = Ok (Data box) /\ ID box = id) /\
    (StoreWorks (St := St) -> exists box, r = inl box).
Proof.
  intros Him Ht Hl. pose proof (im_ok _ _ Him) as Hc. destruct (implements_defined A s e id n Him) as [v Hv].
  destruct (getEntity_spec e id n s v (GetEntityType_name e) Ht (im_store _ _ Him) (implements_elsewhere _ _ Him) Hc Hv) as (r & s' & E & Ho & Hr & Hw).
  assert (Hval : table_value A e id n = Ok v).
  { rewrite <- (im_value _ _ Him e id n Ht). rewrite version_changed; [done|by apply Him|]. intros E'. rewrite Latest_last in Hl by (by apply history_ok).
    fold (upto n (history (changes s) e id)) in Hl. by rewrite E' in Hl. }
  assert (Hread : forall box, r = inl (Some box) -> ID box = id -> implements A s' /\ same_shape s s' /\ table_value A e id n = Ok (Data box) /\ ID box = id).
  { intros box -> Hid. destruct (Hr (Some box) eq_refl) as (Hd & Hc' & Hg & Hvs). cbn in Hd. split_and!; [|split; [apply Ho|exact Hg]|congruence|done].
    exact (implements_read A s s' e id Him Ho Hc' Hg Hvs). }
  revert E. unfold getEntity, uncommitted_box, mbind, SM_bind, sget. cbn [obind]. rewrite GetEntityType_name, Hl. cbn [andb].
  case_bool_decide as Hop.
  - intros [= <- <-]. cbn. rewrite Hl. eexists _, s. split; [reflexivity|]. split; [|by eexists]. intros box [= <-]. apply Hread; [done|by apply (latest_id s e id n)].
  - rewrite (latest_id s e id n u Hc Hl). destruct (executeEntityOperator (typ e) id n s) as [[[err|] s2]| |]; cbn [obind]; try done.
    + intros [= <- <-]. eexists _, s2. split; [reflexivity|]. split; [done|]. intros Hsw. by destruct (Hw Hsw) as [? [=]].
    + intros [= <- <-]. destruct (Hr _ eq_refl) as (_ & Hc' & Hg & _).
      assert (Hl' : is_Some (Latest (history (changes s2) e id) n)).
      { apply latest_some; [by apply history_ok|]. rewrite Hg. apply latest_some; [by apply history_ok|]. by eexists. }
      destruct Hl' as [u' Hu']. rewrite Hu' in *. eexists _, s2. split; [reflexivity|]. split; [|by eexists]. intros box [= <-]. apply Hread; [done|by apply (latest_id s2 e id n)].
Qed.

(** ** The filters decide *)

Lemma builds_all h fs : forallb filter_builds fs = true -> exists cs, buildConditions h fs = inl cs.
Proof.
  induction fs as [|f fs IH]; intros Hb; [by eexists|]. cbn in Hb. apply andb_true_iff in Hb as [Hf Hb]. destruct (IH Hb) as [cs Hcs].
  cbn [buildConditions]. rewrite Hcs. assert (Hc : exists c, buildCondition h f = inl c).
  { clear -Hf. unfold filter_builds, buildCondition in *. destruct (DerivedFrom (fField f)); [done|].
    destruct (fOp f), (0 <? CountListLayer (BreakType (FieldType (fField f)))), (one_value f) as [w|]; try done; repeat case_match; try done; by eexists. }
  destruct Hc as [c ->]. by eexists.
Qed.

Lemma passes_typed fs d : forallb filter_builds fs = true -> Forall (fun f => filter_typed f (Some d)) fs -> CheckFilters fs (Some d) = Ok (inl (passes fs d)).
Proof.
  intros Hb Ht. destruct (builds_all 0 fs Hb) as [cs Hcs]. unfold passes. by rewrite (filters_agree 0 fs (Some d) cs Ht Hcs).
Qed.

Lemma answer_key A e n fs id p : answer_at A e n fs id = Some p -> p.1 = id.
Proof. unfold answer_at. destruct (table_value A e id n) as [[d|]| |]; try done. destruct (passes fs d); [|done]. by intros [= <-]. Qed.

(** ** The uncommitted part *)

Definition behind (cp : bool) (cid id : string) : Prop := cp = false /\ ~ String.le id cid.
#[local] Instance behind_dec cp cid id : Decision (behind cp cid id) := _.

Lemma list_changes_spec A e fs n cp cid ids (s : State) checked boxes :
  listable A e fs -> implements A s ->
  exists r s', list_changes (typ e) fs cp cid n ids checked boxes s = Ok (r, s') /\
    (forall ck bs, r = inl (ck, bs) -> implements A s' /\ same_shape s s' /\
      (forall x, x ∈ ck <-> x ∈ checked \/ x ∈ ids /\ x ∈ changed_ids s e n) /\
      map view bs = map view boxes ++ omap (answer_at A e n fs) (filter (fun id => id ∈ changed_ids s e n /\ behind cp cid id) ids)) /\
    (StoreWorks (St := St) -> exists x, r = inl x).
Proof.
  intros Hls. revert s checked boxes. induction ids as [|id ids IH]; intros s checked boxes Him.
  { eexists _, s. split; [reflexivity|]. split; [|by eexists]. intros ck bs [= <- <-]. split_and!; [done|done| |by rewrite app_nil_r].
    intros x. rewrite elem_of_nil. tauto. }
  cbn [list_changes]. unfold mbind at 1, SM_bind at 1, sget at 1. cbn [obind]. rewrite GetEntityType_name.
  pose proof (im_ok _ _ Him) as Hc. pose proof (elem_of_changed s e n id Hc) as Hch.
  (* the loop goes on with the rest *)
  assert (Hnext : forall s1 ck0 bs0 more,
    implements A s1 -> same_shape s s1 -> (forall x, x ∈ ck0 <-> x ∈ checked \/ x = id /\ x ∈ changed_ids s e n) -> map view bs0 = map view boxes ++ more ->
    more = omap (answer_at A e n fs) (filter (fun id => id ∈ changed_ids s e n /\ behind cp cid id) [id]) ->
    exists r s', list_changes (typ e) fs cp cid n ids ck0 bs0 s1 = Ok (r, s') /\
    (forall ck bs, r = inl (ck, bs) -> implements A s' /\ same_shape s s' /\
      (forall x, x ∈ ck <-> x ∈ checked \/ x ∈ id :: ids /\ x ∈ changed_ids s e n) /\
      map view bs = map view boxes ++ omap (answer_at A e n fs) (filter (fun id => id ∈ changed_ids s e n /\ behind cp cid id) (id :: ids))) /\
    (StoreWorks (St := St) -> exists x, r = inl x)).
  { intros s1 ck0 bs0 more Him1 Hsh Hck Hbs ->. destruct (IH s1 ck0 bs0 Him1) as (r & s' & E & Hr & Hw). exists r, s'. split; [done|]. split; [|done]. intros ck bs Hrb.
    destruct (Hr ck bs Hrb) as (H1 & H2 & H3 & H4). rewrite (changed_same s s1) in H3, H4 by (done || apply Him1).
    split_and!; [done|by eapply same_shape_trans| |].
    - intros x. rewrite H3, Hck, elem_of_cons. naive_solver.
    - change (id :: ids) with ([id] ++ ids). by rewrite H4, Hbs, filter_app, omap_app, app_assoc. }
  assert (Hrefl : same_shape s s) by done.
  destruct (Latest (history (changes s) e id) n) as [u|] eqn:El.
  2:{ apply (Hnext s checked boxes []); [done|done| |by rewrite app_nil_r|].
      - intros x. split; [by left|]. intros [|[-> [? ?]%Hch]]; done.
      - rewrite filter_cons_False; [done|]. by intros [[? ?]%Hch _]. }
  rewrite (latest_id s e id n u Hc El). assert (Hin : id ∈ changed_ids s e n) by (by apply Hch).
  assert (Hck : forall x, x ∈ {[id]} ∪ checked <-> x ∈ checked \/ x = id /\ x ∈ changed_ids s e n) by (intros x; set_solver).
  assert (Hskip : (behind cp cid id -> answer_at A e n fs id = None) ->
    [] = omap (answer_at A e n fs) (filter (fun id => id ∈ changed_ids s e n /\ behind cp cid id) [id])).
  { intros Hnone. rewrite filter_cons. case_decide as Hd; [|done]. cbn. by rewrite Hnone by apply Hd. }
  destruct (cp || bool_decide (String.le id cid)) eqn:Ecur.
  { apply (Hnext s _ boxes []); [done|done|done|by rewrite app_nil_r|]. apply Hskip. intros [-> Hle]. by rewrite bool_decide_eq_false_2 in Ecur. }
  apply orb_false_iff in Ecur as [-> Hcid%bool_decide_eq_false].
  destruct (changed_value A s e id n u Him (ls_table _ _ _ Hls) El) as (v & Hv & Hvd).
  destruct (Data (ebox u)) as [d0|] eqn:Ed.
  2:{ apply (Hnext s _ boxes []); [done|done|done|by rewrite app_nil_r|]. apply Hskip. intros _. unfold answer_at. rewrite Hv.
      destruct v; [|done]. by destruct (proj1 Hvd) as [? ?]. }
  destruct v as [d|]; [|by destruct (proj2 Hvd) as [? ?]].
  destruct (uncommitted_box_spec A s e id n u Him (ls_table _ _ _ Hls) El) as (r & s1 & Eg & Hr & Hw).
  unfold mbind at 1, SM_bind at 1. rewrite Eg. cbn [obind]. destruct r as [box|err]; [|eexists _, s1; split_and!; [done..|]; intros Hsw; by destruct (Hw Hsw) as [? [=]]].
  destruct (Hr box eq_refl) as (Him1 & Hsh & Hval & Hid). rewrite Hv in Hval. injection Hval as Hd. rewrite <- Hd.
  unfold mbind, SM_bind, slift. rewrite (passes_typed fs d) by (apply Hls || by eapply ls_typed). cbn [obind].
  apply (Hnext s1 _ _ (if passes fs d then [(id, d)] else [])); [done|done|done| |].
  - destruct (passes fs d); [|by rewrite app_nil_r]. rewrite map_app. cbn [map]. unfold view at 2. by rewrite <- Hd, Hid.
  - rewrite filter_cons, decide_True by done. cbn. unfold answer_at. rewrite Hv. by destruct (passes fs d).
Qed.

#[local] Instance id_before_trans : Transitive id_before.
Proof. intros x y z. unfold id_before. apply (transitivity (R := String.le)). Qed.

#[local] Instance id_before_total : Total id_before.
Proof. intros x y. apply (total String.le). Qed.

Lemma elem_of_ordered (X : gset string) id : id ∈ ordered_set X <-> id ∈ X.
Proof. unfold ordered_set. by rewrite merge_sort_Permutation, elem_of_elements. Qed.

Lemma ordered_nodup (X : gset string) : NoDup (ordered_set X).
Proof. unfold ordered_set. rewrite merge_sort_Permutation. apply NoDup_elements. Qed.

Lemma ordered_sorted (X : gset string) : StronglySorted String.le (ordered_set X).
Proof. apply (StronglySorted_merge_sort String.le). Qed.

(** The entities of the uncommitted part, sorted. *)
Lemma sorted_part A e n fs (changed : gset string) cp cid (ids : list string) (bs : list EntityBox) :
  NoDup ids -> (forall id, id ∈ changed -> id ∈ ids) ->
  map view bs = omap (answer_at A e n fs) (filter (fun id => id ∈ changed /\ behind cp cid id) ids) ->
  map view (SortEntityBoxes bs) = omap (answer_at A e n fs) (fresh_ids changed cp cid).
Proof.
  intros Hnd Hcov Hbs. set (ans := answer_at A e n fs) in *. assert (Hperm : SortEntityBoxes bs ≡ₚ bs) by apply merge_sort_Permutation.
  assert (Hids : filter (fun id => id ∈ changed /\ behind cp cid id) ids ≡ₚ fresh_ids changed cp cid).
  { unfold fresh_ids. apply NoDup_Permutation; [by apply NoDup_filter|destruct cp; [constructor|apply NoDup_filter, ordered_nodup]|].
    intros id. rewrite list_elem_of_filter. unfold behind. destruct cp; [rewrite elem_of_nil; naive_solver|].
    rewrite list_elem_of_filter, elem_of_ordered. naive_solver. }
  assert (Hv : map view (SortEntityBoxes bs) ≡ₚ omap ans (fresh_ids changed cp cid)) by (by rewrite Hperm, Hbs, Hids).
  apply (keyed_eq ans).
  - rewrite Hv. apply omap_keyed, answer_key.
  - apply omap_keyed, answer_key.
  - apply (StronglySorted_unique String.le); [| |by rewrite Hv].
    + rewrite map_map. cbn. apply (StronglySorted_fmap ID id_before); [done|]. apply (StronglySorted_merge_sort id_before).
    + apply by_key_omap; [apply answer_key| |]; unfold fresh_ids; destruct cp; try constructor.
      * eapply StronglySorted_sublist; [apply sublist_filter|apply ordered_sorted].
      * apply NoDup_filter, ordered_nodup.
Qed.

(** ** The persistent part *)

Lemma unchanged_value A s e id n :
  implements A s -> in_table e -> id ∉ changed_ids s e n -> (forall b, b ∈ entity_log s e id -> GenBlockNumber b <= n) ->
  table_value A e id n = Ok (stored_data (slog (store s)) e id).
Proof.
  intros Him Ht Hid Hn. rewrite <- (im_value _ _ Him) by done. rewrite version_stored; [by rewrite log_value_all|].
  rewrite elem_of_changed in Hid by apply Him. rewrite Latest_last in Hid by (by apply history_ok, Him). apply last_None.
  by apply eq_None_not_Some.
Qed.

(** A box of the store is a version of the table. *)
Lemma live_version A s e b :
  implements A s -> in_table e -> b ∈ live_boxes e (slog (store s)) ->
  exists d, Data b = Some d /\ table_value A e (ID b) (GenBlockNumber b) = Ok (Some d).
Proof.
  intros Him Ht (id & _ & Hb)%list_elem_of_omap. unfold live_box in Hb. destruct (last (of_entity e id (slog (store s)))) as [x|] eqn:El; [|done].
  cbn in Hb. unfold live in Hb. destruct (Data x) as [d|] eqn:Ed; [|done]. injection Hb as ->. exists d. split; [done|].
  apply last_Some in El as [l El]. fold (entity_log s e id) in El.
  assert (Hin : b ∈ entity_log s e id) by (rewrite El; apply elem_of_app; right; by left).
  assert (ID b = id) as ->. { unfold entity_log, of_entity in Hin. by apply list_elem_of_filter in Hin as [[_ ?] _]. }
  pose proof (im_ordered _ _ Him e id Ht) as Ho. rewrite <- (im_value _ _ Him) by done. rewrite version_stored.
  - rewrite log_value_all; [by rewrite El, last_snoc; cbn; rewrite Ed|]. intros c Hc. pose proof (proj2 (im_store _ _ Him) e id Ht) as Hasc.
    fold (entity_log s e id) in Hasc. rewrite El in Hc, Hasc. apply elem_of_app in Hc as [Hc|Hc]; [|apply list_elem_of_singleton in Hc as ->; lia].
    unfold ascending in Hasc. rewrite map_app in Hasc. apply Z.lt_le_incl. eapply (StronglySorted_app_1_elem_of Z.lt); [exact Hasc| |by left].
    by apply (list_elem_of_fmap_2 GenBlockNumber).
  - apply upto_empty, Forall_forall. intros x Hx. by apply (oa_behind _ _ _ Ho).
Qed.

(** The filters of the persistent part: not changed, and behind the cursor. *)
Definition wanted (changed : gset string) (cp : bool) (cid id : string) : Prop := id ∉ changed /\ (cp = true -> ~ String.le id cid).
#[local] Instance wanted_dec changed cp cid id : Decision (wanted changed cp cid id) := _.

Lemma CheckFilters_app fs1 fs2 data b :
  CheckFilters fs1 data = Ok (inl b) -> CheckFilters (fs1 ++ fs2) data = if b then CheckFilters fs2 data else Ok (inl false).
Proof.
  revert b. induction fs1 as [|f fs1 IH]; intros b; cbn [CheckFilters app]; [by intros [= <-]|].
  destruct (checkFilter f data) as [[[]|]| |]; cbn [obind]; [apply IH|by intros [= <-]|done..].
Qed.

Lemma string_set_map (l : list string) : string_set (map VString l) = Some (list_to_set l).
Proof. induction l as [|x l IH]; [done|]. cbn. rewrite IH. done. Qed.

Lemma ordered_list_to_set (X : gset string) : list_to_set (ordered_set X) = X.
Proof. apply set_eq. intros x. by rewrite elem_of_list_to_set, elem_of_ordered. Qed.

Lemma string_gt a b : String.compare a b = Gt <-> ~ String.le a b.
Proof. unfold String.le, String.leb. destruct (String.compare a b); cbn; naive_solver. Qed.

Lemma persistent_filters_typed f changed cp cid d id :
  FieldName f = EntityPrimaryFieldName -> DerivedFrom f = false -> comparable (FieldType f) = true -> (forall x, operand (FieldType f) (VString x) = true) ->
  d !! EntityPrimaryFieldName = Some (VString id) ->
  Forall (fun g => filter_typed g (Some d)) (persistent_filters f changed cp cid) /\ forallb filter_builds (persistent_filters f changed cp cid) = true /\
  CheckFilters (persistent_filters f changed cp cid) (Some d) = Ok (inl (bool_decide (wanted changed cp cid id))).
Proof.
  intros Hname Hder Hcmp Hop Hd.
  assert (Hfv : forall op vs ids, field_value (mkFilter f op vs ids) (Some d) = VString id) by (intros; unfold field_value; cbn; by rewrite Hname, Hd).
  assert (Hops : Forall (fun w => operand (FieldType f) w = true) (map VString (ordered_set changed))) by (apply Forall_forall; intros w (x & -> & _)%list_elem_of_fmap; apply Hop).
  assert (Hlist : is_list_type (FieldType f) = false) by (unfold comparable in Hcmp; by apply andb_true_iff in Hcmp as [?%negb_true_iff _]).
  assert (T1 : filter_typed (mkFilter f OpNotIn (map VString (ordered_set changed)) (Some changed)) (Some d)).
  { split; [done|]. right. rewrite Hfv. split_and!; [done|apply Hop|done|]. right. split; [by eexists|]. exists changed. cbn [fValue idSet].
    rewrite string_set_map, ordered_list_to_set. by split; [|right]. }
  assert (T2 : filter_typed (mkFilter f OpGt [VString cid] None) (Some d)).
  { split; [done|]. right. rewrite Hfv. split_and!; [done|apply Hop|]. cbn. by repeat constructor. }
  split; [unfold persistent_filters; constructor; [exact T1|destruct cp; [constructor; [exact T2|constructor]|constructor]]|]. unfold is_list_type in Hlist. split.
  { unfold persistent_filters. cbn [forallb]. apply andb_true_iff. split; [|destruct cp; [cbn [forallb]; rewrite andb_true_r|done]];
      unfold filter_builds, buildCondition; cbn [fField fOp fValue one_value]; rewrite Hder, Hlist; cbn; repeat case_match; done. }
  assert (C1 : checkFilter (mkFilter f OpNotIn (map VString (ordered_set changed)) (Some changed)) (Some d) = Ok (inl (bool_decide (id ∉ changed)))).
  { unfold checkFilter. cbn [fField fOp fValue idSet]. rewrite Hlist. cbn [default from_option Datatypes.id]. rewrite Hname, Hd. cbn.
    destruct (map VString (ordered_set changed)) as [|x l] eqn:El.
    - rewrite bool_decide_eq_true_2; [done|]. rewrite <- elem_of_ordered. destruct (ordered_set changed); [apply not_elem_of_nil|done].
    - cbn. do 2 f_equal. symmetry. apply bool_decide_not. }
  unfold persistent_filters. cbn [CheckFilters]. rewrite C1. cbn [obind]. unfold wanted. case_bool_decide as Hin; [|by rewrite bool_decide_eq_false_2 by tauto].
  destruct cp; cbn [CheckFilters]; [|by rewrite bool_decide_eq_true_2].
  unfold checkFilter. cbn [fField fOp fValue one_value]. rewrite Hlist. cbn [default from_option Datatypes.id]. rewrite Hname, Hd. cbn [default from_option Datatypes.id].
  rewrite (compare_operands (FieldType f) (VString id) (VString cid) (VString id) (VString cid)) by done. cbn [obind value_order].
  pose proof (string_gt id cid) as Hgt. destruct (String.compare id cid); cbn; [rewrite bool_decide_eq_false_2|rewrite bool_decide_eq_false_2|rewrite bool_decide_eq_true_2]; naive_solver.
Qed.

(** The entities of the store that pass, with the filters of the cursor. *)
Definition stored_pass (fs : list EntityFilter) (changed : gset string) (cp : bool) (cid : string) (b : EntityBox) : bool :=
  passes fs (default ∅ (Data b)) && bool_decide (wanted changed cp cid (ID b)).

Lemma primary_name et f : GetFieldByName et EntityPrimaryFieldName = Some f -> FieldName f = EntityPrimaryFieldName.
Proof.
  unfold GetFieldByName. destruct (list_find _ _) as [[i g]|] eqn:E; [|done]. apply list_find_Some in E as (_ & ? & _). cbn. congruence.
Qed.

Lemma stored_checked A s e fs changed cp cid f b :
  implements A s -> listable A e fs -> GetFieldByName (typ e) EntityPrimaryFieldName = Some f ->
  b ∈ live_boxes e (slog (store s)) ->
  Forall (fun g => filter_typed g (Data b)) (fs ++ persistent_filters f changed cp cid) /\
  default ∅ (Data b) !! EntityPrimaryFieldName = Some (VString (ID b)) /\
  CheckFilters (fs ++ persistent_filters f changed cp cid) (Data b) = Ok (inl (stored_pass fs changed cp cid b)).
Proof.
  intros Him Hls Hf Hb. destruct (live_version A s e b Him (ls_table _ _ _ Hls) Hb) as (d & Hd & Hv). unfold stored_pass. rewrite Hd. cbn [default from_option Datatypes.id].
  pose proof (ls_id _ _ _ Hls _ _ _ Hv) as Hid. destruct (ls_primary _ _ _ Hls) as (f' & Hf' & Hder & Hcmp & Hop). rewrite Hf in Hf'. injection Hf' as <-.
  pose proof (primary_name _ _ Hf) as Hname.
  destruct (persistent_filters_typed f changed cp cid d (ID b) Hname Hder Hcmp Hop Hid) as (T & _ & Ck).
  split; [apply Forall_app; split; [by eapply ls_typed|done]|]. split; [done|].
  rewrite (CheckFilters_app _ _ _ (passes fs d)); [|apply passes_typed; [apply Hls|by eapply ls_typed]]. rewrite Ck. by destruct (passes fs d).
Qed.

Lemma persistent_builds f changed cp cid fs A e :
  listable A e fs -> GetFieldByName (typ e) EntityPrimaryFieldName = Some f ->
  forallb filter_builds (fs ++ persistent_filters f changed cp cid) = true.
Proof.
  intros Hls Hf. destruct (ls_primary _ _ _ Hls) as (f' & Hf' & Hder & Hcmp & Hop). rewrite Hf in Hf'. injection Hf' as <-.
  rewrite forallb_app, (ls_builds _ _ _ Hls). pose proof (primary_name _ _ Hf) as Hname.
  destruct (persistent_filters_typed f changed cp cid {[ EntityPrimaryFieldName := VString EmptyString ]} EmptyString Hname Hder Hcmp Hop) as (_ & -> & _); [|done].
  by rewrite lookup_singleton_eq.
Qed.

Lemma filter_omap_if {B} (f : string -> option B) (P : string -> Prop) `{!forall x, Decision (P x)} (l : list string) :
  omap f (filter P l) = omap (fun x => if decide (P x) then f x else None) l.
Proof. induction l as [|x l IH]; [done|]. rewrite filter_cons. cbn [omap list_omap]. case_decide; cbn [omap list_omap]; by rewrite IH. Qed.

Lemma stored_part A s e n fs cp cid k :
  implements A s -> listable A e fs -> (forall id b, b ∈ entity_log s e id -> GenBlockNumber b <= n) ->
  map view (listed (stored_pass fs (changed_ids s e n) cp cid) k (live_boxes e (slog (store s)))) =
  take (Z.to_nat k) (omap (answer_at A e n fs) (stored_ids (slog (store s)) e (changed_ids s e n) cp cid)).
Proof.
  intros Him Hls Hn. unfold listed. rewrite <- firstn_map. f_equal. unfold live_boxes, stored_ids. rewrite filter_omap, map_omap, filter_omap_if.
  apply omap_ext_in. intros id _. fold (wanted (changed_ids s e n) cp cid id).
  assert (Hlive : forall b, live_box e (slog (store s)) id = Some b -> ID b = id /\ exists d, Data b = Some d /\ stored_data (slog (store s)) e id = Some d).
  { intros b. unfold live_box, stored_data. destruct (last (of_entity e id (slog (store s)))) as [x|] eqn:E; [|done]. cbn. unfold live.
    destruct (Data x) as [d|] eqn:Ed; [|done]. intros [= <-]. split; [|by exists d]. apply last_Some in E as [l E].
    assert (Hin : x ∈ of_entity e id (slog (store s))) by (rewrite E; apply elem_of_app; right; by left). by apply list_elem_of_filter in Hin as [[_ ?] _]. }
  assert (Hdead : live_box e (slog (store s)) id = None -> stored_data (slog (store s)) e id = None).
  { unfold live_box, stored_data. destruct (last _) as [x|]; [|done]. cbn. unfold live. by destruct (Data x). }
  destruct (live_box e (slog (store s)) id) as [b|] eqn:El; cbn [mbind option_bind fmap option_fmap option_map].
  - destruct (Hlive b eq_refl) as (<- & d & Hd & Hsd). unfold stored_pass. rewrite Hd. cbn [default from_option Datatypes.id]. case_bool_decide as Hw.
    + rewrite decide_True by done. unfold answer_at. rewrite (unchanged_value A s) by (done || apply Hls || apply Hw || apply Hn). rewrite Hsd.
      destruct (passes fs d); cbn; [|done]. unfold view. by rewrite Hd.
    + rewrite andb_false_r, decide_False by done. done.
  - case_decide as Hw; [|done]. unfold answer_at. by rewrite (unchanged_value A s), Hdead by (done || apply Hls || apply Hw || apply Hn).
Qed.

(** ** Pages *)

Lemma split_cursor p id : splitListCursor (buildListCursor p id) = (p, id).
Proof. by destruct p. Qed.

(** What is behind the last entry of a page. *)
Lemma rest_behind (ans : string -> option (string * DataMap)) (P Q : string -> Prop) `{!forall x, Decision (P x)} `{!forall x, Decision (Q x)} (ids : list string) k p :
  (forall id q, ans id = Some q -> q.1 = id) -> StronglySorted String.le ids -> NoDup ids ->
  omap ans (filter P ids) !! k = Some p -> (forall y, Q y <-> P y /\ ~ String.le y p.1) ->
  omap ans (filter Q ids) = drop (S k) (omap ans (filter P ids)).
Proof.
  intros Hk Hs Hn Hp Hq. rewrite <- (behind_entry _ k p); [|apply by_key_omap; [done|eapply StronglySorted_sublist; [apply sublist_filter|done]|by apply NoDup_filter]|done].
  rewrite !omap_filter_ids by done. rewrite list_filter_filter. apply list_filter_iff. intros x. rewrite Hq. tauto.
Qed.

Lemma fresh_rest A e n fs changed cid k p :
  omap (answer_at A e n fs) (fresh_ids changed false cid) !! k = Some p ->
  omap (answer_at A e n fs) (fresh_ids changed false p.1) = drop (S k) (omap (answer_at A e n fs) (fresh_ids changed false cid)).
Proof.
  intros Hp. unfold fresh_ids in *. eapply rest_behind; [apply answer_key|apply ordered_sorted|apply ordered_nodup|done|].
  assert (Hcid : ~ String.le p.1 cid).
  { apply list_elem_of_lookup_2, list_elem_of_omap in Hp as (id & [Hid _]%list_elem_of_filter & Ha). by rewrite (answer_key _ _ _ _ _ _ Ha). }
  intros y. split; [|tauto]. intros Hy. split; [|done]. intros Hle. apply Hcid. destruct (total String.le y p.1) as [?|H]; [done|by etrans].
Qed.

Lemma stored_rest A e n fs log changed cp cid k p :
  omap (answer_at A e n fs) (stored_ids log e changed cp cid) !! k = Some p ->
  omap (answer_at A e n fs) (stored_ids log e changed true p.1) = drop (S k) (omap (answer_at A e n fs) (stored_ids log e changed cp cid)).
Proof.
  intros Hp. unfold stored_ids in *. eapply rest_behind; [apply answer_key|apply (StronglySorted_merge_sort String.le)|apply sorted_ids_nodup|done|].
  assert (Hcid : cp = true -> ~ String.le p.1 cid).
  { intros ->. apply list_elem_of_lookup_2, list_elem_of_omap in Hp as (id & [[_ Hid] _]%list_elem_of_filter & Ha). rewrite (answer_key _ _ _ _ _ _ Ha). by apply Hid. }
  intros y. split; [|tauto]. intros [Hc Hy]. specialize (Hy eq_refl). split; [|done]. split; [done|]. intros Hcp Hle. apply (Hcid Hcp).
  destruct (total String.le y p.1) as [?|H]; [done|by etrans].
Qed.

(** A read of the store's lists changes nothing else. *)
Lemma implements_lists A s st' :
  implements A s -> slog st' = slog (store s) -> store_ok st' ->
  implements A (mkEState (changes s) (committed s) (uniqTimeSeriesID s) st') /\ same_shape s (mkEState (changes s) (committed s) (uniqTimeSeriesID s) st').
Proof.
  intros Him Hl Hok. split; [|by split]. eapply (implements_read A s _ EmptyString EmptyString); [done|by split_and!|apply Him|done|].
  intros e' id' m. unfold value. cbn [store changes]. by rewrite Hl.
Qed.

Lemma last_view (l : list EntityBox) k p : (0 < k)%nat -> (k <= length l)%nat -> last (take k l) = Some p -> map view l !! (k - 1)%nat = Some (view p).
Proof.
  intros H0 Hk Hl. rewrite last_lookup, length_take, Nat.min_l in Hl by done. rewrite lookup_take_lt in Hl by lia.
  replace (k - 1)%nat with (pred k) by lia. by rewrite list_lookup_fmap, Hl.
Qed.

Definition page_ok (A : Table) (s : State) (e : string) (n : Z) (fs : list EntityFilter) (cursor : string) (limit : Z) (page : list EntityBox) (next : option string) : Prop :=
  map view page = take (Z.to_nat limit) (remaining A s e n fs cursor) /\
  match next with
  | None => (length (remaining A s e n fs cursor) <= Z.to_nat limit)%nat
  | Some c => remaining A s e n fs c = drop (Z.to_nat limit) (remaining A s e n fs cursor) /\ (Z.to_nat limit <= length (remaining A s e n fs cursor))%nat
  end.

(** A page of uncommitted entities only. *)
Lemma fresh_page A s e n fs cursor cp cid limit (sb : list EntityBox) b :
  splitListCursor cursor = (cp, cid) -> map view sb = omap (answer_at A e n fs) (fresh_ids (changed_ids s e n) cp cid) ->
  0 < limit <= Z.of_nat (length sb) -> last (take (Z.to_nat limit) sb) = Some b ->
  page_ok A s e n fs cursor limit (take (Z.to_nat limit) sb) (Some (buildListCursor false (ID b))).
Proof.
  intros Ecur Hsort Hlim El. assert (Hlen : length sb = length (omap (answer_at A e n fs) (fresh_ids (changed_ids s e n) cp cid))) by (by rewrite <- Hsort, length_map).
  unfold page_ok, remaining. rewrite Ecur, split_cursor. split.
  - rewrite take_app_le by lia. by rewrite <- Hsort, firstn_map.
  - rewrite drop_app_le, length_app by lia. split; [|lia]. apply last_view in El; [|lia..]. rewrite Hsort in El.
    destruct cp; [cbn in El; done|]. pose proof (fresh_rest _ _ _ _ _ cid _ _ El) as Hrest. cbn [view fst] in Hrest. rewrite Hrest.
    replace (S (Z.to_nat limit - 1)) with (Z.to_nat limit) by lia. f_equal. f_equal. apply list_filter_iff. intros x. split; intros [? _]; by split.
Qed.

(** A page that goes on with entities of the store. *)
Lemma stored_page A s e n fs cursor cp cid limit k (sb part : list EntityBox) :
  splitListCursor cursor = (cp, cid) -> map view sb = omap (answer_at A e n fs) (fresh_ids (changed_ids s e n) cp cid) ->
  k = limit - Z.of_nat (length sb) -> 0 < k ->
  map view part = take (Z.to_nat k) (omap (answer_at A e n fs) (stored_ids (slog (store s)) e (changed_ids s e n) cp cid)) ->
  (Z.of_nat (length part) = k -> exists b, last (sb ++ part) = Some b /\ page_ok A s e n fs cursor limit (sb ++ part) (Some (buildListCursor true (ID b)))) /\
  (Z.of_nat (length part) <> k -> page_ok A s e n fs cursor limit (sb ++ part) None).
Proof.
  intros Ecur Hsort Hk Hk0 Hr. set (U := omap (answer_at A e n fs) (fresh_ids (changed_ids s e n) cp cid)) in *.
  set (P := omap (answer_at A e n fs) (stored_ids (slog (store s)) e (changed_ids s e n) cp cid)) in *.
  assert (Hlen : length sb = length U) by (by rewrite <- Hsort, length_map).
  assert (Hlp : length part = Nat.min (Z.to_nat k) (length P)) by (rewrite <- length_take, <- Hr; by rewrite length_map).
  assert (Hrem : remaining A s e n fs cursor = U ++ P) by (unfold remaining; by rewrite Ecur).
  assert (Hpage : map view (sb ++ part) = take (Z.to_nat limit) (U ++ P)) by (rewrite take_app_ge by lia; rewrite map_app, Hsort, Hr; do 2 f_equal; lia).
  unfold page_ok. rewrite Hrem, length_app. split; intros Hlk; [|split; [done|lia]].
  destruct (last part) as [b|] eqn:Eb; [|apply last_None in Eb; subst part; cbn in *; lia].
  exists b. split; [by rewrite last_app, Eb|]. split; [done|]. split; [|lia]. rewrite drop_app_ge by lia. unfold remaining. rewrite split_cursor. cbn [fresh_ids omap list_omap app].
  assert (Hlast : P !! (Z.to_nat k - 1)%nat = Some (view b)).
  { rewrite <- (lookup_take_lt _ (Z.to_nat k)) by lia. rewrite <- Hr. rewrite list_lookup_fmap. rewrite last_lookup in Eb.
    replace (Z.to_nat k - 1)%nat with (pred (length part)) by lia. by rewrite Eb. }
  pose proof (stored_rest _ _ _ _ _ _ cp cid _ _ Hlast) as Hrest. cbn [view fst] in Hrest. rewrite Hrest. fold P. f_equal. lia.
Qed.

Lemma page_spec A s e n fs cursor limit :
  implements A s -> listable A e fs -> (forall id b, b ∈ entity_log s e id -> GenBlockNumber b <= n) -> 0 < limit ->
  exists r s', listEntity (typ e) fs cursor limit n s = Ok (r, s') /\
    (forall page next, r = inl (page, next) -> implements A s' /\ same_shape s s' /\ page_ok A s e n fs cursor limit page next) /\
    (StoreWorks (St := St) -> lister_works -> exists x, r = inl x).
Proof.
  intros Him Hls Hn Hlim. unfold listEntity. rewrite (proj2 (Z.eqb_neq limit 0)) by lia. destruct (splitListCursor cursor) as [cp cid] eqn:Ecur.
  unfold mbind at 1, SM_bind at 1, sget at 1. cbn [obind]. rewrite GetEntityType_name. set (ids := map fst (map_to_list (default ∅ (changes s !! e)))).
  assert (Hids : NoDup ids /\ forall id, id ∈ changed_ids s e n -> id ∈ ids).
  { split; [apply NoDup_fst_map_to_list|]. intros id [_ [h Hh]%elem_of_dom]%elem_of_filter. apply list_elem_of_fmap. exists (id, h).
    by rewrite elem_of_map_to_list. }
  destruct (list_changes_spec A e fs n cp cid ids s ∅ [] Hls Him) as (r & s1 & E1 & Hr & Hw1). unfold mbind at 1, SM_bind at 1. rewrite E1. cbn [obind].
  destruct r as [[ck bs]|err]; [|eexists _, s1; split_and!; [done..|]; intros Hsw; by destruct (Hw1 Hsw) as [? [=]]]. destruct (Hr ck bs eq_refl) as (Him1 & Hsh & Hck & Hbs). cbn [map app] in Hbs.
  assert (ck = changed_ids s e n) as ->.
  { apply set_eq. intros x. rewrite Hck. split; [by intros [?%not_elem_of_empty|[_ ?]]|]. intros Hx. right. split; [by apply Hids|done]. }
  pose proof (sorted_part A e n fs (changed_ids s e n) cp cid ids bs (proj1 Hids) (proj2 Hids) Hbs) as Hsort. clear Hbs Hck Hr E1.
  destruct (Z.leb_spec limit (Z.of_nat (length (SortEntityBoxes bs)))) as [Hfull|Hpart].
  - rewrite (proj2 (Z.ltb_ge limit 0)) by lia. destruct (last (take (Z.to_nat limit) (SortEntityBoxes bs))) as [b|] eqn:El.
    2:{ apply last_None in El. apply (f_equal length) in El. rewrite length_take in El. cbn in El. lia. }
    eexists _, s1. split; [reflexivity|]. split; [|by eexists]. intros page next [= <- <-]. split_and!; [done..|]. by eapply fresh_page.
  - destruct (ls_primary _ _ _ Hls) as (f & Hf & _). rewrite Hf. set (k := limit - Z.of_nat (length (SortEntityBoxes bs))).
    destruct (ListEntities_ok e (fs ++ persistent_filters f (changed_ids s e n) cp cid) k (stored_pass fs (changed_ids s e n) cp cid) (store s1))
      as (r & st' & E2 & Hl & Hok & Hr & Hw2); [apply Hls|apply Him1|by apply (persistent_builds f _ _ _ fs A e)|intros b Hb; by apply (stored_checked A s1 e)|].
    unfold mbind, SM_bind, with_lister. rewrite E2. cbn [obind].
    destruct (implements_lists A s1 st' Him1 Hl Hok) as [Him2 Hsh2]. destruct r as [[part fc]|err]; [|eexists _, _; split_and!; [done..|]; intros _ Hlw; by destruct (Hw2 Hlw) as [? [=]]].
    specialize (Hr part fc eq_refl). apply (f_equal (map view)) in Hr. rewrite (proj1 Hsh) in Hr. rewrite (stored_part A) in Hr; [|done..].
    destruct (stored_page A s e n fs cursor cp cid limit k _ part Ecur Hsort eq_refl ltac:(unfold k; lia) Hr) as [Hfull Hrest].
    destruct (Z.eqb_spec (Z.of_nat (length part)) k) as [Hk|Hk].
    + destruct (Hfull Hk) as (b & -> & Hp). eexists _, _. split; [reflexivity|]. split; [|by eexists]. intros page next [= <- <-]. split_and!; [done|by eapply same_shape_trans|done].
    + eexists _, _. split; [reflexivity|]. split; [|by eexists]. intros page next [= <- <-]. split_and!; [done|by eapply same_shape_trans|by apply Hrest].
Qed.

(** ** All the pages *)

(** A client that follows the cursors. *)
Fixpoint all_pages (fuel : nat) (e : string) (n : Z) (fs : list EntityFilter) (cursor : string) (limit : Z) : SM State (list EntityBox + EntityError) :=
  match fuel with
  | O => slift Diverge
  | S fuel =>
      r ← ListEntity (typ e) fs cursor limit n;
      match r with
      | inr err => mret (inr err)
      | inl (page, None) => mret (inl page)
      | inl (page, Some c) =>
          r ← all_pages fuel e n fs c limit;
          mret (match r with inl l => inl (page ++ l) | inr err => inr err end)
      end
  end.

Lemma all_pages_spec fuel A s e n fs cursor limit :
  implements A s -> listable A e fs -> (forall id b, b ∈ entity_log s e id -> GenBlockNumber b <= n) -> 0 < limit ->
  (length (remaining A s e n fs cursor) < fuel)%nat ->
  exists r s', all_pages fuel e n fs cursor limit s = Ok (r, s') /\
    (forall boxes, r = inl boxes -> implements A s' /\ map view boxes = remaining A s e n fs cursor) /\
    (StoreWorks (St := St) -> lister_works -> exists boxes, r = inl boxes).
Proof.
  revert s cursor. induction fuel as [|fuel IH]; intros s cursor Him Hls Hn Hlim Hf; [lia|]. cbn [all_pages].
  destruct (page_spec A s e n fs cursor limit Him Hls Hn Hlim) as (r & s1 & E1 & Hr & Hw). unfold ListEntity, mbind at 1, SM_bind at 1. rewrite E1. cbn [obind].
  destruct r as [[page [c|]]|err]; [..|eexists _, s1; split_and!; [done..|]; intros Hsw Hlw; by destruct (Hw Hsw Hlw) as [? [=]]]; destruct (Hr _ _ eq_refl) as (Him1 & Hsh & Hp & Hnext).
  - destruct Hnext as [Hc Hlen]. assert (Hn1 : forall id b, b ∈ entity_log s1 e id -> GenBlockNumber b <= n) by (intros id b; unfold entity_log; rewrite (proj1 Hsh); apply Hn).
    pose proof (remaining_same A s s1 e n fs c (im_ok _ _ Him) (im_ok _ _ Him1) Hsh) as Hrs.
    destruct (IH s1 c Him1 Hls Hn1 Hlim) as (r & s2 & E2 & Hr2 & Hw2); [rewrite Hrs, Hc, length_drop; lia|]. unfold mbind, SM_bind. rewrite E2. cbn [obind].
    destruct r as [l|err]; [|eexists _, s2; split_and!; [done..|]; intros Hsw Hlw; by destruct (Hw2 Hsw Hlw) as [? [=]]]. eexists _, s2. split; [reflexivity|]. split; [|by eexists]. intros boxes [= <-]. destruct (Hr2 l eq_refl) as [Him2 Hl].
    split; [done|]. by rewrite map_app, Hp, Hl, Hrs, Hc, take_drop.
  - eexists _, s1. split; [reflexivity|]. split; [|by eexists]. intros boxes [= <-]. split; [done|]. by rewrite Hp, take_ge.
Qed.

(** What is listed from the start: every entity that passes, once. *)
Lemma remaining_all A s e n fs :
  implements A s -> in_table e -> (forall id b, b ∈ entity_log s e id -> GenBlockNumber b <= n) -> table_value A e EmptyString n = Ok None ->
  NoDup (map fst (remaining A s e n fs EmptyString)) /\
  forall id d, (id, d) ∈ remaining A s e n fs EmptyString <-> table_value A e id n = Ok (Some d) /\ passes fs d = true.
Proof.
  intros Him Ht Hn Hempty. unfold remaining. cbn [splitListCursor].
  assert (Hans : forall id d, answer_at A e n fs id = Some (id, d) <-> table_value A e id n = Ok (Some d) /\ passes fs d = true).
  { intros id d. unfold answer_at. destruct (table_value A e id n) as [[d'|]| |]; [|split; [done|by intros [[=] _]]..]. destruct (passes fs d') eqn:Ep; split; [by intros [= <-]|by intros [[= <-] _]|done|intros [[= <-] ?]; congruence]. }
  assert (Hkeys : forall ids, map fst (omap (answer_at A e n fs) ids) `sublist_of` ids).
  { induction ids as [|id ids IH]; [done|]. cbn. destruct (answer_at A e n fs id) as [p|] eqn:E; cbn; [|by apply sublist_cons].
    rewrite (answer_key _ _ _ _ _ _ E). by apply sublist_skip. }
  rewrite map_app. split.
  - apply (sublist_NoDup _ (fresh_ids (changed_ids s e n) false EmptyString ++ stored_ids (slog (store s)) e (changed_ids s e n) false EmptyString)); [|by apply sublist_app].
    apply NoDup_app. split_and!; [apply NoDup_filter, ordered_nodup| |apply NoDup_filter, sorted_ids_nodup].
    intros id [_ Hin%elem_of_ordered]%list_elem_of_filter [[Hni _] _]%list_elem_of_filter. done.
  - intros id d. rewrite <- Hans, elem_of_app, !list_elem_of_omap. split.
    + intros [(x & _ & Hx)|(x & _ & Hx)]; pose proof (answer_key _ _ _ _ _ _ Hx) as Hk; cbn in Hk; by subst x.
    + intros Ha. assert (Hv : table_value A e id n = Ok (Some d)) by (apply (proj1 (Hans id d) Ha)). destruct (decide (id ∈ changed_ids s e n)) as [Hin|Hin].
      * left. exists id. split; [|done]. apply list_elem_of_filter. split; [|by apply elem_of_ordered]. intros Hle.
        assert (id = EmptyString) as ->; [|congruence]. destruct id; [done|]. done.
      * right. exists id. split; [|done]. apply list_elem_of_filter. split; [by split|]. apply elem_of_sorted_ids.
        rewrite (unchanged_value A s e id n Him Ht Hin (Hn id)) in Hv. injection Hv as Hv. unfold stored_data in Hv. intros E. by rewrite E in Hv.
Qed.
End Pages.
