(* ===== verification/EntitySamples.v ===== *)
(** * Concrete instances for the entity controller and the stack below it

    Decimals as a coefficient and an exponent, a store that is the log of what is written to
    it, a schema with an entity and a time series, conversions, a cache with a capacity, and
    entity tables with a schema. They satisfy the laws the theorems assume. *)
From Stdlib Require Import ZArith Lia QArith Qpower Qround Ascii String.
From stdpp Require Import base numbers option strings pretty sorting gmap list.
From S2P Require Import Prelude RangeText BlockCache EntityValue EntityHistory EntityMerge EntityTyping EntityCtrl EntityRich EntityFilter EntitySql ChainStore EntityTable EntitySpec ChainStoreSpec TableSpec EntityCommit.
#[local] Open Scope Z_scope.

(** ** Decimals *)

Definition SDec : Type := (Z * Z)%type.

Definition sval (d : SDec) : Q := (inject_Z d.1 * Qpower (10 # 1) d.2)%Q.

Definition sBigInt (d : SDec) : Z := if 0 <=? d.2 then d.1 * 10 ^ d.2 else Z.quot d.1 (10 ^ (- d.2)).

#[global] Instance sample_decimal : Decimal := {
  dec := SDec;
  float64 := SDec;
  float64_zero := (0, 0);
  NewFromBigInt z e := (z, e);
  dMul a b := (a.1 * b.1, a.2 + b.2);
  dAdd a b := let m := Z.min a.2 b.2 in (a.1 * 10 ^ (a.2 - m) + b.1 * 10 ^ (b.2 - m), m);
  dRound d := (round_half (sval d), 0);
  dBigInt := sBigInt;
  dIntPart d := wrap_int64 (sBigInt d);
  dExponent d := d.2;
  dShift k d := (d.1, d.2 + k);
  dZero := (0, 0);
  NewFromFloat x := x;
  dFloat64 x := x;
  NewFromString _ := None;
  SetString _ := None
}.

Lemma ten_nonzero : ~ Qeq (10 # 1) 0.
Proof. done. Qed.

Lemma sval_scale c e k : 0 <= k -> Qeq (inject_Z (c * 10 ^ k) * Qpower (10 # 1) e) (inject_Z c * Qpower (10 # 1) (e + k)).
Proof.
  intros Hk. rewrite inject_Z_mult, Zpower_Qpower by done. change (inject_Z 10) with (10 # 1).
  rewrite (Qpower_plus _ e k ten_nonzero). ring.
Qed.

#[refine, global] Instance sample_decimal_laws : DecimalLaws := { dval := sval }.
Proof.
  - done.
  - intros [c1 e1] [c2 e2]. unfold sval. cbn [dMul sample_decimal fst snd]. rewrite (Qpower_plus _ e1 e2 ten_nonzero), inject_Z_mult. ring.
  - intros [c1 e1] [c2 e2]. unfold sval. cbn [dAdd sample_decimal fst snd]. rewrite inject_Z_plus, Qmult_plus_distr_l.
    rewrite !sval_scale by lia. by rewrite !Zplus_minus.
  - unfold sval. cbn. done.
  - intros d. cbn [dBigInt dRound sample_decimal]. unfold sBigInt. cbn [fst snd]. change (0 <=? 0) with true. cbv iota.
    by rewrite Z.pow_0_r, Z.mul_1_r.
  - intros d Hd. cbn [dIntPart dBigInt sample_decimal] in *. by apply wrap_int64_id.
  - intros [c e]. cbn [dBigInt dShift dExponent sample_decimal fst snd]. unfold sBigInt, sval. cbn [fst snd].
    rewrite Z.add_opp_diag_r. change (0 <=? 0) with true. cbv iota. by rewrite Z.pow_0_r, Z.mul_1_r.
Defined.

(** ** A schema *)

Definition field (n t : string) : FieldDefinition := mkField n (NonNull (Scalar t)) false.

Definition token_type : EntityType := mkEntityType "Token" [field "id" "ID"; field "balance" "BigInt"; field "count" "Int8"] false false true None.
Definition swap_type : EntityType := mkEntityType "Swap" [field "id" "ID"; field "timestamp" "Timestamp"; field "amount" "BigInt"] false true false None.

Definition sample_types (e : string) : EntityType :=
  if bool_decide (e = "Token") then token_type
  else if bool_decide (e = "Swap") then swap_type
  else mkEntityType e [] false false false None.

(** ** A store *)

Record LogStore : Type := mkLogStore { boxes : list EntityBox }.

Definition max_id (et : EntityType) (l : list EntityBox) : Z :=
  foldr Z.max 0 (map (fun b => ParseInt (ID b)) (filter (fun b => Entity b = Name et) l)).

#[global] Instance log_store : ChainStore LogStore := {
  st_GetEntityType := sample_types;
  st_GetEntity et id s := (inl (last (of_entity (Name et) id (boxes s))), s);
  st_GetTimeSeriesEntityMaxID et s := (inl (max_id et (boxes s)), s);
  st_SetEntities et bs s := ((Z.of_nat (length bs), None), mkLogStore (boxes s ++ bs));
  st_GrowthAggregation _ s := (None, s);
  st_Reorg n s := (None, mkLogStore (filter (fun b => GenBlockNumber b <= n) (boxes s)));
  st_CheckValue _ _ := true
}.

Lemma ParseInt_range s : - 2 ^ 63 <= ParseInt s < 2 ^ 63.
Proof.
  assert (Hp : forall neg t, - 2 ^ 63 <= signed_digits neg t < 2 ^ 63).
  { intros neg [|c t]; unfold signed_digits; [lia|]. destruct (decimal_digits 0 (c :: t)), neg; lia. }
  unfold ParseInt. destruct (list_ascii_of_string s) as [|c t]; [lia|]. destruct (Ascii.eqb c "-"), (Ascii.eqb c "+"); apply Hp.
Qed.

Lemma foldr_max_range l : (forall x, x ∈ l -> x < 2 ^ 63) -> 0 <= foldr Z.max 0 l < 2 ^ 63 /\ (forall x, x ∈ l -> x <= foldr Z.max 0 l).
Proof.
  induction l as [|y l IH]; intros Hl; simpl; [split; [lia|]; by intros x ?%not_elem_of_nil|].
  destruct IH as [H1 H2]; [intros x Hx; apply Hl; by right|]. pose proof (Hl y ltac:(by left)). split; [lia|].
  intros x [->|Hx]%elem_of_cons; [lia|]. specialize (H2 x Hx). lia.
Qed.

#[refine, global] Instance log_store_laws : ChainStoreLaws LogStore := { slog := boxes; sbase _ _ := True; sclean _ := True }.
Proof.
  - done.
  - intros e. cbn. unfold sample_types. repeat case_bool_decide; by subst.
  - intros e id s r s' [= <- <-]. split; [done|]. intros _ _ _. split; [done|]. intros box [= <-].
    unfold stored_data, sample_types. repeat case_bool_decide; by subst.
  - intros e s r s' [= <- <-]. split_and!; [done..|]. intros m [= <-]. unfold max_id.
    destruct (foldr_max_range (map (fun b => ParseInt (ID b)) (filter (fun b => Entity b = Name (sample_types e)) (boxes s)))) as [H1 H2].
    { intros x (b & -> & _)%list_elem_of_fmap. apply ParseInt_range. }
    split; [lia|]. apply Forall_forall. intros b Hb He. apply H2, list_elem_of_fmap. exists b. split; [done|].
    apply list_elem_of_filter. split; [|done]. rewrite He. cbn. unfold sample_types. repeat case_bool_decide; by subst.
  - intros e bs s n err s' [= <- <- <-] _. exists bs. done.
  - by intros t s e s' [= <- <-].
  - intros n s e s' [= <- <-]. cbn. split_and!; [done|apply sublist_filter| |done].
    rewrite list_filter_filter. apply list_filter_iff. tauto.
Defined.

(** ** Boxes *)

Definition token_box (id : string) (n : Z) (d : option (gmap string Value)) : EntityBox := mkBox "Token" id d n (n * 1000) "h".

(** The balance of a token is set. *)
Definition set_balance (id : string) (n x : Z) : UncommittedEntityBox :=
  mkUncommitted (token_box id n (Some {[ "id" := VString id; "balance" := VBigIntP (Some x); "count" := VInt64 0 ]})) ∅.

(** The balance of a token becomes what it was times [m] plus [a], and its count grows. *)
Definition change_balance (id : string) (n m a : Z) : UncommittedEntityBox :=
  mkUncommitted (token_box id n (Some {[ "id" := VString id ]}))
    {[ "balance" := mkOperator (Some (mkNumCalc (NewBigIntValue m) (NewBigIntValue a)));
       "count" := mkOperator (Some (mkNumCalc (RInt 1) (RInt 1))) ]}.

Definition delete_token (id : string) (n : Z) : UncommittedEntityBox := mkUncommitted (token_box id n None) ∅.

Definition swap (id : string) (n x : Z) : UncommittedEntityBox :=
  mkUncommitted (mkBox "Swap" id (Some {[ "id" := VString id; "amount" := VBigIntP (Some x) ]}) n (n * 1000) "h") ∅.

Definition changed (h : list UncommittedEntityBox) : gmap string (gmap string (list UncommittedEntityBox)) :=
  {[ "Token" := {[ "a" := h ]} ]}.

Lemma set_balance_ok id n x : box_ok token_type (set_balance id n x).
Proof.
  split; [done|..]; intros d [= <-].
  - cbn [Operators set_balance]. rewrite dom_empty_L, union_empty_r_L, !dom_insert_L, dom_singleton_L. reflexivity.
  - cbn [Operators set_balance]. rewrite dom_empty_L. apply disjoint_empty_r.
Qed.

Lemma change_balance_ok id n m a : box_ok token_type (change_balance id n m a).
Proof.
  split; [done|..]; intros d [= <-].
  - cbn [Operators change_balance]. rewrite !dom_insert_L, !dom_singleton_L. reflexivity.
  - cbn [Operators change_balance]. rewrite !dom_insert_L, !dom_singleton_L. set_solver.
Qed.

Lemma set_balance_change id n x m a prev : ops_exact token_type prev (set_balance id n x) (change_balance id n m a).
Proof. intros f t op1 op2 v H1. cbn [Operators set_balance] in H1. by rewrite lookup_empty in H1. Qed.

(** ** Conversions *)

Definition hex_digit (n : Z) : ascii := ascii_of_nat (Z.to_nat (if n <? 10 then 48 + n else 87 + n)).

Definition hex_value (c : ascii) : option Z :=
  let n := Z.of_nat (nat_of_ascii c) in
  if (48 <=? n) && (n <? 58) then Some (n - 48) else if (97 <=? n) && (n <? 103) then Some (n - 87) else None.

Fixpoint hex_bytes (l : list Z) : string :=
  match l with
  | [] => EmptyString
  | b :: rest => String (hex_digit (b / 16)) (String (hex_digit (b mod 16)) (hex_bytes rest))
  end.

Fixpoint hex_parse (s : string) : option (list Z) :=
  match s with
  | EmptyString => Some []
  | String a (String b rest) =>
      x ← hex_value a; y ← hex_value b; l ← hex_parse rest; Some (16 * x + y :: l)
  | _ => None
  end.

Definition sample_hexDecode (s : string) : option (list Z) := match s with String "0" (String "x" t) => hex_parse t | _ => None end.

Definition compare_number (c : comparison) : Z := match c with Lt => -1 | Eq => 0 | Gt => 1 end.

Definition within (fits : Z -> bool) (z : Z) : Z := if fits z then z else 0.

#[global] Instance sample_conversions : Conversions := {
  hexEncode l := String "0" (String "x" (hex_bytes l));
  hexDecode := sample_hexDecode;
  dIsZero d := d.1 =? 0;
  dString d := pretty d.1;
  dCmp a b := compare_number (Qcompare (sval a) (sval b));
  float_zero d := d.1 =? 0;
  float_of_int z := (z, 0);
  float_of_big z := ((z, 0), true);
  float_round32 d := within fits_int32 (round_half (sval d));
  float_round64 d := within fits_int64 (round_half (sval d));
  float_trunc d := within fits_int64 (sBigInt d);
  float_string d := pretty d.1;
  float_cmp a b := compare_number (Qcompare (sval a) (sval b));
  ParseFloat _ := None;
  float_of_slice _ := None;
  timestamp_string s n := pretty s
}.

Lemma hex_digit_value n : 0 <= n < 16 -> hex_value (hex_digit n) = Some n.
Proof.
  intros Hn. assert (Hd : In (Z.to_nat n) (seq 0 16)) by (apply in_seq; lia). rewrite <- (Z2Nat.id n) by lia. revert Hd. generalize (Z.to_nat n).
  intros k Hk. cbn in Hk. repeat (destruct Hk as [<-|Hk]; [reflexivity|]). done.
Qed.

Lemma hex_value_range c n : hex_value c = Some n -> 0 <= n < 16.
Proof.
  unfold hex_value. set (z := Z.of_nat (nat_of_ascii c)). destruct (Z.leb_spec 48 z), (Z.ltb_spec z 58); cbn [andb]; try (intros [= <-]; lia);
    destruct (Z.leb_spec 97 z), (Z.ltb_spec z 103); cbn [andb]; try done; intros [= <-]; lia.
Qed.

Lemma hex_round_trip l : Forall is_byte l -> hex_parse (hex_bytes l) = Some l.
Proof.
  induction 1 as [|b l Hb _ IH]; [done|]. unfold is_byte in Hb. cbn [hex_bytes hex_parse].
  assert (Hdiv : 0 <= b / 16 < 16) by (split; [apply Z.div_pos; lia|apply Z.div_lt_upper_bound; lia]). assert (Hmod : 0 <= b mod 16 < 16) by (apply Z.mod_pos_bound; lia).
  rewrite !hex_digit_value by done. cbn [mbind option_bind]. rewrite IH. cbn [mbind option_bind]. do 2 f_equal. pose proof (Z.div_mod b 16). lia.
Qed.

Lemma hex_parse_bytes k s l : (String.length s <= k)%nat -> hex_parse s = Some l -> Forall is_byte l.
Proof.
  revert s l. induction k as [|k IH]; intros s l Hk.
  { destruct s; [|cbn in Hk; lia]. by intros [= <-]. }
  destruct s as [|a [|b rest]]; [by intros [= <-]|done|]. cbn [hex_parse].
  destruct (hex_value a) as [x|] eqn:Ex; [|done]. destruct (hex_value b) as [y|] eqn:Ey; [|done]. cbn.
  destruct (hex_parse rest) as [r|] eqn:Er; [|done]. cbn. intros [= <-]. constructor; [|apply (IH rest); [cbn in Hk; lia|done]].
  apply hex_value_range in Ex, Ey. unfold is_byte. lia.
Qed.

Lemma within_fits (fits : Z -> bool) z : fits 0 = true -> fits (within fits z) = true.
Proof. unfold within. by destruct (fits z) eqn:E. Qed.

#[global] Instance sample_conversion_laws : ConversionLaws.
Proof.
  split.
  - done.
  - intros s b. cbn. unfold sample_hexDecode. repeat (case_match; try done). by eapply hex_parse_bytes.
  - intros b Hb. cbn. by apply hex_round_trip.
  - intros x. by apply within_fits.
  - intros x. by apply within_fits.
  - intros a b. cbn. by destruct (Qcompare (sval a) (sval b)).
  - intros d. cbn. apply wrap_int64_fits.
  - done.
Qed.

(** ** A cache *)

(** The entries, the last one used first. *)
Record SampleLRU : Type := mkLRU { capacity : nat; entries : list (string * EntityBox) }.

Definition without (k : string) (l : list (string * EntityBox)) : list (string * EntityBox) := filter (fun kv => kv.1 <> k) l.

Definition entry (k : string) (l : list (string * EntityBox)) : option EntityBox := snd <$> head (filter (fun kv => kv.1 = k) l).

Definition sample_add (k : string) (b : EntityBox) (l : SampleLRU) : SampleLRU := mkLRU (capacity l) (take (capacity l) ((k, b) :: without k (entries l))).

#[global] Instance sample_lru : LRU SampleLRU := {
  NewLRU n := mkLRU (Z.to_nat n) [];
  NewWithWeightLimit n := mkLRU (Z.to_nat n) [];
  lru_Get k l := (entry k (entries l), match entry k (entries l) with Some b => mkLRU (capacity l) ((k, b) :: without k (entries l)) | None => l end);
  lru_Peek k l := entry k (entries l);
  lru_Add := sample_add;
  lru_Remove k l := mkLRU (capacity l) (without k (entries l));
  lru_Purge l := mkLRU (capacity l) [];
  lru_Keys l := map fst (entries l)
}.

Definition entries_map (l : list (string * EntityBox)) : gmap string EntityBox := list_to_map l.

Lemma entries_map_lookup k l : entries_map l !! k = entry k l.
Proof.
  unfold entries_map, entry. induction l as [|[k' b] l IH]; [done|]. cbn [list_to_map foldr uncurry]. rewrite filter_cons. cbn [fst].
  destruct (decide (k' = k)) as [->|Hne]; [by rewrite lookup_insert_eq|]. by rewrite lookup_insert_ne.
Qed.

Lemma entry_without k k' l : entry k' (without k l) = if bool_decide (k' = k) then None else entry k' l.
Proof.
  unfold entry, without. rewrite list_filter_filter. case_bool_decide as Hk.
  - rewrite filter_none; [done|]. intros x _ [H1 H2]. subst. done.
  - f_equal. f_equal. apply list_filter_iff. intros x. split; [tauto|]. intros <-. split; [done|]. congruence.
Qed.

Lemma entries_map_without k l : entries_map (without k l) = delete k (entries_map l).
Proof.
  apply map_eq. intros k'. rewrite entries_map_lookup, entry_without. case_bool_decide as Hk; [by subst; rewrite lookup_delete_eq|].
  by rewrite lookup_delete_ne, entries_map_lookup.
Qed.

Lemma entries_map_take n l : entries_map (take n l) ⊆ entries_map l.
Proof.
  apply map_subseteq_spec. intros k b. rewrite !entries_map_lookup. unfold entry. revert n. induction l as [|[k' b'] l IH]; intros [|n]; cbn [take]; try done.
  rewrite !filter_cons. cbn [fst]. case_decide; [done|]. apply IH.
Qed.

#[refine, global] Instance sample_lru_laws : LRULaws SampleLRU := { lru_map l := entries_map (entries l) }.
Proof.
  - done.
  - intros k l. cbn. split; [by rewrite entries_map_lookup|]. destruct (entry k (entries l)) as [b|] eqn:E; [|done]. cbn.
    change (<[k := b]> (entries_map (without k (entries l))) = entries_map (entries l)).
    rewrite entries_map_without, insert_delete_eq, insert_id; [done|]. by rewrite entries_map_lookup.
  - intros k b l. cbn [lru_Add sample_lru sample_add entries]. etrans; [apply entries_map_take|].
    change (<[k := b]> (entries_map (without k (entries l))) ⊆ <[k := b]> (entries_map (entries l))). rewrite entries_map_without. by rewrite insert_delete_eq.
  - intros k l. apply entries_map_without.
  - done.
Defined.

(** ** Tables *)

(** Entities that the schema does not know are only cached. *)
Definition stack_types (e : string) : EntityType :=
  if bool_decide (e = "Token") then token_type
  else if bool_decide (e = "Swap") then swap_type
  else mkEntityType e [] false false false (Some 10).

Section Store.
Context (collapsing : bool) (F : Type) (effect : F -> bool).

Definition sample_store : Store := {|
  sch_type := stack_types;
  sch_entities := ["Token"; "Swap"];
  sch_aggregations := [2%nat];
  VersionedCollapsing := collapsing;
  BatchInsertSizeLimit := 2;
  HugeIDSetSize := 100;
  storeChain := "1";
  cityHash64 id := Z.of_nat (String.length id);
  store_CheckValue _ _ := true;
  Failure := F;
  applied := effect;
  faultError _ := ErrOther "timeout"
|}.

#[global] Instance sample_store_ok : StoreOk (HS := sample_store).
Proof.
  split.
  - intros e. cbn. unfold stack_types. repeat case_bool_decide; by subst.
  - intros e. cbn. unfold stack_types. case_bool_decide; [subst; intros _; split_and!; [by left|done|done]|].
    case_bool_decide; [subst; intros _; split_and!; [right; by left|done|done]|done].
  - intros e. cbn. unfold stack_types, persisted. repeat case_bool_decide; cbn; try done; by intros [? ?].
  - intros e. cbn. unfold stack_types. repeat case_bool_decide; by split_and!.
  - cbn. unfold MaxInt. lia.
Qed.
End Store.
