(* ===== verification/CheckpointSave.v ===== *)
(** * Saving checkpoints: what [checkpointController.save] guarantees

    The invariant [ctrl_ok] of the controller, the laws [StoreLaws] the checkpoint
    store promises, and the behaviour of [save] on every path: it always returns (the
    loop that sparsifies while the store finds the checkpoints too big ends), it never
    indexes out of range, and what the store holds after it. *)
From Stdlib Require Import ZArith Lia.
From stdpp Require Import base numbers option strings sorting gmap list.
From S2P Require Import Prelude RangeBase RangeSet RangeSetOps RangeCut BlockRange Sparsify Errors Checkpoint CheckpointCtrl.

Arguments CState W : clear implicits.
Arguments mkCState {W} _ _.
Arguments ctrl {W} _.
Arguments world {W} _.

(** ** What the store promises *)
Class StoreLaws (W : Type) `{Services W} : Type := {
  (** what a load would return *)
  stored : W -> option (list Checkpoint * TemplateMap);
  store_Save_ok cks tpls st w w' :
    store_Save cks tpls st w = (SaveOk, w') -> stored w' = Some (cks, tpls);
  store_Save_failed cks tpls st w r w' :
    store_Save cks tpls st w = (r, w') -> r <> SaveOk -> stored w' = stored w;
  (** two checkpoints are never too big *)
  store_Save_small cks tpls st w w' :
    (length cks <= 2)%nat -> store_Save cks tpls st w <> (SaveTooBig, w');
  (** the other collaborators do not touch the store *)
  stored_time_Now w : stored (time_Now w).2 = stored w;
  stored_CheckOverQuota w : stored (quota_CheckOverQuota w).2 = stored w;
  stored_SaveUsage u b w : stored (quota_SaveUsage u b w).2 = stored w;
  stored_ts_Commit n t w : stored (ts_Commit n t w).2 = stored w;
  stored_entity_Commit n t w : stored (entity_Commit n t w).2 = stored w;
  stored_webhook_Commit n t w : stored (webhook_Commit n t w).2 = stored w;
  stored_Reset s k w : stored (sink_Reset s k w).2 = stored w
}.

(** ** The invariant *)

Definition by_block (l : list Checkpoint) : Prop := StronglySorted Z.lt (map BlockNumber l).

(** Block numbers are far from the end of [uint64]. *)
Definition block_ok (k : Checkpoint) : Prop := 0 <= BlockNumber k < 2 ^ 62.

(** The multiplier is unset or a power of two. *)
Definition mult_ok (m : Z) : Prop := m = 0 \/ exists k, 1 <= k <= 63 /\ m = 2 ^ k.

Record ctrl_ok (c : Ctrl) : Prop := mkCtrlOk {
  ok_saved : (savedCheckpoints c <= length (checkpoints c))%nat;
  ok_sorted : by_block (checkpoints c);
  ok_blocks : Forall block_ok (checkpoints c);
  ok_mult : mult_ok (checkpointSparsifyMultiplier c)
}.

(** The fields [save] never touches before it has failed or succeeded. *)
Definition same_rest (c c' : Ctrl) : Prop :=
  saveDelay c' = saveDelay c /\ saveInterval c' = saveInterval c /\
  maxKeepCheckpointCount c' = maxKeepCheckpointCount c /\ templates c' = templates c /\
  unsavedTemplates c' = unsavedTemplates c /\ agentStat c' = agentStat c /\ stopped c' = stopped c.

(** ** Lists in block order *)

Lemma by_block_sublist l l' : l' `sublist_of` l -> by_block l -> by_block l'.
Proof.
  unfold by_block. intros Hs Hl. eapply StronglySorted_sublist; [|exact Hl].
  by apply sublist_map.
Qed.

Lemma by_block_in_order l : by_block l -> Forall block_ok l -> in_order BlockNumber l.
Proof.
  intros Hs Hb. split.
  - intros i Hi. destruct (lookup_lt_is_Some_2 l i Hi) as [k Hk].
    unfold num_at. rewrite Hk. simpl. rewrite Forall_lookup in Hb. specialize (Hb i k Hk).
    unfold block_ok in Hb. unfold u64, two64. lia.
  - intros i j Hij Hj. destruct (lookup_lt_is_Some_2 l j Hj) as [kj Hkj].
    destruct (lookup_lt_is_Some_2 l i ltac:(lia)) as [ki Hki].
    unfold num_at. rewrite Hki, Hkj. simpl. destruct (decide (i = j)) as [->|Hne].
    { rewrite Hki in Hkj. injection Hkj as ->. lia. }
    apply Z.lt_le_incl.
    apply (StronglySorted_lookup_lt Z.lt (map BlockNumber l) i j); [done|lia|..];
      by rewrite list_lookup_fmap, ?Hki, ?Hkj.
Qed.

Lemma by_block_span l p :
  Forall block_ok l -> (p < length l)%nat -> span BlockNumber l p <= 2 ^ 62.
Proof.
  intros Hb Hp. destruct (lookup_lt_is_Some_2 l p Hp) as [k Hk].
  destruct (lookup_lt_is_Some_2 l 0 ltac:(lia)) as [k0 Hk0].
  unfold span, num_at. rewrite Hk, Hk0. simpl. rewrite Forall_lookup in Hb.
  pose proof (Hb _ _ Hk) as Hbk. pose proof (Hb _ _ Hk0) as Hbk0. unfold block_ok in *. lia.
Qed.

(** ** One round of sparsifying keeps the newest checkpoint, the first one and the
    unsaved ones behind *)
Lemma sparsify_round pre cur rest d m :
  exists remove kept,
    RemoveWithMultiplier BlockNumber (pre ++ [cur]) d m = Ok remove /\
    RemoveByIndex (pre ++ [cur]) remove = kept ++ [cur] /\
    RemoveByIndex (pre ++ cur :: rest) remove = kept ++ cur :: rest /\
    kept `sublist_of` pre /\ head (kept ++ [cur]) = head (pre ++ [cur]) /\
    (S (length pre) - size remove = S (length kept))%nat.
Proof.
  destruct (RemoveWithMultiplier_ok BlockNumber (pre ++ [cur]) d m) as (remove & Hr & Hin).
  rewrite length_app in Hin. simpl in Hin.
  exists remove, (keep remove 0 pre). split; [done|].
  assert (Hk : RemoveByIndex (pre ++ [cur]) remove = keep remove 0 pre ++ [cur]).
  { rewrite RemoveByIndex_keep, keep_app. f_equal.
    apply keep_beyond. intros j Hj. specialize (Hin j Hj). lia. }
  split_and!; [done| |apply keep_sublist| |].
  - rewrite (RemoveByIndex_prefix remove _ (S (length pre))).
    + replace (pre ++ cur :: rest) with ((pre ++ [cur]) ++ rest) by by rewrite <- app_assoc.
      rewrite take_app_length', drop_app_length' by (rewrite length_app; simpl; lia).
      rewrite Hk. by rewrite <- app_assoc.
    + rewrite length_app. simpl. lia.
    + intros j Hj. specialize (Hin j Hj). lia.
  - rewrite <- Hk, RemoveByIndex_keep. apply keep_head. intros Hj. specialize (Hin _ Hj). lia.
  - pose proof (keep_size remove pre ltac:(intros j Hj; specialize (Hin j Hj); lia)). lia.
Qed.

Section Save.
Context {W : Type} `{Hserv : Services W} `{!StoreLaws W}.

(** ** What a save does to the world *)

(** The calls that do not touch the sinks. *)
Inductive quiet_call (w : W) : W -> Prop :=
| qc_now t w' : time_Now w = (t, w') -> quiet_call w w'
| qc_quota q w' : quota_CheckOverQuota w = (q, w') -> quiet_call w w'
| qc_usage u b e w' : quota_SaveUsage u b w = (e, w') -> quiet_call w w'
| qc_store cks tpls st r w' : store_Save cks tpls st w = (r, w') -> quiet_call w w'.

Definition quiet : W -> W -> Prop := rtc quiet_call.

(** The three sinks have committed the blocks up to [cur]. *)
Definition commits_ok (cur : Checkpoint) (w w' : W) : Prop :=
  exists uts ucu uex w1 w2,
    ts_Commit (BlockNumber cur) (BlockTime cur) w = ((uts, None), w1) /\
    entity_Commit (BlockNumber cur) (BlockTime cur) w1 = ((ucu, None), w2) /\
    webhook_Commit (BlockNumber cur) (BlockTime cur) w2 = ((uex, None), w').

(** One of them failed, and those behind it were not tried. *)
Inductive commits_failed (cur : Checkpoint) (w : W) : W -> Prop :=
| cf_ts uts e w' :
    ts_Commit (BlockNumber cur) (BlockTime cur) w = ((uts, Some e), w') -> commits_failed cur w w'
| cf_entity uts ucu e w1 w' :
    ts_Commit (BlockNumber cur) (BlockTime cur) w = ((uts, None), w1) ->
    entity_Commit (BlockNumber cur) (BlockTime cur) w1 = ((ucu, Some e), w') -> commits_failed cur w w'
| cf_webhook uts ucu uex e w1 w2 w' :
    ts_Commit (BlockNumber cur) (BlockTime cur) w = ((uts, None), w1) ->
    entity_Commit (BlockNumber cur) (BlockTime cur) w1 = ((ucu, None), w2) ->
    webhook_Commit (BlockNumber cur) (BlockTime cur) w2 = ((uex, Some e), w') -> commits_failed cur w w'.

Definition sinks_committed (cur : Checkpoint) (w w' : W) : Prop :=
  exists wa wb, quiet w wa /\ commits_ok cur wa wb /\ quiet wb w'.

Definition sinks_tried (cur : Checkpoint) (w w' : W) : Prop :=
  sinks_committed cur w w' \/ exists wa, quiet w wa /\ commits_failed cur wa w'.

Lemma sinks_committed_quiet cur w0 w w' w'' :
  quiet w0 w -> sinks_committed cur w w' -> quiet w' w'' -> sinks_committed cur w0 w''.
Proof. intros H1 (wa & wb & H2 & H3 & H4) H5. exists wa, wb. split_and!; [by etrans|done|by etrans]. Qed.

Lemma sinks_tried_quiet cur w0 w w' : quiet w0 w -> sinks_tried cur w w' -> sinks_tried cur w0 w'.
Proof.
  intros H1 [H2|(wa & H2 & H3)]; [left; by eapply sinks_committed_quiet|].
  right. exists wa. split; [by etrans|done].
Qed.

(** ** The storing loop *)

(** The number of checkpoints is at most two once the smallest distance covers the
    block numbers. *)
Lemma sparsify_round_small pre cur rest m :
  by_block (pre ++ cur :: rest) -> Forall block_ok (pre ++ cur :: rest) -> 2 ^ 63 <= m ->
  exists remove kept,
    RemoveWithMultiplier BlockNumber (pre ++ [cur]) (m / 2) m = Ok remove /\
    RemoveByIndex (pre ++ [cur]) remove = kept ++ [cur] /\ (length (kept ++ [cur]) <= 2)%nat.
Proof.
  intros Hs Hb Hm.
  destruct (sparsify_round pre cur rest (m / 2) m) as (remove & kept & Hr & Hk & _ & Hsub & _).
  exists remove, kept. split_and!; [done..|].
  assert (Hpre : pre ++ [cur] `sublist_of` pre ++ cur :: rest)
    by (apply sublist_app; [done|]; apply sublist_skip, sublist_nil_l).
  destruct (decide (length (pre ++ [cur]) <= 2)%nat) as [Hle|Hgt].
  { apply sublist_length in Hsub. rewrite length_app in *. simpl in *. lia. }
  rewrite <- Hk. rewrite (RemoveWithMultiplier_two BlockNumber (pre ++ [cur]) (m / 2) m remove); [done|..].
  - apply by_block_in_order; [by eapply by_block_sublist|by eapply Forall_sublist].
  - lia.
  - assert (2 ^ 62 <= m / 2) by (apply Z.div_le_lower_bound; lia).
    pose proof (by_block_span (pre ++ [cur]) (length (pre ++ [cur]) - 1)
      ltac:(by eapply Forall_sublist) ltac:(lia)). lia.
  - done.
Qed.

Lemma same_rest_refl c : same_rest c c.
Proof. unfold same_rest. tauto. Qed.

Lemma same_rest_trans c1 c2 c3 : same_rest c1 c2 -> same_rest c2 c3 -> same_rest c1 c3.
Proof. unfold same_rest. intuition congruence. Qed.

Lemma mult_double k : 1 <= k < 63 -> 2 ^ k *! 2 = 2 ^ (k + 1).
Proof.
  intros Hk. rewrite Z.pow_add_r by lia. apply wrap_small. unfold u64, two64.
  pose proof (Z.pow_pos_nonneg 2 k). pose proof (Z.pow_le_mono_r 2 k 62). lia.
Qed.

(** What the store is asked to keep: the checkpoints up to [cur] and the templates
    created up to its block. *)
Definition store_arg (c : Ctrl) (kept : list Checkpoint) (cur : Checkpoint)
    : list Checkpoint * TemplateMap :=
  (kept ++ [cur], FilterMap (templates c) (fun u => u <=? BlockNumber cur)).

Lemma slice_to_mid (l rest : list Checkpoint) cur : slice_to (l ++ cur :: rest) (S (length l)) = Ok (l ++ [cur]).
Proof.
  unfold slice_to. rewrite bool_decide_eq_true_2 by (rewrite length_app; simpl; lia).
  replace (l ++ cur :: rest) with ((l ++ [cur]) ++ rest) by by rewrite <- app_assoc.
  by rewrite take_app_length' by (rewrite length_app; simpl; lia).
Qed.

(** One round of the loop up to the answer of the store. *)
Lemma save_loop_round fuel k s pre cur rest remove kept :
  checkpoints (ctrl s) = pre ++ cur :: rest ->
  Z.max (checkpointSparsifyMultiplier (ctrl s)) 2 = 2 ^ k ->
  RemoveWithMultiplier BlockNumber (pre ++ [cur]) (2 ^ k / 2) (2 ^ k) = Ok remove ->
  RemoveByIndex (pre ++ cur :: rest) remove = kept ++ cur :: rest ->
  (S (length pre) - size remove = S (length kept))%nat ->
  save_loop (S fuel) (S (length pre)) s =
    (r ← call (store_Save (kept ++ [cur]) (store_arg (ctrl s) kept cur).2 (agentStat (ctrl s)));
     match r with
     | SaveOk => mret None
     | SaveTooBig => _ ← cmodify (set_multiplier (2 ^ k *! 2)); save_loop fuel (S (length kept))
     | SaveErr e => mret (Some (mkExternalError ErrCodeSaveCheckpointFailed e))
     end) (mkCState (set_saved (S (length kept)) (set_checkpoints (kept ++ cur :: rest) (ctrl s))) (world s)).
Proof.
  intros Hc Hm Hr Hk Hsz. cbn [save_loop]. unfold mbind, SM_bind, slift, cmodify, cget. cbn [obind].
  rewrite Hm, Hc, slice_to_mid. cbn [obind]. rewrite Hr. cbn [obind ctrl world]. rewrite Hk, Hsz.
  cbn [checkpoints savedCheckpoints set_saved set_checkpoints agentStat].
  rewrite slice_to_mid. cbn [obind]. unfold getTemplates. cbn [savedCheckpoints checkpoints set_saved set_checkpoints].
  unfold index. rewrite list_lookup_middle by done. reflexivity.
Qed.

Lemma save_loop_spec fuel k s pre cur rest :
  checkpoints (ctrl s) = pre ++ cur :: rest ->
  by_block (pre ++ cur :: rest) -> Forall block_ok (pre ++ cur :: rest) ->
  Z.max (checkpointSparsifyMultiplier (ctrl s)) 2 = 2 ^ k -> 1 <= k <= 63 ->
  64 - k <= Z.of_nat fuel ->
  exists e s' kept, save_loop fuel (S (length pre)) s = Ok (e, s') /\
    kept `sublist_of` pre /\ head (kept ++ [cur]) = head (pre ++ [cur]) /\
    checkpoints (ctrl s') = kept ++ cur :: rest /\ savedCheckpoints (ctrl s') = S (length kept) /\
    same_rest (ctrl s) (ctrl s') /\ quiet (world s) (world s') /\
    (checkpointSparsifyMultiplier (ctrl s') = checkpointSparsifyMultiplier (ctrl s) \/
     mult_ok (checkpointSparsifyMultiplier (ctrl s'))) /\
    match e with
    | None => stored (world s') = Some (store_arg (ctrl s) kept cur)
    | Some err => stored (world s') = stored (world s) /\ ecode err = ErrCodeSaveCheckpointFailed
    end.
Proof.
  revert k s pre. induction fuel as [|fuel IH]; intros k s pre Hc Hs Hb Hm Hk Hf; [lia|].
  destruct (sparsify_round pre cur rest (2 ^ k / 2) (2 ^ k))
    as (remove & kept & Hr & Hk1 & Hk2 & Hsub & Hhd & Hsz).
  set (c' := set_saved (S (length kept)) (set_checkpoints (kept ++ cur :: rest) (ctrl s))).
  rewrite (save_loop_round fuel k s pre cur rest remove kept) by done. fold c'. unfold mbind, SM_bind, call. cbn [ctrl world].
  destruct (store_Save (kept ++ [cur]) _ _ (world s)) as [r w'] eqn:Esave. cbn [obind].
  assert (Hfr : same_rest (ctrl s) c') by (unfold same_rest; cbn; tauto).
  assert (Hq : quiet (world s) w') by (eapply rtc_once, qc_store, Esave).
  destruct r as [| |err].
  - exists None, (mkCState c' w'), kept. cbn.
    split_and!; auto. eapply store_Save_ok, Esave.
  - assert (Hk63 : k < 63).
    { destruct (Z_lt_le_dec k 63) as [|Hge]; [done|]. exfalso. assert (k = 63) as -> by lia.
      destruct (sparsify_round_small pre cur rest (2 ^ 63)) as (rm & kp & Hr' & Hk' & Hl); [done..|lia|].
      rewrite Hr in Hr'. injection Hr' as <-. rewrite Hk1 in Hk'.
      rewrite <- Hk' in Hl. by apply (store_Save_small _ _ _ _ _ Hl) in Esave. }
    assert (Hsub' : kept ++ cur :: rest `sublist_of` pre ++ cur :: rest)
      by (apply sublist_app; done).
    destruct (IH (k + 1) (mkCState (set_multiplier (2 ^ k *! 2) c') w') kept)
      as (e & s' & kept' & He & Hsub2 & Hhd2 & Hck & Hsv & Hfr2 & Hq2 & Hmo & Hst).
    + done.
    + by eapply by_block_sublist.
    + by eapply Forall_sublist.
    + cbn. rewrite mult_double by lia. pose proof (Z.pow_le_mono_r 2 1 (k + 1)). lia.
    + lia.
    + lia.
    + exists e, s', kept'. cbn [ctrl world] in *. split_and!; [exact He|by etrans|congruence|done|done| |by etrans| |].
      * eapply same_rest_trans; [|exact Hfr2]. unfold same_rest. cbn. tauto.
      * right. destruct Hmo as [->|]; [|done]. cbn. rewrite mult_double by lia. right. exists (k + 1). lia.
      * destruct e; [|exact Hst]. destruct Hst as [-> ?]. split; [|done].
        eapply store_Save_failed; [exact Esave|done].
  - exists (Some (mkExternalError ErrCodeSaveCheckpointFailed err)), (mkCState c' w'), kept. cbn.
    split_and!; auto. eapply store_Save_failed; [exact Esave|done].
Qed.

(** ** The commits *)

(** After the commits: an early error that left the controller alone, or the result of
    the storing loop. *)
Definition committed (c : Ctrl) (w : W) (pre : list Checkpoint) (cur : Checkpoint)
    (rest : list Checkpoint) (e : option ExternalError) (c' : Ctrl) (w' : W) : Prop :=
  (exists err, e = Some err /\ c' = c /\ stored w' = stored w /\ sinks_tried cur w w') \/
  exists kept, sinks_committed cur w w' /\ kept `sublist_of` pre /\ head (kept ++ [cur]) = head (pre ++ [cur]) /\
    checkpoints c' = kept ++ cur :: rest /\ savedCheckpoints c' = S (length kept) /\
    same_rest c c' /\ mult_ok (checkpointSparsifyMultiplier c') /\
    match e with
    | None => stored w' = Some (store_arg c kept cur)
    | Some err => stored w' = stored w /\ ecode err = ErrCodeSaveCheckpointFailed
    end.

Lemma mult_ok_exponent m : mult_ok m -> exists k, 1 <= k <= 63 /\ Z.max m 2 = 2 ^ k.
Proof.
  intros [->|(k & Hk & ->)]; [exists 1; split; [lia|reflexivity]|].
  exists k. split; [done|]. pose proof (Z.pow_le_mono_r 2 1 k). lia.
Qed.

Lemma save_commit_spec s pre cur rest :
  checkpoints (ctrl s) = pre ++ cur :: rest ->
  by_block (pre ++ cur :: rest) -> Forall block_ok (pre ++ cur :: rest) ->
  mult_ok (checkpointSparsifyMultiplier (ctrl s)) ->
  exists e s', save_commit cur (S (length pre)) s = Ok (e, s') /\
    committed (ctrl s) (world s) pre cur rest e (ctrl s') (world s').
Proof.
  intros Hc Hs Hb Hm. destruct s as [c w]. cbn [ctrl world] in *.
  assert (Hfail : forall w' err, stored w' = stored w -> commits_failed cur w w' ->
            committed c w pre cur rest (Some err) c w').
  { intros w' err Hst Hf. left. exists err. split_and!; [done..|]. right. exists w. split; [apply rtc_refl|done]. }
  unfold save_commit, mbind, SM_bind, call. cbn [obind ctrl world].
  pose proof (stored_ts_Commit (BlockNumber cur) (BlockTime cur) w) as L1.
  destruct (ts_Commit (BlockNumber cur) (BlockTime cur) w) as [[uts [e1|]] w1] eqn:E1; cbn [obind snd ctrl world] in *.
  { eexists _, _. split; [reflexivity|]. apply Hfail; [done|by eapply cf_ts]. }
  pose proof (stored_entity_Commit (BlockNumber cur) (BlockTime cur) w1) as L2.
  destruct (entity_Commit (BlockNumber cur) (BlockTime cur) w1) as [[ucu [e2|]] w2] eqn:E2; cbn [obind snd ctrl world] in *.
  { eexists _, _. split; [reflexivity|]. apply Hfail; [cbn; congruence|by eapply cf_entity]. }
  pose proof (stored_webhook_Commit (BlockNumber cur) (BlockTime cur) w2) as L3.
  destruct (webhook_Commit (BlockNumber cur) (BlockTime cur) w2) as [[uex [e3|]] w3] eqn:E3; cbn [obind snd ctrl world] in *.
  { eexists _, _. split; [reflexivity|]. apply Hfail; [cbn; congruence|by eapply cf_webhook]. }
  assert (Hcom : forall w', quiet w3 w' -> sinks_committed cur w w').
  { intros w' Hq. exists w, w3. split_and!; [apply rtc_refl| |done]. by exists uts, ucu, uex, w1, w2. }
  set (u := mkUsage uts uex ucu.1 ucu.2).
  pose proof (stored_SaveUsage u (InWatching cur) w3) as L4.
  destruct (quota_SaveUsage u (InWatching cur) w3) as [e4 w4] eqn:E4.
  assert (Hq4 : quiet w3 w4) by (eapply rtc_once, qc_usage, E4).
  destruct e4 as [e4|]; cbn [obind snd ctrl world] in *.
  { eexists _, _. split; [reflexivity|]. left. cbn. eexists. split_and!; [done|done|congruence|]. left. by apply Hcom. }
  destruct (mult_ok_exponent _ Hm) as (k & Hk & Hmax).
  destruct (save_loop_spec save_fuel k (mkCState c w4) pre cur rest)
    as (e & s' & kept & He & H1 & H2 & H3 & H4 & H5 & H6 & H7 & H8); [done..|unfold save_fuel; lia|].
  exists e, s'. split; [exact He|]. right. exists kept. cbn [ctrl world] in *.
  split_and!; try done; [apply Hcom; by etrans|destruct H7 as [->|]; done|].
  destruct e; [destruct H8; split; congruence|done].
Qed.

(** ** The whole of [save] *)

Lemma save_ripe_spec d l cc0 s :
  exists cc w', save_ripe d l cc0 s = Ok (cc, mkCState (ctrl s) w') /\
    (cc0 <= cc <= cc0 + length l)%nat /\ stored w' = stored (world s) /\ quiet (world s) w'.
Proof.
  revert cc0 s. induction l as [|k t IH]; intros cc0 [c w]; simpl.
  { exists cc0, w. split_and!; [done|lia|lia|done|apply rtc_refl]. }
  unfold mbind, SM_bind, call. cbn [ctrl world]. pose proof (stored_time_Now w) as L.
  destruct (time_Now w) as [now w1] eqn:Et. cbn [obind snd] in *. bcase.
  - destruct (IH (S cc0) (mkCState c w1)) as (cc & w' & -> & Hcc & Hw & Hq). cbn in *.
    exists cc, w'. split_and!; [done|lia|lia|congruence|]. eapply rtc_l; [by eapply qc_now|done].
  - exists cc0, w1. split_and!; [done|lia|lia|done|]. by eapply rtc_once, qc_now.
Qed.

(** The fields a save that succeeded may have set besides the checkpoints. *)
Definition saved_like (c c' : Ctrl) : Prop :=
  checkpoints c' = checkpoints c /\ savedCheckpoints c' = savedCheckpoints c /\
  checkpointSparsifyMultiplier c' = checkpointSparsifyMultiplier c /\ same_rest c c'.

Lemma save_deferred_ok cur s :
  exists c' w', save_deferred cur None s = Ok (tt, mkCState c' w') /\
    saved_like (ctrl s) c' /\ stored w' = stored (world s) /\ quiet (world s) w'.
Proof.
  destruct s as [c w]. unfold save_deferred, mbind, SM_bind, mret, SM_ret, call, cmodify, cget. cbn [obind ctrl world].
  pose proof (stored_time_Now w) as L. destruct (time_Now w) as [now w1] eqn:E1. cbn [obind snd ctrl world] in *.
  cbn [lastSavedCheckpoint set_actuallyLastSavedAt lastSavedAt].
  pose proof (stored_time_Now w1) as L1.
  assert (Hq1 : quiet w w1) by by eapply rtc_once, qc_now.
  destruct (lastSavedCheckpoint c);
    [cbn [ctrl world]; destruct (time_Now w1) as [now' w2] eqn:E2; cbn [obind snd] in *;
     assert (Hq2 : quiet w w2) by (eapply rtc_r; [exact Hq1|by eapply qc_now]); bcase|];
    (eexists _, _; split; [reflexivity|]); (split; [unfold saved_like, same_rest; cbn; tauto|split; [cbn in *; congruence|done]]).
Qed.

Lemma save_deferred_err cur err s :
  (savedCheckpoints (ctrl s) <= length (checkpoints (ctrl s)))%nat ->
  exists c', save_deferred cur (Some err) s = Ok (tt, mkCState c' (world s)) /\
    checkpoints c' = take (savedCheckpoints (ctrl s)) (checkpoints (ctrl s)) /\
    savedCheckpoints c' = savedCheckpoints (ctrl s) /\
    checkpointSparsifyMultiplier c' = checkpointSparsifyMultiplier (ctrl s) /\
    Ok (templates c') = getTemplates (ctrl s) true /\ unsavedTemplates c' = ∅ /\ stopped c' = true.
Proof.
  intros Hs. destruct s as [c w]. unfold save_deferred, mbind, SM_bind, slift, cmodify, cget.
  cbn [obind ctrl world] in *. unfold slice_to. rewrite bool_decide_eq_true_2 by done. cbn [obind].
  unfold getTemplates. cbn [ctrl world savedCheckpoints set_checkpoints checkpoints].
  destruct (savedCheckpoints c) as [|i] eqn:Ei; [eexists; split; [reflexivity|]; cbn; rewrite ?Ei; done|].
  destruct (lookup_lt_is_Some_2 (checkpoints c) i ltac:(lia)) as [k Hk].
  unfold index. rewrite lookup_take_lt by lia. rewrite Hk. cbn [obind].
  eexists; split; [reflexivity|]. cbn. rewrite ?Ei. done.
Qed.

(** Every way a call of [save] can end, with what it did to the controller and the
    store. *)
Inductive save_outcome (saveAll : bool) (c : Ctrl) (w : W) : option ExternalError -> Ctrl -> W -> Prop :=
| save_nothing w' :
    (saveAll = true -> stopped c = true \/ savedCheckpoints c = length (checkpoints c)) ->
    stored w' = stored w -> quiet w w' -> save_outcome saveAll c w None c w'
| save_refused cc err w' :
    (savedCheckpoints c < cc <= length (checkpoints c))%nat ->
    (ecode err = ErrCodeQuotaServiceError \/ ecode err = ErrCodeOverQuota) ->
    stored w' = stored w -> quiet w w' ->
    save_outcome saveAll c w (Some err)
      (set_checkpoints (take (savedCheckpoints c) (checkpoints c) ++ drop (cc - 1) (checkpoints c)) c) w'
| save_rolled_back cc cur err c' w' :
    (savedCheckpoints c < cc <= length (checkpoints c))%nat ->
    checkpoints c !! (cc - 1)%nat = Some cur -> sinks_tried cur w w' ->
    checkpoints c' = take (savedCheckpoints c) (checkpoints c) ->
    savedCheckpoints c' = savedCheckpoints c ->
    checkpointSparsifyMultiplier c' = checkpointSparsifyMultiplier c ->
    Ok (templates c') = getTemplates c true -> unsavedTemplates c' = ∅ -> stopped c' = true ->
    stored w' = stored w -> save_outcome saveAll c w (Some err) c' w'
| save_not_stored kept cc cur err c' w' :
    (savedCheckpoints c < cc <= length (checkpoints c))%nat ->
    checkpoints c !! (cc - 1)%nat = Some cur -> sinks_committed cur w w' ->
    kept `sublist_of` take (savedCheckpoints c) (checkpoints c) ->
    checkpoints c' = kept ++ [cur] -> savedCheckpoints c' = S (length kept) ->
    mult_ok (checkpointSparsifyMultiplier c') ->
    templates c' = FilterMap (templates c) (fun u => u <=? BlockNumber cur) ->
    unsavedTemplates c' = ∅ -> stopped c' = true ->
    ecode err = ErrCodeSaveCheckpointFailed ->
    stored w' = stored w -> save_outcome saveAll c w (Some err) c' w'
| save_done kept cc cur c' w' :
    (savedCheckpoints c < cc <= length (checkpoints c))%nat ->
    (saveAll = true -> cc = length (checkpoints c)) ->
    checkpoints c !! (cc - 1)%nat = Some cur -> sinks_committed cur w w' ->
    kept `sublist_of` take (savedCheckpoints c) (checkpoints c) ->
    head (kept ++ [cur]) = head (take (savedCheckpoints c) (checkpoints c) ++ [cur]) ->
    checkpoints c' = kept ++ cur :: drop cc (checkpoints c) ->
    savedCheckpoints c' = S (length kept) ->
    mult_ok (checkpointSparsifyMultiplier c') -> same_rest c c' ->
    stored w' = Some (store_arg c kept cur) -> save_outcome saveAll c w None c' w'.

(** The part of [save] behind the quota check. *)
Lemma save_tail_spec saveAll c w w0 cc cur :
  ctrl_ok c -> stored w = stored w0 -> quiet w0 w ->
  (savedCheckpoints c < cc <= length (checkpoints c))%nat ->
  (saveAll = true -> cc = length (checkpoints c)) ->
  checkpoints c !! (cc - 1)%nat = Some cur ->
  let c1 := set_checkpoints (take (savedCheckpoints c) (checkpoints c) ++ drop (cc - 1) (checkpoints c)) c in
  exists e s', (extErr ← save_commit cur (S (savedCheckpoints c));
                _ ← save_deferred cur extErr;
                mret extErr) (mkCState c1 w) = Ok (e, s') /\
    save_outcome saveAll c w0 e (ctrl s') (world s').
Proof.
  intros [Hsv Hso Hbl Hmu] Hw Hq Hcc Hall Hcur c1.
  set (pre := take (savedCheckpoints c) (checkpoints c)).
  assert (Hpre : length pre = savedCheckpoints c) by (apply length_take_le; lia).
  assert (Hc1 : checkpoints c1 = pre ++ cur :: drop cc (checkpoints c)).
  { cbn. fold pre. f_equal. rewrite (drop_S _ _ _ Hcur). do 2 f_equal. lia. }
  assert (Hsub : pre ++ cur :: drop cc (checkpoints c) `sublist_of` checkpoints c).
  { rewrite <- Hc1. cbn. rewrite <- (take_drop (savedCheckpoints c) (checkpoints c)) at 3.
    apply sublist_app; [done|].
    replace (cc - 1)%nat with (savedCheckpoints c + (cc - 1 - savedCheckpoints c))%nat by lia.
    rewrite <- drop_drop. apply sublist_drop. }
  destruct (save_commit_spec (mkCState c1 w) pre cur (drop cc (checkpoints c)))
    as (e & [c2 w2] & He & Hcom); [done|by eapply by_block_sublist|by eapply Forall_sublist|done|].
  rewrite Hpre in He. unfold mbind, SM_bind, mret, SM_ret. rewrite He. cbn [obind ctrl world] in *.
  destruct e as [err|].
  - assert (Hle : (savedCheckpoints c2 <= length (checkpoints c2))%nat).
    { destruct Hcom as [(? & _ & -> & _)|(kept & _ & _ & _ & -> & -> & _)].
      - rewrite Hc1, length_app, Hpre. cbn. lia.
      - rewrite length_app. simpl. lia. }
    destruct (save_deferred_err cur err (mkCState c2 w2) Hle)
      as (c3 & -> & H1 & H2 & H3 & H4 & H5 & H6). cbn [obind ctrl world] in *.
    eexists _, _. split; [reflexivity|]. cbn.
    destruct Hcom as [(? & _ & -> & Hst & Htr)|(kept & Hcm & Hs1 & Hs2 & Hs3 & Hs4 & Hs5 & Hs6 & Hs7 & Hs8)].
    + apply (save_rolled_back saveAll c w0 cc cur); auto; [by eapply sinks_tried_quiet| | |congruence].
      * rewrite H1, Hc1. apply take_app_length'. done.
      * rewrite H4. unfold getTemplates. cbn [savedCheckpoints checkpoints templates c1 set_checkpoints].
        destruct (savedCheckpoints c) as [|i] eqn:Ei; [done|].
        unfold index. by rewrite lookup_app_l, lookup_take_lt by (fold pre; lia).
    + destruct Hs5 as (_ & _ & _ & Ht & _). cbn in Ht.
      apply (save_not_stored saveAll c w0 kept cc cur); auto;
        [by eapply sinks_committed_quiet; [..|apply rtc_refl]| |congruence|congruence| |congruence].
      * rewrite H1, Hs3, Hs4.
        replace (kept ++ cur :: _) with ((kept ++ [cur]) ++ drop cc (checkpoints c)) by by rewrite <- app_assoc.
        apply take_app_length'. rewrite length_app. simpl. lia.
      * unfold getTemplates, index in H4. rewrite Hs4, Hs3, list_lookup_middle in H4 by done.
        cbn [obind] in H4. injection H4 as ->. by rewrite Ht.
  - destruct Hcom as [(? & ? & _)|(kept & Hcm & Hs1 & Hs2 & Hs3 & Hs4 & Hs5 & Hs6 & Hs7)]; [done|].
    destruct (save_deferred_ok cur (mkCState c2 w2)) as (c3 & w3 & -> & (H1 & H2 & H3 & H4) & H5 & H6).
    cbn [obind ctrl world] in *. eexists _, _. split; [reflexivity|]. cbn.
    apply (save_done saveAll c w0 kept cc cur); auto;
      [by eapply sinks_committed_quiet|congruence..| |by rewrite H5].
    eapply same_rest_trans; [|exact H4]. eapply same_rest_trans; [|exact Hs5].
    unfold same_rest. cbn. tauto.
Qed.

(** Whether it is too soon for another save. *)
Lemma save_soon_spec (saveAll checkInterval : bool) c w :
  exists b w1, ((if negb saveAll && checkInterval then
                  now ← call time_Now;
                  mret (time_Sub now (actuallyLastSavedAt c) <? saveInterval c ÷ 2)
                else mret false) : SM (CState W) bool) (mkCState c w) = Ok (b, mkCState c w1) /\
    stored w1 = stored w /\ quiet w w1 /\ (b = true -> saveAll = false).
Proof.
  destruct saveAll, checkInterval; cbn [negb andb]; 
    try (eexists _, _; split_and!; [reflexivity|done|apply rtc_refl|done]).
  unfold mbind, SM_bind, call. cbn [negb andb ctrl world]. pose proof (stored_time_Now w).
  destruct (time_Now w) as [now w1] eqn:E. eexists _, _.
  split_and!; [reflexivity|done|by eapply rtc_once, qc_now|done].
Qed.

(** Up to which checkpoint to save. *)
Lemma save_upto_spec (saveAll : bool) c w :
  (savedCheckpoints c <= length (checkpoints c))%nat ->
  exists cc w2, ((if saveAll then mret (length (checkpoints c))
                 else save_ripe (saveDelay c) (drop (savedCheckpoints c) (checkpoints c)) (savedCheckpoints c))
                 : SM (CState W) nat)
                  (mkCState c w) = Ok (cc, mkCState c w2) /\ stored w2 = stored w /\ quiet w w2 /\
    (savedCheckpoints c <= cc <= length (checkpoints c))%nat /\
    (saveAll = true -> cc = length (checkpoints c)).
Proof.
  intros Hsv. destruct saveAll; [eexists _, _; split_and!; [reflexivity|done|apply rtc_refl|lia|lia|done]|].
  destruct (save_ripe_spec (saveDelay c) (drop (savedCheckpoints c) (checkpoints c))
              (savedCheckpoints c) (mkCState c w)) as (cc & w2 & E & H1 & H2 & H3).
  rewrite length_drop in H1. eexists _, _. split_and!; [exact E|cbn in H2; congruence|exact H3|lia|lia|done].
Qed.

(** [save] returns, never indexes out of range, and ends in one of the outcomes. *)
Lemma save_spec saveAll checkInterval s :
  ctrl_ok (ctrl s) ->
  exists e s', save saveAll checkInterval s = Ok (e, s') /\
    save_outcome saveAll (ctrl s) (world s) e (ctrl s') (world s').
Proof.
  intros Hok. destruct s as [c w]. cbn [ctrl world] in *. pose proof Hok as [Hsv Hso Hbl Hmu].
  unfold save. unfold mbind at 1, SM_bind at 1, cget at 1. cbn [obind ctrl].
  destruct (stopped c) eqn:Est; [eexists _, _; split; [reflexivity|]; apply save_nothing; [by left|done|apply rtc_refl]|].
  destruct (save_soon_spec saveAll checkInterval c w) as (b & w1 & E1 & Hw1 & Hq1 & Hb).
  unfold mbind at 1, SM_bind at 1. rewrite E1. cbn [obind].
  destruct b.
  { eexists _, _; split; [reflexivity|]; apply save_nothing; [|done..]. rewrite Hb by done. done. }
  destruct (save_upto_spec saveAll c w1 Hsv) as (cc & w2 & E2 & Hw2 & Hq2 & Hcc & Hall).
  rewrite Hw1 in Hw2. assert (Hq12 : quiet w w2) by by etrans. unfold mbind at 1, SM_bind at 1. rewrite E2. cbn [obind].
  destruct (bool_decide (cc = 0%nat) || bool_decide (cc = savedCheckpoints c))%bool eqn:Eb.
  { eexists _, _; split; [reflexivity|]. apply save_nothing; [|done..]. intros Ha. right. cbn.
    specialize (Hall Ha). apply orb_true_iff in Eb as [E%bool_decide_eq_true|E%bool_decide_eq_true]; lia. }
  apply orb_false_iff in Eb as [Eb1%bool_decide_eq_false Eb2%bool_decide_eq_false].
  destruct (lookup_lt_is_Some_2 (checkpoints c) (cc - 1) ltac:(lia)) as [cur Hcur].
  unfold mbind at 1, SM_bind at 1, slift at 1, index at 1. rewrite Hcur. cbn [obind].
  set (prev := if bool_decide (0 < savedCheckpoints c)%nat then _ else _).
  assert (E3 : prev (mkCState c w2) = Ok (tt, mkCState c w2)).
  { subst prev. case_bool_decide; [|done].
    destruct (lookup_lt_is_Some_2 (checkpoints c) (savedCheckpoints c - 1) ltac:(lia)) as [k Hk].
    unfold mbind, SM_bind, slift, index. by rewrite Hk. }
  unfold mbind at 1, SM_bind at 1. rewrite E3. cbn [obind].
  rewrite bool_decide_eq_true_2 by lia.
  rewrite RemoveSubSeq_drop by lia.
  replace (savedCheckpoints c + Z.to_nat (Z.of_nat cc - 1 - Z.of_nat (savedCheckpoints c)))%nat
    with (cc - 1)%nat by lia.
  unfold mbind at 1, SM_bind at 1. unfold mbind at 1, SM_bind at 1, slift at 1.
  unfold mbind at 1, SM_bind at 1, cmodify at 1. cbn [obind ctrl world].
  unfold mret at 1, SM_ret at 1. cbn [obind].
  set (c1 := set_checkpoints _ c). unfold mbind at 1, SM_bind at 1, call at 1. cbn [ctrl world].
  pose proof (stored_CheckOverQuota w2) as Hq. destruct (quota_CheckOverQuota w2) as [q w3] eqn:Eq.
  assert (Hq3 : quiet w w3) by (eapply rtc_r; [exact Hq12|by eapply qc_quota]).
  cbn [obind snd] in *. destruct q as [err|msg|].
  - eexists _, _. split; [reflexivity|]. apply (save_refused saveAll c w cc); [lia|by left|cbn; congruence|done].
  - eexists _, _. split; [reflexivity|]. apply (save_refused saveAll c w cc); [lia|by right|cbn; congruence|done].
  - apply save_tail_spec; [done|congruence|done|lia|done|done].
Qed.

End Save.
