(* ===== verification/CheckpointTemplates.v ===== *)
(** * Template instances, and the controller as a state machine

    [NewTemplateInstance] decides whether a requested instance is new, already there
    or would leave a hole in the blocks its template is enabled at; the decision is
    shown to be the right one on the set of enabled blocks. [steps] are the sequences
    of calls of the controller; the invariant and the agreement with the store hold
    along all of them. *)
From Stdlib Require Import ZArith Lia.
From stdpp Require Import base numbers option strings sorting gmap list.
From S2P Require Import Prelude RangeBase RangeSet RangeSetOps RangeCut BlockRange BlockSet Sparsify Errors Checkpoint CheckpointCtrl CheckpointSave CheckpointOps.

(** ** The enabled blocks *)

(** An existing instance as a switch-on or switch-off event. *)
Definition event_of (ex : TplWithCreated) : bool * BlockRange :=
  (Removed (created ex), tplRange (created ex)).

Lemma enabled_replay exist : enabled exist = replay (map event_of exist).
Proof.
  unfold enabled, replay. change ns_empty with EmptyBlockRangeSet.
  generalize EmptyBlockRangeSet.
  induction exist as [|ex t IH]; intros on; [reflexivity|]. cbn [foldl map]. rewrite IH. reflexivity.
Qed.

Definition usable_tpl (t : TemplateInstance) : Prop := usable (to_range (tplRange t)).

(** Whether the template is enabled at block [n]: the latest instance that covers the
    block decides. *)
Definition enabled_at (exist : list TplWithCreated) (n : Z) : bool := decided (map event_of exist) n.

Lemma enabled_wf exist :
  Forall (fun ex => usable_tpl (created ex)) exist -> wf_set (to_set (enabled exist)).
Proof.
  intros H. rewrite enabled_replay. apply (@replay_wf _ _ BlockRangeSet_NumSet).
  induction H; simpl; constructor; auto.
Qed.

Lemma enabled_mem exist n :
  Forall (fun ex => usable_tpl (created ex)) exist ->
  in_set (to_set (enabled exist)) n <-> enabled_at exist n = true.
Proof.
  intros H. rewrite enabled_replay. apply (@replay_mem _ _ BlockRangeSet_NumSet).
  induction H; simpl; constructor; auto.
Qed.

(** The blocks enabled from [bn] on once [tpl] is added. *)
Definition enabled_after (exist : list TplWithCreated) (bn : Z) (tpl : TemplateInstance) (n : Z) : Prop :=
  bn <= n /\
  if Removed tpl then enabled_at exist n = true /\ ~ in_range (to_range (tplRange tpl)) n
  else enabled_at exist n = true \/ in_range (to_range (tplRange tpl)) n.

(** The instance changes nothing from [bn] on. *)
Definition no_effect (exist : list TplWithCreated) (bn : Z) (tpl : TemplateInstance) : Prop :=
  forall n, bn <= n -> in_range (to_range (tplRange tpl)) n ->
    enabled_at exist n = negb (Removed tpl).

Lemma IsEmpty_set_iff rs : wf_set rs -> IsEmpty (rng rs) = true <-> forall n, ~ in_set rs n.
Proof.
  intros Hw. split; [intros He n; by apply wf_set_empty|].
  intros Hn. destruct (IsEmpty (rng rs)) eqn:E; [done|]. exfalso.
  destruct Hw as [_ Hh]. rewrite E in Hh. apply (Hn (Start (rng rs))).
  pose proof (holes_ok_below _ _ _ Hh). pose proof (holes_ok_right _ _ _ Hh) as Hr.
  split; [split; [lia|done]|]. eapply Forall_impl; [exact Hr|]. unfold outside. simpl. lia.
Qed.

Lemma usable_from bn : u64 bn -> usable (to_range (mkBlockRange bn None)).
Proof. intros H. split; [split; [done|exact I]|done]. Qed.

(** The two sets the verdict is about: what is enabled from the current block on, and what
    would be enabled with the instance. *)
Definition judge_on (exist : list TplWithCreated) (bn : Z) : BlockRangeSet :=
  BRS_Intersection (enabled exist) (mkBlockRange bn None).
Definition judge_next (exist : list TplWithCreated) (bn : Z) (tpl : TemplateInstance) : BlockRangeSet :=
  if Removed tpl then BRS_Remove (judge_on exist bn) (tplRange tpl)
  else BRS_Union (judge_on exist bn) (tplRange tpl).

Section Judge.
Context (exist : list TplWithCreated) (bn : Z) (tpl : TemplateInstance).
Context (Hbn : u64 bn) (Ht : usable_tpl tpl) (Hex : Forall (fun ex => usable_tpl (created ex)) exist).
Context (Hst : Removed tpl = false -> bn <= StartBlock (tplRange tpl)).

Lemma judge_on_spec :
  wf_set (to_set (judge_on exist bn)) /\
  forall n, in_set (to_set (judge_on exist bn)) n <-> enabled_at exist n = true /\ bn <= n.
Proof using Hbn Hex.
  pose proof (enabled_wf exist Hex) as Hw0. pose proof (usable_from bn Hbn) as Hb.
  split; [by apply BRS_Intersection_wf|]. intros n. unfold judge_on.
  rewrite BRS_Intersection_mem, <- (enabled_mem exist n Hex) by done. unfold in_range. simpl. tauto.
Qed.

Lemma judge_next_spec :
  wf_set (to_set (judge_next exist bn tpl)) /\
  forall n, in_set (to_set (judge_next exist bn tpl)) n <-> enabled_after exist bn tpl n.
Proof using Hbn Hex Hst Ht.
  destruct judge_on_spec as [Hw1 Hm1]. unfold judge_next, enabled_after. destruct (Removed tpl).
  - split; [by apply BRS_Remove_wf|]. intros n. rewrite BRS_Remove_mem by done. rewrite Hm1. tauto.
  - split; [by apply BRS_Union_wf|]. intros n. rewrite BRS_Union_mem by done. rewrite Hm1.
    specialize (Hst eq_refl). unfold in_range. simpl. intuition lia.
Qed.

(** The test for an instance that is ignored. *)
Lemma judge_ignores :
  let inter := BRS_Intersection (judge_on exist bn) (tplRange tpl) in
  (Removed tpl && BR_IsEmpty (brng inter)) || (negb (Removed tpl) && BRS_Include inter (tplRange tpl)) = true <->
  no_effect exist bn tpl.
Proof using Hbn Hex Hst Ht.
  destruct judge_on_spec as [Hw1 Hm1]. cbv zeta.
  set (inter := BRS_Intersection (judge_on exist bn) (tplRange tpl)).
  assert (Hw2 : wf_set (to_set inter)) by (by apply BRS_Intersection_wf).
  assert (Hm2 : forall n, in_set (to_set inter) n <->
            (enabled_at exist n = true /\ bn <= n) /\ in_range (to_range (tplRange tpl)) n).
  { intros n. subst inter; rewrite BRS_Intersection_mem by done. by rewrite Hm1. }
  unfold no_effect. destruct (Removed tpl); simpl.
  - rewrite orb_false_r. change (BR_IsEmpty (brng inter)) with (IsEmpty (rng (to_set inter))).
    rewrite (IsEmpty_set_iff _ Hw2). setoid_rewrite Hm2. split.
    + intros H n H1 H2. apply not_true_iff_false. intros H3. by apply (H n).
    + intros H n [[H1 H2] H3]. specialize (H n H2 H3). congruence.
  - rewrite BRS_Include_iff. setoid_rewrite Hm2. specialize (Hst eq_refl). split.
    + intros H n _ H2. by apply H.
    + intros H n H1. assert (bn <= n) by (destruct H1 as [H1 _]; simpl in H1; lia). auto.
Qed.

(** The verdict on a requested instance, in terms of the enabled blocks. *)
Lemma judge_spec :
  exist <> [] ->
  match judge exist bn tpl with
  | TplIgnored => no_effect exist bn tpl
  | TplAccepted => ~ no_effect exist bn tpl /\ convex (enabled_after exist bn tpl)
  | TplInvalid => ~ no_effect exist bn tpl /\ ~ convex (enabled_after exist bn tpl)
  end.
Proof using Hbn Hex Hst Ht.
  intros Hne. destruct judge_next_spec as [Hw3 Hm3]. pose proof judge_ignores as Hig.
  assert (Hcv : BHoles (judge_next exist bn tpl) = [] <-> convex (enabled_after exist bn tpl)).
  { change (BHoles (judge_next exist bn tpl)) with (Holes (to_set (judge_next exist bn tpl))).
    rewrite (no_holes_convex _ Hw3). unfold convex. setoid_rewrite Hm3. done. }
  unfold judge. destruct exist as [|ex t]; [done|].
  fold (judge_on (ex :: t) bn). fold (judge_next (ex :: t) bn tpl). cbv zeta in Hig.
  destruct (_ || _)%bool eqn:Ei; [by apply Hig|].
  assert (Hnig : ~ no_effect (ex :: t) bn tpl) by (intros H%Hig; congruence).
  case_bool_decide as Hl; (split; [done|]); rewrite <- Hcv.
  - intros E. rewrite E in Hl. simpl in Hl. lia.
  - destruct (BHoles _); [done|simpl in Hl; lia].
Qed.
End Judge.

#[global] Instance TplVerdict_eq_dec : EqDecision TplVerdict.
Proof. solve_decision. Defined.

(** ** [NewTemplateInstance] and the other calls *)

Section Machine.
Context {W : Type} `{Hserv : Services W} `{!StoreLaws W}.

(** The instances of a request that are taken over, when none is invalid. *)
Definition taken (exists_of : string -> list TplWithCreated) (bn : Z) (ts : list TemplateInstance)
    : list TemplateInstance :=
  filter (fun t => judge (exists_of (UniqID t)) bn t = TplAccepted) (map (adjust_start bn) ts).

(** Only the unsaved templates of block [bn] have changed. *)
Definition only_unsaved (bn : Z) (c c' : Ctrl) : Prop :=
  exists u, c' = set_templates (templates c) u c /\
    forall k, k <> bn -> u !! k = unsavedTemplates c !! k.

Lemma only_unsaved_refl bn c : only_unsaved bn c c.
Proof. exists (unsavedTemplates c). split; [by destruct c|done]. Qed.

Lemma NewTemplateInstance_loop_spec exists_of bn ts (s : CState W) :
  exists e c', NewTemplateInstance_loop exists_of bn ts s = Ok (e, mkCState c' (world s)) /\
    only_unsaved bn (ctrl s) c' /\
    match e with
    | None =>
        tpls_at (unsavedTemplates c') bn = tpls_at (unsavedTemplates (ctrl s)) bn ++ taken exists_of bn ts
    | Some err =>
        ecode err = ErrCodeCreateTemplateFailed /\
        exists t, t ∈ ts /\
          judge (exists_of (UniqID (adjust_start bn t))) bn (adjust_start bn t) = TplInvalid
    end.
Proof.
  revert s. induction ts as [|t ts IH]; intros [c w]; cbn [NewTemplateInstance_loop ctrl world].
  { exists None, c. split_and!; [done|apply only_unsaved_refl|]. by rewrite app_nil_r. }
  unfold taken. cbn [map]. rewrite filter_cons. fold (taken exists_of bn ts).
  destruct (judge _ bn (adjust_start bn t)) eqn:Ej; case_decide as Hd; try congruence.
  - destruct (IH (mkCState c w)) as (e & c' & He & Ho & Hm). exists e, c'. split_and!; [done|done|].
    destruct e; [|done]. destruct Hm as (? & t' & ? & ?). split; [done|]. exists t'.
    rewrite elem_of_cons. auto.
  - eexists (Some _), c. split_and!; [reflexivity|apply only_unsaved_refl|done|].
    exists t. rewrite elem_of_cons. auto.
  - unfold mbind, SM_bind, cget, cmodify. cbn [obind ctrl world].
    set (u := <[bn := _]> (unsavedTemplates c)).
    destruct (IH (mkCState (set_templates (templates c) u c) w)) as (e & c' & He & (u' & -> & Hu) & Hm).
    cbn [ctrl world templates set_templates unsavedTemplates] in *.
    eexists e, _. split; [exact He|]. split.
    + exists u'. split; [by destruct c|]. intros k Hk. rewrite Hu by done. subst u.
      by rewrite lookup_insert_ne.
    + destruct e.
      * destruct Hm as (? & t' & ? & ?). split; [done|]. exists t'. rewrite elem_of_cons. auto.
      * cbn [unsavedTemplates set_templates]. rewrite Hm. unfold tpls_at at 1. subst u. rewrite lookup_insert_eq. simpl. by rewrite <- app_assoc.
Qed.

Lemma NewTemplateInstance_spec bn ts (s : CState W) :
  exists e c', NewTemplateInstance bn ts s = Ok (e, mkCState c' (world s)) /\
    only_unsaved bn (ctrl s) c'.
Proof.
  destruct s as [c w]. unfold NewTemplateInstance, mbind, SM_bind, cget. cbn [obind ctrl world].
  destruct (stopped c).
  - exists None, c. split; [done|apply only_unsaved_refl].
  - destruct (NewTemplateInstance_loop_spec (exists_with_id c bn) bn ts (mkCState c w))
      as (e & c' & He & Ho & _). eauto.
Qed.

(** ** [Ready] *)

Lemma Ready_resets_spec order ck (s : CState W) :
  exists e w', Ready_resets order ck s = Ok (e, mkCState (ctrl s) w') /\ stored w' = stored (world s).
Proof.
  revert s. induction order as [|sink rest IH]; intros [c w]; cbn [Ready_resets ctrl world].
  { exists None, w. done. }
  unfold mbind, SM_bind, call. cbn [ctrl world].
  pose proof (stored_Reset sink ck w) as L. destruct (sink_Reset sink ck w) as [e w1]. cbn [obind snd] in *.
  destruct (IH (mkCState c w1)) as (e' & w2 & -> & Hw). cbn [obind ctrl world] in *.
  eexists _, w2. split; [reflexivity|congruence].
Qed.

Lemma Ready_spec order stat (s : CState W) :
  exists e c' w', Ready order stat s = Ok (e, mkCState c' w') /\ stored w' = stored (world s) /\
    checkpoints c' = checkpoints (ctrl s) /\ savedCheckpoints c' = savedCheckpoints (ctrl s) /\
    checkpointSparsifyMultiplier c' = checkpointSparsifyMultiplier (ctrl s) /\
    templates c' = templates (ctrl s) /\ unsavedTemplates c' = unsavedTemplates (ctrl s) /\
    agentStat c' = stat /\
    stopped c' = match e with None => false | Some _ => stopped (ctrl s) end.
Proof.
  destruct s as [c w]. unfold Ready, mbind, SM_bind, cmodify, cget. cbn [obind ctrl world].
  destruct (Ready_resets_spec order (last (checkpoints (set_agentStat stat c)))
              (mkCState (set_agentStat stat c) w)) as (e & w' & -> & Hw).
  cbn [obind ctrl world] in *. destruct e; eexists _, _, w'; split_and!; try reflexivity; done.
Qed.

(** ** Sequences of calls *)

Record Inv (s : CState W) : Prop := mkInv {
  inv_ok : ctrl_ok (ctrl s);
  inv_synced : synced (ctrl s) (world s)
}.

(** A call of the controller by the main loop. New checkpoints are for later blocks,
    and the store did not fail. *)
Inductive step (s : CState W) : CState W -> Prop :=
| step_ready order stat e s' : Ready order stat s = Ok (e, s') -> step s s'
| step_make b p ch e s' :
    next_block (ctrl s) (BlockNumber (new_checkpoint b p)) ->
    MakeCheckpoint b p s = Ok ((ch, e), s') -> not_store_failure e -> step s s'
| step_save saveAll e s' : Save saveAll s = Ok (e, s') -> not_store_failure e -> step s s'
| step_keep_save events r s' :
    KeepSave events s = Ok (r, s') ->
    (forall err, r = KeepSaveErr err -> ecode err <> ErrCodeSaveCheckpointFailed) -> step s s'
| step_clean ge s' : CleanCheckpoint ge s = Ok (None, s') -> step s s'
| step_template bn ts e s' : NewTemplateInstance bn ts s = Ok (e, s') -> step s s'.

Lemma ctrl_ok_same c c' :
  ctrl_ok c -> checkpoints c' = checkpoints c -> savedCheckpoints c' = savedCheckpoints c ->
  checkpointSparsifyMultiplier c' = checkpointSparsifyMultiplier c -> ctrl_ok c'.
Proof. intros [? ? ? ?] E1 E2 E3. split; by rewrite ?E1, ?E2, ?E3. Qed.

Lemma synced_same c c' w w' :
  synced c w -> checkpoints c' = checkpoints c -> savedCheckpoints c' = savedCheckpoints c ->
  stored w' = stored w -> synced c' w'.
Proof. unfold synced. by intros H -> -> ->. Qed.

Lemma made_synced b p c w ch e c' w' :
  ctrl_ok c -> next_block c (BlockNumber (new_checkpoint b p)) ->
  made b p c w ch e c' w' -> not_store_failure e -> synced c w -> synced c' w'.
Proof.
  intros Hok Hn Hm Hf Hs. pose proof Hok as [Hsv _ _ _].
  assert (Happ : forall l c', checkpoints c' = checkpoints c ++ l ->
            savedCheckpoints c' = savedCheckpoints c -> synced c' w).
  { intros l c2 E1 E2. unfold synced in *. rewrite E1, E2, take_app_le by lia. done. }
  destruct Hm as [|ts c' _ _ _ _ _ Hck Hsc _|e c' w' _ _ Hd]; [done|exact (Happ _ _ Hck Hsc)|].
  cbv zeta in Hd. destruct (MakeCheckpoint_trigger _ _ _).
  - eapply save_outcome_synced; [|exact Hd|exact Hf|by eapply Happ]. by eapply (ctrl_ok_append c).
  - destruct Hd as (-> & -> & ->). by eapply Happ.
Qed.

Lemma step_inv s s' : step s s' -> Inv s -> Inv s'.
Proof.
  intros Hst [Hok Hsy].
  destruct Hst as [order stat e s' E|b p ch e s' Hn E Hf|sa e s' E Hf|evs r s' E Hf|ge s' E|bn ts e s' E].
  - destruct (Ready_spec order stat s) as (e' & c' & w' & E' & Hw & H1 & H2 & H3 & _).
    rewrite E in E'. injection E' as -> ->. split; [by apply (ctrl_ok_same _ _ Hok)|by apply (synced_same _ _ _ _ Hsy)].
  - destruct (MakeCheckpoint_spec b p s Hok Hn) as (ch' & e' & s2 & E' & Hok' & Hm).
    rewrite E in E'. injection E' as <- <- <-. split; [done|]. exact (made_synced _ _ _ _ _ _ _ _ Hok Hn Hm Hf Hsy).
  - destruct (save_spec sa true s Hok) as (e' & s2 & E' & Ho). unfold Save in E.
    rewrite E in E'. injection E' as <- <-.
    split; [exact (save_outcome_ok _ _ _ _ _ _ Hok Ho)|exact (save_outcome_synced _ _ _ _ _ _ Hok Ho Hf Hsy)].
  - destruct (KeepSave_spec evs s Hok) as (r' & s2 & E' & Hok' & _ & Hs').
    rewrite E in E'. injection E' as <- <-. split; auto.
  - destruct (CleanCheckpoint_spec ge s Hok) as (e' & s2 & E' & Hc).
    rewrite E in E'. injection E' as <- <-. destruct Hc as [Hc Hs'].
    split; [exact (cleaned_ok _ _ _ Hok Hc)|exact (restored_synced _ _ _ _ _ Hc Hs' Hsy)].
  - destruct (NewTemplateInstance_spec bn ts s) as (e' & c' & E' & (u & -> & _)).
    rewrite E in E'. injection E' as -> ->. split; [by apply (ctrl_ok_same _ _ Hok)|by apply (synced_same _ _ _ _ Hsy)].
Qed.

Lemma steps_inv s s' : rtc step s s' -> Inv s -> Inv s'.
Proof. induction 1; [done|]. intros Hi. eauto using step_inv. Qed.

(** A controller that has just been loaded from the store. *)
Lemma NewCheckpointController_inv delay interval maxKeep cks tpls w :
  by_block cks -> Forall block_ok cks -> stored w = Some (cks, tpls) ->
  Inv (mkCState (NewCheckpointController delay interval maxKeep cks (Some tpls)) w).
Proof.
  intros Hs Hb Hst. split.
  - split; simpl; [lia|done|done|by left].
  - unfold synced. simpl. rewrite Hst. by rewrite firstn_all.
Qed.

End Machine.
