(* ===== verification/SinkSafety.v ===== *)
(** * Checkpoints never run ahead of the data: the controller and a sink

    What the controller needs of a sink is the class [SinkLaws]: up to which block the
    sink holds its data for good ([sink_mark]), and whether it still has the rest
    ([sink_clean]). Against this interface: whatever the store would load is covered by
    the sink, after every sequence of calls of the controller, with sinks and stores that
    fail and with crashes in between. *)
From Stdlib Require Import ZArith Lia.
From stdpp Require Import base numbers option strings sorting gmap list.
From S2P Require Import Prelude RangeBase RangeSet RangeSetOps RangeCut BlockRange Sparsify Errors Checkpoint CheckpointCtrl CheckpointSave CheckpointOps CheckpointTemplates.

#[export] Instance Sink_eq_dec : EqDecision Sink.
Proof. solve_decision. Defined.

(** The commit of a sink without its statistics. *)
Definition commit_of {W} `{Services W} (sink : Sink) (n t : Z) (w : W) : option ExternalError * W :=
  match sink with
  | TimeSeriesSink => let '((_, e), w') := ts_Commit n t w in (e, w')
  | EntitySink => let '((_, e), w') := entity_Commit n t w in (e, w')
  | WebhookSink => let '((_, e), w') := webhook_Commit n t w in (e, w')
  end.

(** ** What a sink promises *)
Class SinkState (W : Type) : Type := {
  sink_ok : W -> Prop;
  sink_mark : W -> Z;
  sink_clean : W -> bool
}.

Definition sink_same {W} `{SinkState W} (w w' : W) : Prop :=
  (sink_ok w -> sink_ok w') /\ sink_mark w' = sink_mark w /\ sink_clean w' = sink_clean w.

Class SinkLaws (W : Type) `{Services W} `{SinkState W} (sink : Sink) : Prop := {
  sink_low w : sink_ok w -> -1 <= sink_mark w;
  sink_commit n t w e w' :
    sink_ok w -> sink_clean w = true -> commit_of sink n t w = (e, w') ->
    sink_ok w' /\
    match e with
    | None => sink_mark w' = Z.max (sink_mark w) n /\ sink_clean w' = true
    | Some _ => sink_mark w' = sink_mark w
    end;
  (** a reset of a sink that is not clean has to go back behind its mark; one that fails
      does no harm when there is nothing to delete *)
  sink_reset k w e w' :
    sink_ok w -> (sink_clean w = false -> ck_number k <= sink_mark w) -> -1 <= ck_number k < 2 ^ 63 ->
    sink_Reset sink k w = (e, w') ->
    sink_ok w' /\ sink_mark w' = Z.min (sink_mark w) (ck_number k) /\
    (e = None \/ sink_clean w = true /\ sink_mark w <= ck_number k -> sink_clean w' = true);
  (** the other collaborators leave the sink alone *)
  sink_other_commit s n t w e w' : s <> sink -> commit_of s n t w = (e, w') -> sink_same w w';
  sink_other_reset s k w e w' : s <> sink -> sink_Reset s k w = (e, w') -> sink_same w w';
  sink_quiet w w' : quiet_call w w' -> sink_same w w'
}.

Section Safety.
Context {W : Type} `{Hserv : Services W} `{!StoreLaws W} `{!SinkState W} (sink : Sink) `{!SinkLaws W sink}.

Lemma sink_same_refl (w : W) : sink_same w w.
Proof. unfold sink_same. tauto. Qed.

Lemma sink_same_trans (w1 w2 w3 : W) : sink_same w1 w2 -> sink_same w2 w3 -> sink_same w1 w3.
Proof. unfold sink_same. intuition congruence. Qed.

Lemma quiet_same w w' : quiet w w' -> sink_same w w'.
Proof.
  induction 1; [apply sink_same_refl|]. eapply sink_same_trans; [by eapply sink_quiet|done].
Qed.

(** What a commit, of this sink or of another one, does to the sink. *)
Lemma commit_step s n t v e v' :
  commit_of s n t v = (e, v') -> sink_ok v -> sink_clean v = true ->
  sink_ok v' /\ sink_mark v <= sink_mark v' /\
  (e = None -> sink_clean v' = true /\ sink_mark v' = if decide (s = sink) then Z.max (sink_mark v) n else sink_mark v).
Proof.
  intros E Hok Hcl. case_decide as Hs.
  - subst s. destruct (sink_commit _ _ _ _ _ Hok Hcl E) as [? He]. destruct e; [|destruct He]; split_and!; try done; lia.
  - destruct (sink_other_commit _ _ _ _ _ _ Hs E) as (? & ? & ?). split_and!; [auto|lia|]. intros _. split; congruence.
Qed.

Lemma commits_ok_mark cur w w' :
  commits_ok cur w w' -> sink_ok w -> sink_clean w = true ->
  sink_ok w' /\ sink_clean w' = true /\ sink_mark w' = Z.max (sink_mark w) (BlockNumber cur).
Proof.
  intros (uts & ucu & uex & w1 & w2 & E1 & E2 & E3) Hok Hcl.
  destruct (commit_step TimeSeriesSink (BlockNumber cur) (BlockTime cur) w None w1) as (Hok1 & _ & H1); [simpl; by rewrite E1|done..|].
  destruct (H1 eq_refl) as [Hcl1 Hm1].
  destruct (commit_step EntitySink (BlockNumber cur) (BlockTime cur) w1 None w2) as (Hok2 & _ & H2); [simpl; by rewrite E2|done..|].
  destruct (H2 eq_refl) as [Hcl2 Hm2].
  destruct (commit_step WebhookSink (BlockNumber cur) (BlockTime cur) w2 None w') as (Hok3 & _ & H3); [simpl; by rewrite E3|done..|].
  destruct (H3 eq_refl) as [Hcl3 Hm3].
  split_and!; [done..|]. rewrite Hm3, Hm2, Hm1. destruct sink; repeat case_decide; done.
Qed.

Lemma commits_failed_mark cur w w' :
  commits_failed cur w w' -> sink_ok w -> sink_clean w = true -> sink_ok w' /\ sink_mark w <= sink_mark w'.
Proof.
  intros Hf Hok Hcl. destruct Hf as [uts e w' E1|uts ucu e w1 w' E1 E2|uts ucu uex e w1 w2 w' E1 E2 E3];
    pose proof (commit_step TimeSeriesSink (BlockNumber cur) (BlockTime cur) w) as S1; simpl in S1; rewrite E1 in S1;
    destruct (S1 _ _ eq_refl Hok Hcl) as (Hok1 & Hle1 & H1); [done|..];
    destruct (H1 eq_refl) as [Hcl1 _];
    pose proof (commit_step EntitySink (BlockNumber cur) (BlockTime cur) w1) as S2; simpl in S2; rewrite E2 in S2;
    destruct (S2 _ _ eq_refl Hok1 Hcl1) as (Hok2 & Hle2 & H2); [split; [done|lia]|..].
  destruct (H2 eq_refl) as [Hcl2 _].
  pose proof (commit_step WebhookSink (BlockNumber cur) (BlockTime cur) w2) as S3. simpl in S3. rewrite E3 in S3.
  destruct (S3 _ _ eq_refl Hok2 Hcl2) as (Hok3 & Hle3 & _). split; [done|lia].
Qed.

Lemma sinks_committed_mark cur w w' :
  sinks_committed cur w w' -> sink_ok w -> sink_clean w = true ->
  sink_ok w' /\ sink_clean w' = true /\ sink_mark w' = Z.max (sink_mark w) (BlockNumber cur).
Proof.
  intros (wa & wb & (A1 & A2 & A3)%quiet_same & Hc & (B1 & B2 & B3)%quiet_same) Hok Hcl.
  destruct (commits_ok_mark _ _ _ Hc) as (C1 & C2 & C3); [auto|congruence|].
  split_and!; [auto|congruence|congruence].
Qed.

Lemma sinks_tried_mark cur w w' :
  sinks_tried cur w w' -> sink_ok w -> sink_clean w = true -> sink_ok w' /\ sink_mark w <= sink_mark w'.
Proof.
  intros [Hc|(wa & (A1 & A2 & A3)%quiet_same & Hf)] Hok Hcl.
  - destruct (sinks_committed_mark _ _ _ Hc Hok Hcl) as (? & _ & ?). split; [done|lia].
  - destruct (commits_failed_mark _ _ _ Hf) as [? ?]; [auto|congruence|]. split; [done|lia].
Qed.

(** ** The invariant *)

Definition saved_prefix (c : Ctrl) : list Checkpoint := take (savedCheckpoints c) (checkpoints c).

Definition below (n : Z) (l : list Checkpoint) : Prop := Forall (fun k => BlockNumber k <= n) l.

Record durable (ready : bool) (s : CState W) : Prop := mkDurable {
  du_ctrl : ctrl_ok (ctrl s);
  du_ok : sink_ok (world s);
  du_saved : below (sink_mark (world s)) (saved_prefix (ctrl s));
  (** what would be loaded is covered by the sink and by the controller *)
  du_stored cks t : stored (world s) = Some (cks, t) ->
    by_block cks /\ Forall block_ok cks /\ below (sink_mark (world s)) cks /\
    below (ck_number (last (saved_prefix (ctrl s)))) cks;
  (** a sink that has lost data is not used before it is reset *)
  du_dirty : sink_clean (world s) = false ->
    (ready = false \/ stopped (ctrl s) = true) /\ below (sink_mark (world s)) (checkpoints (ctrl s))
}.

Lemma below_mono n m l : below n l -> n <= m -> below m l.
Proof. intros H Hle. eapply Forall_impl; [exact H|]. simpl. lia. Qed.

Lemma below_sublist n l l' : l' `sublist_of` l -> below n l -> below n l'.
Proof. apply Forall_sublist. Qed.

(** The last checkpoint is the highest. *)
Lemma below_last l : by_block l -> below (ck_number (last l)) l.
Proof.
  intros Hs. destruct (last l) as [k|] eqn:E; simpl; [|apply last_None in E; subst; constructor].
  apply last_Some in E as [l' ->]. unfold by_block in Hs. rewrite map_app in Hs.
  apply StronglySorted_app in Hs as (Hlt & _ & _). apply Forall_app. split; [|by repeat constructor].
  apply Forall_forall. intros x Hx. specialize (Hlt (BlockNumber x) (BlockNumber k)).
  assert (BlockNumber x < BlockNumber k); [|lia]. apply Hlt; [by apply (list_elem_of_fmap_2 BlockNumber)|]. simpl. constructor.
Qed.

Lemma saved_before c cc cur :
  ctrl_ok c -> (savedCheckpoints c < cc)%nat -> checkpoints c !! (cc - 1)%nat = Some cur ->
  ck_number (last (saved_prefix c)) <= BlockNumber cur.
Proof.
  intros [_ Hs Hb _] Hcc Hcur. unfold saved_prefix. destruct (last _) as [k|] eqn:E; simpl.
  - rewrite last_lookup in E. apply lookup_take_Some in E as [Hk Hlt]. rewrite length_take in *.
    set (i := pred (savedCheckpoints c `min` length (checkpoints c))) in *.
    apply Z.lt_le_incl. apply (StronglySorted_lookup_lt Z.lt (map BlockNumber (checkpoints c)) i (cc - 1));
      [done|lia|..]; by rewrite list_lookup_fmap, ?Hk, ?Hcur.
  - rewrite Forall_lookup in Hb. specialize (Hb _ _ Hcur). unfold block_ok in Hb. lia.
Qed.

(** ** [save] *)

(** The sink has lost nothing and its mark is not lower: enough where the controller and
    the store did not change. *)
Lemma durable_frame ready c w c' w' :
  durable ready (mkCState c w) -> ctrl_ok c' -> sink_ok w' -> sink_mark w <= sink_mark w' ->
  stored w' = stored w -> saved_prefix c' = saved_prefix c ->
  (sink_clean w' = false ->
    (ready = false \/ stopped c' = true) /\ below (sink_mark w') (checkpoints c')) ->
  durable ready (mkCState c' w').
Proof.
  intros [Hctrl Hok Hsa Hst Hdi] H1 H2 H3 H4 H5 H6. cbn [ctrl world] in *.
  split; cbn [ctrl world]; [done|done| | |done].
  - rewrite H5. by eapply below_mono.
  - intros cks t E. rewrite H4 in E. destruct (Hst cks t E) as (? & ? & ? & ?). rewrite H5.
    split_and!; [done|done|eapply below_mono; [|exact H3]; done|done].
Qed.

(** After the sinks have committed [cur] the controller counts it as saved. *)
Lemma durable_committed ready c w c' w' kept cc cur rest :
  durable ready (mkCState c w) -> ctrl_ok c' -> sink_ok w' -> sink_clean w' = true ->
  sink_mark w' = Z.max (sink_mark w) (BlockNumber cur) ->
  (savedCheckpoints c < cc)%nat -> checkpoints c !! (cc - 1)%nat = Some cur ->
  kept `sublist_of` saved_prefix c -> checkpoints c' = kept ++ cur :: rest -> savedCheckpoints c' = S (length kept) ->
  (stored w' = stored w \/ exists t, stored w' = Some (kept ++ [cur], t)) ->
  durable ready (mkCState c' w').
Proof.
  intros [Hctrl Hok Hsa Hst Hdi] H1 H2 H3 H4 Hcc Hcur Hk Hck Hsv H5. cbn [ctrl world] in *.
  assert (Hp : saved_prefix c' = kept ++ [cur]) by (unfold saved_prefix; by rewrite Hck, Hsv, take_app_snoc).
  assert (Hlast : ck_number (last (saved_prefix c')) = BlockNumber cur) by by rewrite Hp, last_snoc.
  assert (Hbel : below (sink_mark w') (saved_prefix c')).
  { rewrite Hp. apply Forall_app. split; [|repeat constructor; lia].
    eapply below_mono; [by eapply below_sublist|lia]. }
  split; cbn [ctrl world]; [done|done|done| |by rewrite H3].
  intros cks t E. destruct H5 as [H5|[t' H5]]; rewrite H5 in E.
  - destruct (Hst cks t E) as (? & ? & Hb1 & Hb2). rewrite Hlast.
    split_and!; [done|done|eapply below_mono; [exact Hb1|lia]|].
    eapply below_mono; [exact Hb2|]. by eapply saved_before.
  - injection E as <- <-. rewrite <- Hp.
    assert (Hbs : by_block (saved_prefix c')) by (eapply by_block_sublist; [apply sublist_take|apply H1]).
    split_and!; [done| |done|by apply below_last].
    eapply Forall_sublist; [apply sublist_take|apply H1].
Qed.

Lemma save_outcome_durable saveAll c w e c' w' :
  stopped c = false -> save_outcome saveAll c w e c' w' ->
  durable true (mkCState c w) -> durable true (mkCState c' w').
Proof.
  intros Hns Ho Hd. pose proof Hd as [Hctrl Hok Hsa _ Hdi]. cbn [ctrl world] in *.
  assert (Hcl : sink_clean w = true).
  { destruct (sink_clean w) eqn:E; [done|]. destruct (Hdi eq_refl) as [[?|?] _]; congruence. }
  pose proof (save_outcome_ok _ _ _ _ _ _ Hctrl Ho) as Hctrl'. pose proof Hctrl as [Hsv _ _ _].
  save_cases Ho.
  - destruct (quiet_same _ _ Hq) as (? & ? & ?). apply (durable_frame _ c w); auto; [lia|congruence].
  - destruct (quiet_same _ _ Hq) as (? & ? & ?). apply (durable_frame _ c w); auto; [lia| |congruence].
    unfold saved_prefix. cbn. rewrite take_app_le, take_take by (rewrite length_take_le; lia). by rewrite Nat.min_id.
  - destruct (sinks_tried_mark _ _ _ Hsi Hok Hcl) as [? ?].
    assert (Hp : saved_prefix c' = saved_prefix c) by (unfold saved_prefix; rewrite Hck, Hsc, take_take; by rewrite Nat.min_id).
    apply (durable_frame _ c w); auto. intros _. split; [by right|]. rewrite Hck. fold (saved_prefix c).
    by eapply below_mono.
  - destruct (sinks_committed_mark _ _ _ Hsi Hok Hcl) as (? & ? & ?).
    apply (durable_committed _ c w c' w' kept cc cur []); auto; lia.
  - destruct (sinks_committed_mark _ _ _ Hsi Hok Hcl) as (? & ? & ?).
    apply (durable_committed _ c w c' w' kept cc cur (drop cc (checkpoints c))); auto; [lia|].
    right. rewrite Hst. eexists. done.
Qed.

Lemma save_durable saveAll checkInterval s e s' :
  save saveAll checkInterval s = Ok (e, s') -> durable true s -> durable true s'.
Proof.
  intros E Hd. pose proof (du_ctrl _ _ Hd) as Hctrl. destruct s as [c w]. destruct (stopped c) eqn:Es.
  - unfold save, mbind, SM_bind, cget in E. cbn [obind ctrl] in E. rewrite Es in E. by injection E as <- <-.
  - destruct (save_spec saveAll checkInterval _ Hctrl) as (e' & [c' w'] & E' & Ho). rewrite E in E'. injection E' as <- ->.
    by eapply save_outcome_durable.
Qed.

(** ** The other methods *)

Lemma MakeCheckpoint_durable b p s r s' :
  next_block (ctrl s) (BlockNumber (new_checkpoint b p)) ->
  MakeCheckpoint b p s = Ok (r, s') -> durable true s -> durable true s'.
Proof.
  intros Hn E Hd. pose proof Hd as [Hctrl Hok Hsa _ Hdi]. destruct s as [c w].
  destruct (MakeCheckpoint_spec b p _ Hctrl Hn) as (ch & e & [c' w'] & E' & Hctrl' & Hm).
  rewrite E in E'. injection E' as -> ->. cbn [ctrl world] in *.
  assert (Hcl : stopped c = false -> sink_clean w = true).
  { intros Hs. destruct (sink_clean w) eqn:Ec; [done|]. destruct (Hdi eq_refl) as [[?|?] _]; congruence. }
  assert (Happ : forall l c2, checkpoints c2 = checkpoints c ++ l -> savedCheckpoints c2 = savedCheckpoints c ->
            saved_prefix c2 = saved_prefix c).
  { intros l c2 E1 E2. unfold saved_prefix. rewrite E1, E2. apply take_app_le. apply Hctrl. }
  destruct Hm as [|ts c' Hs _ _ _ _ Hck Hsc _|e c' w' Hs _ Hd2]; [done|..]; specialize (Hcl Hs).
  - apply (durable_frame _ c w); auto; [lia|by eapply Happ|congruence].
  - cbv zeta in Hd2. set (c1 := set_checkpoints _ c) in Hd2.
    assert (Hd1 : durable true (mkCState c1 w)).
    { apply (durable_frame _ c w); auto; [by eapply (ctrl_ok_append c)|lia|by eapply Happ|congruence]. }
    destruct (MakeCheckpoint_trigger _ _ _); [|destruct Hd2 as (-> & -> & ->); done].
    by eapply (save_outcome_durable false c1).
Qed.

Lemma KeepSave_durable events s r s' :
  KeepSave events s = Ok (r, s') -> durable true s -> durable true s'.
Proof.
  revert s. induction events as [|ev events IH]; intros s E Hd; cbn [KeepSave] in E;
    unfold mbind at 1, SM_bind at 1, Save at 1 in E;
    destruct (save false true s) as [[e s1]| |] eqn:Es; try discriminate E; cbn [obind] in E;
    pose proof (save_durable _ _ _ _ _ Es Hd) as Hd1;
    (destruct e; [injection E as <- <-; done|]); [by injection E as <- <-|].
  destruct ev; [|by eapply IH|by injection E as <- <-].
  unfold mbind, SM_bind, Save in E. destruct (save true true s1) as [[e s2]| |] eqn:Es2; try discriminate E.
  injection E as <- <-. by eapply save_durable.
Qed.

Lemma NewTemplateInstance_durable bn ts s e s' ready :
  NewTemplateInstance bn ts s = Ok (e, s') -> durable ready s -> durable ready s'.
Proof.
  intros E Hd. destruct (NewTemplateInstance_spec bn ts s) as (e' & c' & E' & (u & -> & _)).
  rewrite E in E'. injection E' as -> ->. destruct s as [c w]. pose proof Hd as [Hctrl Hok _ _ Hdi].
  cbn [ctrl world] in *. apply (durable_frame _ c w); auto; [|lia]. by apply (ctrl_ok_same _ _ Hctrl).
Qed.

Lemma CleanCheckpoint_durable ge s s' ready :
  CleanCheckpoint ge s = Ok (None, s') -> durable ready s -> durable ready s'.
Proof.
  intros E Hd. pose proof Hd as [Hctrl Hok Hsa Hst Hdi].
  destruct (CleanCheckpoint_spec ge s Hctrl) as (e' & s2 & E' & Hc). rewrite E in E'. injection E' as <- <-.
  destruct Hc as [Hc [(Hq1 & Hq2 & Hq3)%quiet_same Hre]]. pose proof (cleaned_ok _ _ _ Hctrl Hc) as Hctrl'.
  destruct Hc as (Hck & Hsv & _ & _ & _ & Hstop). destruct s as [c w], s' as [c' w']. cbn [ctrl world] in *.
  destruct (CleanCheckpoint_take ge c Hctrl) as [_ Htk]. rewrite Htk in Hck.
  assert (Hdirty : sink_clean w' = false ->
            (ready = false \/ stopped c' = true) /\ below (sink_mark w') (checkpoints c')).
  { intros Hcl. split; [by right|]. rewrite Hq2, Hck. eapply below_sublist; [apply sublist_take|].
    apply Hdi. congruence. }
  destruct Hre as [[Hs Hp]|[t Hs]]; [by apply (durable_frame _ c w); auto; lia|].
  assert (Hbel : below (sink_mark w') (saved_prefix c')).
  { rewrite Hq2. unfold saved_prefix. rewrite Hsv, Hck, take_take. eapply below_sublist; [|exact Hsa].
    unfold saved_prefix. set (n := (_ `min` _)%nat).
    replace n with (n `min` savedCheckpoints c)%nat by lia. rewrite <- take_take. apply sublist_take. }
  split; cbn [ctrl world]; [done|auto|done| |done]. intros cks t' Ec. rewrite Hs in Ec. injection Ec as <- <-.
  fold (saved_prefix c'). split_and!; [| |done|].
  - eapply by_block_sublist; [apply sublist_take|apply Hctrl'].
  - eapply Forall_sublist; [apply sublist_take|apply Hctrl'].
  - apply below_last. eapply by_block_sublist; [apply sublist_take|apply Hctrl'].
Qed.

Lemma resets_other order k s e s' :
  sink ∉ order -> Ready_resets order k s = Ok (e, s') -> ctrl s' = ctrl s /\ sink_same (world s) (world s').
Proof.
  revert s e. induction order as [|x order IH]; intros s e Hn E; cbn [Ready_resets] in E.
  { injection E as <- <-. split; [done|apply sink_same_refl]. }
  apply not_elem_of_cons in Hn as [Hx Hn]. unfold mbind, SM_bind, call in E.
  destruct (sink_Reset x k (world s)) as [e1 w1] eqn:E1. cbn [obind] in E.
  destruct (Ready_resets order k _) as [[e2 s2]| |] eqn:E2; try discriminate E. injection E as <- <-.
  destruct (IH _ _ Hn E2) as [? ?]. split; [done|].
  eapply sink_same_trans; [|done]. eapply sink_other_reset; [|exact E1]. done.
Qed.

Lemma resets_sink order k s e s' :
  NoDup order -> sink ∈ order -> Ready_resets order k s = Ok (e, s') ->
  sink_ok (world s) -> (sink_clean (world s) = false -> ck_number k <= sink_mark (world s)) ->
  -1 <= ck_number k < 2 ^ 63 ->
  ctrl s' = ctrl s /\ sink_ok (world s') /\ sink_mark (world s') = Z.min (sink_mark (world s)) (ck_number k) /\
  (e = None \/ sink_clean (world s) = true /\ sink_mark (world s) <= ck_number k -> sink_clean (world s') = true).
Proof.
  intros Hn. revert s e. induction Hn as [|x order Hx Hn IH]; intros s e Hin E Hok Hcl Hk; [by apply not_elem_of_nil in Hin|].
  cbn [Ready_resets] in E. unfold mbind, SM_bind, call in E.
  destruct (sink_Reset x k (world s)) as [e1 w1] eqn:E1. cbn [obind] in E.
  destruct (Ready_resets order k _) as [[e2 s2]| |] eqn:E2; try discriminate E. injection E as <- <-.
  destruct (decide (x = sink)) as [->|Hne].
  - destruct (sink_reset _ _ _ _ Hok Hcl Hk E1) as (R1 & R2 & R3).
    destruct (resets_other _ _ _ _ _ Hx E2) as (-> & F1 & F2 & F3). cbn [ctrl world] in *.
    split_and!; [done|auto|congruence|]. intros He. rewrite F3. apply R3. destruct e1; [|by left].
    destruct He as [?|?]; [done|by right].
  - apply elem_of_cons in Hin as [->|Hin]; [done|].
    destruct (sink_other_reset _ _ _ _ _ Hne E1) as (F1 & F2 & F3).
    destruct (IH _ _ Hin E2) as (-> & R1 & R2 & R3); cbn [ctrl world] in *; [auto|by rewrite F2, F3|done|].
    split_and!; [done|done|congruence|]. intros He. apply R3. rewrite F2, F3.
    destruct He as [He|He]; [left; by destruct e1|by right].
Qed.

Definition all_sinks : list Sink := [TimeSeriesSink; EntitySink; WebhookSink].

Lemma all_sinks_NoDup : NoDup all_sinks.
Proof. apply (bool_decide_unpack _). vm_compute. exact I. Qed.

Lemma all_sinks_all s : s ∈ all_sinks.
Proof. destruct s; repeat constructor. Qed.

Lemma last_number l : Forall block_ok l -> -1 <= ck_number (last l) < 2 ^ 63.
Proof.
  intros Hb. destruct (last l) as [k|] eqn:E; simpl; [|lia]. apply last_Some_elem_of in E.
  rewrite Forall_forall in Hb. specialize (Hb k E). unfold block_ok in Hb. lia.
Qed.

Lemma durable_reset ready c w (e : option ExternalError) c' w' :
  durable ready (mkCState c w) -> ctrl_ok c' -> checkpoints c' = checkpoints c -> savedCheckpoints c' = savedCheckpoints c ->
  stored w' = stored w -> sink_ok w' -> sink_mark w' = Z.min (sink_mark w) (ck_number (last (checkpoints c))) ->
  (e = None \/ sink_clean w = true /\ sink_mark w <= ck_number (last (checkpoints c)) -> sink_clean w' = true) ->
  durable (bool_decide (e = None)) (mkCState c' w').
Proof.
  intros [Hctrl Hok Hsa Hst Hdi] H1 Ec Es H2 H3 H4 H5. cbn [ctrl world] in *.
  pose proof (below_last _ (ok_sorted _ Hctrl)) as Hlast.
  assert (Hp : saved_prefix c' = saved_prefix c) by (unfold saved_prefix; by rewrite Ec, Es).
  assert (Hmin : forall l, below (sink_mark w) l -> below (ck_number (last (checkpoints c))) l -> below (sink_mark w') l).
  { intros l Ha Hb. unfold below in *. rewrite Forall_forall in *. intros k Hk. specialize (Ha k Hk). specialize (Hb k Hk). lia. }
  assert (Hpl : below (ck_number (last (checkpoints c))) (saved_prefix c)) by (eapply below_sublist; [apply sublist_take|done]).
  assert (Hpn : ck_number (last (saved_prefix c)) <= ck_number (last (checkpoints c))).
  { destruct (last (saved_prefix c)) as [k|] eqn:E; simpl; [|apply (last_number _ (ok_blocks _ Hctrl))].
    apply last_Some_elem_of in E. unfold below in Hpl. rewrite Forall_forall in Hpl. by apply Hpl. }
  split; cbn [ctrl world]; [done|done|rewrite Hp; by apply Hmin| |].
  - intros cks t E. rewrite H2 in E. destruct (Hst cks t E) as (? & ? & ? & ?). rewrite Hp.
    split_and!; [done|done| |done]. apply Hmin; [done|]. by eapply below_mono.
  - intros Hcl. split.
    + left. apply bool_decide_eq_false. intros He. rewrite H5 in Hcl by (by left). done.
    + rewrite Ec. destruct (sink_clean w) eqn:Ew; [|by apply Hmin; [apply Hdi|]].
      eapply below_mono; [exact Hlast|]. destruct (Z_le_gt_dec (sink_mark w) (ck_number (last (checkpoints c)))); [|lia].
      rewrite H5 in Hcl by (by right). done.
Qed.

(** Whatever the resets answered, the sink was reset to the last checkpoint; the run may
    start only if they all succeeded. *)
Lemma Ready_durable order stat s e s' ready :
  order ≡ₚ all_sinks -> Ready order stat s = Ok (e, s') -> durable ready s ->
  durable (bool_decide (e = None)) s'.
Proof.
  intros Ho E Hd. destruct s as [c w]. pose proof Hd as [Hctrl Hok Hsa Hst Hdi]. cbn [ctrl world] in *.
  unfold Ready, mbind, SM_bind, cmodify, cget in E. cbn [obind ctrl world] in E.
  set (c1 := set_agentStat stat c) in *. change (checkpoints c1) with (checkpoints c) in E.
  destruct (Ready_resets order (last (checkpoints c)) (mkCState c1 w)) as [[e1 [c2 w2]]| |] eqn:Er; try discriminate E.
  pose proof (below_last _ (ok_sorted _ Hctrl)) as Hlast.
  destruct (resets_sink order _ _ _ _ ltac:(rewrite Ho; apply all_sinks_NoDup) ltac:(rewrite Ho; apply all_sinks_all) Er)
    as (Hc2 & R1 & R2 & R3); cbn [ctrl world] in *; [done| |apply last_number, Hctrl|].
  { intros Hcl. destruct (Hdi Hcl) as [_ Hb]. destruct (last (checkpoints c)) as [k|] eqn:El; simpl; [|by apply sink_low].
    apply last_Some_elem_of in El. unfold below in Hb. rewrite Forall_forall in Hb. by apply Hb. }
  destruct (Ready_resets_spec order (last (checkpoints c)) (mkCState c1 w)) as (e' & w' & E' & Hw).
  rewrite Er in E'. injection E' as <- -> <-. cbn [obind ctrl world] in *.
  destruct e1; injection E as <- <-; (eapply durable_reset; [exact Hd|by apply (ctrl_ok_same _ _ Hctrl)|..]; done).
Qed.

(** ** Sequences of calls, with crashes *)

(** A new process: the sink has lost what it kept in memory. *)
Definition sink_restarted (w w' : W) : Prop :=
  (sink_ok w -> sink_ok w') /\ sink_mark w' = sink_mark w /\ sink_clean w' = false /\ stored w' = stored w.

(** What the processing of the blocks may do between the calls, and what a restart does. *)
Variables work restart : W -> W -> Prop.
Hypothesis work_same : forall w w', work w w' -> sink_same w w' /\ stored w' = stored w.
Hypothesis restart_lost : forall w w', restart w w' -> sink_restarted w w'.

(** The controller a new process starts with. *)
Definition loaded_ctrl (delay interval maxKeep : Z) (w : W) : Ctrl :=
  match stored w with
  | Some (cks, tpls) => NewCheckpointController delay interval maxKeep cks (Some tpls)
  | None => NewCheckpointController delay interval maxKeep [] None
  end.

(** Where a crash may strike: between two calls, or in a save between the commits. *)
Inductive crash_point (ready : bool) (s : CState W) : W -> Prop :=
| crash_between : crash_point ready s (world s)
| crash_committed cur w' :
    ready = true -> stopped (ctrl s) = false -> commits_ok cur (world s) w' ->
    stored w' = stored (world s) -> crash_point ready s w'
| crash_committing cur w' :
    ready = true -> stopped (ctrl s) = false -> commits_failed cur (world s) w' ->
    stored w' = stored (world s) -> crash_point ready s w'.

(** The flag tells that [Ready] has succeeded: the main loop uses the controller only
    then. New checkpoints are for later blocks; a rollback that failed ends the process. *)
Inductive dstep : bool * CState W -> bool * CState W -> Prop :=
| d_ready ready order stat s e s' :
    order ≡ₚ all_sinks -> Ready order stat s = Ok (e, s') -> dstep (ready, s) (bool_decide (e = None), s')
| d_make b p s r s' :
    next_block (ctrl s) (BlockNumber (new_checkpoint b p)) -> MakeCheckpoint b p s = Ok (r, s') ->
    dstep (true, s) (true, s')
| d_save saveAll s e s' : Save saveAll s = Ok (e, s') -> dstep (true, s) (true, s')
| d_keep_save events s r s' : KeepSave events s = Ok (r, s') -> dstep (true, s) (true, s')
| d_template ready bn ts s e s' : NewTemplateInstance bn ts s = Ok (e, s') -> dstep (ready, s) (ready, s')
| d_clean ready ge s s' : CleanCheckpoint ge s = Ok (None, s') -> dstep (ready, s) (ready, s')
| d_work ready c w w' :
    work w w' -> dstep (ready, mkCState c w) (ready, mkCState c w')
| d_crash ready delay interval maxKeep s w w' :
    crash_point ready s w -> restart w w' ->
    dstep (ready, s) (false, mkCState (loaded_ctrl delay interval maxKeep w') w').

Lemma durable_crash ready delay interval maxKeep s w w' :
  crash_point ready s w -> sink_restarted w w' -> durable ready s ->
  durable false (mkCState (loaded_ctrl delay interval maxKeep w') w').
Proof.
  intros Hcr (R1 & R2 & R3 & R4) [Hctrl Hok Hsa Hst Hdi].
  assert (Hcl : ready = true -> stopped (ctrl s) = false -> sink_clean (world s) = true).
  { intros -> Hs. destruct (sink_clean (world s)) eqn:E; [done|]. destruct (Hdi eq_refl) as [[?|?] _]; congruence. }
  assert (Hw : sink_ok w /\ sink_mark (world s) <= sink_mark w /\ stored w = stored (world s)).
  { destruct Hcr as [|cur w Hr Hs Hc Hsw|cur w Hr Hs Hc Hsw]; [done|..].
    - destruct (commits_ok_mark _ _ _ Hc Hok (Hcl Hr Hs)) as (? & _ & ?). split_and!; [done|lia|done].
    - destruct (commits_failed_mark _ _ _ Hc Hok (Hcl Hr Hs)) as [? ?]. done. }
  destruct Hw as (W1 & W2 & W3). unfold loaded_ctrl. rewrite R4, W3.
  destruct (stored (world s)) as [[cks t]|] eqn:Es.
  - destruct (Hst cks t eq_refl) as (B1 & B2 & B3 & _).
    assert (B4 : below (sink_mark w') cks) by (rewrite R2; by eapply below_mono).
    split; cbn [ctrl world]; unfold saved_prefix; cbn; rewrite ?firstn_all.
    + split; simpl; [lia|done|done|by left].
    + auto.
    + done.
    + intros cks' t' E. rewrite R4, W3 in E. injection E as <- <-. split_and!; [done..|by apply below_last].
    + intros _. split; [by left|done].
  - split; cbn [ctrl world]; unfold saved_prefix; cbn.
    + split; simpl; [lia|constructor|constructor|by left].
    + auto.
    + constructor.
    + intros cks' t' E. rewrite R4, W3 in E. discriminate.
    + intros _. split; [by left|constructor].
Qed.

Lemma dstep_durable x y : dstep x y -> durable x.1 x.2 -> durable y.1 y.2.
Proof.
  intros Hs Hd.
  destruct Hs as [ready order stat s e s' Ho E|b p s r s' Hn E|sa s e s' E|evs s r s' E|ready bn ts s e s' E
                 |ready ge s s' E|ready c w w' [(F1 & F2 & F3) Es]%work_same|ready d i m s w w' Hc Hr]; cbn [fst snd] in *.
  - exact (Ready_durable _ _ _ _ _ _ Ho E Hd).
  - exact (MakeCheckpoint_durable _ _ _ _ _ Hn E Hd).
  - exact (save_durable _ _ _ _ _ E Hd).
  - exact (KeepSave_durable _ _ _ _ E Hd).
  - exact (NewTemplateInstance_durable _ _ _ _ _ _ E Hd).
  - exact (CleanCheckpoint_durable _ _ _ _ E Hd).
  - pose proof Hd as [Hctrl Hok _ _ Hdi]. cbn [ctrl world] in *.
    apply (durable_frame _ c w); auto; [lia|]. by rewrite F2, F3.
  - exact (durable_crash _ _ _ _ _ _ _ Hc (restart_lost _ _ Hr) Hd).
Qed.

Lemma dsteps_durable x y : rtc dstep x y -> durable x.1 x.2 -> durable y.1 y.2.
Proof. induction 1; [done|]. intros Hd. eauto using dstep_durable. Qed.

(** A first process, when no checkpoint has been stored. *)
Definition nothing_stored (w : W) : Prop := forall cks t, stored w = Some (cks, t) -> cks = [].

Lemma durable_initial delay interval maxKeep w :
  nothing_stored w -> sink_ok w -> durable false (mkCState (loaded_ctrl delay interval maxKeep w) w).
Proof.
  intros Hs Hok.
  assert (Hl : checkpoints (loaded_ctrl delay interval maxKeep w) = [] /\
               checkpointSparsifyMultiplier (loaded_ctrl delay interval maxKeep w) = 0 /\
               savedCheckpoints (loaded_ctrl delay interval maxKeep w) = 0%nat).
  { unfold loaded_ctrl. destruct (stored w) as [[cks t]|] eqn:E; [|done]. by rewrite (Hs _ _ E). }
  destruct Hl as (L1 & L2 & L3). split; cbn [ctrl world]; unfold saved_prefix; rewrite ?L1, ?L3.
  - split; rewrite ?L1, ?L2, ?L3; simpl; [lia|constructor|constructor|by left].
  - done.
  - constructor.
  - intros cks t E. rewrite (Hs _ _ E). repeat constructor.
  - intros _. split; [by left|constructor].
Qed.
End Safety.
