(* ===== verification/SinkWorld.v ===== *)
(** * The controller with the time series and webhook sinks

    The collaborators of the checkpoint controller with the two sinks of
    [driver/controller/startup] in place: the other collaborators (checkpoint store,
    quota, entities, clock) are those of a world [B]. The time series sink keeps the
    interface [SinkLaws], with the log of an ideal sink beside it: so what was inserted
    for a block is in the time series store, once, whenever a checkpoint at or behind the
    block would be loaded. *)
From Stdlib Require Import ZArith Lia.
From stdpp Require Import base numbers option strings sorting gmap list.
From S2P Require Import Prelude RangeBase RangeSet RangeSetOps RangeCut BlockCache BlockRange Sparsify Errors Checkpoint CheckpointCtrl Sinks CheckpointSave CheckpointOps CheckpointTemplates SinkSafety.
Import TimeSeriesLog.

Section World.
Context {B Row S P : Type} `{HB : Services B} `{!StoreLaws B}
  `{HS : TimeSeries.Store Row S} `{!TSStoreLaws Row S} `{HT : Webhook.Topic P}.
(** In which order the channels of a commit are published. *)
Variable publish_order : list string -> list string.

Record SinkWorld : Type := mkSinkWorld {
  base : B;
  timeSeries : TimeSeries.Controller Row;
  timeSeriesStore : S;
  ideal : Log (Row := Row);
  webhook : Webhook.Controller;
  topic : P
}.

Definition set_base (b : B) (w : SinkWorld) : SinkWorld :=
  mkSinkWorld b (timeSeries w) (timeSeriesStore w) (ideal w) (webhook w) (topic w).

Definition on_base {A} (f : B -> A * B) (w : SinkWorld) : A * SinkWorld :=
  let '(a, b) := f (base w) in (a, set_base b w).

Definition world_ts_Commit (n t : Z) (w : SinkWorld)
    : (gmap string (gmap string Z) * option ExternalError) * SinkWorld :=
  let '((st, e), (c, s)) := TimeSeries.Commit n t (timeSeries w, timeSeriesStore w) in
  ((st, e), mkSinkWorld (base w) c s (log_Commit n (bool_decide (e = None)) (ideal w)) (webhook w) (topic w)).

Definition world_ts_Reset (k : option Checkpoint) (w : SinkWorld) : option ExternalError * SinkWorld :=
  let '(e, (c, s)) := TimeSeries.Reset k (timeSeries w, timeSeriesStore w) in
  (e, mkSinkWorld (base w) c s (log_Reset (ck_number k) (bool_decide (e = None)) (ideal w)) (webhook w) (topic w)).

Definition world_webhook_Commit (n t : Z) (w : SinkWorld) : (gmap string Z * option ExternalError) * SinkWorld :=
  let '(r, (c, p)) := Webhook.Commit publish_order n t (webhook w, topic w) in
  (r, mkSinkWorld (base w) (timeSeries w) (timeSeriesStore w) (ideal w) c p).

Definition world_webhook_Reset (k : option Checkpoint) (w : SinkWorld) : option ExternalError * SinkWorld :=
  let '(e, c) := Webhook.Reset k (webhook w) in
  (e, mkSinkWorld (base w) (timeSeries w) (timeSeriesStore w) (ideal w) c (topic w)).

#[global] Instance SinkWorld_services : Services SinkWorld := {|
  time_Now := on_base time_Now;
  store_Save cks tpls st := on_base (store_Save cks tpls st);
  store_SaveError e := on_base (store_SaveError e);
  quota_CheckOverQuota := on_base quota_CheckOverQuota;
  quota_SaveUsage u b := on_base (quota_SaveUsage u b);
  ts_Commit := world_ts_Commit;
  entity_Commit n t := on_base (entity_Commit n t);
  webhook_Commit := world_webhook_Commit;
  sink_Reset s k :=
    match s with
    | TimeSeriesSink => world_ts_Reset k
    | EntitySink => on_base (sink_Reset EntitySink k)
    | WebhookSink => world_webhook_Reset k
    end;
  sink_CachedTooMuch s n w :=
    match s with
    | TimeSeriesSink => TimeSeries.CachedTooMuch (timeSeries w) n
    | EntitySink => sink_CachedTooMuch EntitySink n (base w)
    | WebhookSink => Webhook.CachedTooMuch (webhook w) n
    end
|}.

Lemma base_on_base {A} (f : B -> A * B) w : base (on_base f w).2 = (f (base w)).2.
Proof. unfold on_base. by destruct (f (base w)). Qed.

Lemma on_base_inv {A} (f : B -> A * B) w a w' : on_base f w = (a, w') -> f (base w) = (a, base w') /\ w' = set_base (base w') w.
Proof. unfold on_base. destruct (f (base w)) as [a' b]. by intros [= <- <-]. Qed.

#[global] Program Instance SinkWorld_store : StoreLaws SinkWorld := {|
  stored w := stored (base w)
|}.
Next Obligation. intros cks tpls st w w' [H _]%on_base_inv. by eapply store_Save_ok. Qed.
Next Obligation. intros cks tpls st w r w' [H _]%on_base_inv Hr. by eapply store_Save_failed. Qed.
Next Obligation. intros cks tpls st w w' Hl [H _]%on_base_inv. by eapply store_Save_small. Qed.
Next Obligation. intros w. cbn [time_Now SinkWorld_services]. rewrite base_on_base. apply stored_time_Now. Qed.
Next Obligation. intros w. cbn [quota_CheckOverQuota SinkWorld_services]. rewrite base_on_base. apply stored_CheckOverQuota. Qed.
Next Obligation. intros u b w. cbn [quota_SaveUsage SinkWorld_services]. rewrite base_on_base. apply stored_SaveUsage. Qed.
Next Obligation.
  intros n t w. cbn [ts_Commit SinkWorld_services]. unfold world_ts_Commit. by destruct (TimeSeries.Commit _ _ _) as [[? ?] [? ?]].
Qed.
Next Obligation. intros n t w. cbn [entity_Commit SinkWorld_services]. rewrite base_on_base. apply stored_entity_Commit. Qed.
Next Obligation.
  intros n t w. cbn [webhook_Commit SinkWorld_services]. unfold world_webhook_Commit. by destruct (Webhook.Commit _ _ _ _) as [? [? ?]].
Qed.
Next Obligation.
  intros [] k w; cbn [sink_Reset SinkWorld_services].
  - unfold world_ts_Reset. by destruct (TimeSeries.Reset _ _) as [? [? ?]].
  - rewrite base_on_base. apply stored_Reset.
  - done.
Qed.

(** ** The time series sink keeps the interface *)

#[global] Instance SinkWorld_state : SinkState SinkWorld := {|
  sink_ok w := log_ok (timeSeries w) (timeSeriesStore w) (ideal w);
  sink_mark w := mark (ideal w);
  sink_clean w := clean (ideal w)
|}.

Lemma on_base_same {A} (f : B -> A * B) w a w' : on_base f w = (a, w') -> sink_same w w'.
Proof. intros [_ ->]%on_base_inv. by unfold sink_same. Qed.

#[global] Instance SinkWorld_laws : SinkLaws SinkWorld TimeSeriesSink.
Proof.
  split.
  - intros w. apply lo_mark.
  - intros n t w e w' Hok Hcl E. cbn in E. unfold world_ts_Commit in E.
    pose proof (log_ok_Commit _ _ _ n t Hok Hcl) as Hl.
    destruct (TimeSeries.Commit n t (timeSeries w, timeSeriesStore w)) as [[st e'] [c s]]. injection E as -> <-.
    split; [exact Hl|]. by destruct e.
  - intros k w e w' Hok Hcl Hk E. cbn in E. unfold world_ts_Reset in E.
    pose proof (log_ok_Reset _ _ _ k Hok Hcl Hk) as Hl.
    destruct (TimeSeries.Reset k (timeSeries w, timeSeriesStore w)) as [e' [c s]]. injection E as -> <-.
    split_and!; [exact Hl|done|]. simpl. intros [->|[-> Hm%Z.leb_le]]; [by rewrite bool_decide_eq_true_2|].
    rewrite Hm. simpl. by rewrite orb_true_r.
  - intros s n t w e w' Hs E. destruct s; [done|..]; cbn in E.
    + destruct (on_base (entity_Commit n t) w) as [[? ?] w2] eqn:E2. injection E as <- <-. by eapply on_base_same.
    + unfold world_webhook_Commit in E. destruct (Webhook.Commit _ _ _ _) as [[? ?] [? ?]].
      injection E as <- <-. by unfold sink_same.
  - intros s k w e w' Hs E. destruct s; [done|..]; cbn in E.
    + by eapply on_base_same.
    + injection E as <- <-. by unfold sink_same.
  - intros w w' [t w2 E|q w2 E|u b e w2 E|cks tpls st r w2 E]; exact (on_base_same _ _ _ _ E).
Qed.

(** ** What happens between the calls of the controller *)

Definition insert_rows (b task : Z) (data : list (TimeSeries.Dataset Row)) (w : SinkWorld) : SinkWorld :=
  mkSinkWorld (base w) (TimeSeries.Insert b task data (timeSeries w)) (timeSeriesStore w)
    (log_Insert b data (ideal w)) (webhook w) (topic w).

Definition insert_messages (b task : Z) (ms : list Webhook.WebhookMessage) (w : SinkWorld) : SinkWorld :=
  mkSinkWorld (base w) (timeSeries w) (timeSeriesStore w) (ideal w) (Webhook.Insert b task ms (webhook w)) (topic w).

(** Tasks insert rows of blocks that have not been committed, and messages; the other
    collaborators do what they do as long as the stored checkpoints stay. *)
Inductive sink_work (w : SinkWorld) : SinkWorld -> Prop :=
| work_rows b task data :
    mark (ideal w) < b -> Forall (fun r => slot_of r = b) (flat rows_of data) -> sink_work w (insert_rows b task data w)
| work_messages b task ms : sink_work w (insert_messages b task ms w)
| work_base b : stored b = stored (base w) -> sink_work w (set_base b w).

Lemma sink_work_same w w' : sink_work w w' -> sink_same w w' /\ stored w' = stored w.
Proof.
  intros [b task data Hb Hd|b task ms|b Hb]; (split; [|done]); unfold sink_same; simpl; [|done..].
  split_and!; [|done|done]. intros Hok. by apply log_ok_Insert.
Qed.

(** A new process has new sinks on the same time series store and topic. *)
Inductive sink_restart (w : SinkWorld) : SinkWorld -> Prop :=
| restarted :
    sink_restart w (mkSinkWorld (base w) TimeSeries.newTimeSeriesController (timeSeriesStore w)
                      (log_restart (ideal w)) (Webhook.newWebhookController (Webhook.processorVersion (webhook w))) (topic w)).

Lemma sink_restart_lost w w' : sink_restart w w' -> sink_restarted w w'.
Proof.
  intros []. unfold sink_restarted. cbn. split_and!; try done. intros Hok. exact (log_ok_restart _ _ _ Hok).
Qed.

(** The states that are reached from a first start on empty stores. *)
Definition reached (w0 : SinkWorld) (delay interval maxKeep : Z) (x : bool * CState SinkWorld) : Prop :=
  rtc (dstep sink_work sink_restart) (false, mkCState (loaded_ctrl delay interval maxKeep w0) w0) x.

Definition empty_world (w : SinkWorld) : Prop :=
  nothing_stored w /\ rows (timeSeriesStore w) = [] /\
  timeSeries w = TimeSeries.newTimeSeriesController /\ ideal w = log_empty.

Lemma reached_durable w0 delay interval maxKeep x :
  empty_world w0 -> reached w0 delay interval maxKeep x -> durable x.1 x.2.
Proof.
  intros (H1 & H2 & H3 & H4) Hr.
  refine (dsteps_durable TimeSeriesSink _ _ sink_work_same sink_restart_lost _ _ Hr _).
  apply durable_initial; [done|]. cbn. rewrite H3, H4. apply log_ok_new. by rewrite H2.
Qed.

(** Every block at or below a checkpoint that would be loaded is in the time series
    store, with the rows inserted for it. *)
Lemma stored_rows w0 delay interval maxKeep ready s cks t k b :
  empty_world w0 -> reached w0 delay interval maxKeep (ready, s) ->
  stored (world s) = Some (cks, t) -> k ∈ cks -> b <= BlockNumber k ->
  rows_at (timeSeriesStore (world s)) b ≡ₚ log (ideal (world s)) b.
Proof.
  intros He Hr Hs Hk Hb. pose proof (reached_durable _ _ _ _ _ He Hr) as [_ Hok _ Hst _]. cbn in *.
  destruct (Hst cks t Hs) as (_ & _ & Hbel & _). unfold below in Hbel. rewrite Forall_forall in Hbel.
  specialize (Hbel k Hk). cbn in Hbel. apply (lo_below _ _ _ Hok). lia.
Qed.

(** While the controller is used, no row is lost or doubled: the store and the cache
    together have the rows of every block. *)
Lemma running_rows w0 delay interval maxKeep s b :
  empty_world w0 -> reached w0 delay interval maxKeep (true, s) -> stopped (ctrl s) = false ->
  rows_at (timeSeriesStore (world s)) b ++ flat rows_of (cached_at (TimeSeries.cached (timeSeries (world s))) b)
    ≡ₚ log (ideal (world s)) b.
Proof.
  intros He Hr Hs. pose proof (reached_durable _ _ _ _ _ He Hr) as [_ Hok _ _ Hdi]. cbn in *.
  destruct (Z_le_gt_dec b (mark (ideal (world s)))) as [Hb|Hb].
  - destruct (lo_below _ _ _ Hok b Hb) as [H1 H2]. by rewrite H2, app_nil_r.
  - destruct (clean (ideal (world s))) eqn:Ec.
    + destruct (lo_above _ _ _ Hok b Ec ltac:(lia)) as [H1 H2]. by rewrite H1.
    + destruct (Hdi eq_refl) as [[?|?] _]; congruence.
Qed.
End World.
Arguments SinkWorld B Row S P : clear implicits.
