(* ===== verification/CheckpointStore.v ===== *)
(** * The checkpoint store: [driver/controller/startup/checkpoint.go]

    The store keeps the checkpoints and templates of a chain in its [ChainState] row,
    which it updates through the processor service. The encoding ([common/compress]:
    JSON and gzip) is an interface with its round-trip law, the service call and the
    clock are parameters. The store is shown to satisfy [StoreLaws], what the
    controller's theorems assume of it. The quota service and the three sinks of this
    world are the empty ones of the controller package. *)
From Stdlib Require Import ZArith Lia.
From stdpp Require Import base numbers option strings sorting gmap list.
From S2P Require Import Prelude RangeBase RangeSet RangeSetOps RangeCut BlockRange Sparsify Errors Checkpoint CheckpointCtrl CheckpointSave.

(** ** The encoding *)

(** [compress.Dump] and [compress.Load] at the two types the store writes, and
    [json.Marshal] for the handler statistics; [None] is an error. *)
Class Codec : Type := {
  Dump_checkpoints : list Checkpoint -> option string;
  Load_checkpoints : string -> option (list Checkpoint);
  Dump_templates : TemplateMap -> option string;
  Load_templates : string -> option TemplateMap;
  Marshal_stat : gmap string Z -> option string;
  Load_Dump_checkpoints l b : Dump_checkpoints l = Some b -> Load_checkpoints b = Some l;
  Load_Dump_templates t b : Dump_templates t = Some b -> Load_templates b = Some t;
  Dump_checkpoints_nonempty l b : Dump_checkpoints l = Some b -> b <> EmptyString;
  Dump_templates_nonempty t b : Dump_templates t = Some b -> b <> EmptyString
}.

(** ** The chain state *)

Inductive ChainStatus : Type := UNKNOWN | ERROR | CATCHING_UP | PROCESSING_LATEST | QUEUING.

Inductive Namespace : Type := DRIVER | PROCESSOR.

Record ErrorRecord : Type := mkErrorRecord { erCode : Z; erMessage : string; erNamespace : Namespace }.

(** The fields the store reads and writes. *)
Record ChainState : Type := mkChainState {
  ProcessedBlockNumber : Z;
  ProcessedTimestampMicros : Z;
  ProcessedBlockHash : string;
  InitialStartBlockNumber : Z;
  EstimatedLatestBlockNumber : Z;
  LastBlockNumber : Z;
  IndexerState : string;
  HandlerStat : string;
  CState_State : ChainStatus;
  CState_ErrorRecord : option ErrorRecord;
  CState_Templates : string
}.

Definition maxIndexerStateSize : Z := 50 * 1024 * 1024.

Definition newErrorRecord (e : ExternalError) : ErrorRecord :=
  mkErrorRecord (ecode e) (ExternalError_Error e) (if IsUserError e then PROCESSOR else DRIVER).

Section Store.
Context `{Codec}.

Definition LoadCheckpoints (cs : ChainState) : option (list Checkpoint) :=
  if bool_decide (IndexerState cs = EmptyString) then Some [] else Load_checkpoints (IndexerState cs).

Definition LoadTemplates (cs : ChainState) : option TemplateMap :=
  if bool_decide (CState_Templates cs = EmptyString) then Some ∅ else Load_templates (CState_Templates cs).

Inductive SetResult : Type :=
| SetOk (cs : ChainState)
| SetTooBig
| SetErr (e : string).

Definition SetCheckpoints (cs : ChainState) (cks : list Checkpoint) : SetResult :=
  match Dump_checkpoints cks with
  | None => SetErr "dump checkpoints failed"
  | Some b =>
      if bool_decide (2 < length cks)%nat && (maxIndexerStateSize <? Z.of_nat (String.length b))
      then SetTooBig
      else
        match last cks with
        | None =>
            SetOk (mkChainState (-1) 0 EmptyString 0 maxI64 0 b (HandlerStat cs) CATCHING_UP None
                     (CState_Templates cs))
        | Some k =>
            SetOk (mkChainState (to_int64 (BlockNumber k)) (UnixMicro (BlockTime k)) (BlockHash k)
                     (to_int64 (StartBlock (FullBlockRange k))) (to_int64 (CurrentLastBlockNumber k))
                     (match EndBlock (FullBlockRange k) with Some e => to_int64 e | None => 0 end)
                     b (HandlerStat cs)
                     (if InWatching k || AllDone k then PROCESSING_LATEST else CATCHING_UP) None
                     (CState_Templates cs))
        end
  end.

Definition SetTemplates (cs : ChainState) (t : TemplateMap) : SetResult :=
  match Dump_templates t with
  | None => SetErr "dump templates failed"
  | Some b =>
      SetOk (mkChainState (ProcessedBlockNumber cs) (ProcessedTimestampMicros cs) (ProcessedBlockHash cs)
               (InitialStartBlockNumber cs) (EstimatedLatestBlockNumber cs) (LastBlockNumber cs)
               (IndexerState cs) (HandlerStat cs) (CState_State cs) (CState_ErrorRecord cs) b)
  end.

Definition SetHandlerStat (cs : ChainState) (stat : gmap string Z) : SetResult :=
  match Marshal_stat stat with
  | None => SetErr "dump agent stat failed"
  | Some b =>
      SetOk (mkChainState (ProcessedBlockNumber cs) (ProcessedTimestampMicros cs) (ProcessedBlockHash cs)
               (InitialStartBlockNumber cs) (EstimatedLatestBlockNumber cs) (LastBlockNumber cs)
               (IndexerState cs) b (CState_State cs) (CState_ErrorRecord cs) (CState_Templates cs))
  end.

(** What the reorganisation report says: blocks rolled back and the block reached. *)
Definition reorg_report (old new : option Checkpoint) : option (Z * Z) :=
  match old, new with
  | Some o, None => Some ((BlockNumber o -! StartBlock (FullBlockRange o)) +! 1, -1)
  | Some o, Some n =>
      if BlockNumber n <? BlockNumber o then Some (BlockNumber o -! BlockNumber n, to_int64 (BlockNumber n))
      else None
  | None, _ => None
  end.

(** ** The world of a store *)

(** [w_update] answers the calls of [updateChainState], in order ([true]: an error);
    [w_clock] are the readings of the clock; [w_reports] the reports sent. *)
Record World : Type := mkWorld {
  w_chainState : ChainState;
  w_latestCheckpoint : option Checkpoint;
  w_update : list bool;
  w_clock : nat -> Z;
  w_readings : nat;
  w_reports : list (Z * Z)
}.

Definition set_chainState (cs : ChainState) (l : option Checkpoint) (w : World) : World :=
  mkWorld cs l (w_update w) (w_clock w) (w_readings w) (w_reports w).

(** [updateChainState]; after the given answers every call succeeds. *)
Definition updateChainState (w : World) : bool * World :=
  (default false (head (w_update w)),
   mkWorld (w_chainState w) (w_latestCheckpoint w) (tail (w_update w)) (w_clock w) (w_readings w) (w_reports w)).

Definition set_bind (r : SetResult) (f : ChainState -> SetResult) : SetResult :=
  match r with SetOk cs => f cs | _ => r end.

Definition checkpointStore_Save (cks : list Checkpoint) (t : TemplateMap) (stat : gmap string Z) (w : World)
    : SaveResult * World :=
  let latest := last cks in
  let report := reorg_report (w_latestCheckpoint w) latest in
  match set_bind (set_bind (SetCheckpoints (w_chainState w) cks) (fun cs => SetTemplates cs t))
          (fun cs => SetHandlerStat cs stat) with
  | SetTooBig => (SaveTooBig, w)
  | SetErr e => (SaveErr e, w)
  | SetOk cs =>
      let '(failed, w1) := updateChainState w in
      if failed : bool then (SaveErr "update chain state failed", w1)
      else
        let w2 := set_chainState cs latest w1 in
        (SaveOk, mkWorld (w_chainState w2) (w_latestCheckpoint w2) (w_update w2) (w_clock w2) (w_readings w2)
                   (w_reports w2 ++ match report with Some r => [r] | None => [] end))
  end.

Definition checkpointStore_SaveError (e : ExternalError) (w : World) : option string * World :=
  let cs := w_chainState w in
  let cs' := mkChainState (ProcessedBlockNumber cs) (ProcessedTimestampMicros cs) (ProcessedBlockHash cs)
               (InitialStartBlockNumber cs) (EstimatedLatestBlockNumber cs) (LastBlockNumber cs)
               (IndexerState cs) (HandlerStat cs) ERROR (Some (newErrorRecord e)) (CState_Templates cs) in
  let '(failed, w1) := updateChainState w in
  if failed : bool then (Some "update chain state failed", w1)
  else (None, set_chainState cs' (w_latestCheckpoint w1) w1).

(** Load; [None] is an error. *)
Definition checkpointStore_Load (w : World) : option (list Checkpoint * TemplateMap) * World :=
  match LoadCheckpoints (w_chainState w) with
  | None => (None, w)
  | Some cks =>
      match LoadTemplates (w_chainState w) with
      | None => (None, w)
      | Some t =>
          (Some (cks, t),
           match last cks with
           | Some k => set_chainState (w_chainState w) (Some k) w
           | None => w
           end)
      end
  end.

Definition World_Now (w : World) : Z * World :=
  (w_clock w (w_readings w),
   mkWorld (w_chainState w) (w_latestCheckpoint w) (w_update w) (w_clock w) (S (w_readings w)) (w_reports w)).

(** [EmptyQuotaService], [EmptyTimeSeriesController], [EmptyEntityController] and
    [EmptyWebhookController] answer nil to everything. *)
#[global] Instance World_Services : Services World := {
  time_Now := World_Now;
  store_Save := checkpointStore_Save;
  store_SaveError := checkpointStore_SaveError;
  quota_CheckOverQuota w := (QuotaWithin, w);
  quota_SaveUsage _ _ w := (None, w);
  ts_Commit _ _ w := ((∅, None), w);
  entity_Commit _ _ w := (((∅, ∅), None), w);
  webhook_Commit _ _ w := ((∅, None), w);
  sink_Reset _ _ w := (None, w);
  sink_CachedTooMuch _ _ _ := false
}.

(** ** The laws *)

Lemma SetCheckpoints_indexer cs cks cs' :
  SetCheckpoints cs cks = SetOk cs' -> Dump_checkpoints cks = Some (IndexerState cs') /\
  (Z.of_nat (String.length (IndexerState cs')) <= maxIndexerStateSize \/ (length cks <= 2)%nat).
Proof.
  unfold SetCheckpoints. destruct (Dump_checkpoints cks) as [b|]; [|done].
  destruct (bool_decide _ && _) eqn:E; [done|]. intros Hr.
  assert (b = IndexerState cs') as <- by (destruct (last cks); injection Hr as <-; done).
  split; [done|]. apply andb_false_iff in E as [E|E].
  - apply bool_decide_eq_false in E. right. lia.
  - apply Z.ltb_ge in E. auto.
Qed.

Lemma checkpointStore_Save_loads cks t stat w w' :
  checkpointStore_Save cks t stat w = (SaveOk, w') ->
  (checkpointStore_Load w').1 = Some (cks, t) /\ w_latestCheckpoint w' = last cks.
Proof.
  unfold checkpointStore_Save, set_bind. destruct (SetCheckpoints (w_chainState w) cks) as [cs1| |] eqn:E1; try done.
  unfold SetTemplates. destruct (Dump_templates t) as [bt|] eqn:Et; [|done].
  unfold SetHandlerStat. destruct (Marshal_stat stat) as [bs|]; [|done].
  destruct (updateChainState w) as [[] w1]; [done|]. intros [= <-].
  apply SetCheckpoints_indexer in E1 as [Ec _]. split; [|done].
  unfold checkpointStore_Load, LoadCheckpoints, LoadTemplates. simpl.
  rewrite bool_decide_eq_false_2 by (by eapply Dump_checkpoints_nonempty).
  rewrite (Load_Dump_checkpoints _ _ Ec).
  rewrite bool_decide_eq_false_2 by (by eapply Dump_templates_nonempty).
  by rewrite (Load_Dump_templates _ _ Et).
Qed.

Lemma checkpointStore_Save_failed cks t stat w r w' :
  checkpointStore_Save cks t stat w = (r, w') -> r <> SaveOk -> w_chainState w' = w_chainState w.
Proof.
  unfold checkpointStore_Save. destruct (set_bind _ _); intros Hr Hn; [|by injection Hr as <- <-..].
  destruct (updateChainState w) as [failed w1] eqn:Eu. injection Eu as Ef <-.
  destruct failed; injection Hr as <- <-; done.
Qed.

Lemma checkpointStore_Save_small cks t stat w w' :
  (length cks <= 2)%nat -> checkpointStore_Save cks t stat w <> (SaveTooBig, w').
Proof.
  intros Hl. unfold checkpointStore_Save, SetCheckpoints. rewrite bool_decide_eq_false_2 by lia. simpl.
  destruct (Dump_checkpoints cks); [|done].
  assert (Hk : forall cs, (let '(failed, w1) := updateChainState w in
     if failed : bool then (SaveErr "update chain state failed", w1)
     else let w2 := set_chainState cs (last cks) w1 in
       (SaveOk, mkWorld (w_chainState w2) (w_latestCheckpoint w2) (w_update w2) (w_clock w2) (w_readings w2)
          (w_reports w2 ++ match reorg_report (w_latestCheckpoint w) (last cks) with Some r => [r] | None => [] end)))
     <> (SaveTooBig, w')) by (intros cs; destruct (updateChainState w) as [[] ?]; done).
  unfold SetTemplates, SetHandlerStat.
  destruct (last cks); simpl; (destruct (Dump_templates t); simpl; [|done]);
    (destruct (Marshal_stat stat); simpl; [|done]); apply Hk.
Qed.

Definition loadable (w : World) : option (list Checkpoint * TemplateMap) := (checkpointStore_Load w).1.

Lemma loadable_chainState w w' : w_chainState w' = w_chainState w -> loadable w' = loadable w.
Proof.
  unfold loadable, checkpointStore_Load. intros ->.
  destruct (LoadCheckpoints _); [|done]. by destruct (LoadTemplates _).
Qed.

#[refine, global] Instance World_StoreLaws : StoreLaws World := { stored := loadable }.
Proof.
  - intros cks t stat w w' Hs. by apply checkpointStore_Save_loads in Hs as [Hs _].
  - intros cks t stat w r w' Hs Hr. eapply loadable_chainState, checkpointStore_Save_failed; [exact Hs|done].
  - intros. by apply checkpointStore_Save_small.
  - intros w. by apply loadable_chainState.
  - done.
  - done.
  - done.
  - done.
  - done.
  - done.
Defined.

End Store.
