(* ===== verification/Progress.v ===== *)
(** * The run of a chain: [MainController] of [driver/controller/main.go]

    [Main] restarts [run] until the chain is done or an error may not be retried.
    Within a run, three kinds of goroutines talk over the channel [progressNotice]:
    the producer announces each block and its number of tasks, the workers report
    each finished task, and the checkpoint goroutine makes the checkpoint of a block
    once all its tasks and all earlier blocks are done. The semaphore [waitingBlocks]
    bounds the blocks in flight. The goroutines are modelled as the interleavings of
    their steps. *)
From Stdlib Require Import ZArith Lia.
From stdpp Require Import base numbers option strings gmap list.
From S2P Require Import Prelude Errors BlockRange Checkpoint.

(** ** The retry loop of [Main] *)

Definition maxDupErrRetryTimes : Z := 10.

(** What a run returns. *)
Inductive RunResult : Type :=
| RunNil
| RunReorgDetected
| RunHasNewTemplate
| RunExternal (e : ExternalError)
| RunOther.

Inductive MainResult : Type :=
| MainDone            (* nil *)
| MainError (e : ExternalError)
| MainOther
| MainCtxDone.

(** One round of the loop: the new [(lastExtErrCode, lastExtErrRound)], or the result.
    [saveFailed]: [SaveError] failed; [ctxDone]: the context ends before the wait. *)
Definition Main_round (round : Z) (lastCode lastRound : Z) (r : RunResult) (saveFailed ctxDone : bool)
    : (Z * Z) + MainResult :=
  match r with
  | RunNil => inr MainDone
  | RunReorgDetected => inl (lastCode, lastRound)
  | RunHasNewTemplate => inl (lastCode, lastRound)
  | RunOther => inr MainOther
  | RunExternal e =>
      if IsDriverError e || IsUserRuntimeError e || saveFailed then
        if negb saveFailed && (ecode e =? lastCode) then
          if maxDupErrRetryTimes <=? round - lastRound then inr (MainError e)
          else if ctxDone then inr MainCtxDone else inl (lastCode, lastRound)
        else if ctxDone then inr MainCtxDone else inl (ecode e, round)
      else inr (MainError e)
  end.

(** The loop over the rounds that the environment plays: what each run returns, whether
    saving its error failed and whether the context ended. [None]: still running. *)
Fixpoint Main_loop (round lastCode lastRound : Z) (env : list (RunResult * bool * bool)) : option MainResult :=
  match env with
  | [] => None
  | (r, sf, cd) :: rest =>
      match Main_round round lastCode lastRound r sf cd with
      | inr res => Some res
      | inl (code, rd) => Main_loop (round + 1) code rd rest
      end
  end.

Definition Main (env : list (RunResult * bool * bool)) : option MainResult := Main_loop 0 0 0 env.

(** An error with the code of the last one ends the loop at the tenth round after it. *)
Lemma Main_loop_dup e env round lastRound :
  0 < ecode e -> Forall (fun x => x = (RunExternal e, false, false)) env ->
  IsDriverError e || IsUserRuntimeError e = true ->
  lastRound < round -> round <= lastRound + maxDupErrRetryTimes ->
  Main_loop round (ecode e) lastRound env =
    if lastRound + maxDupErrRetryTimes - round <? Z.of_nat (length env) then Some (MainError e) else None.
Proof.
  intros Hc Hf Hcl. revert round.
  induction Hf as [|x env -> _ IH]; intros round Hr1 Hr2; cbn [Main_loop Main_round length].
  { destruct (Z.ltb_spec (lastRound + maxDupErrRetryTimes - round) (Z.of_nat 0)); [lia|done]. }
  rewrite Hcl. cbn [orb negb andb]. rewrite Z.eqb_refl.
  destruct (Z.leb_spec maxDupErrRetryTimes (round - lastRound)).
  - destruct (Z.ltb_spec (lastRound + maxDupErrRetryTimes - round) (Z.of_nat (S (length env)))); [done|lia].
  - rewrite IH by lia. repeat bcase; try done; lia.
Qed.

Lemma Main_dup e n :
  0 < ecode e -> IsDriverError e || IsUserRuntimeError e = true ->
  Main (replicate n (RunExternal e, false, false)) =
    if bool_decide (11 <= n)%nat then Some (MainError e) else None.
Proof.
  intros Hc Hcl. unfold Main. destruct n as [|n]; [done|]. simpl. rewrite Hcl. simpl.
  destruct (Z.eqb_spec (ecode e) 0); [lia|].
  rewrite Main_loop_dup; [|done|apply Forall_replicate; done|done|lia|unfold maxDupErrRetryTimes; lia].
  unfold maxDupErrRetryTimes. rewrite length_replicate.
  bcase; case_bool_decide; try done; lia.
Qed.

(** ** The checkpoint goroutine *)

Record BlockPanel : Type := mkBlockPanel {
  bpBlockNumber : Z;
  bpDataSummary : option BlockDataSummary;
  bpTaskCount : Z;
  bpProgressBar : ProgressBar
}.

Inductive ProgressMessage : Type :=
| BlockStart (p : BlockPanel)
| BlockTaskDone (bn : Z)
| BlockAllDone (bn : Z).

Definition dec_task (p : BlockPanel) : BlockPanel :=
  mkBlockPanel (bpBlockNumber p) (bpDataSummary p) (bpTaskCount p - 1) (bpProgressBar p).

(** The map [waiting]: a nil entry is [Some None]. *)
Abbreviation Waiting := (gmap Z (option BlockPanel)).

Inductive Status : Type :=
| Running
| Closed                        (* [makeCheckpointDone] is closed, the goroutine returned nil *)
| HasNewTemplate                (* ErrInternalHasNewTemplate *)
| MakeFailed (e : ExternalError).

Section Goroutine.
Context {S : Type} (make : BlockDataSummary -> ProgressBar -> S -> (bool * option ExternalError) * S).

(** State of the goroutine: the map, the tokens in [waitingBlocks], the state of the
    checkpoint controller and the summaries whose checkpoint was made, in order. *)
Record Maker : Type := mkMaker {
  waiting : Waiting;
  tokens : nat;
  mstate : S;
  made_log : list BlockDataSummary
}.

(** The inner loop from block [bn]. Receiving from an empty [waitingBlocks] blocks
    forever, like a loop without end. *)
Fixpoint drain (fuel : nat) (bn : Z) (m : Maker) : Outcome (Status * Maker) :=
  match fuel with
  | O => Diverge
  | Datatypes.S fuel' =>
      match waiting m !! bn with
      | Some None => Ok (Closed, m)
      | None => Ok (Running, m)
      | Some (Some r) =>
          if 0 <? bpTaskCount r then Ok (Running, m)
          else
            let '(status, m1) :=
              match bpDataSummary r with
              | None => (Running, m)
              | Some d =>
                  let '((hasNewTpl, err), s') := make d (bpProgressBar r) (mstate m) in
                  match err with
                  | Some e => (MakeFailed e, mkMaker (waiting m) (tokens m) s' (made_log m))
                  | None =>
                      if hasNewTpl : bool
                      then (HasNewTemplate, mkMaker (waiting m) (tokens m) s' (made_log m))
                      else (Running, mkMaker (waiting m) (tokens m) s' (made_log m ++ [d]))
                  end
              end in
            match status with
            | Running =>
                match tokens m1 with
                | O => Diverge
                | Datatypes.S k =>
                    drain fuel' (bn +! 1)
                      (mkMaker (delete bn (waiting m1)) k (mstate m1) (made_log m1))
                end
            | _ => Ok (status, m1)
            end
      end
  end.

Definition set_waiting (w : Waiting) (m : Maker) : Maker :=
  mkMaker w (tokens m) (mstate m) (made_log m).

(** One message. A task report for a block that is not waiting dereferences nil. *)
Definition on_message (msg : ProgressMessage) (m : Maker) : Outcome (Status * Maker) :=
  let! (bn, w) :=
    match msg with
    | BlockStart p => Ok (bpBlockNumber p, <[bpBlockNumber p := Some p]> (waiting m))
    | BlockAllDone n => Ok (n, <[n := None]> (waiting m))
    | BlockTaskDone n =>
        match waiting m !! n with
        | Some (Some p) => Ok (n, <[n := Some (dec_task p)]> (waiting m))
        | _ => Panic
        end
    end in
  let m1 := set_waiting w m in
  match (if 0 <? bn then w !! (bn - 1) else None) with
  | Some (Some _) => Ok (Running, m1)
  | _ => drain (Datatypes.S (size w)) bn m1
  end.
End Goroutine.
