(* ===== verification/ProgressSys.v ===== *)
(** * The goroutines of a run: checkpoints are made in order, each once, and the run ends

    Producer, workers and checkpoint goroutine as a transition system [sys_step] on the
    shared queue, the semaphore and the map [waiting]. The invariant [SysInv] gives:
    the checkpoint goroutine never dereferences nil and never blocks on the semaphore;
    checkpoints are made block by block, each after all its tasks; there is no
    deadlock; and every run is finite, so it ends with all checkpoints made unless
    making one fails. *)
From Stdlib Require Import ZArith Lia.
From stdpp Require Import base numbers option strings gmap list.
From S2P Require Import Prelude Errors BlockRange Checkpoint Progress.

Arguments Maker S : clear implicits.
Arguments mkMaker {S} _ _ _ _.
Arguments waiting {S} _.
Arguments tokens {S} _.
Arguments mstate {S} _.
Arguments made_log {S} _.

(** The panel of a block with [n] tasks left. *)
Definition with_tasks (p : BlockPanel) (n : Z) : BlockPanel :=
  mkBlockPanel (bpBlockNumber p) (bpDataSummary p) n (bpProgressBar p).

Section System.
Context {S : Type} (make : BlockDataSummary -> ProgressBar -> S -> (bool * option ExternalError) * S).
(** The blocks of the run are [first .. last - 1]; [last] is the number the producer
    finds outside the range. *)
Context (panel : Z -> BlockPanel) (first last : Z) (cap : nat).
Context (Hnum : forall b, bpBlockNumber (panel b) = b) (Htasks : forall b, 0 <= bpTaskCount (panel b)).
Context (Hfirst : 0 <= first) (Hrange : first <= last) (Hlast : last < maxU64).

Record Sys : Type := mkSys {
  next : Z;                       (* the next block the producer announces *)
  finished : bool;                (* the producer has announced the end *)
  todo : Z -> nat;                (* tasks of a block that are not reported yet *)
  queue : list ProgressMessage;   (* progressNotice *)
  maker : Maker S;
  status : Status
}.

Definition fn_set (f : Z -> nat) (b : Z) (n : nat) : Z -> nat := fun x => if x =? b then n else f x.

Definition set_tokens (n : nat) (m : Maker S) : Maker S :=
  mkMaker (waiting m) n (mstate m) (made_log m).

(** A step of the producer, of a worker, or of the checkpoint goroutine. *)
Inductive sys_step (σ : Sys) : Sys -> Prop :=
| sys_start :
    next σ < last -> (tokens (maker σ) < cap)%nat ->
    sys_step σ (mkSys (next σ + 1) (finished σ)
                  (fn_set (todo σ) (next σ) (Z.to_nat (bpTaskCount (panel (next σ)))))
                  (queue σ ++ [BlockStart (panel (next σ))])
                  (set_tokens (Datatypes.S (tokens (maker σ))) (maker σ)) (status σ))
| sys_all_done :
    next σ = last -> finished σ = false ->
    sys_step σ (mkSys (next σ) true (todo σ) (queue σ ++ [BlockAllDone last]) (maker σ) (status σ))
| sys_task b n :
    todo σ b = Datatypes.S n ->
    sys_step σ (mkSys (next σ) (finished σ) (fn_set (todo σ) b n) (queue σ ++ [BlockTaskDone b])
                  (maker σ) (status σ))
| sys_consume msg q st m' :
    status σ = Running -> queue σ = msg :: q -> on_message make msg (maker σ) = Ok (st, m') ->
    sys_step σ (mkSys (next σ) (finished σ) (todo σ) q m' st).

Definition sys_init (s : S) : Sys :=
  mkSys first false (fun _ => O) [] (mkMaker ∅ O s []) Running.

(** ** Counting *)

Fixpoint count_done (b : Z) (q : list ProgressMessage) : Z :=
  match q with
  | [] => 0
  | BlockTaskDone b' :: t => (if b' =? b then 1 else 0) + count_done b t
  | _ :: t => count_done b t
  end.

Fixpoint all_done_in (q : list ProgressMessage) : bool :=
  match q with
  | [] => false
  | BlockAllDone _ :: _ => true
  | _ :: t => all_done_in t
  end.

(** Tasks of block [b] whose report the checkpoint goroutine has not seen. *)
Definition remaining (td : Z -> nat) (q : list ProgressMessage) (b : Z) : Z :=
  Z.of_nat (td b) + count_done b q.

Lemma count_done_nonneg b q : 0 <= count_done b q.
Proof. induction q as [|[] q IH]; simpl; [lia..| |lia]; bcase; lia. Qed.

Lemma count_done_app b q msg : count_done b (q ++ [msg]) = count_done b q + count_done b [msg].
Proof. induction q as [|[] q IH]; simpl app; cbn [count_done] in *; lia. Qed.

Lemma all_done_in_app q msg : all_done_in (q ++ [msg]) = all_done_in q || all_done_in [msg].
Proof. induction q as [|[] q IH]; simpl; auto. Qed.

(** The queue in order, read from block [seen] on: announcements are consecutive, a
    task is reported after its block is announced, the end after all blocks. *)
Fixpoint queue_ok (nxt seen : Z) (q : list ProgressMessage) : Prop :=
  match q with
  | [] => seen = nxt
  | BlockStart p :: t => p = panel seen /\ seen < nxt /\ queue_ok nxt (seen + 1) t
  | BlockTaskDone b :: t => first <= b < seen /\ queue_ok nxt seen t
  | BlockAllDone n :: t => n = last /\ seen = last /\ all_done_in t = false /\ queue_ok nxt seen t
  end.

Lemma queue_ok_start nxt seen q :
  queue_ok nxt seen q -> all_done_in q = false ->
  queue_ok (nxt + 1) seen (q ++ [BlockStart (panel nxt)]).
Proof.
  revert seen. induction q as [|[] q IH]; simpl; intros seen H Ha.
  - subst. split_and!; [done|lia|done].
  - destruct H as (? & ? & ?). split_and!; [done|lia|auto].
  - destruct H as (? & ?). split; [done|auto].
  - done.
Qed.

Lemma queue_ok_task nxt seen q b :
  queue_ok nxt seen q -> first <= b < nxt -> queue_ok nxt seen (q ++ [BlockTaskDone b]).
Proof.
  revert seen. induction q as [|[] q IH]; simpl; intros seen H Hb.
  - subst. split; [lia|done].
  - destruct H as (? & ? & ?). split_and!; auto.
  - destruct H as (? & ?). split; auto.
  - destruct H as (? & ? & Ha & ?). split_and!; auto. by rewrite all_done_in_app, Ha.
Qed.

Lemma queue_ok_end seen q :
  queue_ok last seen q -> all_done_in q = false -> queue_ok last seen (q ++ [BlockAllDone last]).
Proof.
  revert seen. induction q as [|[] q IH]; simpl; intros seen H Ha.
  - subst. done.
  - destruct H as (? & ? & ?). split_and!; auto.
  - destruct H as (? & ?). split; auto.
  - done.
Qed.

Lemma queue_ok_seen nxt seen q : queue_ok nxt seen q -> seen <= nxt.
Proof.
  revert seen. induction q as [|[] q IH]; simpl; intros seen H; [lia|..].
  - destruct H as (_ & ? & _). lia.
  - destruct H as (_ & ?). auto.
  - destruct H as (_ & _ & _ & ?). auto.
Qed.

(** ** The map [waiting] *)

(** Exactly the blocks from [base] to [seen] are waiting, with their remaining tasks;
    [final] tells whether the end has been seen. *)
Definition held (w : Waiting) (base seen : Z) (final : bool) (rem : Z -> Z) : Prop :=
  forall b, w !! b =
    if (base <=? b) && (b <? seen) then Some (Some (with_tasks (panel b) (rem b)))
    else if final && (b =? last) then Some None else None.

(** The summaries of the blocks from [a] to [b] that have data. *)
Definition summaries (a b : Z) : list BlockDataSummary :=
  omap (fun x => bpDataSummary (panel x)) (seqZ a (b - a)).

Lemma summaries_nil a : summaries a a = [].
Proof. unfold summaries. by rewrite Z.sub_diag. Qed.

Lemma summaries_cons a b :
  a < b ->
  summaries a b = match bpDataSummary (panel a) with Some d => [d] | None => [] end ++ summaries (a + 1) b.
Proof.
  intros Hab. unfold summaries. rewrite (seqZ_cons a) by lia. simpl.
  replace (Z.pred (b - a)) with (b - (a + 1)) by lia. unfold Z.succ.
  by destruct (bpDataSummary (panel a)).
Qed.

Lemma summaries_app a b c : a <= b <= c -> summaries a c = summaries a b ++ summaries b c.
Proof.
  intros H. unfold summaries. rewrite <- omap_app. f_equal.
  replace (c - a) with ((b - a) + (c - b)) by lia. rewrite seqZ_app by lia. do 2 f_equal. lia.
Qed.

Definition make_ok : Prop := forall d p s, exists s', make d p s = ((false, None), s').

(** What the loop does with a block at the front without tasks: it makes the checkpoint. *)
Definition make_front (p : BlockPanel) (m : Maker S) : Status * Maker S :=
  match bpDataSummary p with
  | None => (Running, m)
  | Some d =>
      let '((hasNewTpl, err), s') := make d (bpProgressBar p) (mstate m) in
      match err with
      | Some e => (MakeFailed e, mkMaker (waiting m) (tokens m) s' (made_log m))
      | None =>
          if hasNewTpl : bool
          then (HasNewTemplate, mkMaker (waiting m) (tokens m) s' (made_log m))
          else (Running, mkMaker (waiting m) (tokens m) s' (made_log m ++ [d]))
      end
  end.

Lemma make_front_spec p m :
  let out := make_front p m in
  out.1 <> Closed /\ (make_ok -> out.1 = Running) /\
  (out.1 = Running -> exists s', out.2 = mkMaker (waiting m) (tokens m) s'
      (made_log m ++ match bpDataSummary p with Some d => [d] | None => [] end)).
Proof.
  unfold make_front. destruct (bpDataSummary p) as [d|].
  - destruct (make d (bpProgressBar p) (mstate m)) as [[tpl err] s'] eqn:Em.
    destruct err as [e|]; [|destruct tpl]; split_and!; simpl; try done; eauto;
      intros Hok; destruct (Hok d (bpProgressBar p) (mstate m)) as [s2 E2]; congruence.
  - split_and!; simpl; try done. intros _. exists (mstate m). rewrite app_nil_r. by destruct m.
Qed.

(** Taking the front block off the waiting ones. *)
Lemma held_delete w base seen final rem :
  base < seen -> (final = true -> seen = last) -> held w base seen final rem ->
  held (delete base w) (base + 1) seen final rem.
Proof.
  intros Hlt Hfin Hh b. destruct (decide (b = base)) as [->|Hne].
  - rewrite lookup_delete_eq. destruct (Z.leb_spec (base + 1) base); [lia|]. cbn [andb].
    destruct final; [|done]. rewrite <- (Hfin eq_refl). cbn [andb].
    destruct (Z.eqb_spec base seen); [lia|done].
  - rewrite lookup_delete_ne by done. rewrite (Hh b).
    destruct (Z.leb_spec base b), (Z.leb_spec (base + 1) b); try lia; done.
Qed.

(** The inner loop takes the blocks without tasks off the front of the waiting ones. *)
Lemma drain_spec fuel m base seen final rem :
  0 <= base -> base <= seen -> seen <= last -> (final = true -> seen = last) ->
  held (waiting m) base seen final rem -> (seen - base < Z.of_nat fuel) ->
  (seen - base <= Z.of_nat (tokens m)) ->
  exists st m' base', drain make fuel base m = Ok (st, m') /\ base <= base' <= seen /\
    (forall b, base <= b < base' -> rem b <= 0) /\
    (make_ok -> st = Running \/ st = Closed) /\
    match st with
    | Running =>
        held (waiting m') base' seen final rem /\ (base' < seen -> 0 < rem base') /\
        (final = true -> base' < seen) /\
        Z.of_nat (tokens m') = Z.of_nat (tokens m) - (base' - base) /\
        made_log m' = made_log m ++ summaries base base'
    | Closed => base' = last /\ made_log m' = made_log m ++ summaries base last
    | _ => True
    end.
Proof.
  intros Hb0 Hbs Hsl Hfin. revert m base Hb0 Hbs.
  induction fuel as [|fuel IH]; intros m base Hb0 Hbs Hh Hf Ht; [lia|].
  cbn [drain]. rewrite (Hh base).
  assert (Hnone : forall l : list BlockDataSummary, l = l ++ summaries base base)
    by (intros l; by rewrite summaries_nil, app_nil_r).
  rewrite (proj2 (Z.leb_le base base)) by lia. cbn [andb].
  destruct (Z.ltb_spec base seen) as [Hlt|Hge].
  2:{ assert (base = seen) as -> by lia. destruct final; cbn [andb].
      - rewrite (Hfin eq_refl) in *. rewrite Z.eqb_refl.
        exists Closed, m, last. split_and!; [done|lia|lia|intros; lia|auto|done|apply Hnone].
      - exists Running, m, seen. split_and!; [done|lia|lia|intros; lia|auto|done|lia|done|lia|apply Hnone]. }
  cbn [with_tasks bpTaskCount bpDataSummary bpProgressBar].
  destruct (Z.ltb_spec 0 (rem base)) as [Hr|Hr].
  { exists Running, m, base. split_and!; [done|lia|lia|intros; lia|auto|done|done|lia|lia|apply Hnone]. }
  change (match bpDataSummary (panel base) with None => _ | Some _ => _ end)
    with (make_front (with_tasks (panel base) (rem base)) m).
  pose proof (make_front_spec (with_tasks (panel base) (rem base)) m) as Hout.
  destruct (make_front _ m) as [st m1]. cbn [fst snd with_tasks bpDataSummary] in Hout.
  destruct Hout as (Hnc & Hok & Hrun).
  destruct st; [|done|exists HasNewTemplate, m1, base|exists (MakeFailed e), m1, base].
  2,3: split_and!; [done|lia|lia|intros; lia|by auto|done].
  destruct (Hrun eq_refl) as [s' ->]. cbn [tokens waiting mstate made_log].
  destruct (tokens m) as [|k] eqn:Ek; [lia|].
  rewrite add64_small by (unfold two64, maxU64 in *; lia).
  destruct (IH (mkMaker (delete base (waiting m)) k s'
      (made_log m ++ match bpDataSummary (panel base) with Some d => [d] | None => [] end)) (base + 1))
    as (st & m' & base' & E & Hb & Hz & Hmk & Hst); cbn [waiting tokens made_log];
    [lia|lia|by apply held_delete|lia|lia|].
  exists st, m', base'. split; [exact E|]. split; [lia|]. split.
  { intros b Hb'. destruct (decide (b = base)) as [->|]; [lia|apply Hz; lia]. }
  split; [auto|]. destruct st; [|..]; try done.
  - destruct Hst as (H1 & H2 & H3 & H4 & H5). split_and!; [done..|cbn in H4; lia|].
    rewrite H5. cbn. by rewrite (summaries_cons base base') by lia; rewrite app_assoc.
  - destruct Hst as (H1 & H5). split; [done|].
    rewrite H5. cbn. by rewrite (summaries_cons base last) by lia; rewrite app_assoc.
Qed.

Lemma held_size w base seen final rem :
  held w base seen final rem -> seen - base <= Z.of_nat (size w).
Proof.
  intros Hh. destruct (Z_lt_le_dec seen base); [lia|].
  assert (Hsub : list_to_set (seqZ base (seen - base)) ⊆ (dom w : gset Z)).
  { intros b Hb. apply elem_of_list_to_set, elem_of_seqZ in Hb. apply elem_of_dom. rewrite (Hh b).
    rewrite (proj2 (Z.leb_le base b)), (proj2 (Z.ltb_lt b seen)) by lia. by eexists. }
  apply subseteq_size in Hsub. rewrite size_list_to_set, length_seqZ, size_dom in Hsub by apply NoDup_seqZ.
  lia.
Qed.

(** ** The invariant *)

Record SysInv (σ : Sys) (base seen : Z) (final : bool) : Prop := mkSysInv {
  si_order : first <= base <= seen /\ seen <= next σ <= last;
  si_queue : queue_ok (next σ) seen (queue σ);
  si_end : finished σ = final || all_done_in (queue σ);
  si_final : final = true -> seen = last /\ all_done_in (queue σ) = false;
  si_done : forall b, first <= b < base -> remaining (todo σ) (queue σ) b = 0;
  si_ahead : forall b, seen <= b < next σ -> remaining (todo σ) (queue σ) b = bpTaskCount (panel b);
  si_todo : forall b, todo σ b <> O -> first <= b < next σ;
  si_held : held (waiting (maker σ)) base seen final (remaining (todo σ) (queue σ));
  si_head : base < seen -> 0 < remaining (todo σ) (queue σ) base;
  si_open : final = true -> base < seen;
  si_tokens : Z.of_nat (tokens (maker σ)) = next σ - base;
  si_log : made_log (maker σ) = summaries first base
}.

Lemma remaining_nonneg td q b : 0 <= remaining td q b.
Proof. unfold remaining. pose proof (count_done_nonneg b q). lia. Qed.

Lemma held_ext w base seen final rem rem' :
  (forall b, base <= b < seen -> rem b = rem' b) -> held w base seen final rem ->
  held w base seen final rem'.
Proof.
  intros He Hh b. rewrite (Hh b). destruct (Z.leb_spec base b), (Z.ltb_spec b seen); try done.
  simpl. by rewrite He by lia.
Qed.

(** Before the first waiting block there is no entry. *)
Lemma held_before w base seen final rem :
  (final = true -> seen = last) -> base <= seen -> held w base seen final rem -> w !! (base - 1) = None.
Proof.
  intros Hf Hbs Hh. rewrite (Hh (base - 1)). destruct (Z.leb_spec base (base - 1)); [lia|]. cbn [andb].
  destruct final; [|done]. rewrite <- (Hf eq_refl). cbn [andb]. destruct (Z.eqb_spec (base - 1) seen); [lia|done].
Qed.

(** The common end of a message: the map [w] holds the blocks [base, seen) with their
    tasks [rem]; the goroutine goes on waiting or drains from [base]. *)
Lemma settle m w base seen final rem bn :
  first <= base <= seen -> seen <= last -> (final = true -> seen = last) ->
  held w base seen final rem -> (seen - base <= Z.of_nat (tokens m)) ->
  made_log m = summaries first base ->
  (base <= bn <= seen) -> (bn = base \/ 0 < rem base) ->
  (bn < seen \/ final = true) -> (forall b, 0 <= rem b) ->
  exists st m' base',
    (match (if 0 <? bn then w !! (bn - 1) else None) with
     | Some (Some _) => Ok (Running, set_waiting w m)
     | _ => drain make (Datatypes.S (size w)) bn (set_waiting w m)
     end) = Ok (st, m') /\ base <= base' <= seen /\
    (forall b, base <= b < base' -> rem b = 0) /\
    (make_ok -> st = Running \/ st = Closed) /\
    match st with
    | Running =>
        held (waiting m') base' seen final rem /\ (base' < seen -> 0 < rem base') /\
        (final = true -> base' < seen) /\
        Z.of_nat (tokens m') = Z.of_nat (tokens m) - (base' - base) /\
        made_log m' = summaries first base'
    | Closed => made_log m' = summaries first last
    | _ => True
    end.
Proof.
  intros Hb Hs Hfin Hh Ht Hlog Hbn Hor Hfs Hnn. destruct (decide (bn = base)) as [->|Hne].
  - assert (Hprev : (if 0 <? base then w !! (base - 1) else None) = None)
      by (bcase; [eapply held_before; eauto; lia|done]).
    rewrite Hprev. pose proof (held_size _ _ _ _ _ Hh).
    destruct (drain_spec (Datatypes.S (size w)) (set_waiting w m) base seen final rem)
      as (st & m' & base' & E & H1 & H2 & H3 & H4); [lia|lia|lia|done|done|lia|done|].
    exists st, m', base'. split_and!; [exact E|lia|lia| |done|].
    { intros b Hb'. specialize (H2 b Hb'). specialize (Hnn b). lia. }
    cbn [made_log set_waiting] in H4. rewrite Hlog in H4. destruct st; try done.
    + destruct H4 as (? & ? & ? & ? & E'). split_and!; [done..|].
      rewrite E'. symmetry. apply summaries_app. lia.
    + destruct H4 as (? & E'). rewrite E'. symmetry. apply summaries_app. lia.
  - destruct Hor as [?|Hr]; [done|].
    assert (Hprev : exists p, (if 0 <? bn then w !! (bn - 1) else None) = Some (Some p)).
    { destruct (Z.ltb_spec 0 bn); [|lia]. rewrite (Hh (bn - 1)).
      rewrite (proj2 (Z.leb_le base (bn - 1))), (proj2 (Z.ltb_lt (bn - 1) seen)) by lia. by eexists. }
    destruct Hprev as [p ->]. exists Running, (set_waiting w m), base.
    split_and!; [done|lia|lia|intros; lia|auto|done|done| |cbn; lia|done].
    intros Hf. destruct Hfs; lia.
Qed.

(** ** Every step keeps the invariant *)

Lemma inv_init s : SysInv (sys_init s) first first false.
Proof.
  split; simpl; try done; try lia; try (intros; lia).
  - intros b. destruct (Z.leb_spec first b), (Z.ltb_spec b first); try done; lia.
  - by rewrite summaries_nil.
Qed.

Lemma inv_start σ base seen final :
  SysInv σ base seen final -> next σ < last -> (tokens (maker σ) < cap)%nat ->
  SysInv (mkSys (next σ + 1) (finished σ)
                (fn_set (todo σ) (next σ) (Z.to_nat (bpTaskCount (panel (next σ)))))
                (queue σ ++ [BlockStart (panel (next σ))])
                (set_tokens (Datatypes.S (tokens (maker σ))) (maker σ)) (status σ)) base seen final.
Proof.
  intros [Ho Hq He Hf Hd Ha Ht Hh Hhd Hop Htk Hl] Hn Hc.
  assert (Hfin : final = false) by (destruct final; [destruct (Hf eq_refl); lia|done]).
  assert (Had : all_done_in (queue σ) = false).
  { destruct (all_done_in (queue σ)) eqn:E; [|done]. exfalso. clear -Hq E Hn.
    revert Hq E. generalize seen. induction (queue σ) as [|[] q IH]; simpl; intros sn H E; [done|..].
    - destruct H as (_ & _ & H). eauto.
    - destruct H as (_ & H). eauto.
    - destruct H as (_ & -> & _ & H). apply queue_ok_seen in H. lia. }
  assert (Hrem : forall b, b <> next σ ->
    remaining (fn_set (todo σ) (next σ) (Z.to_nat (bpTaskCount (panel (next σ)))))
      (queue σ ++ [BlockStart (panel (next σ))]) b = remaining (todo σ) (queue σ) b).
  { intros b Hb. unfold remaining, fn_set. rewrite count_done_app. simpl. bcase; [done|lia]. }
  assert (Hcz : remaining (todo σ) (queue σ) (next σ) = 0).
  { unfold remaining. destruct (todo σ (next σ)) eqn:E; [|specialize (Ht (next σ)); lia].
    assert (count_done (next σ) (queue σ) = 0); [|lia]. clear -Hq. generalize dependent seen.
    induction (queue σ) as [|[] q IH]; simpl; intros sn H; [done|..].
    - destruct H as (_ & _ & H). eauto.
    - destruct H as (? & H). pose proof (queue_ok_seen _ _ _ H). bcase; [lia|]. rewrite (IH sn); [done|done].
    - destruct H as (_ & _ & _ & H). eauto. }
  split; cbn [next finished todo queue maker status waiting tokens made_log set_tokens].
  - lia.
  - by apply queue_ok_start.
  - rewrite all_done_in_app. simpl. by rewrite orb_false_r.
  - by subst final.
  - intros b Hb. rewrite Hrem by lia. by apply Hd.
  - intros b Hb. destruct (decide (b = next σ)) as [->|Hne]; [|rewrite Hrem by done; apply Ha; lia].
    unfold remaining in *. rewrite count_done_app. unfold fn_set. rewrite Z.eqb_refl. simpl.
    specialize (Htasks (next σ)). pose proof (count_done_nonneg (next σ) (queue σ)). lia.
  - intros b. unfold fn_set. bcase; [lia|]. intros H1. specialize (Ht b H1). lia.
  - eapply held_ext; [|exact Hh]. intros b Hb. rewrite Hrem by lia. done.
  - intros Hb. rewrite Hrem by lia. auto.
  - done.
  - lia.
  - done.
Qed.

Lemma inv_all_done σ base seen final :
  SysInv σ base seen final -> next σ = last -> finished σ = false ->
  SysInv (mkSys (next σ) true (todo σ) (queue σ ++ [BlockAllDone last]) (maker σ) (status σ)) base seen final.
Proof.
  intros [Ho Hq He Hf Hd Ha Ht Hh Hhd Hop Htk Hl] Hn Hfi.
  rewrite Hfi in He. symmetry in He. apply orb_false_iff in He as [-> Had].
  assert (Hrem : forall b, remaining (todo σ) (queue σ ++ [BlockAllDone last]) b
                           = remaining (todo σ) (queue σ) b).
  { intros b. unfold remaining. rewrite count_done_app. simpl. lia. }
  split; cbn [next finished todo queue maker status]; try done.
  - rewrite Hn in *. by apply queue_ok_end.
  - rewrite all_done_in_app, Had. done.
  - intros b. rewrite Hrem. apply Hd.
  - intros b. rewrite Hrem. apply Ha.
  - eapply held_ext; [|exact Hh]. intros b _. by rewrite Hrem.
  - by rewrite Hrem.
Qed.

Lemma inv_task σ base seen final b n :
  SysInv σ base seen final -> todo σ b = Datatypes.S n ->
  SysInv (mkSys (next σ) (finished σ) (fn_set (todo σ) b n) (queue σ ++ [BlockTaskDone b])
                (maker σ) (status σ)) base seen final.
Proof.
  intros [Ho Hq He Hf Hd Ha Ht Hh Hhd Hop Htk Hl] Hb.
  assert (Hrem : forall x, remaining (fn_set (todo σ) b n) (queue σ ++ [BlockTaskDone b]) x
                           = remaining (todo σ) (queue σ) x).
  { intros x. unfold remaining, fn_set. rewrite count_done_app. cbn [count_done].
    destruct (Z.eqb_spec x b), (Z.eqb_spec b x); subst; try done; lia. }
  pose proof (Ht b ltac:(lia)) as Hrange_b.
  split; cbn [next finished todo queue maker status]; try done.
  - by apply queue_ok_task.
  - rewrite all_done_in_app. simpl. by rewrite orb_false_r.
  - rewrite all_done_in_app. simpl. rewrite orb_false_r. done.
  - intros x. rewrite Hrem. apply Hd.
  - intros x. rewrite Hrem. apply Ha.
  - intros x. unfold fn_set. bcase; [subst; intros _; done|apply Ht].
  - eapply held_ext; [|exact Hh]. intros x _. by rewrite Hrem.
  - by rewrite Hrem.
Qed.

(** What the invariant asks of the state behind a message, before the goroutine has
    settled. *)
Lemma inv_settled σ q base seen final st m' base' :
  first <= base <= base' -> base' <= seen -> seen <= next σ <= last -> queue_ok (next σ) seen q ->
  finished σ = final || all_done_in q -> (final = true -> seen = last /\ all_done_in q = false) ->
  (forall b, first <= b < base -> remaining (todo σ) q b = 0) ->
  (forall b, base <= b < base' -> remaining (todo σ) q b = 0) ->
  (forall b, seen <= b < next σ -> remaining (todo σ) q b = bpTaskCount (panel b)) ->
  (forall b, todo σ b <> O -> first <= b < next σ) ->
  held (waiting m') base' seen final (remaining (todo σ) q) ->
  (base' < seen -> 0 < remaining (todo σ) q base') -> (final = true -> base' < seen) ->
  Z.of_nat (tokens m') = next σ - base' -> made_log m' = summaries first base' ->
  SysInv (mkSys (next σ) (finished σ) (todo σ) q m' st) base' seen final.
Proof.
  intros Hb1 Hb2 Hsn Hq He Hf Hd1 Hd2. intros.
  split; cbn [next finished todo queue maker status]; try done; try lia.
  intros b Hb. destruct (Z_lt_le_dec b base); [apply Hd1|apply Hd2]; lia.
Qed.

Definition consumed (σ : Sys) (q : list ProgressMessage) (st : Status) (m' : Maker S) : Prop :=
  match st with
  | Running => exists base seen final,
      SysInv (mkSys (next σ) (finished σ) (todo σ) q m' Running) base seen final
  | Closed => made_log m' = summaries first last
  | _ => True
  end.

(** The goroutine takes the message without a panic and without blocking. *)
Definition taken_up (σ : Sys) (msg : ProgressMessage) (q : list ProgressMessage) : Prop :=
  exists st m', on_message make msg (maker σ) = Ok (st, m') /\
    (make_ok -> st = Running \/ st = Closed) /\ consumed σ q st m'.

(** A block is announced. *)
Lemma inv_on_start σ base seen final p q :
  SysInv σ base seen final -> queue σ = BlockStart p :: q -> taken_up σ (BlockStart p) q.
Proof.
  intros [Ho Hq He Hf Hd Ha Ht Hh Hhd Hop Htk Hl] Eq. rewrite Eq in *.
  unfold taken_up. cbn [queue_ok all_done_in] in *.
  assert (Hnn : forall b, 0 <= remaining (todo σ) q b) by (intros; apply remaining_nonneg).
  destruct Hq as (-> & Hlt & Hq).
  assert (Hfin : final = false) by (destruct final; [destruct (Hf eq_refl); lia|done]).
  unfold on_message. cbn [obind]. rewrite !Hnum.
  destruct (settle (maker σ) (<[seen := Some (panel seen)]> (waiting (maker σ))) base (seen + 1) final
              (remaining (todo σ) q) seen) as (st & m' & base' & E & H1 & H2 & H3 & H4).
  all: try done; try lia.
  { by subst final. }
  { intros b. destruct (decide (b = seen)) as [->|Hne].
    - rewrite lookup_insert_eq.
      rewrite (proj2 (Z.leb_le base seen)), (proj2 (Z.ltb_lt seen (seen + 1))) by lia. cbn [andb].
      specialize (Ha seen ltac:(lia)). unfold remaining in Ha. cbn [count_done] in Ha.
      unfold remaining. rewrite Ha. by destruct (panel seen).
    - rewrite lookup_insert_ne by done. rewrite (Hh b).
      destruct (Z.leb_spec base b), (Z.ltb_spec b seen), (Z.ltb_spec b (seen + 1)); try done; lia. }
  { destruct (decide (seen = base)); [auto|right]. apply Hhd. lia. }
  exists st, m'. split_and!; [exact E|done|]. destruct st; try done. destruct H4 as (G1 & G2 & G3 & G4 & G5).
  exists base', (seen + 1), final.
  apply (inv_settled σ q base (seen + 1) final Running m' base'); try done; try lia; [by subst final|..].
  intros b Hb. apply Ha. lia.
Qed.

(** A task is done. *)
Lemma inv_on_task σ base seen final b q :
  SysInv σ base seen final -> queue σ = BlockTaskDone b :: q -> taken_up σ (BlockTaskDone b) q.
Proof.
  intros [Ho Hq He Hf Hd Ha Ht Hh Hhd Hop Htk Hl] Eq. rewrite Eq in *.
  unfold taken_up. cbn [queue_ok all_done_in] in *.
  assert (Hnn : forall b, 0 <= remaining (todo σ) q b) by (intros; apply remaining_nonneg).
  destruct Hq as (Hb & Hq).
  assert (Hone : forall x, remaining (todo σ) (BlockTaskDone b :: q) x
                           = (if b =? x then 1 else 0) + remaining (todo σ) q x)
    by (intros x; unfold remaining; cbn [count_done]; lia).
  assert (Hbb : base <= b).
  { destruct (Z_lt_le_dec b base) as [Hlt|]; [|done]. specialize (Hd b ltac:(lia)).
    rewrite Hone, Z.eqb_refl in Hd. specialize (Hnn b). lia. }
  unfold on_message. rewrite (Hh b).
  rewrite (proj2 (Z.leb_le base b)), (proj2 (Z.ltb_lt b seen)) by lia. cbn [andb obind].
  set (w := <[b := _]> (waiting (maker σ))).
  destruct (settle (maker σ) w base seen final (remaining (todo σ) q) b)
    as (st & m' & base' & E & H1 & H2 & H3 & H4).
  all: try done; try lia.
  { intros Hft. by destruct (Hf Hft). }
  { intros x. subst w. destruct (decide (x = b)) as [->|Hne].
    - rewrite lookup_insert_eq.
      rewrite (proj2 (Z.leb_le base b)), (proj2 (Z.ltb_lt b seen)) by lia. cbn [andb].
      rewrite Hone, Z.eqb_refl. unfold dec_task, with_tasks. cbn [bpBlockNumber bpDataSummary bpTaskCount bpProgressBar].
      do 3 f_equal. lia.
    - rewrite lookup_insert_ne by done. rewrite (Hh x), Hone.
      destruct (Z.eqb_spec b x); [congruence|]. by rewrite Z.add_0_l. }
  { destruct (decide (b = base)); [auto|right]. specialize (Hhd ltac:(lia)).
    rewrite Hone in Hhd. destruct (Z.eqb_spec b base); lia. }
  exists st, m'. split_and!; [exact E|done|]. destruct st; try done. destruct H4 as (G1 & G2 & G3 & G4 & G5).
  exists base', seen, final.
  apply (inv_settled σ q base seen final Running m' base'); try done; try lia.
  + intros x Hx. specialize (Hd x Hx). rewrite Hone in Hd. specialize (Hnn x).
    destruct (Z.eqb_spec b x); lia.
  + intros x Hx. specialize (Ha x Hx). rewrite Hone in Ha. destruct (Z.eqb_spec b x); [lia|]. lia.
Qed.

(** The end is announced. *)
Lemma inv_on_end σ base seen final n q :
  SysInv σ base seen final -> queue σ = BlockAllDone n :: q -> taken_up σ (BlockAllDone n) q.
Proof.
  intros [Ho Hq He Hf Hd Ha Ht Hh Hhd Hop Htk Hl] Eq. rewrite Eq in *.
  unfold taken_up. cbn [queue_ok all_done_in] in *.
  assert (Hnn : forall b, 0 <= remaining (todo σ) q b) by (intros; apply remaining_nonneg).
  destruct Hq as (-> & -> & Had & Hq).
  assert (Hfin : final = false) by (destruct final; [destruct (Hf eq_refl); done|done]). subst final.
  pose proof (queue_ok_seen _ _ _ Hq) as Hs.
  unfold on_message. cbn [obind].
  destruct (settle (maker σ) (<[last := None]> (waiting (maker σ))) base last true
              (remaining (todo σ) q) last) as (st & m' & base' & E & H1 & H2 & H3 & H4).
  all: try done; try lia.
  { intros b. destruct (decide (b = last)) as [->|Hne].
    - rewrite lookup_insert_eq. rewrite (proj2 (Z.ltb_ge last last)), andb_false_r, Z.eqb_refl by lia. done.
    - rewrite lookup_insert_ne by done. rewrite (Hh b). cbn [andb].
      destruct (Z.eqb_spec b last); [done|]. reflexivity. }
  { destruct (decide (last = base)); [auto|right]. apply Hhd. lia. }
  exists st, m'. split_and!; [exact E|done|]. destruct st; try done. destruct H4 as (G1 & G2 & G3 & G4 & G5).
  exists base', last, true.
  apply (inv_settled σ q base last true Running m' base'); try done; try lia; rewrite He; done.
Qed.

Lemma inv_consume σ base seen final msg q :
  SysInv σ base seen final -> queue σ = msg :: q -> taken_up σ msg q.
Proof. destruct msg; [apply inv_on_start|apply inv_on_task|apply inv_on_end]. Qed.

(** ** Runs *)

(** What holds along every run. *)
Definition good (σ : Sys) : Prop :=
  match status σ with
  | Running => exists base seen final, SysInv σ base seen final
  | Closed => made_log (maker σ) = summaries first last
  | _ => True
  end.

Lemma sys_step_good σ σ' : sys_step σ σ' -> good σ -> good σ'.
Proof.
  intros Hs Hg. destruct Hs as [Hn Hc|Hn Hfi|b n Hb|msg q st m' Hr Hq Hm]; unfold good in *; cbn [status maker made_log set_tokens].
  - destruct (status σ) eqn:Est; try done. destruct Hg as (base & seen & final & Hi).
    exists base, seen, final. pose proof (inv_start σ base seen final Hi Hn Hc) as Hi'. by rewrite Est in Hi'.
  - destruct (status σ) eqn:Est; try done. destruct Hg as (base & seen & final & Hi).
    exists base, seen, final. pose proof (inv_all_done σ base seen final Hi Hn Hfi) as Hi'. by rewrite Est in Hi'.
  - destruct (status σ) eqn:Est; try done. destruct Hg as (base & seen & final & Hi).
    exists base, seen, final. pose proof (inv_task σ base seen final b n Hi Hb) as Hi'. by rewrite Est in Hi'.
  - rewrite Hr in Hg. destruct Hg as (base & seen & final & Hi).
    destruct (inv_consume σ base seen final msg q Hi Hq) as (st' & m2 & E & _ & Hcon).
    rewrite Hm in E. injection E as <- <-. destruct st; done.
Qed.

Lemma sys_reach_good s σ : rtc sys_step (sys_init s) σ -> good σ.
Proof.
  assert (Hi : good (sys_init s)) by (exists first, first, false; apply inv_init).
  intros Hr. revert Hi. induction Hr; eauto using sys_step_good.
Qed.

(** While the goroutine is running, some goroutine can take a step. *)
Lemma sys_no_deadlock σ : (0 < cap)%nat -> good σ -> status σ = Running -> exists σ', sys_step σ σ'.
Proof.
  intros Hcap Hg Hr. unfold good in Hg. rewrite Hr in Hg. destruct Hg as (base & seen & final & Hi).
  destruct (queue σ) as [|msg q] eqn:Eq.
  2:{ destruct (inv_consume σ base seen final msg q Hi Eq) as (st & m' & E & _).
      eexists. by eapply sys_consume. }
  destruct Hi as [Ho Hq He Hf Hd Ha Ht Hh Hhd Hop Htk Hl]. rewrite Eq in *. simpl in Hq.
  destruct (Z_lt_le_dec base seen) as [Hlt|Hge].
  { specialize (Hhd Hlt). unfold remaining in Hhd. simpl in Hhd.
    destruct (todo σ base) as [|n] eqn:En; [lia|]. eexists. by eapply sys_task. }
  destruct (Z_lt_le_dec (next σ) last) as [Hn|Hn].
  { eexists. eapply sys_start; [done|lia]. }
  destruct (finished σ) eqn:Efi; [|eexists; eapply sys_all_done; [lia|done]].
  simpl in He. rewrite orb_false_r in He. symmetry in He. specialize (Hop He). lia.
Qed.

(** ** Runs are finite *)

(** Steps left: for each block not announced yet its announcement, its tasks and their
    messages; for each open task and for the end two steps; for each message one. *)
Definition block_work (b : Z) : nat := (2 + 2 * Z.to_nat (bpTaskCount (panel b)))%nat.
Definition sum_over (f : Z -> nat) (a b : Z) : nat := sum_list_with f (seqZ a (b - a)).

Definition work (σ : Sys) : nat :=
  (sum_over block_work (next σ) last + 2 * sum_over (todo σ) first (next σ)
   + (if finished σ then 0 else 2) + length (queue σ))%nat.

Lemma sum_over_snoc f a b : a <= b -> sum_over f a (b + 1) = (sum_over f a b + f b)%nat.
Proof.
  intros H. unfold sum_over. replace (b + 1 - a) with ((b - a) + 1) by lia.
  rewrite seqZ_app, sum_list_with_app by lia. replace (a + (b - a)) with b by lia.
  rewrite (seqZ_cons b 1) by lia. simpl. lia.
Qed.

Lemma sum_over_cons f a b : a < b -> sum_over f a b = (f a + sum_over f (a + 1) b)%nat.
Proof.
  intros H. unfold sum_over. rewrite (seqZ_cons a) by lia. simpl.
  replace (Z.pred (b - a)) with (b - (a + 1)) by lia. done.
Qed.

Lemma sum_over_ext f g a b : (forall x, a <= x < b -> f x = g x) -> sum_over f a b = sum_over g a b.
Proof.
  intros H. unfold sum_over. assert (Hin : Forall (fun x => f x = g x) (seqZ a (b - a))).
  { apply Forall_forall. intros x Hx%elem_of_seqZ. apply H. lia. }
  induction Hin; simpl; congruence.
Qed.

Lemma sum_over_dec f a b x n :
  a <= x < b -> f x = Datatypes.S n -> (sum_over (fn_set f x n) a b + 1 = sum_over f a b)%nat.
Proof.
  intros Hx Hf. unfold sum_over.
  replace (b - a) with ((x - a) + (b - x)) by lia.
  rewrite seqZ_app, !sum_list_with_app by lia. replace (a + (x - a)) with x by lia.
  rewrite (seqZ_cons x) by lia. simpl. unfold fn_set at 2. rewrite Z.eqb_refl, Hf.
  pose proof (sum_over_ext (fn_set f x n) f a x) as H1.
  pose proof (sum_over_ext (fn_set f x n) f (Z.succ x) b) as H2. unfold sum_over in *.
  replace (Z.pred (b - x)) with (b - Z.succ x) by lia.
  rewrite H1, H2; [lia|..]; intros y Hy; unfold fn_set; (destruct (Z.eqb_spec y x); [lia|done]).
Qed.

(** Every step uses up some of the work. *)
Lemma work_decreases σ σ' : good σ -> status σ = Running -> sys_step σ σ' -> (work σ' < work σ)%nat.
Proof.
  intros Hg Hr Hs. unfold good in Hg. rewrite Hr in Hg. destruct Hg as (base & seen & final & Hi).
  destruct Hi as [Ho _ _ _ _ _ Ht _ _ _ _ _].
  unfold work. destruct Hs as [Hn Hc|Hn Hfi|b n Hb|msg q st m' _ Hq Hm]; cbn [next finished todo queue].
  - rewrite length_app, (sum_over_cons block_work (next σ) last) by done.
    rewrite (sum_over_snoc (fn_set _ _ _)) by lia. set (t := Z.to_nat _).
    assert (Hat : fn_set (todo σ) (next σ) t (next σ) = t) by (unfold fn_set; by rewrite Z.eqb_refl).
    rewrite Hat, (sum_over_ext (fn_set _ _ _) (todo σ)); [simpl; unfold block_work; fold t; lia|].
    intros x Hx. unfold fn_set. destruct (Z.eqb_spec x (next σ)); [lia|done].
  - rewrite length_app, Hfi. simpl. lia.
  - rewrite length_app. simpl.
    pose proof (sum_over_dec (todo σ) first (next σ) b n (Ht b ltac:(lia)) Hb). lia.
  - rewrite Hq. simpl. lia.
Qed.

(** As long as making checkpoints does not fail, the goroutine runs on or has closed. *)
Lemma sys_step_running σ σ' :
  make_ok -> good σ -> status σ = Running -> sys_step σ σ' -> status σ' = Running \/ status σ' = Closed.
Proof.
  intros Hok Hg Hr Hs. destruct Hs as [Hn Hc|Hn Hfi|b n Hb|msg q st m' _ Hq Hm]; cbn [status]; auto.
  unfold good in Hg. rewrite Hr in Hg. destruct Hg as (base & seen & final & Hi).
  destruct (inv_consume σ base seen final msg q Hi Hq) as (st' & m2 & E & Hst & _).
  rewrite Hm in E. injection E as <- <-. auto.
Qed.

(** Whatever steps are taken, [P] comes to hold, and until then some step can be taken. *)
Inductive inevitably (P : Sys -> Prop) (σ : Sys) : Prop :=
| inevitably_now : P σ -> inevitably P σ
| inevitably_later :
    (exists σ', sys_step σ σ') -> (forall σ', sys_step σ σ' -> inevitably P σ') -> inevitably P σ.

(** The chain is finished: every checkpoint made, in order. *)
Definition complete (σ : Sys) : Prop :=
  status σ = Closed /\ made_log (maker σ) = summaries first last.

(** From every state of a run, on every path, the chain gets finished. *)
Lemma sys_completes σ :
  (0 < cap)%nat -> make_ok -> good σ -> status σ = Running -> inevitably complete σ.
Proof.
  intros Hcap Hok. remember (work σ) as n eqn:En. revert σ En.
  induction n as [n IH] using lt_wf_ind. intros σ -> Hg Hr.
  apply inevitably_later; [by apply sys_no_deadlock|]. intros σ1 Hs.
  pose proof (sys_step_good _ _ Hs Hg) as Hg1. pose proof (work_decreases _ _ Hg Hr Hs) as Hw.
  destruct (sys_step_running _ _ Hok Hg Hr Hs) as [Hr1|Hc1]; [by apply (IH (work σ1))|].
  apply inevitably_now. split; [done|]. unfold good in Hg1. by rewrite Hc1 in Hg1.
Qed.
End System.
