(* ===== verification/BlockBuilder.v ===== *)
(** * The block builder: [driver/controller/block_builder.go]

    The builder walks the blocks of a chain, gets the data of each from the fetcher and
    checks that every block still links to the ones before it. [checkReorg] compares
    the recorded headers with the chain; the theorem says which block it reports. *)
From Stdlib Require Import ZArith Lia.
From stdpp Require Import base numbers option strings sorting gmap list.
From S2P Require Import Prelude Errors BlockRange RangeBase Sparsify Checkpoint.

(** ** Checking for a reorganisation *)

Section CheckReorg.
(** [client.GetHeaderIgnoreCache]: the header, or an error. *)
Context (getHeader : Z -> BlockHeader + string).

(** The loop from the last recorded header down; [isLast] tells whether the header is
    the last recorded one. *)
Fixpoint checkReorg_scan (hs_rev : list BlockHeader) (isLast : bool) (reorg : option Z)
    : option Z * option string :=
  match hs_rev with
  | [] => (reorg, None)
  | h0 :: t =>
      match getHeader (GetBlockNumber h0) with
      | inr err => (reorg, Some err)
      | inl h =>
          if bool_decide (GetBlockHash h = GetBlockHash h0)
          then (if isLast then reorg else Some (GetBlockNumber h +! 1), None)
          else checkReorg_scan t false (Some (GetBlockNumber h0))
      end
  end.

Definition checkReorg (headerList : list BlockHeader) (cur : BlockHeader) (allowScan : bool)
    : option Z * option string :=
  match last headerList with
  | None => (None, None)
  | Some pre =>
      if GetBlockNumber pre +! 1 =? GetBlockNumber cur then
        if bool_decide (GetBlockParentHash cur = GetBlockHash pre) then (None, None)
        else checkReorg_scan (rev headerList) true None
      else if negb allowScan then (None, None)
      else checkReorg_scan (rev headerList) true None
  end.

(** The recorded header is not the one of the chain. *)
Definition off_chain (h : BlockHeader) : Prop :=
  match getHeader (GetBlockNumber h) with
  | inl h' => GetBlockHash h' <> GetBlockHash h
  | inr _ => False
  end.

Definition on_chain (h : BlockHeader) : Prop :=
  match getHeader (GetBlockNumber h) with
  | inl h' => GetBlockHash h' = GetBlockHash h
  | inr _ => False
  end.

(** [r] is the first block that has to be processed again: the recorded headers from
    there on are off the chain, and it follows the newest recorded one that is on it,
    or is the oldest recorded one. *)
Definition reorg_at (headerList : list BlockHeader) (r : Z) : Prop :=
  exists pre h suf, headerList = pre ++ h :: suf /\ Forall off_chain (h :: suf) /\
    match last pre with
    | None => r = GetBlockNumber h
    | Some k => on_chain k /\ r = GetBlockNumber k + 1
    end.

(** The client answers for every recorded block, with the header of that block. *)
Definition answers (hs : list BlockHeader) : Prop :=
  Forall (fun h => exists h', getHeader (GetBlockNumber h) = inl h' /\
                              GetBlockNumber h' = GetBlockNumber h) hs.

Lemma checkReorg_scan_spec pre h suf :
  answers pre -> Forall (fun k => 0 <= GetBlockNumber k < maxU64) pre ->
  Forall off_chain (h :: suf) ->
  exists r, checkReorg_scan (rev pre) false (Some (GetBlockNumber h)) = (Some r, None) /\
            reorg_at (pre ++ h :: suf) r.
Proof.
  revert h suf. induction pre as [|k pre IH] using rev_ind; intros h suf Ha Hb Hoff; simpl.
  { exists (GetBlockNumber h). split; [done|]. exists [], h, suf. done. }
  rewrite rev_app_distr. simpl. apply Forall_app in Ha as [Ha [(h' & Eh & En) _]%Forall_cons].
  apply Forall_app in Hb as [Hb [Hk _]%Forall_cons]. rewrite Eh. case_bool_decide as Hh.
  - exists (GetBlockNumber h' +! 1). split; [done|]. exists (pre ++ [k]), h, suf. split; [done|].
    split; [done|]. rewrite last_snoc. unfold on_chain. rewrite Eh. split; [done|].
    rewrite En. apply add64_small; [lia..|unfold two64, maxU64 in *; lia].
  - destruct (IH k (h :: suf) Ha Hb) as (r & Er & Hr).
    { constructor; [|done]. unfold off_chain. by rewrite Eh. }
    exists r. split; [done|]. by rewrite <- app_assoc.
Qed.

(** The links the check may rely on without asking the chain. *)
Definition trusted (headerList : list BlockHeader) (cur : BlockHeader) (allowScan : bool) : Prop :=
  match last headerList with
  | None => True
  | Some pre => if GetBlockNumber pre + 1 =? GetBlockNumber cur
                then GetBlockParentHash cur = GetBlockHash pre else allowScan = false
  end.

Lemma checkReorg_spec hs cur allowScan :
  answers hs -> Forall (fun k => 0 <= GetBlockNumber k < maxU64) hs ->
  match checkReorg hs cur allowScan with
  | (_, Some _) => False
  | (None, None) => trusted hs cur allowScan \/ exists k, last hs = Some k /\ on_chain k
  | (Some r, None) => ~ trusted hs cur allowScan /\ reorg_at hs r
  end.
Proof.
  intros Ha Hb. unfold checkReorg, trusted. destruct hs as [|k pre] using rev_ind; simpl; [by left|].
  clear IHpre. rewrite last_snoc.
  apply Forall_app in Ha as [Ha [(h' & Eh & En) _]%Forall_cons].
  apply Forall_app in Hb as [Hb [Hk _]%Forall_cons].
  rewrite add64_small by (unfold two64, maxU64 in *; lia).
  assert (Hscan : match checkReorg_scan (rev (pre ++ [k])) true None with
                  | (_, Some _) => False
                  | (None, None) => exists k0, Some k = Some k0 /\ on_chain k0
                  | (Some r, None) => reorg_at (pre ++ [k]) r
                  end).
  { rewrite rev_app_distr. simpl. rewrite Eh. case_bool_decide as Hh.
    - exists k. split; [done|]. unfold on_chain. by rewrite Eh.
    - destruct (checkReorg_scan_spec pre k [] Ha Hb) as (r & -> & Hr); [|done].
      constructor; [|done]. unfold off_chain. by rewrite Eh. }
  destruct (Z.eqb_spec (GetBlockNumber k + 1) (GetBlockNumber cur)) as [Ec|Ec].
  - case_bool_decide as Hp; [by left|]. destruct (checkReorg_scan _ _ _) as [[r|] [e|]]; auto.
  - destruct allowScan; simpl; [|by left]. destruct (checkReorg_scan _ _ _) as [[r|] [e|]]; auto.
Qed.

End CheckReorg.

(** ** The builder *)

Record Builder : Type := mkBuilder {
  checkLink : bool;
  fullBlockRange : BlockRange;
  currentBlockNumber : Z;
  headerList : list BlockHeader
}.

(** Calls of the client and of the fetcher, in order. *)
Inductive BuilderCall : Type :=
| ResetCache (r : BlockRange)
| MoveStart (n : Z).

(** [Start] once the collaborators have answered: [latest] is the answer of
    [GetLatest], [prologue] the error of [Prologue], [stat] and [range] what the handler
    controller then reports. *)
Inductive LatestAnswer : Type :=
| LatestNeedUpgrade (e : string)
| LatestErr (e : string)
| LatestOk (header : BlockHeader) (first : Z).

(** The first block handed to [Prologue] and to the fetcher. *)
Definition Start_first (checkpoint : option Checkpoint) (first : Z) : Z :=
  match checkpoint with
  | Some k => if BlockNumber k <? first then BlockNumber k else first
  | None => first
  end.

Definition Start (b : Builder) (checkpoint : option Checkpoint) (latest : LatestAnswer)
    (prologue : Z -> BlockHeader -> option ExternalError) (stat : gmap string Z) (range : BlockRange)
    : (gmap string Z * Builder * list BuilderCall) + ExternalError :=
  match latest with
  | LatestNeedUpgrade e => inr (mkExternalError ErrCodeNeedUpgrade e)
  | LatestErr e => inr (mkExternalError ErrCodeFetchDataFailed e)
  | LatestOk header first =>
      let first' := Start_first checkpoint first in
      match prologue first' header with
      | Some e => inr e
      | None =>
          if bool_decide (size stat = O) then inr (mkExternalError ErrCodeUnexpectedProcessorConfig "no handler")
          else
            let '(cur, hs) :=
              match checkpoint with
              | Some k => (BlockNumber k +! 1, if checkLink b then [Checkpoint_header k] else [])
              | None => (StartBlock range, [])
              end in
            inl (stat, mkBuilder (checkLink b) range cur hs, [ResetCache (mkBlockRange cur None)])
      end
  end.

(** What the fetcher's [Get] answers: an error, or the block's data (if it has any) and
    the latest block. *)
Inductive FetchAnswer : Type :=
| FetchErr (e : string)
| FetchOk (data : option BlockHeader) (latest : option BlockHeader).

Record NextResult : Type := mkNextResult {
  nrBlockNumber : Z;
  nrData : option BlockHeader;
  nrLatest : option BlockHeader;
  nrReorg : option Z;
  nrErr : option string
}.

(** Whether the block is in the watching range; reads the latest block only when the
    block has data. *)
Definition Next_inWatching (data latest : option BlockHeader) : Outcome bool :=
  match data with
  | None => Ok false
  | Some d =>
      match latest with
      | None => Panic
      | Some l => Ok (time_Sub (GetBlockTime l) (GetBlockTime d) <? WatchingDelay)
      end
  end.

(** The end of [Next]: the header is recorded and the builder moves on. *)
Definition Next_advance (b : Builder) (data : option BlockHeader) : Outcome Builder :=
  let! hs :=
    match data with
    | Some d => if checkLink b then Sparsify GetBlockNumber (headerList b ++ [d]) else Ok (headerList b)
    | None => Ok (headerList b)
    end in
  Ok (mkBuilder (checkLink b) (fullBlockRange b) (currentBlockNumber b +! 1) hs).

Definition Next (getHeader : Z -> BlockHeader + string) (get : Z -> FetchAnswer) (b : Builder)
    : Outcome (NextResult * Builder * list BuilderCall) :=
  let bn := currentBlockNumber b in
  if negb (BR_Contains (fullBlockRange b) bn) then
    if bn <? StartBlock (fullBlockRange b) then Panic
    else Ok (mkNextResult bn None None None None, b, [])
  else
    match get bn with
    | FetchErr e => Ok (mkNextResult bn None None None (Some e), b, [])
    | FetchOk data latest =>
        let! inWatching := Next_inWatching data latest in
        let '(reorg, err) :=
          match data with
          | Some d => if checkLink b then checkReorg getHeader (headerList b) d inWatching else (None, None)
          | None => (None, None)
          end in
        match reorg, err with
        | None, None =>
            let! b' := Next_advance b data in
            Ok (mkNextResult bn data latest None None, b',
                (if inWatching : bool then [ResetCache (mkBlockRange 0 (Some bn))] else [])
                ++ [MoveStart (currentBlockNumber b')])
        | _, _ => Ok (mkNextResult bn data latest reorg err, b, [])
        end
    end.

(** ** The walk *)

(** The recorded headers are in block order, below the current block. *)
Record builder_ok (b : Builder) : Prop := mkBuilderOk {
  bo_sorted : StronglySorted Z.lt (map GetBlockNumber (headerList b));
  bo_below : Forall (fun h => 0 <= GetBlockNumber h < currentBlockNumber b) (headerList b);
  bo_cur : StartBlock (fullBlockRange b) <= currentBlockNumber b < maxU64;
  bo_start : 0 <= StartBlock (fullBlockRange b)
}.

(** The fetcher answers with data of the block asked for, and knows a latest block then. *)
Definition fetcher_ok (get : Z -> FetchAnswer) : Prop :=
  forall n d l, get n = FetchOk (Some d) l -> GetBlockNumber d = n /\ is_Some l.

Lemma Sparsify_total {T} (num : T -> Z) (l : list T) :
  exists l', Sparsify num l = Ok l' /\ l' `sublist_of` l /\ last l' = last l /\ head l' = head l.
Proof.
  unfold Sparsify, Sparsify_Remove. destruct (RemoveWithMultiplier_ok num l 1 2) as (r & -> & Hr).
  simpl. eexists. split; [reflexivity|]. rewrite RemoveByIndex_keep. split_and!.
  - apply keep_sublist.
  - destruct (last l) as [x|] eqn:El.
    + apply keep_last; [done|]. intros Hj. specialize (Hr _ Hj). lia.
    + apply last_None in El as ->. done.
  - apply keep_head. intros Hj. specialize (Hr _ Hj). lia.
Qed.

Lemma StronglySorted_snoc_Z l x :
  StronglySorted Z.lt l -> Forall (fun y => y < x) l -> StronglySorted Z.lt (l ++ [x]).
Proof.
  intros Hs Hf. apply StronglySorted_app. split_and!; [|done|by repeat constructor].
  intros a b Ha ->%list_elem_of_singleton. rewrite Forall_forall in Hf. auto.
Qed.

Lemma Next_advance_ok b data :
  builder_ok b -> currentBlockNumber b + 1 < maxU64 ->
  (forall d, data = Some d -> GetBlockNumber d = currentBlockNumber b) ->
  exists b', Next_advance b data = Ok b' /\ builder_ok b' /\
    currentBlockNumber b' = currentBlockNumber b + 1 /\ fullBlockRange b' = fullBlockRange b /\
    checkLink b' = checkLink b /\
    (checkLink b = true -> forall d, data = Some d -> last (headerList b') = Some d).
Proof.
  intros [Hs Hbl Hc H0] Hmx Hd. unfold Next_advance.
  assert (Hadd : currentBlockNumber b +! 1 = currentBlockNumber b + 1)
    by (apply add64_small; unfold two64, maxU64 in *; lia).
  assert (Hout : forall hs, StronglySorted Z.lt (map GetBlockNumber hs) ->
    Forall (fun h => 0 <= GetBlockNumber h < currentBlockNumber b + 1) hs ->
    builder_ok (mkBuilder (checkLink b) (fullBlockRange b) (currentBlockNumber b +! 1) hs)).
  { intros hs H1 H2. rewrite Hadd. split; simpl; try done; lia. }
  assert (Hold : Forall (fun h => 0 <= GetBlockNumber h < currentBlockNumber b + 1) (headerList b))
    by (eapply Forall_impl; [exact Hbl|]; simpl; lia).
  destruct data as [d|]; [destruct (checkLink b) eqn:Ecl|].
  - destruct (Sparsify_total GetBlockNumber (headerList b ++ [d])) as (hs & -> & Hsub & Hla & _).
    cbn [obind]. eexists. split; [reflexivity|]. split; [|split_and!; try done].
    + apply Hout.
      * apply (StronglySorted_sublist _ (map GetBlockNumber (headerList b ++ [d]))); [by apply sublist_map|].
        rewrite map_app. apply StronglySorted_snoc_Z; [exact Hs|].
        apply Forall_forall. intros x (h & -> & Hh)%list_elem_of_fmap. rewrite (Hd d eq_refl).
        rewrite Forall_forall in Hbl. by apply Hbl.
      * eapply Forall_sublist; [exact Hsub|]. apply Forall_app. split; [done|].
        apply Forall_singleton. rewrite (Hd d eq_refl). lia.
    + intros _ d' [= <-]. cbn [headerList]. by rewrite Hla, last_snoc.
  - eexists. split; [reflexivity|]. cbn [currentBlockNumber fullBlockRange checkLink headerList].
    split_and!; [by apply Hout|done..|]. done.
  - eexists. split; [reflexivity|]. cbn [currentBlockNumber fullBlockRange checkLink headerList].
    split_and!; [by apply Hout|done..|]. done.
Qed.

(** Every way a call of [Next] can end. *)
Inductive next_outcome (getHeader : Z -> BlockHeader + string) (get : Z -> FetchAnswer) (b : Builder)
    : NextResult -> Builder -> Prop :=
| next_end : BR_Contains (fullBlockRange b) (currentBlockNumber b) = false ->
    next_outcome getHeader get b (mkNextResult (currentBlockNumber b) None None None None) b
| next_fetch_err e : get (currentBlockNumber b) = FetchErr e ->
    next_outcome getHeader get b (mkNextResult (currentBlockNumber b) None None None (Some e)) b
| next_reorg d latest allowScan r :
    get (currentBlockNumber b) = FetchOk (Some d) latest -> checkLink b = true ->
    ~ trusted (headerList b) d allowScan -> reorg_at getHeader (headerList b) r ->
    next_outcome getHeader get b (mkNextResult (currentBlockNumber b) (Some d) latest (Some r) None) b
| next_block_data data latest b' :
    BR_Contains (fullBlockRange b) (currentBlockNumber b) = true ->
    get (currentBlockNumber b) = FetchOk data latest ->
    (checkLink b = true -> forall d, data = Some d ->
       (exists allowScan, trusted (headerList b) d allowScan) \/
       exists k, last (headerList b) = Some k /\ on_chain getHeader k) ->
    currentBlockNumber b' = currentBlockNumber b + 1 -> fullBlockRange b' = fullBlockRange b ->
    (checkLink b = true -> forall d, data = Some d -> last (headerList b') = Some d) ->
    next_outcome getHeader get b (mkNextResult (currentBlockNumber b) data latest None None) b'.

Lemma Next_spec getHeader get b :
  builder_ok b -> currentBlockNumber b + 1 < maxU64 -> fetcher_ok get -> answers getHeader (headerList b) ->
  exists r b' calls, Next getHeader get b = Ok (r, b', calls) /\ builder_ok b' /\
    next_outcome getHeader get b r b'.
Proof.
  intros Hok Hmx Hget Hans. pose proof Hok as [Hs Hbl Hc H0]. unfold Next.
  destruct (BR_Contains (fullBlockRange b) (currentBlockNumber b)) eqn:Ec; simpl.
  2:{ destruct (Z.ltb_spec (currentBlockNumber b) (StartBlock (fullBlockRange b))); [lia|].
      eexists _, _, _. split_and!; [reflexivity|done|by apply next_end]. }
  destruct (get (currentBlockNumber b)) as [e|data latest] eqn:Eg.
  { eexists _, _, _. split_and!; [reflexivity|done|by apply next_fetch_err]. }
  assert (Hd : forall d, data = Some d -> GetBlockNumber d = currentBlockNumber b)
    by (intros d ->; by apply Hget in Eg as [? _]).
  assert (exists iw, Next_inWatching data latest = Ok iw) as [iw Ew].
  { destruct data as [d|]; simpl; [|eauto]. apply Hget in Eg as [_ [l ->]]. eauto. }
  rewrite Ew. cbn [obind].
  destruct (Next_advance_ok b data Hok Hmx Hd) as (b' & Eb & Hok' & H1 & H2 & H3 & H4).
  destruct data as [d|]; [destruct (checkLink b) eqn:Ecl|]; cycle 1.
  - rewrite Eb. cbn [obind]. eexists _, _, _. split_and!; [reflexivity|done|].
    apply next_block_data; try done; by rewrite Ecl.
  - rewrite Eb. cbn [obind]. eexists _, _, _. split_and!; [reflexivity|done|].
    by apply next_block_data.
  - assert (Hb' : Forall (fun k => 0 <= GetBlockNumber k < maxU64) (headerList b))
      by (eapply Forall_impl; [exact Hbl|]; simpl; lia).
    pose proof (checkReorg_spec getHeader (headerList b) d iw Hans Hb') as Hcr.
    destruct (checkReorg _ _ _ _) as [[r|] [e|]]; try done.
    + eexists _, _, _. split_and!; [reflexivity|done|]. destruct Hcr. by apply (next_reorg _ _ _ _ _ iw).
    + rewrite Eb. cbn [obind]. eexists _, _, _. split_and!; [reflexivity|done|].
      apply next_block_data; try done; [|by rewrite Ecl]. intros _ d' [= <-]. destruct Hcr; eauto.
Qed.
