(* ===== verification/Fetcher.v ===== *)
(** * The fetcher: [driver/controller/fetcher/fetcher.go]

    A fetcher queries the data of a chain in growing ranges ahead of its reader and
    keeps what has not been read yet. One goroutine grows the ready range
    [full.StartBlock, fetchingStart); the reader gets blocks and moves the start. The
    query runs without the lock, so the growth is split at the points where the lock
    is taken: [growth_begin], the query loop [growth_query], [growth_end]. Sizes are
    unbounded integers. The three conversions through [float64] in [nextFetchSize] are
    parameters: no theorem depends on them. *)
From Stdlib Require Import ZArith Lia.
From stdpp Require Import base numbers option strings gmap list.
From S2P Require Import Prelude RangeBase RangeSet RangeSetOps RangeCut BlockRange Checkpoint.

(** [_min] of [utils.go]. *)
Definition min_opt (a : Z) (b : option Z) : Z :=
  match b with None => a | Some x => Z.min a x end.

Section Sizes.
Context {D : Type} (Size : D -> Z).

(** [sumSize]. *)
Definition sumSize (m : gmap Z D) : Z := map_fold (fun _ d acc => Size d + acc) 0 m.

Lemma sumSize_insert m k d : m !! k = None -> sumSize (<[k := d]> m) = Size d + sumSize m.
Proof.
  intros Hk. unfold sumSize. apply (map_fold_insert_L (fun (_ : Z) e acc => Size e + acc)); [|done].
  intros j1 j2 z1 z2 y _ _ _. lia.
Qed.

Lemma sumSize_delete m k d : m !! k = Some d -> sumSize (delete k m) = sumSize m - Size d.
Proof.
  intros Hk. rewrite <- (insert_delete_id m k d Hk) at 2.
  rewrite sumSize_insert by apply lookup_delete_eq. lia.
Qed.

(** [utils.MergeMap]: later entries win. *)
Definition MergeMap (a b : gmap Z D) : gmap Z D := b ∪ a.

Lemma sumSize_merge a b : a ##ₘ b -> sumSize (MergeMap a b) = sumSize a + sumSize b.
Proof.
  unfold MergeMap. revert a. induction b as [|k d m Hk IH] using map_ind; intros a Hd.
  { rewrite (left_id_L ∅ (∪)). unfold sumSize at 3. rewrite map_fold_empty. lia. }
  apply map_disjoint_insert_r in Hd as [Ha Hd].
  rewrite <- insert_union_l. rewrite !sumSize_insert by (try done; by apply lookup_union_None).
  rewrite IH by done. lia.
Qed.
End Sizes.

(** ** The fetcher *)

Record FetcherConfig : Type := mkFetcherConfig {
  minQuerySize : Z;
  maxQuerySize : Z;
  targetKeepDataSize : Z;
  maxReadyBlockCount : Z;
  targetQueryDataSize : Z;
  maxQueryTime : Z;
  maxRetry : Z;
  scaleGot : Z -> Z;     (* int(float64(got) * querySizeMultiplier) *)
  scaleUsed : Z -> Z;    (* time.Duration(float64(used) * querySizeMultiplier) *)
  scaleSize : Z -> Z     (* uint64(math.Ceil(float64(current) * querySizeMultiplier)) *)
}.

(** [fetchingDone] is a channel that is closed and rebuilt when a query succeeds: its
    identity is a generation number. *)
Record FetcherState (D : Type) : Type := mkFetcherState {
  full : BlockRange;
  fetchingStart : Z;
  fetchingEnd : Z;
  fetchingDone : nat;
  fetchingFailed : option string;
  brokenErr : option string;
  latest : BlockHeader;
  data : gmap Z D;
  totalSize : Z
}.
Arguments mkFetcherState {D} _ _ _ _ _ _ _ _ _.
Arguments full {D} _.
Arguments fetchingStart {D} _.
Arguments fetchingEnd {D} _.
Arguments fetchingDone {D} _.
Arguments fetchingFailed {D} _.
Arguments brokenErr {D} _.
Arguments latest {D} _.
Arguments data {D} _.
Arguments totalSize {D} _.

(** What a reader finds: data (or no data) with the latest block, an error, or that it
    has to wait for the generation given to end. *)
Inductive Poll (D : Type) : Type :=
| PollData (d : option D) (latest : BlockHeader)
| PollErr (e : string) (latest : BlockHeader)
| PollWait (gen : nat).
Arguments PollData {D} _ _.
Arguments PollErr {D} _ _.
Arguments PollWait {D} _.

Section Fetcher.
Context {D : Type} (Size : D -> Z) (cfg : FetcherConfig).

Definition NewFetcher (range : BlockRange) (lat : BlockHeader) : FetcherState D :=
  mkFetcherState range (StartBlock range)
    (min_opt (Z.min (StartBlock range +! minQuerySize cfg -! 1) (GetBlockNumber lat)) (EndBlock range))
    0 None None lat ∅ 0.

Definition bufferFull (f : FetcherState D) : bool :=
  (targetKeepDataSize cfg <=? totalSize f)
  || ((0 <? maxReadyBlockCount cfg)
      && (maxReadyBlockCount cfg <=? fetchingStart f -! StartBlock (full f))).

Definition nextFetchSize (current got used : Z) : Z :=
  if (0 <? targetQueryDataSize cfg) && (targetQueryDataSize cfg <=? scaleGot cfg got) then current
  else if (0 <? maxQueryTime cfg) && (maxQueryTime cfg <? scaleUsed cfg used) then current
  else Z.min (Z.max (scaleSize cfg current) (minQuerySize cfg)) (maxQuerySize cfg).

Inductive Growth : Type :=
| GrowthReject                       (* pause and reject: the growth goroutine ends *)
| GrowthPause                        (* wait for winChanged *)
| GrowthQuery (start end_ : Z) (latest : BlockHeader).

(** The part of [growth] before the query, under the lock. It changes nothing but the
    channel [winChanged]. *)
Definition growth_begin (f : FetcherState D) : Growth :=
  match fetchingFailed f with
  | Some _ => GrowthReject
  | None =>
      if (match EndBlock (full f) with Some e => e <? fetchingStart f | None => false end)
      then GrowthReject
      else if bufferFull f then GrowthPause
      else
        let start := fetchingStart f in
        if fetchingEnd f <? start then
          if start <=? GetBlockNumber (latest f)
          then GrowthQuery start
                 (min_opt (Z.min (start +! minQuerySize cfg -! 1) (GetBlockNumber (latest f))) (EndBlock (full f)))
                 (latest f)
          else GrowthPause
        else GrowthQuery start (fetchingEnd f) (latest f)
  end.

(** One answer of the query: the data and the time it took, an error, an error that
    must not be retried, or a cancelled context. *)
Inductive QueryAnswer : Type :=
| QueryOk (result : gmap Z D) (used : Z)
| QueryErr (e : string)
| QueryPermanent (e : string)
| QueryCanceled.

Inductive QueryResult : Type :=
| QueryGot (end_ : Z) (result : gmap Z D) (used : Z)
| QueryFailed (end_ : Z) (e : string)
| QueryAborted.

(** The retry loop: after an error the range is halved, down to [minQuerySize]; only
    then a retry is used up. [ask] gives the answer for each attempt. The range that
    failed last stays in [end_]. *)
Fixpoint growth_query (ask : nat -> Z -> QueryAnswer) (fuel attempt : nat) (start end_ retry : Z)
    (err : option string) : Outcome QueryResult :=
  match fuel with
  | O => Diverge
  | S fuel' =>
      if retry <? 0 then Ok (QueryFailed end_ (default EmptyString err))
      else
        match ask attempt end_ with
        | QueryOk result used => Ok (QueryGot end_ result used)
        | QueryCanceled => Ok QueryAborted
        | QueryErr e =>
            let fetchSize := end_ -! start +! 1 in
            if minQuerySize cfg <? fetchSize then
              let fetchSize' := Z.max (minQuerySize cfg) (fetchSize / 2) in
              growth_query ask fuel' (S attempt) start (start +! fetchSize' -! 1) retry (Some e)
            else growth_query ask fuel' (S attempt) start end_ (retry - 1) (Some e)
        | QueryPermanent e =>
            let fetchSize := end_ -! start +! 1 in
            if minQuerySize cfg <? fetchSize then
              let fetchSize' := Z.max (minQuerySize cfg) (fetchSize / 2) in
              Ok (QueryFailed (start +! fetchSize' -! 1) e)
            else Ok (QueryFailed end_ e)
        end
  end.

(** The part of [growth] after the query, under the lock again. Returns whether the
    goroutine pauses and whether it ends. *)
Definition growth_end (f : FetcherState D) (start : Z) (r : QueryResult) : FetcherState D * (bool * bool) :=
  match r with
  | QueryAborted => (f, (true, true))
  | QueryFailed end_ e =>
      (mkFetcherState (full f) (fetchingStart f) end_ (S (fetchingDone f)) (Some e) (brokenErr f)
         (latest f) (data f) (totalSize f), (true, true))
  | QueryGot end_ result used =>
      let size := sumSize Size result in
      let newSize := nextFetchSize (end_ -! start +! 1) size used in
      let fstart := end_ +! 1 in
      let f' := mkFetcherState (full f) fstart
                  (min_opt (Z.min (fstart +! newSize -! 1) (GetBlockNumber (latest f))) (EndBlock (full f)))
                  (S (fetchingDone f)) (fetchingFailed f) (brokenErr f) (latest f)
                  (MergeMap (data f) result) (totalSize f + size) in
      (f', (bufferFull f', false))
  end.

(** One round of the loop of [Get], and its first round. *)
Definition Get_loop (f : FetcherState D) (n : Z) : Poll D :=
  match brokenErr f with
  | Some e => PollErr e (latest f)
  | None =>
      if fetchingStart f <=? n then
        match fetchingFailed f with
        | Some e => PollErr e (latest f)
        | None => PollWait (fetchingDone f)
        end
      else PollData (data f !! n) (latest f)
  end.

Definition Get (f : FetcherState D) (n : Z) : Poll D :=
  if negb (BR_Contains (full f) n) then PollData None (latest f) else Get_loop f n.

Definition UpdateLatest (f : FetcherState D) (lat : BlockHeader) : Outcome (FetcherState D) :=
  if GetBlockNumber lat <? GetBlockNumber (latest f) then Panic
  else Ok (mkFetcherState (full f) (fetchingStart f) (fetchingEnd f) (fetchingDone f) (fetchingFailed f)
             (brokenErr f) lat (data f) (totalSize f)).

Definition Broken (f : FetcherState D) (err : string) : FetcherState D :=
  mkFetcherState (full f) (fetchingStart f) (fetchingEnd f) (fetchingDone f) (fetchingFailed f)
    (Some err) (latest f) (data f) (totalSize f).

(** The loop of [MoveStart] over [k] blocks from [n]. *)
Fixpoint drop_blocks (k : nat) (n : Z) (m : gmap Z D) (total : Z) : gmap Z D * Z :=
  match k with
  | O => (m, total)
  | S k' =>
      match m !! n with
      | Some d => drop_blocks k' (n + 1) (delete n m) (total - Size d)
      | None => drop_blocks k' (n + 1) m total
      end
  end.

Definition MoveStart (f : FetcherState D) (start : Z) : FetcherState D :=
  if start <? StartBlock (full f) then f
  else
    let start := if fetchingStart f <? start then fetchingStart f else start in
    let '(m, total) :=
      drop_blocks (Z.to_nat (start - StartBlock (full f))) (StartBlock (full f)) (data f) (totalSize f) in
    mkFetcherState (mkBlockRange start (EndBlock (full f))) (fetchingStart f) (fetchingEnd f) (fetchingDone f)
      (fetchingFailed f) (brokenErr f) (latest f) m total.

End Fetcher.
