(* ===== verification/FetcherSpec.v ===== *)
(** * What a fetcher promises

    Against a source [src] of the data of each block that the query function reads, the
    invariant [fetcher_inv] holds along every interleaving of the growth goroutine with
    its reader ([fstep]): the buffer holds exactly the source's data of the ready
    range, and [totalSize] is its size. So [Get] returns the source's data. The retry
    loop of a query ends, within the range asked for. *)
From Stdlib Require Import ZArith Lia.
From stdpp Require Import base numbers option strings gmap list.
From S2P Require Import Prelude RangeBase RangeSet RangeSetOps RangeCut BlockRange Checkpoint Fetcher.

Section Spec.
Context {D : Type} (Size : D -> Z) (cfg : FetcherConfig) (src : Z -> option D).
Context (Hmin : 1 <= minQuerySize cfg < 2 ^ 62).

(** The answer of a query for [start .. end_]. *)
Definition covers (start end_ : Z) (r : gmap Z D) : Prop :=
  forall n, r !! n = if (start <=? n) && (n <=? end_) then src n else None.

(** A range the growth goroutine is querying. *)
Definition query_range (f : FetcherState D) (start end_ : Z) : Prop :=
  start = fetchingStart f /\ start <= end_ <= GetBlockNumber (latest f) /\
  from_option (fun e => end_ <= e) True (EndBlock (full f)).

Record fetcher_inv (f : FetcherState D) (inflight : option (Z * Z)) : Prop := mkFetcherInv {
  fi_start : 0 <= StartBlock (full f) <= fetchingStart f;
  fi_bound : fetchingStart f <= 2 ^ 62;
  fi_end : from_option (fun e => fetchingStart f <= e + 1) True (EndBlock (full f));
  fi_latest : 0 <= GetBlockNumber (latest f) < 2 ^ 62;
  fi_fend : fetchingEnd f <= GetBlockNumber (latest f) /\
            from_option (fun e => fetchingEnd f <= e) True (EndBlock (full f));
  fi_data : forall n, data f !! n = if (StartBlock (full f) <=? n) && (n <? fetchingStart f) then src n else None;
  fi_size : totalSize f = sumSize Size (data f);
  fi_inflight : from_option (fun p => query_range f p.1 p.2) True inflight
}.

Lemma min_opt_le a b : min_opt a b <= a.
Proof. destruct b; simpl; lia. Qed.

Lemma min_opt_le_opt a b : from_option (fun e => min_opt a b <= e) True b.
Proof. destruct b; simpl; [lia|done]. Qed.

Lemma NewFetcher_inv range lat :
  0 <= StartBlock range <= 2 ^ 62 -> from_option (fun e => StartBlock range <= e) True (EndBlock range) ->
  0 <= GetBlockNumber lat < 2 ^ 62 -> fetcher_inv (NewFetcher cfg range lat) None.
Proof.
  intros Hs He Hl. split; simpl; try done; try lia.
  - destruct (EndBlock range); simpl in *; [lia|done].
  - split; [|apply min_opt_le_opt]. etrans; [apply min_opt_le|]. lia.
  - intros n. rewrite lookup_empty. destruct (Z.leb_spec (StartBlock range) n), (Z.ltb_spec n (StartBlock range)); try done; lia.
Qed.

(** ** Growing *)

Lemma growth_begin_query f start end_ lat :
  fetcher_inv f None -> growth_begin cfg f = GrowthQuery start end_ lat ->
  lat = latest f /\ fetcher_inv f (Some (start, end_)).
Proof.
  intros [H1 H2 H3 H4 H5 H6 H7 _] Hg. unfold growth_begin in Hg.
  destruct (fetchingFailed f); [done|].
  destruct (match EndBlock (full f) with Some e => e <? fetchingStart f | None => false end) eqn:Ee; [done|].
  destruct (bufferFull cfg f); [done|].
  assert (Hle : from_option (fun e => fetchingStart f <= e) True (EndBlock (full f))).
  { destruct (EndBlock (full f)) as [e|]; simpl; [|done]. apply Z.ltb_ge in Ee. lia. }
  destruct (Z.ltb_spec (fetchingEnd f) (fetchingStart f)) as [Hlt|Hge].
  - destruct (Z.leb_spec (fetchingStart f) (GetBlockNumber (latest f))) as [Hl|Hl]; [|done].
    injection Hg as <- <- <-. split; [done|]. split; try done. simpl. split; [done|].
    assert (Hadd : fetchingStart f +! minQuerySize cfg -! 1 = fetchingStart f + minQuerySize cfg - 1).
    { rewrite add64_small by (unfold two64; lia). apply sub64_small; unfold two64; lia. }
    rewrite Hadd. split; [|apply min_opt_le_opt]. split.
    + destruct (EndBlock (full f)); simpl in *; lia.
    + etrans; [apply min_opt_le|]. lia.
  - injection Hg as <- <- <-. split; [done|]. split; try done. simpl. destruct H5. by split.
Qed.

(** The range is halved but never empty, and the loop ends. *)
Lemma shrink start end_ :
  0 <= start <= end_ -> end_ < 2 ^ 62 -> minQuerySize cfg < end_ - start + 1 ->
  let size := end_ -! start +! 1 in
  let size' := Z.max (minQuerySize cfg) (size / 2) in
  size = end_ - start + 1 /\ start +! size' -! 1 = start + size' - 1 /\
  start <= start + size' - 1 < end_.
Proof.
  intros Hs He Hlt. cbv zeta.
  assert (E1 : end_ -! start = end_ - start) by (apply sub64_small; unfold two64; lia).
  assert (E2 : end_ - start +! 1 = end_ - start + 1) by (apply add64_small; unfold two64; lia).
  rewrite E1, E2.
  assert (Hd : 0 <= (end_ - start + 1) / 2 < end_ - start + 1).
  { split; [apply Z.div_pos; lia|apply Z.div_lt; lia]. }
  split; [done|]. split; [|lia].
  rewrite add64_small by (unfold two64; lia). apply sub64_small; unfold two64; lia.
Qed.

Definition query_steps (start end_ retry : Z) : Z :=
  (if minQuerySize cfg <? end_ - start + 1 then Z.log2 (end_ - start + 1) + 1 else 0) + (retry + 1).

Lemma growth_query_spec (ask : nat -> Z -> @QueryAnswer D) fuel attempt start end_ retry err :
  0 <= start <= end_ -> end_ < 2 ^ 62 -> -1 <= retry ->
  query_steps start end_ retry < Z.of_nat fuel ->
  exists r, growth_query cfg ask fuel attempt start end_ retry err = Ok r /\
    match r with
    | QueryGot e res used => start <= e <= end_ /\ exists k, ask k e = QueryOk res used
    | QueryFailed e _ => start <= e <= end_
    | QueryAborted => True
    end.
Proof.
  intros Hs He. revert attempt end_ retry err Hs He.
  induction fuel as [|fuel IH]; intros attempt end_ retry err Hs He Hr Hf.
  { unfold query_steps in Hf. pose proof (Z.log2_nonneg (end_ - start + 1)).
    destruct (minQuerySize cfg <? end_ - start + 1); lia. }
  cbn [growth_query]. destruct (Z.ltb_spec retry 0) as [Hneg|Hpos]; [eexists; split; [reflexivity|]; simpl; lia|].
  assert (Hsz : end_ -! start +! 1 = end_ - start + 1).
  { rewrite sub64_small by (unfold two64; lia). apply add64_small; unfold two64; lia. }
  destruct (ask attempt end_) as [res used|e|e|] eqn:Ea.
  - eexists. split; [reflexivity|]. split; [lia|eauto].
  - rewrite Hsz. destruct (Z.ltb_spec (minQuerySize cfg) (end_ - start + 1)) as [Hb|Hb].
    + destruct (shrink start end_ Hs He Hb) as (_ & E2 & E3). rewrite Hsz in E2, E3. rewrite E2.
      set (size' := Z.max (minQuerySize cfg) ((end_ - start + 1) / 2)) in *.
      destruct (IH (S attempt) (start + size' - 1) retry (Some e)) as (r & -> & Hres); [lia|lia|lia| |].
      { unfold query_steps in *. replace (start + size' - 1 - start + 1) with size' by lia.
        rewrite (proj2 (Z.ltb_lt _ _) Hb) in Hf.
        pose proof (Z.log2_nonneg (end_ - start + 1)).
        destruct (Z.ltb_spec (minQuerySize cfg) size') as [Hb'|Hb']; [|lia].
        assert (size' = (end_ - start + 1) / 2) as -> by lia.
        rewrite <- Z.div2_div, Z.div2_spec, Z.log2_shiftr by lia.
        assert (1 <= Z.log2 (end_ - start + 1)) by (apply (Z.log2_le_mono 2); lia). lia. }
      exists r. split; [done|]. destruct r; try done; [destruct Hres; split; [lia|done]|lia].
    + destruct (IH (S attempt) end_ (retry - 1) (Some e)) as (r & -> & Hres); [lia|lia|lia| |eauto].
      unfold query_steps in *. destruct (minQuerySize cfg <? end_ - start + 1); lia.
  - rewrite Hsz. destruct (Z.ltb_spec (minQuerySize cfg) (end_ - start + 1)) as [Hb|Hb];
      (eexists; split; [reflexivity|]); [|simpl; lia].
    destruct (shrink start end_ Hs He Hb) as (_ & E2 & E3). rewrite Hsz in E2, E3. rewrite E2. lia.
  - eexists. split; [reflexivity|done].
Qed.

Lemma growth_end_inv f start end_ r f' out :
  fetcher_inv f (Some (start, end_)) -> growth_end Size cfg f start r = (f', out) ->
  match r with
  | QueryGot e res _ => start <= e <= end_ /\ covers start e res
  | QueryFailed e _ => start <= e <= end_
  | QueryAborted => True
  end -> fetcher_inv f' None.
Proof.
  intros [H1 H2 H3 H4 H5 H6 H7 (Hst & Hse & Hen)] Hg Hr. simpl in Hst, Hse, Hen.
  destruct r as [e res used|e err|]; injection Hg as <- _.
  - destruct Hr as [He Hcov].
    assert (Hadd : e +! 1 = e + 1) by (apply add64_small; unfold two64; lia).
    assert (Hdisj : data f ##ₘ res).
    { apply map_disjoint_spec. intros n a b Ha Hb. rewrite H6 in Ha. rewrite Hcov in Hb.
      destruct (Z.leb_spec (StartBlock (full f)) n), (Z.ltb_spec n (fetchingStart f)); try done.
      destruct (Z.leb_spec start n); [lia|done]. }
    split; cbn [full fetchingStart fetchingEnd latest data totalSize]; rewrite ?Hadd; try done; try lia.
    + destruct (EndBlock (full f)); simpl in *; [lia|done].
    + split; [etrans; [apply min_opt_le|]; lia|apply min_opt_le_opt].
    + intros n. unfold MergeMap. rewrite lookup_union, Hcov, H6. subst start.
      destruct (Z.leb_spec (fetchingStart f) n), (Z.leb_spec n e), (Z.leb_spec (StartBlock (full f)) n),
        (Z.ltb_spec n (fetchingStart f)), (Z.ltb_spec n (e + 1)); try lia; simpl;
        by destruct (src n).
    + rewrite sumSize_merge by done. lia.
  - split; cbn [full fetchingStart fetchingEnd latest data totalSize]; try done.
    split; [lia|]. destruct (EndBlock (full f)); simpl in *; [lia|done].
  - split; try done; simpl; auto.
Qed.

(** ** The reader *)

Lemma drop_blocks_spec k n m total :
  let '(m', total') := drop_blocks Size k n m total in
  (forall x, m' !! x = if (n <=? x) && (x <? n + Z.of_nat k) then None else m !! x) /\
  total' - sumSize Size m' = total - sumSize Size m.
Proof.
  revert n m total. induction k as [|k IH]; intros n m total; cbn [drop_blocks].
  { split; [|lia]. intros x. destruct (Z.leb_spec n x), (Z.ltb_spec x (n + Z.of_nat 0)); try done; lia. }
  destruct (m !! n) as [d|] eqn:Ed.
  - specialize (IH (n + 1) (delete n m) (total - Size d)).
    destruct (drop_blocks _ _ _ _ _) as [m' total']. destruct IH as [IH1 IH2].
    rewrite (sumSize_delete Size m n d Ed) in IH2. split; [|lia]. intros x. rewrite IH1.
    destruct (decide (x = n)) as [->|Hne].
    + rewrite lookup_delete_eq.
      destruct (Z.leb_spec (n + 1) n), (Z.leb_spec n n), (Z.ltb_spec n (n + Z.of_nat (S k))); try done; lia.
    + rewrite lookup_delete_ne by done.
      destruct (Z.leb_spec (n + 1) x), (Z.leb_spec n x), (Z.ltb_spec x (n + 1 + Z.of_nat k)),
        (Z.ltb_spec x (n + Z.of_nat (S k))); try done; lia.
  - specialize (IH (n + 1) m total). destruct (drop_blocks _ _ _ _ _) as [m' total'].
    destruct IH as [IH1 IH2]. split; [|lia]. intros x. rewrite IH1.
    destruct (decide (x = n)) as [->|Hne].
    + rewrite Ed.
      destruct (Z.leb_spec (n + 1) n), (Z.leb_spec n n), (Z.ltb_spec n (n + Z.of_nat (S k))); try done; lia.
    + destruct (Z.leb_spec (n + 1) x), (Z.leb_spec n x), (Z.ltb_spec x (n + 1 + Z.of_nat k)),
        (Z.ltb_spec x (n + Z.of_nat (S k))); try done; lia.
Qed.

Lemma MoveStart_inv f inflight start :
  fetcher_inv f inflight -> fetcher_inv (MoveStart Size f start) inflight.
Proof.
  intros Hi. pose proof Hi as [H1 H2 H3 H4 H5 H6 H7 H8]. unfold MoveStart.
  destruct (Z.ltb_spec start (StartBlock (full f))) as [|Hge]; [done|].
  set (s := if fetchingStart f <? start then fetchingStart f else start).
  assert (Hs : StartBlock (full f) <= s <= fetchingStart f) by (subst s; bcase; lia).
  pose proof (drop_blocks_spec (Z.to_nat (s - StartBlock (full f))) (StartBlock (full f)) (data f) (totalSize f)) as Hd.
  destruct (drop_blocks _ _ _ _ _) as [m total]. destruct Hd as [Hd1 Hd2].
  split; cbn [full fetchingStart fetchingEnd latest data totalSize StartBlock EndBlock]; try done; try lia.
  intros n. rewrite Hd1, H6.
  destruct (Z.leb_spec (StartBlock (full f)) n), (Z.ltb_spec n (StartBlock (full f) + Z.of_nat (Z.to_nat (s - StartBlock (full f))))),
    (Z.leb_spec s n), (Z.ltb_spec n (fetchingStart f)); try done; lia.
Qed.

Lemma UpdateLatest_inv f inflight lat :
  fetcher_inv f inflight -> GetBlockNumber (latest f) <= GetBlockNumber lat < 2 ^ 62 ->
  exists f', UpdateLatest f lat = Ok f' /\ fetcher_inv f' inflight.
Proof.
  intros [H1 H2 H3 H4 H5 H6 H7 H8] Hl. unfold UpdateLatest. bcase; [lia|].
  eexists. split; [reflexivity|].
  split; cbn [full fetchingStart fetchingEnd latest data totalSize]; try done; try lia.
  - destruct H5. split; [lia|done].
  - destruct inflight as [[a b]|]; [|done]. simpl in *. destruct H8 as (? & ? & ?). split_and!; try done; simpl; lia.
Qed.

Lemma Broken_inv f inflight e : fetcher_inv f inflight -> fetcher_inv (Broken f e) inflight.
Proof. intros [H1 H2 H3 H4 H5 H6 H7 H8]. by split. Qed.

(** The interleavings of the growth goroutine with the other callers; [fst] is the
    fetcher, [snd] the range being queried. *)
Inductive fstep : FetcherState D * option (Z * Z) -> FetcherState D * option (Z * Z) -> Prop :=
| fstep_begin f start end_ lat :
    growth_begin cfg f = GrowthQuery start end_ lat -> fstep (f, None) (f, Some (start, end_))
| fstep_end f start end_ r f' out :
    growth_end Size cfg f start r = (f', out) ->
    match r with
    | QueryGot e res _ => start <= e <= end_ /\ covers start e res
    | QueryFailed e _ => start <= e <= end_
    | QueryAborted => True
    end -> fstep (f, Some (start, end_)) (f', None)
| fstep_latest f fl lat f' :
    GetBlockNumber (latest f) <= GetBlockNumber lat < 2 ^ 62 -> UpdateLatest f lat = Ok f' ->
    fstep (f, fl) (f', fl)
| fstep_broken f fl e : fstep (f, fl) (Broken f e, fl)
| fstep_move f fl start : fstep (f, fl) (MoveStart Size f start, fl).

Lemma fstep_inv x y : fstep x y -> fetcher_inv x.1 x.2 -> fetcher_inv y.1 y.2.
Proof.
  intros Hs Hi. destruct Hs as [f start end_ lat Hg|f start end_ r f' out Hg Hr|f fl lat f' Hl Hu|f fl e|f fl start];
    simpl in *.
  - by eapply growth_begin_query.
  - by eapply growth_end_inv.
  - destruct (UpdateLatest_inv f fl lat Hi Hl) as (f2 & E & ?). rewrite Hu in E. by injection E as ->.
  - by apply Broken_inv.
  - by apply MoveStart_inv.
Qed.

Lemma fsteps_inv x y : rtc fstep x y -> fetcher_inv x.1 x.2 -> fetcher_inv y.1 y.2.
Proof. induction 1; eauto using fstep_inv. Qed.

(** What a reader is told about a block. *)
Lemma Get_spec f inflight n :
  fetcher_inv f inflight ->
  match Get f n with
  | PollData d lat => lat = latest f /\ d = if BR_Contains (full f) n then src n else None
  | PollErr e lat => lat = latest f /\ (brokenErr f = Some e \/ fetchingFailed f = Some e)
  | PollWait gen => gen = fetchingDone f /\ fetchingStart f <= n /\ fetchingFailed f = None /\ brokenErr f = None
  end.
Proof.
  intros [H1 H2 H3 H4 H5 H6 H7 H8]. unfold Get.
  destruct (BR_Contains (full f) n) eqn:Ec; simpl; [|done]. unfold Get_loop.
  destruct (brokenErr f) eqn:Eb; [auto|]. destruct (Z.leb_spec (fetchingStart f) n).
  - destruct (fetchingFailed f); auto.
  - split; [done|]. rewrite H6. rewrite BR_Contains_eq in Ec. apply Range_Contains_spec in Ec.
    destruct Ec as [Ec _]. simpl in Ec.
    rewrite (proj2 (Z.leb_le _ _) Ec), (proj2 (Z.ltb_lt n (fetchingStart f))) by lia. done.
Qed.

(** A size for the next query is the current one or within the configured bounds. *)
Lemma nextFetchSize_bounds current got used :
  minQuerySize cfg <= maxQuerySize cfg ->
  nextFetchSize cfg current got used = current \/
  minQuerySize cfg <= nextFetchSize cfg current got used <= maxQuerySize cfg.
Proof. intros H. unfold nextFetchSize. repeat case_match; auto; right; lia. Qed.

(** [Broken] ends no generation and does not change what the growth goroutine does: a
    reader that waits for a block beyond the latest one keeps waiting, although a new
    call of [Get] would return the error. *)
Lemma Broken_not_woken (f : FetcherState D) n gen e :
  Get f n = PollWait gen ->
  Get (Broken f e) n = PollErr e (latest f) /\ fetchingDone (Broken f e) = gen /\
  growth_begin cfg (Broken f e) = growth_begin cfg f.
Proof.
  unfold Get. cbn [full Broken]. destruct (BR_Contains (full f) n); simpl; [|done].
  unfold Get_loop. simpl. destruct (brokenErr f); [done|]. bcase; [|done].
  destruct (fetchingFailed f); [done|]. by intros [= <-].
Qed.

End Spec.
