(* ===== verification/Transfer.v ===== *)
(** * The transfer fetcher's own state: [driver/controller/fetcher/transfer.go]

    A transfer fetcher maps the blocks of an upstream fetcher through a function, several
    blocks at a time; blocks may finish out of order, the ready range only grows over
    a finished prefix. This file has the part of each operation that works on the
    fetcher's own fields, under its lock; [FetcherStack] adds the upstream. *)
From Stdlib Require Import ZArith Lia.
From stdpp Require Import base numbers option strings gmap list.
From S2P Require Import Prelude RangeBase RangeSet RangeSetOps RangeCut BlockRange Checkpoint Fetcher FetcherSpec.

(** ** The transfer fetcher *)

Record TransferConfig : Type := mkTransferConfig {
  maxConcurrency : Z;
  maxKeepDataSize : Z;
  maxKeepDataNum : Z;
  tMaxRetry : Z
}.

(** [readyEndMoved] is a channel rebuilt each time the ready range grows: its identity
    is a generation number. The channel [broken] is closed when [tBrokenErr] is set. *)
Record TransferState (T : Type) : Type := mkTransferState {
  tFull : BlockRange;
  readyEnd : Z;
  fetchStart : Z;
  fetched : gset Z;
  readyEndMoved : nat;
  fetchFailed : option (string * Z);
  tLatest : BlockHeader;
  tData : gmap Z T;
  tTotalSize : Z;
  tBrokenErr : option string
}.
Arguments mkTransferState {T} _ _ _ _ _ _ _ _ _ _.
Arguments tFull {T} _.
Arguments readyEnd {T} _.
Arguments fetchStart {T} _.
Arguments fetched {T} _.
Arguments readyEndMoved {T} _.
Arguments fetchFailed {T} _.
Arguments tLatest {T} _.
Arguments tData {T} _.
Arguments tTotalSize {T} _.
Arguments tBrokenErr {T} _.

(** One answer of the transfer function, and the outcome of its retry loop. *)
Inductive TransferAnswer (T : Type) : Type :=
| AnswerOk (d : option T)
| AnswerErr (e : string)
| AnswerPermanent (e : string)
| AnswerCanceled.
Arguments AnswerOk {T} _.
Arguments AnswerErr {T} _.
Arguments AnswerPermanent {T} _.
Arguments AnswerCanceled {T}.

Inductive TransferOutcome (T : Type) : Type :=
| TransferOk (d : option T)
| TransferErr (e : string)
| TransferAbandoned (* the goroutine returns without a result *).
Arguments TransferOk {T} _.
Arguments TransferErr {T} _.
Arguments TransferAbandoned {T}.

(** ** The loops *)

Definition setFetchFailed (old : option (string * Z)) (bn : Z) (e : string) : option (string * Z) :=
  match old with
  | None => Some (e, bn)
  | Some (_, at_) => if bn <? at_ then Some (e, bn) else old
  end.

(** [for readyEnd = f.readyEnd; readyEnd < f.fetchStart; readyEnd++]. *)
Fixpoint advance (k : nat) (n : Z) (done : gset Z) : Z * gset Z :=
  match k with
  | O => (n, done)
  | S k' => if bool_decide (n ∈ done) then advance k' (n + 1) (done ∖ {[n]}) else (n, done)
  end.

(** [for ; f.fetchStart <= maxFetchBlock; f.fetchStart++]: the blocks started and the
    new [fetchStart]. *)
Fixpoint launch (k : nat) (n maxFetchBlock : Z) : list Z * Z :=
  match k with
  | O => ([], n)
  | S k' =>
      if n <=? maxFetchBlock
      then let '(l, n') := launch k' (n +! 1) maxFetchBlock in (n :: l, n')
      else ([], n)
  end.

(** No transfer of a block up to [n] has failed. *)
Definition unfailed (failed : option (string * Z)) (n : Z) : Prop :=
  match failed with None => True | Some (_, at_) => n < at_ end.

Lemma advance_spec k n done :
  let '(n', done') := advance k n done in
  n <= n' <= n + Z.of_nat k /\ (forall x, n <= x < n' -> x ∈ done) /\
  (n' < n + Z.of_nat k -> n' ∉ done) /\ (forall x, x ∈ done' <-> x ∈ done /\ ~ n <= x < n').
Proof.
  revert n done. induction k as [|k IH]; intros n done; cbn [advance].
  { split_and!; [lia|lia|intros; lia|lia|]. intros x. split; [intros Hx; split; [done|lia]|tauto]. }
  case_bool_decide as Hn.
  - specialize (IH (n + 1) (done ∖ {[n]})). destruct (advance k (n + 1) _) as [n' done'].
    destruct IH as (H1 & H2 & H3 & H4). split_and!; [lia|lia|..].
    + intros x Hx. destruct (decide (x = n)) as [->|]; [done|].
      specialize (H2 x ltac:(lia)). by apply elem_of_difference in H2 as [? _].
    + intros Hx Hin. apply H3; [lia|]. apply elem_of_difference. split; [done|].
      intros ->%elem_of_singleton. lia.
    + intros x. rewrite H4, elem_of_difference, elem_of_singleton. split; [intros [[? ?] ?]; split; [done|lia]|].
      intros [? ?]. split_and!; [done|intros ->; lia|lia].
  - split_and!; [lia|lia|intros; lia|done|]. intros x. split; [intros Hx; split; [done|lia]|tauto].
Qed.

Lemma setFetchFailed_unfailed old bn e n :
  unfailed (setFetchFailed old bn e) n <-> unfailed old n /\ n < bn.
Proof. unfold setFetchFailed. destruct old as [[e' a]|]; simpl; [bcase; simpl; lia|tauto]. Qed.

Lemma launch_spec k n m :
  0 <= n -> m < 2 ^ 62 -> (m + 1 - n <= Z.of_nat k) ->
  launch k n m = (seqZ n (m + 1 - n), Z.max n (m + 1)).
Proof.
  revert n. induction k as [|k IH]; intros n Hn Hm Hk; cbn [launch].
  { unfold seqZ. replace (Z.to_nat (m + 1 - n)) with O by lia. simpl. f_equal. lia. }
  destruct (Z.leb_spec n m) as [Hle|Hgt].
  - rewrite add64_small by (unfold two64; lia). rewrite IH by lia. rewrite (seqZ_cons n) by lia.
    replace (Z.pred (m + 1 - n)) with (m + 1 - (n + 1)) by lia. unfold Z.succ. f_equal. lia.
  - unfold seqZ. replace (Z.to_nat (m + 1 - n)) with O by lia. simpl. f_equal. lia.
Qed.

Lemma launch_mono k n m l n' : 0 <= n -> m < 2 ^ 62 -> launch k n m = (l, n') -> n <= n'.
Proof.
  revert n l. induction k as [|k IH]; intros n l Hn Hm; cbn [launch]; [intros [= _ <-]; lia|].
  destruct (Z.leb_spec n m); [|intros [= _ <-]; lia].
  rewrite add64_small by (unfold two64; lia). destruct (launch k (n + 1) m) as [l' n2] eqn:E.
  intros [= _ <-]. apply IH in E; lia.
Qed.

(** ** The transfer of one block *)

Section Query.
Context {F T : Type} (zero : T) (cfg : TransferConfig).

(** The retry loop; [ask k] is the answer of attempt [k]. With a negative [maxRetry] the
    function is never called and the zero value is kept. *)
Fixpoint transfer_loop (ask : nat -> TransferAnswer T) (retries attempt : nat) (err : option string)
    : TransferOutcome T :=
  match retries with
  | O => match err with Some e => TransferErr e | None => TransferOk (Some zero) end
  | S r =>
      match ask attempt with
      | AnswerOk d => TransferOk d
      | AnswerCanceled => TransferAbandoned
      | AnswerPermanent e => TransferErr e
      | AnswerErr e => transfer_loop ask r (S attempt) (Some e)
      end
  end.

(** The unlocked part of [transfer]: what the upstream answered, then the loop. *)
Definition transfer_query (upstream : string + option F) (ask : F -> nat -> TransferAnswer T)
    : TransferOutcome T :=
  match upstream with
  | inl e => TransferErr e
  | inr None => TransferOk None
  | inr (Some from) => transfer_loop (ask from) (Z.to_nat (tMaxRetry cfg + 1)) 0 None
  end.

Lemma transfer_loop_ok ask retries attempt err d :
  (0 < retries)%nat \/ is_Some err -> transfer_loop ask retries attempt err = TransferOk d ->
  exists k, ask k = AnswerOk d.
Proof.
  revert attempt err. induction retries as [|r IH]; intros attempt err Hr; simpl.
  { destruct Hr as [?|[e ->]]; [lia|done]. }
  destruct (ask attempt) eqn:Ea; try done; [intros [= <-]; eauto|]. apply IH. right. eauto.
Qed.

(** A transfer that succeeds has mapped what the upstream has for the block. *)
Lemma transfer_query_ok (from : option F) (tf : F -> option T) ask d :
  0 <= tMaxRetry cfg -> (forall x k d', ask x k = AnswerOk d' -> d' = tf x) ->
  transfer_query (inr from) ask = TransferOk d -> d = from ≫= tf.
Proof.
  intros Hr Ha. unfold transfer_query. destruct from as [x|]; simpl; [|by intros [= <-]].
  intros Hq. apply transfer_loop_ok in Hq as [k Hk]; [|left; lia]. eauto.
Qed.

End Query.

(** ** The operations *)

Section Transfer.
Context {T : Type} (Size : T -> Z) (cfg : TransferConfig).

Definition TransferFetcher (upstreamRange : BlockRange) (lat : BlockHeader) : TransferState T :=
  mkTransferState upstreamRange (StartBlock upstreamRange) (StartBlock upstreamRange) ∅ 0 None lat ∅ 0 None.

(** The locked part of [transfer]. *)
Definition transfer_done (f : TransferState T) (bn : Z) (o : TransferOutcome T) : TransferState T :=
  match o with
  | TransferAbandoned => f
  | _ =>
      let failed := match o with TransferErr e => setFetchFailed (fetchFailed f) bn e | _ => fetchFailed f end in
      let '(m, total) :=
        match o with
        | TransferOk (Some d) => (<[bn := d]> (tData f), tTotalSize f + Size d)
        | _ => (tData f, tTotalSize f)
        end in
      let '(ready, done) := advance (Z.to_nat (fetchStart f - readyEnd f)) (readyEnd f) ({[bn]} ∪ fetched f) in
      mkTransferState (tFull f) ready (fetchStart f) done
        (if readyEnd f <? ready then S (readyEndMoved f) else readyEndMoved f)
        failed (tLatest f) m total (tBrokenErr f)
  end.

Definition set_fetchStart (n : Z) (f : TransferState T) : TransferState T :=
  mkTransferState (tFull f) (readyEnd f) n (fetched f) (readyEndMoved f) (fetchFailed f) (tLatest f)
    (tData f) (tTotalSize f) (tBrokenErr f).

Definition max_fetch_block (f : TransferState T) : Z :=
  let m := Z.min (readyEnd f +! maxConcurrency cfg -! 1) (GetBlockNumber (tLatest f)) in
  match EndBlock (tFull f) with Some e => Z.min m e | None => m end.

(** [growth]: [None] when it is rejected, else the blocks whose transfer is started. *)
Definition transfer_growth (f : TransferState T) : option (list Z * TransferState T) :=
  match fetchFailed f with
  | Some _ => None
  | None =>
      if (match EndBlock (tFull f) with Some e => e <? fetchStart f | None => false end) then None
      else if (tTotalSize f <? maxKeepDataSize cfg) && (Z.of_nat (size (tData f)) <? maxKeepDataNum cfg) then
        let m := max_fetch_block f in
        let '(started, n) := launch (Z.to_nat (m + 1 - fetchStart f)) (fetchStart f) m in
        Some (started, set_fetchStart n f)
      else Some ([], f)
  end.

(** One round of the loop of [Get]. *)
Definition transfer_Get (f : TransferState T) (n : Z) : Poll T :=
  if negb (BR_Contains (tFull f) n) then PollData None (tLatest f)
  else match tBrokenErr f with
       | Some e => PollErr e (tLatest f)
       | None =>
           if readyEnd f <=? n then PollWait (readyEndMoved f)
           else
             match fetchFailed f with
             | Some (e, at_) => if at_ <=? n then PollErr e (tLatest f) else PollData (tData f !! n) (tLatest f)
             | None => PollData (tData f !! n) (tLatest f)
             end
       end.

Definition transfer_UpdateLatest (f : TransferState T) (lat : BlockHeader) : TransferState T :=
  mkTransferState (tFull f) (readyEnd f) (fetchStart f) (fetched f) (readyEndMoved f) (fetchFailed f) lat
    (tData f) (tTotalSize f) (tBrokenErr f).

Definition transfer_Broken (f : TransferState T) (err : string) : TransferState T :=
  match tBrokenErr f with
  | Some _ => f
  | None => mkTransferState (tFull f) (readyEnd f) (fetchStart f) (fetched f) (readyEndMoved f) (fetchFailed f)
              (tLatest f) (tData f) (tTotalSize f) (Some err)
  end.

Definition transfer_MoveStart (f : TransferState T) (start : Z) : TransferState T :=
  if start <? StartBlock (tFull f) then f
  else
    let start := if readyEnd f <? start then readyEnd f else start in
    let '(m, total) :=
      drop_blocks Size (Z.to_nat (start - StartBlock (tFull f))) (StartBlock (tFull f)) (tData f) (tTotalSize f) in
    mkTransferState (mkBlockRange start (EndBlock (tFull f))) (readyEnd f) (fetchStart f) (fetched f)
      (readyEndMoved f) (fetchFailed f) (tLatest f) m total (tBrokenErr f).

(** ** The invariant *)

Context (g : Z -> option T).

(** The data of block [n] has been obtained (or found missing) and not been dropped. *)
Definition present (f : TransferState T) (n : Z) : Prop :=
  StartBlock (tFull f) <= n < readyEnd f \/ n ∈ fetched f.

Record transfer_inv (f : TransferState T) : Prop := mkTransferInv {
  ti_order : 0 <= StartBlock (tFull f) <= readyEnd f /\ readyEnd f <= fetchStart f <= 2 ^ 62;
  ti_end : from_option (fun e => fetchStart f <= e + 1) True (EndBlock (tFull f));
  ti_latest : 0 <= GetBlockNumber (tLatest f) < 2 ^ 62;
  ti_window : fetchStart f - readyEnd f <= maxConcurrency cfg;
  ti_fetched : forall n, n ∈ fetched f -> readyEnd f < n < fetchStart f;
  ti_data : forall n, present f n -> unfailed (fetchFailed f) n -> tData f !! n = g n;
  ti_rest : forall n, ~ present f n -> tData f !! n = None;
  ti_size : tTotalSize f = sumSize Size (tData f)
}.

(** A block whose transfer is running. *)
Definition running (f : TransferState T) (bn : Z) : Prop :=
  readyEnd f <= bn < fetchStart f /\ bn ∉ fetched f.

(** A finished transfer keeps the invariant, whatever its outcome and in whatever order
    the blocks finish. *)
Lemma transfer_done_inv f bn o :
  transfer_inv f -> running f bn -> (forall d, o = TransferOk d -> d = g bn) ->
  transfer_inv (transfer_done f bn o).
Proof.
  intros Hi [Hbn Hnf] Ho. pose proof Hi as [H1 H2 H3 H4 H5 H6 H7 H8].
  assert (Hnp : ~ present f bn) by (intros [?|?]; [lia|done]).
  assert (Hmain : forall m total failed,
    (forall n, n <> bn -> m !! n = tData f !! n) -> total = sumSize Size m ->
    (forall n, unfailed failed n -> unfailed (fetchFailed f) n) ->
    (unfailed failed bn -> m !! bn = g bn) ->
    transfer_inv (let '(ready, done) := advance (Z.to_nat (fetchStart f - readyEnd f)) (readyEnd f) ({[bn]} ∪ fetched f) in
      mkTransferState (tFull f) ready (fetchStart f) done
        (if readyEnd f <? ready then S (readyEndMoved f) else readyEndMoved f)
        failed (tLatest f) m total (tBrokenErr f))).
  { intros m total failed Hm Htot Hfail Hg.
    pose proof (advance_spec (Z.to_nat (fetchStart f - readyEnd f)) (readyEnd f) ({[bn]} ∪ fetched f)) as Ha.
    destruct (advance _ _ _) as [ready done]. destruct Ha as (A1 & A2 & A3 & A4).
    assert (Hpr : forall n, (StartBlock (tFull f) <= n < ready \/ n ∈ done) <-> present f n \/ n = bn).
    { intros n. unfold present. rewrite A4, elem_of_union, elem_of_singleton. split.
      - intros [Hn|[[->|?] ?]]; auto. destruct (Z_lt_le_dec n (readyEnd f)); [left; left; lia|].
        specialize (A2 n ltac:(lia)). rewrite elem_of_union, elem_of_singleton in A2. destruct A2; auto.
      - intros [[Hn|Hn]| ->].
        + left. lia.
        + destruct (decide (readyEnd f <= n < ready)); [left; lia|right; auto].
        + destruct (decide (readyEnd f <= bn < ready)); [left; lia|right; auto]. }
    split; cbn [tFull readyEnd fetchStart fetched fetchFailed tLatest tData tTotalSize]; try done; try lia.
    - intros n Hn. apply A4 in Hn as [Hn Hge]. rewrite elem_of_union, elem_of_singleton in Hn.
      assert (readyEnd f <= n < fetchStart f) by (destruct Hn as [->|Hn]; [lia|specialize (H5 n Hn); lia]).
      assert (n <> ready); [|lia]. intros ->. apply (A3 ltac:(lia)). rewrite elem_of_union, elem_of_singleton. auto.
    - intros n Hn Hu. unfold present in Hn. cbn [tFull readyEnd fetched] in Hn. apply Hpr in Hn as [Hn| ->]; [|auto].
      destruct (decide (n = bn)) as [->|Hne]; [auto|]. rewrite Hm by done. auto.
    - intros n Hn. unfold present in Hn. cbn [tFull readyEnd fetched] in Hn. rewrite Hpr in Hn.
      rewrite Hm by (intros ->; tauto). apply H7. tauto. }
  unfold transfer_done. destruct o as [[d|]|e|]; [| | |done].
  - apply Hmain; try done.
    + intros n Hne. by rewrite lookup_insert_ne.
    + rewrite sumSize_insert by auto. lia.
    + intros _. rewrite lookup_insert_eq. by apply Ho.
  - apply Hmain; try done. intros _. rewrite (H7 bn Hnp). by apply Ho.
  - apply Hmain; try done.
    + intros n Hn%setFetchFailed_unfailed. tauto.
    + intros Hn%setFetchFailed_unfailed. lia.
Qed.

Context (Hconc : 1 <= maxConcurrency cfg < 2 ^ 62).

(** Growth starts the transfer of the next blocks, at most [maxConcurrency] at a time and
    none twice. *)
Lemma transfer_growth_inv f started f' :
  transfer_inv f -> transfer_growth f = Some (started, f') ->
  transfer_inv f' /\ started = seqZ (fetchStart f) (fetchStart f' - fetchStart f) /\
  (forall bn, bn ∈ started -> running f' bn /\ ~ running f bn) /\
  (forall bn, running f' bn -> running f bn \/ bn ∈ started).
Proof.
  intros Hi Hg. pose proof Hi as [H1 H2 H3 H4 H5 H6 H7 H8]. unfold transfer_growth in Hg.
  destruct (fetchFailed f) eqn:Ef; [done|].
  destruct (match EndBlock (tFull f) with Some e => e <? fetchStart f | None => false end) eqn:Ee; [done|].
  destruct (_ && _).
  2:{ injection Hg as <- <-. split_and!; [done| |set_solver|auto]. rewrite Z.sub_diag. done. }
  set (m := max_fetch_block f) in *.
  assert (Hadd : readyEnd f +! maxConcurrency cfg -! 1 = readyEnd f + maxConcurrency cfg - 1).
  { rewrite add64_small by (unfold two64; lia). apply sub64_small; unfold two64; lia. }
  assert (Hm : m <= readyEnd f + maxConcurrency cfg - 1 /\ m <= GetBlockNumber (tLatest f) /\
               from_option (fun e => m <= e) True (EndBlock (tFull f))).
  { subst m. unfold max_fetch_block. rewrite Hadd. destruct (EndBlock (tFull f)); simpl; lia. }
  rewrite launch_spec in Hg by lia. injection Hg as <- <-.
  cbn [set_fetchStart fetchStart]. split; [|split; [|split]].
  - split; cbn [set_fetchStart tFull readyEnd fetchStart fetched fetchFailed tLatest tData tTotalSize]; try done; try lia.
    + destruct (EndBlock (tFull f)); simpl in *; [lia|done].
    + intros n Hn. specialize (H5 n Hn). lia.
    + intros n Hn _. by apply H6.
  - destruct (Z_lt_le_dec m (fetchStart f)); [|f_equal; lia].
    unfold seqZ. replace (Z.to_nat (m + 1 - fetchStart f)) with O by lia.
    by replace (Z.to_nat (fetchStart f `max` (m + 1) - fetchStart f)) with O by lia.
  - intros bn Hb%elem_of_seqZ. unfold running. cbn [set_fetchStart readyEnd fetchStart fetched].
    split; [|lia]. split; [lia|]. intros Hn%H5. lia.
  - intros bn [Hb1 Hb2]. cbn [set_fetchStart readyEnd fetchStart fetched] in *. rewrite elem_of_seqZ.
    destruct (Z_lt_le_dec bn (fetchStart f)); [left|right; lia]. split; [lia|done].
Qed.

Lemma transfer_MoveStart_inv f start : transfer_inv f -> transfer_inv (transfer_MoveStart f start).
Proof.
  intros Hi. pose proof Hi as [H1 H2 H3 H4 H5 H6 H7 H8]. unfold transfer_MoveStart.
  destruct (Z.ltb_spec start (StartBlock (tFull f))) as [|Hge]; [done|].
  set (s := if readyEnd f <? start then readyEnd f else start).
  assert (Hs : StartBlock (tFull f) <= s <= readyEnd f) by (subst s; bcase; lia).
  pose proof (drop_blocks_spec Size (Z.to_nat (s - StartBlock (tFull f))) (StartBlock (tFull f)) (tData f) (tTotalSize f)) as Hd.
  destruct (drop_blocks _ _ _ _ _) as [m total]. destruct Hd as [Hd1 Hd2].
  assert (Hm : forall n, m !! n = if (StartBlock (tFull f) <=? n) && (n <? s) then None else tData f !! n).
  { intros n. rewrite Hd1. by replace (StartBlock (tFull f) + Z.of_nat (Z.to_nat (s - StartBlock (tFull f)))) with s by lia. }
  split; cbn [tFull readyEnd fetchStart fetched fetchFailed tLatest tData tTotalSize StartBlock EndBlock]; try done; try lia.
  - intros n Hn Hu. unfold present in Hn. cbn [tFull readyEnd fetched StartBlock] in Hn. rewrite Hm.
    assert (Hp : present f n) by (destruct Hn; [left; lia|by right]).
    destruct (Z.leb_spec (StartBlock (tFull f)) n), (Z.ltb_spec n s); simpl; auto.
    destruct Hn as [?|Hn]; [lia|]. apply H5 in Hn. lia.
  - intros n Hn. unfold present in Hn. cbn [tFull readyEnd fetched StartBlock] in Hn. rewrite Hm.
    destruct (Z.leb_spec (StartBlock (tFull f)) n), (Z.ltb_spec n s); simpl; try done; apply H7;
      intros [?|?]; apply Hn; [left; lia|by right|lia|by right|lia|by right].
Qed.

Lemma transfer_UpdateLatest_inv f lat :
  transfer_inv f -> 0 <= GetBlockNumber lat < 2 ^ 62 -> transfer_inv (transfer_UpdateLatest f lat).
Proof. intros [H1 H2 H3 H4 H5 H6 H7 H8] Hl. by split. Qed.

Lemma transfer_Broken_inv f e : transfer_inv f -> transfer_inv (transfer_Broken f e).
Proof. unfold transfer_Broken. intros [H1 H2 H3 H4 H5 H6 H7 H8]. destruct (tBrokenErr f); by split. Qed.

Lemma TransferFetcher_inv range lat :
  0 <= StartBlock range <= 2 ^ 62 -> from_option (fun e => StartBlock range <= e) True (EndBlock range) ->
  0 <= GetBlockNumber lat < 2 ^ 62 -> transfer_inv (TransferFetcher range lat).
Proof.
  intros Hs He Hl. split; simpl; try done; try lia.
  - destruct (EndBlock range); simpl in *; [lia|done].
  - intros n [?|?]; simpl in *; [lia|set_solver].
Qed.

(** The interleavings of the growth goroutine, the transfers and the other callers. *)
Inductive tstep (f : TransferState T) : TransferState T -> Prop :=
| tstep_growth started f' : transfer_growth f = Some (started, f') -> tstep f f'
| tstep_done bn o :
    running f bn -> (forall d, o = TransferOk d -> d = g bn) -> tstep f (transfer_done f bn o)
| tstep_latest lat : 0 <= GetBlockNumber lat < 2 ^ 62 -> tstep f (transfer_UpdateLatest f lat)
| tstep_broken e : tstep f (transfer_Broken f e)
| tstep_move start : tstep f (transfer_MoveStart f start).

Lemma tstep_inv f f' : tstep f f' -> transfer_inv f -> transfer_inv f'.
Proof.
  intros Hs Hi. destruct Hs as [started f' Hg|bn o Hr Ho|lat Hl|e|start].
  - by eapply transfer_growth_inv.
  - by apply transfer_done_inv.
  - by apply transfer_UpdateLatest_inv.
  - by apply transfer_Broken_inv.
  - by apply transfer_MoveStart_inv.
Qed.

Lemma tsteps_inv f f' : rtc tstep f f' -> transfer_inv f -> transfer_inv f'.
Proof. induction 1; eauto using tstep_inv. Qed.

(** What a reader is told about a block. *)
Lemma transfer_Get_spec f n :
  transfer_inv f ->
  match transfer_Get f n with
  | PollData d lat => lat = tLatest f /\ d = if BR_Contains (tFull f) n then g n else None
  | PollErr e lat => lat = tLatest f /\
      (tBrokenErr f = Some e \/ exists at_, fetchFailed f = Some (e, at_) /\ at_ <= n)
  | PollWait gen => gen = readyEndMoved f /\ readyEnd f <= n /\ tBrokenErr f = None
  end.
Proof.
  intros [H1 H2 H3 H4 H5 H6 H7 H8]. unfold transfer_Get.
  destruct (BR_Contains (tFull f) n) eqn:Ec; simpl; [|done].
  destruct (tBrokenErr f) eqn:Eb; [auto|]. destruct (Z.leb_spec (readyEnd f) n); [auto|].
  rewrite BR_Contains_eq in Ec. apply Range_Contains_spec in Ec as [Ec _]. simpl in Ec.
  assert (Hp : present f n) by (left; lia). specialize (H6 n Hp).
  destruct (fetchFailed f) as [[e a]|] eqn:Ef; simpl in H6; [|auto].
  destruct (Z.leb_spec a n); [|auto]. split; [done|]. right. eauto.
Qed.
End Transfer.
