(* ===== verification/FetcherStack.v ===== *)
(** * Fetchers on top of fetchers: the interface [Fetcher], [transfer.go] with its upstream,
    [merge.go]

    [Fetching] is the interface the fetchers offer ([controller.Fetcher] in
    [block_builder.go]): its operations, the steps of the fetcher's own goroutines, the
    sources it can read, and the promise that a poll which returns data returns the
    data of the source behind it. A
    transfer fetcher uses its upstream through the interface and offers it again, over the
    transferred source; a merged fetcher uses several. *)
From Stdlib Require Import ZArith Lia.
From stdpp Require Import base numbers option strings gmap list.
From S2P Require Import Prelude RangeBase RangeSet RangeSetOps RangeCut BlockRange Checkpoint Fetcher FetcherSpec Transfer.

(** ** The interface *)

Class Fetching (S D : Type) : Type := {
  fg_range : S -> BlockRange;
  fg_poll : S -> Z -> Poll D;
  fg_UpdateLatest : S -> BlockHeader -> Outcome S;
  fg_Broken : S -> string -> S;
  fg_MoveStart : S -> Z -> S;
  (** the start can be moved there without losing blocks *)
  fg_movable : S -> Z -> Prop;
  (** the sources behind such a fetcher, and the data of a block as it serves them *)
  fg_source : Type;
  fg_view : fg_source -> Z -> option D;
  (** a step of the fetcher's goroutines, reading the source *)
  fg_step : fg_source -> S -> S -> Prop;
  (** the fetcher is in a proper state over the source *)
  fg_ok : S -> fg_source -> Prop;
  fg_poll_serves s src n d lat :
    fg_ok s src -> fg_poll s n = PollData d lat ->
    d = if BR_Contains (fg_range s) n then fg_view src n else None;
  fg_ok_step s s' src : fg_ok s src -> fg_step src s s' -> fg_ok s' src /\ fg_range s' = fg_range s;
  fg_ok_latest s s' src lat :
    fg_ok s src -> 0 <= GetBlockNumber lat < 2 ^ 62 -> fg_UpdateLatest s lat = Ok s' ->
    fg_ok s' src /\ fg_range s' = fg_range s;
  fg_ok_broken s src e : fg_ok s src -> fg_ok (fg_Broken s e) src /\ fg_range (fg_Broken s e) = fg_range s;
  fg_ok_move s src start :
    fg_ok s src -> fg_movable s start ->
    fg_ok (fg_MoveStart s start) src /\
    EndBlock (fg_range (fg_MoveStart s start)) = EndBlock (fg_range s) /\
    StartBlock (fg_range (fg_MoveStart s start)) <= Z.max (StartBlock (fg_range s)) start
}.

(** ** The plain fetcher offers it *)

Section Plain.
Context {D : Type} (Size : D -> Z) (cfg : FetcherConfig) (Hmin : 1 <= minQuerySize cfg < 2 ^ 62).

(** The fetcher with the range its growth goroutine is querying. *)
Definition Plain : Type := FetcherState D * option (Z * Z).

(** The steps of the growth goroutine. *)
Inductive grow_step (src : Z -> option D) : Plain -> Plain -> Prop :=
| grow_begin f start end_ lat :
    growth_begin cfg f = GrowthQuery start end_ lat -> grow_step src (f, None) (f, Some (start, end_))
| grow_end f start end_ r f' out :
    growth_end Size cfg f start r = (f', out) ->
    match r with
    | QueryGot e res _ => start <= e <= end_ /\ covers src start e res
    | QueryFailed e _ => start <= e <= end_
    | QueryAborted => True
    end -> grow_step src (f, Some (start, end_)) (f', None).

Lemma grow_step_ok src x y :
  fetcher_inv Size src x.1 x.2 -> grow_step src x y -> fetcher_inv Size src y.1 y.2 /\ full y.1 = full x.1.
Proof.
  intros Hi Hs. destruct Hs as [f start end_ lat Hg|f start end_ r f' out Hg Hr]; simpl in *.
  - split; [|done]. by apply (growth_begin_query Size cfg src Hmin f start end_ lat).
  - split; [by apply (growth_end_inv Size cfg src f start end_ r f' out)|]. destruct r; by injection Hg as <- _.
Qed.

Lemma MoveStart_range f start :
  EndBlock (full (MoveStart Size f start)) = EndBlock (full f) /\
  StartBlock (full (MoveStart Size f start)) <= Z.max (StartBlock (full f)) start.
Proof.
  unfold MoveStart. bcase; [split; [done|lia]|].
  destruct (drop_blocks _ _ _ _ _). simpl. split; [done|]. bcase; lia.
Qed.

#[refine] Instance Plain_Fetching : Fetching Plain D := {
  fg_range x := full x.1;
  fg_poll x := Get x.1;
  fg_UpdateLatest x lat := match UpdateLatest x.1 lat with Ok f => Ok (f, x.2) | Panic => Panic | Diverge => Diverge end;
  fg_Broken x e := (Broken x.1 e, x.2);
  fg_MoveStart x start := (MoveStart Size x.1 start, x.2);
  fg_movable _ _ := True;
  fg_source := Z -> option D;
  fg_view src := src;
  fg_step := grow_step;
  fg_ok x src := fetcher_inv Size src x.1 x.2
}.
Proof.
  - intros x src n d lat Hi Hg. pose proof (Get_spec Size src x.1 x.2 n Hi) as Hs. rewrite Hg in Hs. tauto.
  - intros x y src. apply grow_step_ok.
  - intros [f fl] y src lat Hi Hl Hu. simpl in *.
    destruct (Z_lt_le_dec (GetBlockNumber lat) (GetBlockNumber (latest f))) as [Hlt|Hge].
    { unfold UpdateLatest in Hu. by rewrite (proj2 (Z.ltb_lt _ _) Hlt) in Hu. }
    destruct (UpdateLatest_inv Size src f fl lat Hi ltac:(lia)) as (f' & E & Hi'). rewrite E in Hu.
    injection Hu as <-. split; [done|]. unfold UpdateLatest in E. by destruct (_ <? _); [|injection E as <-].
  - intros x src e Hi. split; [by apply Broken_inv|done].
  - intros x src start Hi _. split; [by apply MoveStart_inv|apply MoveStart_range].
Defined.
End Plain.

(** ** The transfer fetcher with its upstream *)

Section Stacked.
Context {U F T : Type} `{Fetching U F}.
Context (Size : T -> Z) (zero : T) (cfg : TransferConfig).
Context (Hconc : 1 <= maxConcurrency cfg < 2 ^ 62) (Hretry : 0 <= tMaxRetry cfg).

(** [pending]: what [upstream.Get] returned to the transfers that are between that call and
    taking the lock. *)
Record Stacked : Type := mkStacked {
  upstream : U;
  pending : gmap Z (string + option F);
  own : TransferState T
}.

Definition Stacked_new (up : U) (lat : BlockHeader) : Stacked :=
  mkStacked up ∅ (TransferFetcher (fg_range up) lat).

Definition Stacked_UpdateLatest (f : Stacked) (lat : BlockHeader) : Outcome Stacked :=
  match fg_UpdateLatest (upstream f) lat with
  | Ok up => Ok (mkStacked up (pending f) (transfer_UpdateLatest (own f) lat))
  | Panic => Panic
  | Diverge => Diverge
  end.

Definition Stacked_Broken (f : Stacked) (e : string) : Stacked :=
  mkStacked (fg_Broken (upstream f) e) (pending f) (transfer_Broken (own f) e).

Definition Stacked_MoveStart (f : Stacked) (start : Z) : Stacked :=
  mkStacked (fg_MoveStart (upstream f) start) (pending f) (transfer_MoveStart Size (own f) start).

(** What [upstream.Get] answers when it does not wait. *)
Definition upstream_answer (p : Poll F) : option (string + option F) :=
  match p with
  | PollData d _ => Some (inr d)
  | PollErr e _ => Some (inl e)
  | PollWait _ => None
  end.

(** The transfer function on a block: when it succeeds it returns [tf]. *)
Context (tf : Z -> F -> option T).

Definition transfers (bn : Z) (ask : F -> nat -> TransferAnswer T) : Prop :=
  forall x k d, ask x k = AnswerOk d -> d = tf bn x.

(** The goroutines of the upstream and of the transfer fetcher: growth, a transfer that gets
    its block from upstream, a transfer that finishes. *)
Inductive stacked_step (src : fg_source) (f : Stacked) : Stacked -> Prop :=
| stacked_upstream up : fg_step src (upstream f) up -> stacked_step src f (mkStacked up (pending f) (own f))
| stacked_growth started o :
    transfer_growth cfg (own f) = Some (started, o) ->
    stacked_step src f (mkStacked (upstream f) (pending f) o)
| stacked_fetch bn a :
    running (own f) bn -> pending f !! bn = None -> upstream_answer (fg_poll (upstream f) bn) = Some a ->
    stacked_step src f (mkStacked (upstream f) (<[bn := a]> (pending f)) (own f))
| stacked_done bn a ask :
    pending f !! bn = Some a -> transfers bn ask ->
    stacked_step src f (mkStacked (upstream f) (delete bn (pending f))
      (transfer_done Size (own f) bn (transfer_query zero cfg a ask))).

(** The source seen through the transfer function. *)
Definition through (src : fg_source) (n : Z) : option T := fg_view src n ≫= tf n.

Record stacked_inv (src : fg_source) (f : Stacked) : Prop := mkStackedInv {
  si_up : fg_ok (upstream f) src;
  si_own : transfer_inv Size cfg (through src) (own f);
  si_start : StartBlock (fg_range (upstream f)) <= readyEnd (own f);
  si_end : EndBlock (fg_range (upstream f)) = EndBlock (tFull (own f));
  si_pending : forall bn a, pending f !! bn = Some a ->
    running (own f) bn /\ (forall d, a = inr d -> d = fg_view src bn)
}.

Lemma Stacked_new_inv src up lat :
  fg_ok up src -> 0 <= StartBlock (fg_range up) <= 2 ^ 62 ->
  from_option (fun e => StartBlock (fg_range up) <= e) True (EndBlock (fg_range up)) ->
  0 <= GetBlockNumber lat < 2 ^ 62 -> stacked_inv src (Stacked_new up lat).
Proof. intros. split; simpl; [done|by apply TransferFetcher_inv|lia|done|]. intros bn a. by rewrite lookup_empty. Qed.

(** A block whose transfer runs is in the range of the upstream. *)
Lemma running_in_upstream src f bn :
  stacked_inv src f -> running (own f) bn -> BR_Contains (fg_range (upstream f)) bn = true.
Proof.
  intros [_ [H1 H2 _ _ _ _ _ _] H3 H4 _] [Hb _]. rewrite BR_Contains_eq. apply Range_Contains_spec.
  unfold to_range, in_range. simpl. rewrite H4. split; [lia|].
  destruct (EndBlock (tFull (own f))); simpl in *; [lia|done].
Qed.

Lemma transfer_done_frame (f : TransferState T) bn o :
  readyEnd f <= readyEnd (transfer_done Size f bn o) /\ tFull (transfer_done Size f bn o) = tFull f /\
  (forall n, running f n -> n <> bn -> running (transfer_done Size f bn o) n).
Proof.
  pose proof (advance_spec (Z.to_nat (fetchStart f - readyEnd f)) (readyEnd f) ({[bn]} ∪ fetched f)) as Ha.
  assert (Hcore : forall r d gen failed (m : gmap Z T) total,
    advance (Z.to_nat (fetchStart f - readyEnd f)) (readyEnd f) ({[bn]} ∪ fetched f) = (r, d) ->
    let f' := mkTransferState (tFull f) r (fetchStart f) d gen failed (tLatest f) m total (tBrokenErr f) in
    readyEnd f <= readyEnd f' /\ tFull f' = tFull f /\ (forall n, running f n -> n <> bn -> running f' n)).
  { intros r d gen failed m total E. rewrite E in Ha. destruct Ha as (A1 & A2 & _ & A4).
    simpl. split_and!; [lia|done|]. intros n [Hn Hf] Hne. split; simpl.
    - split; [|lia]. destruct (Z_lt_le_dec n r); [|lia]. specialize (A2 n ltac:(lia)). set_solver.
    - rewrite A4. set_solver. }
  unfold transfer_done. destruct o as [[d|]|e|]; [| | |split_and!; [lia|done|done]];
    destruct (advance _ _ _) as [r d']; by apply Hcore.
Qed.

Lemma stacked_done_inv src f bn a ask :
  stacked_inv src f -> pending f !! bn = Some a -> transfers bn ask ->
  stacked_inv src (mkStacked (upstream f) (delete bn (pending f))
    (transfer_done Size (own f) bn (transfer_query zero cfg a ask))).
Proof.
  intros Hi Hp Hask. pose proof Hi as [H1 H2 H3 H4 H5]. destruct (H5 bn a Hp) as [Hrun Ha].
  destruct (transfer_done_frame (own f) bn (transfer_query zero cfg a ask)) as (F1 & F2 & F3).
  split; cbn [upstream pending own]; [done| |lia|by rewrite F2|].
  - apply transfer_done_inv; [done|done|]. intros d Hd. destruct a as [e|from]; [done|].
    unfold through. rewrite <- (Ha from eq_refl). by eapply transfer_query_ok.
  - intros n b Hn. apply lookup_delete_Some in Hn as [Hne Hn]. destruct (H5 n b Hn). auto.
Qed.

Lemma stacked_step_inv src f f' :
  stacked_inv src f -> stacked_step src f f' -> stacked_inv src f' /\ tFull (own f') = tFull (own f).
Proof.
  intros Hi [up Hs|started o Hg|bn a Hr Hp Ha|bn a ask Hp Hask].
  - destruct Hi as [H1 H2 H3 H4 H5]. destruct (fg_ok_step _ _ _ H1 Hs) as [Hok Er].
    split; [|done]. split; cbn [upstream pending own]; rewrite ?Er; done.
  - destruct Hi as [H1 H2 H3 H4 H5].
    destruct (transfer_growth_inv Size cfg _ Hconc _ _ _ H2 Hg) as (Hi' & _ & _ & _).
    assert (Ho : o = own f \/ exists k, fetchStart (own f) <= k /\ o = set_fetchStart k (own f)).
    { unfold transfer_growth in Hg. destruct (fetchFailed (own f)); [done|].
      destruct (match EndBlock (tFull (own f)) with Some e => _ | None => _ end); [done|].
      destruct (_ && _); [|injection Hg as _ <-; auto]. right.
      destruct (launch _ _ _) as [l k] eqn:El. injection Hg as _ <-. exists k. split; [|done].
      apply (launch_mono _ _ _ _ _) in El; [done|by destruct H2; lia|].
      destruct H2. unfold max_fetch_block. destruct (EndBlock (tFull (own f))); lia. }
    destruct Ho as [->|(k & Hk & ->)]; [split; [by split|done]|].
    split; [|done]. split; cbn [upstream pending own set_fetchStart readyEnd tFull] in *; try done.
    intros bn a Hp. destruct (H5 bn a Hp) as [[? ?] ?]. split; [|done]. split; simpl; [lia|done].
  - pose proof Hi as [H1 H2 H3 H4 H5]. split; [|done]. split; cbn [upstream pending own]; try done.
    intros n b Hn. destruct (decide (n = bn)) as [->|Hne].
    + rewrite lookup_insert_eq in Hn. injection Hn as <-. split; [done|]. intros d ->.
      destruct (fg_poll (upstream f) bn) as [d' l|e l|w] eqn:Ep; try done. injection Ha as ->.
      rewrite (fg_poll_serves _ _ _ _ _ H1 Ep). by rewrite (running_in_upstream src f bn Hi Hr).
    + rewrite lookup_insert_ne in Hn by done. auto.
  - split; [by apply (stacked_done_inv src f bn a ask)|].
    by destruct (transfer_done_frame (own f) bn (transfer_query zero cfg a ask)) as (_ & ? & _).
Qed.
Definition Stacked_movable (f : Stacked) (start : Z) : Prop :=
  start <= readyEnd (own f) /\ fg_movable (upstream f) start.

(** [MoveStart] up to the ready blocks. A start beyond them would be cut down here, but not
    in the upstream, which would then drop blocks whose transfer is still to come. *)
Lemma Stacked_MoveStart_inv src f start :
  stacked_inv src f -> Stacked_movable f start ->
  stacked_inv src (Stacked_MoveStart f start) /\
  EndBlock (tFull (own (Stacked_MoveStart f start))) = EndBlock (tFull (own f)) /\
  StartBlock (tFull (own (Stacked_MoveStart f start))) <= Z.max (StartBlock (tFull (own f))) start.
Proof.
  intros [H1 H2 H3 H4 H5] [Hle Hmv]. destruct (fg_ok_move _ _ start H1 Hmv) as (M1 & M2 & M3).
  assert (Hown : readyEnd (transfer_MoveStart Size (own f) start) = readyEnd (own f) /\
    EndBlock (tFull (transfer_MoveStart Size (own f) start)) = EndBlock (tFull (own f)) /\
    StartBlock (tFull (transfer_MoveStart Size (own f) start)) <= Z.max (StartBlock (tFull (own f))) start /\
    (forall n, running (own f) n -> running (transfer_MoveStart Size (own f) start) n)).
  { unfold transfer_MoveStart. bcase; [split_and!; [done|done|lia|done]|].
    destruct (drop_blocks _ _ _ _ _). split_and!; try done. simpl. bcase; lia. }
  destruct Hown as (O1 & O2 & O4 & O3). split; [|done].
  split; cbn [upstream pending own Stacked_MoveStart].
  - done.
  - by apply transfer_MoveStart_inv.
  - rewrite O1. lia.
  - by rewrite M2, O2.
  - intros bn a Hp. destruct (H5 bn a Hp). auto.
Qed.

Lemma Stacked_UpdateLatest_inv src f f' lat :
  stacked_inv src f -> 0 <= GetBlockNumber lat < 2 ^ 62 -> Stacked_UpdateLatest f lat = Ok f' ->
  stacked_inv src f' /\ tFull (own f') = tFull (own f).
Proof.
  intros [H1 H2 H3 H4 H5] Hl. unfold Stacked_UpdateLatest.
  destruct (fg_UpdateLatest (upstream f) lat) as [up| |] eqn:Eu; try done. intros [= <-].
  destruct (fg_ok_latest _ _ _ _ H1 Hl Eu) as [Hok Er]. split; [|done].
  split; cbn [upstream pending own]; rewrite ?Er; try done. by apply transfer_UpdateLatest_inv.
Qed.

Lemma Stacked_Broken_inv src f e :
  stacked_inv src f -> stacked_inv src (Stacked_Broken f e) /\ tFull (own (Stacked_Broken f e)) = tFull (own f).
Proof.
  intros [H1 H2 H3 H4 H5]. destruct (fg_ok_broken _ _ e H1) as [Hok Er].
  assert (Hown : readyEnd (transfer_Broken (own f) e) = readyEnd (own f) /\
    tFull (transfer_Broken (own f) e) = tFull (own f) /\
    (forall n, running (own f) n -> running (transfer_Broken (own f) e) n)).
  { unfold transfer_Broken. by destruct (tBrokenErr (own f)). }
  destruct Hown as (O1 & O2 & O3). split; [|done].
  split; cbn [upstream pending own Stacked_Broken]; rewrite ?Er, ?O1, ?O2; try done.
  - by apply transfer_Broken_inv.
  - intros bn a Hp. destruct (H5 bn a Hp). auto.
Qed.

(** A run of the stack: its goroutines and its callers. *)
Inductive stack_run (src : fg_source) (f : Stacked) : Stacked -> Prop :=
| run_step f' : stacked_step src f f' -> stack_run src f f'
| run_latest lat f' :
    0 <= GetBlockNumber lat < 2 ^ 62 -> Stacked_UpdateLatest f lat = Ok f' -> stack_run src f f'
| run_broken e : stack_run src f (Stacked_Broken f e)
| run_move start : Stacked_movable f start -> stack_run src f (Stacked_MoveStart f start).

Lemma stack_runs_inv src f f' : rtc (stack_run src) f f' -> stacked_inv src f -> stacked_inv src f'.
Proof.
  induction 1 as [|f f1 f2 Hs _ IH]; [done|]. intros Hi. apply IH.
  destruct Hs as [f1 Hs|lat f1 Hl Hu|e|start Hm].
  - by eapply stacked_step_inv.
  - by eapply Stacked_UpdateLatest_inv.
  - by apply Stacked_Broken_inv.
  - by apply Stacked_MoveStart_inv.
Qed.
End Stacked.

(** ** The transfer fetcher offers the interface again *)

#[refine] Instance Stacked_Fetching {U F T : Type} `{Fetching U F} (Size : T -> Z) (zero : T)
    (cfg : TransferConfig) (Hconc : 1 <= maxConcurrency cfg < 2 ^ 62) (Hretry : 0 <= tMaxRetry cfg)
    (tf : Z -> F -> option T) : Fetching (Stacked (U := U) (F := F) (T := T)) T := {
  fg_range f := tFull (own f);
  fg_poll f := transfer_Get (own f);
  fg_UpdateLatest := Stacked_UpdateLatest;
  fg_Broken := Stacked_Broken;
  fg_MoveStart := Stacked_MoveStart Size;
  fg_movable := Stacked_movable;
  fg_source := fg_source (S := U);
  fg_view := through tf;
  fg_step := stacked_step Size zero cfg tf;
  fg_ok f src := stacked_inv Size cfg tf src f
}.
Proof.
  - intros f src n d lat Hi Hg. pose proof (transfer_Get_spec Size cfg (through tf src) (own f) n (si_own _ _ _ _ _ Hi)) as Hs.
    rewrite Hg in Hs. tauto.
  - intros f f' src Hi Hs. by apply (stacked_step_inv Size zero cfg Hconc Hretry tf src f f').
  - intros f f' src lat. apply Stacked_UpdateLatest_inv.
  - intros f src e. apply Stacked_Broken_inv.
  - intros f src start. apply Stacked_MoveStart_inv.
Defined.
Arguments mkStacked {U F T} _ _ _.
Arguments upstream {U F T} _.
Arguments pending {U F T} _.
Arguments own {U F T} _.

(** ** The merged fetcher *)

Section Merge.
Context {S D T : Type} `{Fetching S D}.
Context (mergeFunc : Z -> list D -> option T * option string).

(** Fetchers with an empty range are left out. *)
Definition MergeIsomorphicFetchers (fetchers : list S) : list S :=
  filter (fun f => BR_IsEmpty (fg_range f) = false) fetchers.

Definition merged_range (fetchers : list S) : BlockRange :=
  foldl (fun r f => BR_Cover r (fg_range f)) EmptyBlockRange fetchers.

(** The loop of [Get] over the fetchers: the data found, in order, and the latest block the
    last one reported; or an error; or that one of them has to be waited for. *)
Inductive Merged : Type :=
| MergedFrom (from : list D) (lat : option BlockHeader)
| MergedErr (e : string)
| MergedWait (gen : nat).

Fixpoint merge_polls (fetchers : list S) (n : Z) (from : list D) (lat : option BlockHeader) : Merged :=
  match fetchers with
  | [] => MergedFrom from lat
  | f :: rest =>
      match fg_poll f n with
      | PollErr e _ => MergedErr e
      | PollWait gen => MergedWait gen
      | PollData d l => merge_polls rest n (from ++ match d with Some x => [x] | None => [] end) (Some l)
      end
  end.

Inductive MergeResult : Type :=
| MergeData (d : option T) (lat : option BlockHeader)
| MergeErr (e : string)
| MergeWait (gen : nat).

Definition merge_Get (fetchers : list S) (n : Z) : MergeResult :=
  match merge_polls fetchers n [] None with
  | MergedErr e => MergeErr e
  | MergedWait gen => MergeWait gen
  | MergedFrom from lat =>
      match mergeFunc n from with
      | (_, Some e) => MergeErr e
      | (d, None) => MergeData d lat
      end
  end.

(** [Broken], [UpdateLatest] and [MoveStart] are passed on to the fetchers in turn. *)
Definition merge_Broken (fetchers : list S) (e : string) : list S := map (fun f => fg_Broken f e) fetchers.

Fixpoint merge_UpdateLatest (fetchers : list S) (lat : BlockHeader) : Outcome (list S) :=
  match fetchers with
  | [] => Ok []
  | f :: rest =>
      match fg_UpdateLatest f lat with
      | Ok f' => match merge_UpdateLatest rest lat with
                 | Ok rest' => Ok (f' :: rest')
                 | Panic => Panic
                 | Diverge => Diverge
                 end
      | Panic => Panic
      | Diverge => Diverge
      end
  end.

Definition merge_MoveStart (fetchers : list S) (start : Z) : list S :=
  map (fun f => fg_MoveStart f start) fetchers.

(** The data the sources have for block [n]. *)
Definition sources_at (fs : list S) (srcs : list fg_source) (n : Z) : list D :=
  omap (fun p : S * fg_source => if BR_Contains (fg_range p.1) n then fg_view p.2 n else None) (zip fs srcs).

(** Every fetcher is in a proper state over its source. *)
Definition all_ok (fetchers : list S) (srcs : list fg_source) : Prop := Forall2 fg_ok fetchers srcs.

(** A step of one of the fetchers, or a call of the merged one. *)
Inductive merge_step (srcs : list fg_source) : list S -> list S -> Prop :=
| merge_own before f f' after src :
    srcs !! length before = Some src -> fg_step src f f' ->
    merge_step srcs (before ++ f :: after) (before ++ f' :: after)
| merge_latest fs fs' lat :
    0 <= GetBlockNumber lat < 2 ^ 62 -> merge_UpdateLatest fs lat = Ok fs' -> merge_step srcs fs fs'
| merge_broken fs e : merge_step srcs fs (merge_Broken fs e)
| merge_move fs start :
    Forall (fun f => fg_movable f start) fs -> merge_step srcs fs (merge_MoveStart fs start).

Lemma merge_UpdateLatest_ok fs fs' srcs lat :
  0 <= GetBlockNumber lat < 2 ^ 62 -> all_ok fs srcs -> merge_UpdateLatest fs lat = Ok fs' -> all_ok fs' srcs.
Proof.
  intros Hl Hok. revert fs'. induction Hok as [|f src fs srcs Hf Hok IH]; intros fs' Hu; simpl in Hu.
  { injection Hu as <-. constructor. }
  destruct (fg_UpdateLatest f lat) as [f'| |] eqn:Ef; try done.
  destruct (merge_UpdateLatest fs lat) as [rest| |]; try done. injection Hu as <-.
  constructor; [by destruct (fg_ok_latest _ _ _ _ Hf Hl Ef)|by apply IH].
Qed.

Lemma merge_step_ok srcs fs fs' : merge_step srcs fs fs' -> all_ok fs srcs -> all_ok fs' srcs.
Proof.
  intros [before f f' after src Hsrc Hs|fs0 fs1 lat Hl Hu|fs0 e|fs0 start Hm] Hok.
  - apply Forall2_app_inv_l in Hok as (s1 & s2 & H1 & H2 & ->). apply Forall2_cons_inv_l in H2 as (x & s3 & Hf & H3 & ->).
    rewrite lookup_app_r, (Forall2_length _ _ _ H1), Nat.sub_diag in Hsrc
      by (by rewrite (Forall2_length _ _ _ H1)). simpl in Hsrc. injection Hsrc as ->.
    apply Forall2_app; [done|]. constructor; [by destruct (fg_ok_step _ _ _ Hf Hs)|done].
  - by eapply merge_UpdateLatest_ok.
  - unfold all_ok, merge_Broken. apply Forall2_fmap_l. eapply Forall2_impl; [exact Hok|].
    intros f src Hf. by destruct (fg_ok_broken _ _ e Hf).
  - unfold all_ok, merge_MoveStart. apply Forall2_fmap_l. clear -Hok Hm.
    induction Hok as [|f src fs srcs Hf Hok IH]; constructor; inversion Hm; subst; auto.
    by destruct (fg_ok_move _ _ start Hf).
Qed.

Lemma merge_steps_ok srcs fs fs' : rtc (merge_step srcs) fs fs' -> all_ok fs srcs -> all_ok fs' srcs.
Proof. induction 1; eauto using merge_step_ok. Qed.

Lemma merge_polls_spec fs srcs n from lat from' lat' :
  all_ok fs srcs -> merge_polls fs n from lat = MergedFrom from' lat' -> from' = from ++ sources_at fs srcs n.
Proof.
  intros Hok. revert from lat. induction Hok as [|f src fs srcs Hf _ IH]; intros from lat Hm; simpl in *.
  { injection Hm as <- _. by rewrite app_nil_r. }
  destruct (fg_poll f n) as [d l| |] eqn:Ep; try done. apply IH in Hm. rewrite Hm.
  pose proof (fg_poll_serves f src n d l Hf Ep) as ->. rewrite <- app_assoc. f_equal.
  unfold sources_at. simpl. by destruct (if BR_Contains (fg_range f) n then fg_view src n else None).
Qed.

Lemma merge_Get_spec fs srcs n d lat :
  all_ok fs srcs -> merge_Get fs n = MergeData d lat -> mergeFunc n (sources_at fs srcs n) = (d, None).
Proof.
  intros Hok. unfold merge_Get. destruct (merge_polls _ _ _ _) as [from l| |] eqn:Em; try done.
  apply (merge_polls_spec fs srcs) in Em; [|done]. simpl in Em. subst from.
  destruct (mergeFunc n (sources_at fs srcs n)) as [d' [e|]]; [done|]. by intros [= -> _].
Qed.
End Merge.

