(* ===== verification/EvmChain.v ===== *)
(** * Logs, traces and block identities of an EVM chain: [chain/evm], [chain/evm/supernode]

    The forms in which a node answers: logs and traces, the filter of [eth_getLogs], and the
    hash links of the Ex methods, which let a caller check which fork an answer is from, even
    an empty one. A hash or an address is the text that its [String] method gives. *)
From Stdlib Require Import ZArith Lia String Ascii.
From stdpp Require Import base numbers option sorting gmap list strings.
From S2P Require Import Prelude RangeBase.

(** ** Text *)

Definition lower_ascii (c : ascii) : ascii :=
  let n := nat_of_ascii c in
  if (65 <=? n)%nat && (n <=? 90)%nat then ascii_of_nat (n + 32) else c.

(** [strings.ToLower] of a text of ASCII letters, as hex texts are. *)
Fixpoint ToLower (s : string) : string :=
  match s with
  | EmptyString => EmptyString
  | String c s => String (lower_ascii c) (ToLower s)
  end.

(** ** Errors *)

(** [errMethodNotSupported] is told from the other errors; [fetcher.Permanent] marks those
    that are not retried. *)
Inductive EvmErr : Type := MethodNotSupported | Retryable (msg : string) | Permanent (msg : string).

(** A call that may fail. *)
Definition ebind {A B} (x : A + EvmErr) (f : A -> B + EvmErr) : B + EvmErr :=
  match x with inl a => f a | inr e => inr e end.

Declare Scope evm_scope.
Delimit Scope evm_scope with evm.
Notation "'let?' x ':=' c 'in' k" := (ebind c (fun x => k))
  (at level 10, x pattern, c at level 100, k at level 200) : evm_scope.
Open Scope evm_scope.

(** [utils.FilterArrWithErr]. *)
Fixpoint FilterArrWithErr {A} (f : A -> bool + EvmErr) (src : list A) : list A + EvmErr :=
  match src with
  | [] => inl []
  | item :: rest =>
      let? ok := f item in
      let? r := FilterArrWithErr f rest in
      inl (if ok : bool then item :: r else r)
  end.

(** [utils.Group]. *)
Definition Group {A} (key : A -> Z) (src : list A) : gmap Z (list A) :=
  foldl (fun m x => <[key x := default [] (m !! key x) ++ [x]]> m) ∅ src.

(** ** Logs *)

Record Log : Type := mkLog {
  lAddress : string;
  lTopics : list string;
  lData : string;
  lBlockNumber : Z;
  lTxHash : string;
  lTxIndex : Z;
  lBlockHash : string;
  lBlockTimestamp : Z;
  lIndex : Z
}.

#[global] Instance Log_eq_dec : EqDecision Log.
Proof. solve_decision. Defined.

Definition set_block (hash : string) (timestamp : Z) (l : Log) : Log :=
  mkLog (lAddress l) (lTopics l) (lData l) (lBlockNumber l) (lTxHash l) (lTxIndex l) hash timestamp (lIndex l).

Record EthGetLogsArgs : Type := mkGetLogs { Addresses : list string; ArgTopics : list (list string) }.

(** The loop of the checker over the topics asked for. *)
Fixpoint topics_match (asked : list (list string)) (topics : list string) : bool :=
  match asked with
  | [] => true
  | s :: asked =>
      (bool_decide (s = []) || match topics with [] => false | t :: _ => bool_decide (t ∈ s) end)
      && topics_match asked (tail topics)
  end.

Definition Checker (args : EthGetLogsArgs) (log : Log) : bool :=
  (bool_decide (Addresses args = []) || bool_decide (lAddress log ∈ Addresses args))
  && topics_match (ArgTopics args) (lTopics log).

(** ** Traces *)

(** [Raw] is what the processor gets: its [blockHash] is kept apart from the rest of it. *)
Record Trace : Type := mkTrace {
  trRaw : string;
  trRawHash : option string;
  trBlockNumber : Z;
  trBlockHash : string;
  trTransactionHash : string;
  trTransactionIndex : Z;
  trError : string;
  trAddress : string;
  trSignature : string
}.

#[global] Instance Trace_eq_dec : EqDecision Trace.
Proof. solve_decision. Defined.

(** ** Block links *)

Record BlockLink : Type := mkLink { blNumber : Z; blHash : string; blParentHash : string; blTimestamp : Z }.

#[global] Instance BlockLink_eq_dec : EqDecision BlockLink.
Proof. solve_decision. Defined.

Record BlockHashLinkPart : Type := mkLinkPart {
  LinkFromBlock : option Z;
  BlockHashLink : list string;
  BlockTimestamp : list Z
}.

(** The loop over the links; [prev] is the link before. *)
Fixpoint link_loop (prev : option BlockLink) (part : BlockHashLinkPart) (links : list BlockLink) : BlockHashLinkPart + EvmErr :=
  match links with
  | [] => inl part
  | link :: rest =>
      if match prev with Some p => negb (blNumber link =? blNumber p +! 1) | None => false end
      then inr (Retryable "block links are not contiguous")
      else if match prev with Some p => negb (bool_decide (blParentHash link = blHash p)) | None => false end
      then inr (Retryable "link mismatch: the blocks were read mid-reorg, please retry")
      else
        link_loop (Some link)
          (mkLinkPart (LinkFromBlock part) (BlockHashLink part ++ [blHash link]) (BlockTimestamp part ++ [blTimestamp link])) rest
  end.

Definition NewBlockHashLinkPart (links : list BlockLink) : BlockHashLinkPart + EvmErr :=
  match links with
  | [] => inl (mkLinkPart None [] [])
  | link :: _ => link_loop None (mkLinkPart (Some (blNumber link)) [blParentHash link] []) links
  end.

Definition Covers (p : BlockHashLinkPart) (blockNumber : Z) : bool :=
  match LinkFromBlock p with
  | None => false
  | Some from => (from <=? blockNumber) && (blockNumber <? from +! Z.of_nat (length (BlockTimestamp p)))
  end.

(** The loop that rebuilds the links, for hashes and times of fitting lengths. *)
Fixpoint links_from (n : Z) (parent : string) (hashes : list string) (times : list Z) : list BlockLink :=
  match hashes, times with
  | hash :: hashes, time :: times => mkLink n hash parent time :: links_from (n +! 1) hash hashes times
  | _, _ => []
  end.

Definition Links (p : BlockHashLinkPart) : list BlockLink + EvmErr :=
  match LinkFromBlock p with
  | None =>
      if (0 <? Z.of_nat (length (BlockHashLink p))) || (0 <? Z.of_nat (length (BlockTimestamp p)))
      then inr (Retryable "blockHashLink present without linkFromBlock")
      else inl []
  | Some from =>
      if negb (Z.of_nat (length (BlockHashLink p)) =? Z.of_nat (length (BlockTimestamp p)) + 1)
      then inr (Retryable "blockHashLink and timestamps do not fit")
      else
        match BlockHashLink p with
        | [] => inl []
        | parent :: hashes => inl (links_from from parent hashes (BlockTimestamp p))
        end
  end.

(** ** The answers of the Ex methods *)

(** On the wire a covered log has no block hash or timestamp: the zero hash and 0 when read. *)
Definition zero_hash : string := "0x0000000000000000000000000000000000000000000000000000000000000000".
Definition strip_log (part : BlockHashLinkPart) (l : Log) : Log := if Covers part (lBlockNumber l) then set_block zero_hash 0 l else l.
Definition strip_trace (part : BlockHashLinkPart) (t : Trace) : Trace :=
  if Covers part (trBlockNumber t)
  then mkTrace (trRaw t) None (trBlockNumber t) EmptyString (trTransactionHash t) (trTransactionIndex t) (trError t) (trAddress t) (trSignature t)
  else t.

Record ExResponse (ITEM : Type) : Type := mkEx { exPart : BlockHashLinkPart; exItems : list ITEM }.
Arguments mkEx {ITEM} _ _.
Arguments exPart {ITEM} _.
Arguments exItems {ITEM} _.

(** ** Making them: [chain/evm/supernode/utils.go] *)

Record exBlock (ITEM : Type) : Type := mkExBlock { ebLink : option BlockLink; ebItems : list ITEM }.
Arguments mkExBlock {ITEM} _ _.
Arguments ebLink {ITEM} _.
Arguments ebItems {ITEM} _.

(** The first loop of [checkStoreLinks]. *)
Fixpoint links_seen (seen : gmap Z BlockLink) (links : list BlockLink) : gmap Z BlockLink + EvmErr :=
  match links with
  | [] => inl seen
  | link :: rest =>
      match seen !! blNumber link with
      | Some _ => inr (Retryable "the store holds conflicting identities for a block, retry later")
      | None => links_seen (<[blNumber link := link]> seen) rest
      end
  end.

Definition checkStoreLinks (links : list BlockLink) (start end_ : Z) : unit + EvmErr :=
  let? seen := links_seen ∅ links in
  if forallb (fun bn => bool_decide (is_Some (seen !! bn))) (seqZ start (end_ - start + 1)) then inl ()
  else inr (Retryable "the store is missing a block of the range, retry later").

Section Assemble.
Context {ITEM : Type} (blockNumberOf : ITEM -> Z).

Definition exBlocksFromStore (links : list BlockLink) (items : list ITEM) : list (exBlock ITEM) :=
  let group := Group blockNumberOf items in
  map (fun link => mkExBlock (Some link) (default [] (group !! blNumber link))) links.

Definition assembleEx (elems : list (exBlock ITEM)) : ExResponse ITEM + EvmErr :=
  let links := omap ebLink elems in
  let items := concat (map ebItems elems) in
  let? part := NewBlockHashLinkPart links in
  inl (mkEx part items).
End Assemble.
