(* ===== verification/EvmData.v ===== *)
(** * The data of an EVM chain: [driver/controller/data/evm]

    What handlers ask for is merged into requirements on disjoint ranges, each with one
    filter; a fetcher queries the node for each of them. The node is behind the [Client]
    interface. Its Ex methods give the identity of the blocks; where it has none, the blocks
    near the head are queried one by one. The goroutines of such a query are run in the order
    of the blocks, so of several errors the first is returned. *)
From Stdlib Require Import ZArith Lia String.
From stdpp Require Import base numbers option sorting gmap list strings.
From S2P Require Import Prelude RangeBase RangeSet BlockRange Sparsify Errors Checkpoint Intervals EvmChain.

(** ** Headers *)

(** The hashes of the transactions may be nil, which is told from an empty list. *)
Record EvmHeader : Type := mkEvmHeader {
  ehRaw : string;
  ehNumber : Z;
  ehHash : string;
  ehTime : Z;
  ehParent : string;
  ehTxHashes : option (list string)
}.

#[global] Instance EvmHeader_eq_dec : EqDecision EvmHeader.
Proof. solve_decision. Defined.

Definition maxInt32 : Z := 2147483647.

(** The time of a header as it is read: the unit of the timestamp is told from its size. *)
Definition header_time (timestamp : Z) : Z :=
  if timestamp <? maxInt32 then timestamp * 1000000000
  else if timestamp <? maxInt32 * 1000 then timestamp * 1000000
  else if timestamp <? maxInt32 * 1000000 then timestamp * 1000
  else to_int64 timestamp.

(** [time.Unix] of the seconds. *)
Definition headerFromLink (link : BlockLink) : EvmHeader :=
  mkEvmHeader EmptyString (blNumber link) (blHash link) (to_int64 (blTimestamp link) * 1000000000) (blParentHash link) None.

Definition as_header (h : EvmHeader) : BlockHeader := mkBlockHeader (ehNumber h) (ehParent h) (ehHash h) (ehTime h).

(** ** The client *)

Class Client : Type := {
  cl_GetHeader : Z -> EvmHeader + EvmErr;
  cl_GetLogs : Z -> Z -> list string -> list (list string) -> list Log + EvmErr;
  cl_GetLogsByBlockHash : string -> list string -> list (list string) -> list Log + EvmErr;
  cl_GetLogsEx : Z -> Z -> list string -> list (list string) -> ExResponse Log + EvmErr;
  cl_GetTraces : Z -> Z -> list string -> list Trace + EvmErr;
  cl_GetTracesEx : Z -> Z -> list string -> ExResponse Trace + EvmErr;
  cl_IsERC20Address : string -> bool + EvmErr
}.

(** ** Filters *)

Record LogFilter : Type := mkLogFilter {
  lfTopics : list (list string);
  lfAddress : list string;
  lfERC20 : bool
}.

(** The loop of the checker over the topics of the log. *)
Fixpoint topics_pass (topics : list string) (asked : list (list string)) : bool :=
  match topics, asked with
  | topic :: topics, s :: asked => (bool_decide (s = []) || bool_decide (topic ∈ s)) && topics_pass topics asked
  | _, _ => true
  end.

Definition address_pass (addresses : list string) (address : string) : bool :=
  bool_decide (addresses = []) || bool_decide (ToLower address ∈ addresses).

(** [set.New(...).DumpValues()] of several lists. *)
Definition dump (ls : list (list string)) : list string := elements (list_to_set (concat ls) : gset string).

Section Filters.
Context `{Client}.

Definition BuildChecker (f : LogFilter) (log : Log) : bool + EvmErr :=
  if negb (topics_pass (lTopics log) (lfTopics f)) then inl false
  else if negb (address_pass (lfAddress f) (lAddress log)) then inl false
  else if lfERC20 f then cl_IsERC20Address (lAddress log)
  else inl true.

(** The loop over the checkers. *)
Fixpoint any_checker (filters : list LogFilter) (log : Log) : bool + EvmErr :=
  match filters with
  | [] => inl false
  | f :: rest => let? fok := BuildChecker f log in if fok : bool then inl true else any_checker rest log
  end.

Definition FilterLogs (logs : list Log) (filters : list LogFilter) : list Log + EvmErr :=
  FilterArrWithErr (any_checker filters) logs.
End Filters.

Definition LogFilter_Merge (f a : LogFilter) : LogFilter :=
  mkLogFilter
    (zip_with (fun s t => if (0 <? Z.of_nat (length s)) && (0 <? Z.of_nat (length t)) then dump [s; t] else []) (lfTopics f) (lfTopics a))
    (if (0 <? Z.of_nat (length (lfAddress f))) && (0 <? Z.of_nat (length (lfAddress a))) then dump [lfAddress f; lfAddress a] else [])
    (lfERC20 f && lfERC20 a).

(** The inner loop of [MergeLogFilers] at one position: no value when a filter has no such
    topic; a filter that takes every topic ends the loop. *)
Fixpoint topic_at (i : nat) (s : gset string) (filters : list LogFilter) : option (gset string) :=
  match filters with
  | [] => Some s
  | f :: rest =>
      match lfTopics f !! i with
      | None => None
      | Some [] => Some ∅
      | Some t => topic_at i (s ∪ list_to_set t) rest
      end
  end.

Fixpoint topics_loop (fuel i : nat) (filters : list LogFilter) (acc : list (list string)) : Outcome (list (list string)) :=
  match fuel with
  | O => Diverge
  | S fuel =>
      match topic_at i ∅ filters with
      | None => Ok acc
      | Some s => topics_loop fuel (S i) filters (acc ++ [elements s])
      end
  end.

(** The loop that collects values, and stops at a filter that takes all of them. *)
Fixpoint collect_or_all {F} (get : F -> list string) (s : gset string) (filters : list F) : gset string :=
  match filters with
  | [] => s
  | f :: rest => match get f with [] => ∅ | l => collect_or_all get (s ∪ list_to_set l) rest end
  end.

(** There are no more rounds than the first filter has topics. *)
Definition MergeLogFilers (filters : list LogFilter) : Outcome LogFilter :=
  match filters with
  | [] => Panic
  | f :: _ =>
      let! topics := topics_loop (S (length (lfTopics f))) 0 filters [] in
      Ok (mkLogFilter topics (elements (collect_or_all lfAddress ∅ filters)) (forallb lfERC20 filters))
  end.

Record TraceFilter : Type := mkTraceFilter { tfSignature : list string; tfAddress : list string }.

Definition TraceFilter_Check (f : TraceFilter) (t : Trace) : bool :=
  if negb (bool_decide (trError t = EmptyString)) then false
  else if negb (bool_decide (tfAddress f = [])) && negb (bool_decide (ToLower (trAddress t) ∈ tfAddress f)) then false
  else if negb (bool_decide (tfSignature f = [])) && negb (bool_decide (trSignature t ∈ tfSignature f)) then false
  else true.

Definition TraceFilter_Merge (t a : TraceFilter) : TraceFilter :=
  mkTraceFilter
    (if (0 <? Z.of_nat (length (tfSignature t))) && (0 <? Z.of_nat (length (tfSignature a))) then dump [tfSignature t; tfSignature a] else [])
    (if (0 <? Z.of_nat (length (tfAddress t))) && (0 <? Z.of_nat (length (tfAddress a))) then dump [tfAddress t; tfAddress a] else []).

Definition MergeTraceFilters (filters : list TraceFilter) : Outcome TraceFilter :=
  match filters with
  | [] => Panic
  | _ => Ok (mkTraceFilter (elements (collect_or_all tfSignature ∅ filters)) (elements (collect_or_all tfAddress ∅ filters)))
  end.

(** ** Requirements *)

Record LogRequirement : Type := mkLogReq { lrRange : BlockRange; lrFilter : LogFilter }.
Record TraceRequirement : Type := mkTraceReq { trRange : BlockRange; trFilter : TraceFilter }.

(** The loop over the pieces the ranges are cut into. *)
Fixpoint merge_on {F R} (range : R -> BlockRange) (filter_of : R -> F) (merge : list F -> Outcome F) (make : BlockRange -> F -> R)
    (reqs : list R) (pieces : list BlockRange) : Outcome (list R) :=
  match pieces with
  | [] => Ok []
  | r :: rest =>
      match map filter_of (filter (fun req => BR_Include (range req) r = true) reqs) with
      | [] => merge_on range filter_of merge make reqs rest
      | filters =>
          let! f := merge filters in
          let! l := merge_on range filter_of merge make reqs rest in
          Ok (make r f :: l)
      end
  end.

Definition MergeLogRequirements (current : Z) (reqs : list LogRequirement) : Outcome (list LogRequirement) :=
  merge_on lrRange lrFilter MergeLogFilers mkLogReq reqs (BR_CutRangeSet current (map lrRange reqs)).

Definition MergeTraceRequirement (current : Z) (reqs : list TraceRequirement) : Outcome (list TraceRequirement) :=
  merge_on trRange trFilter MergeTraceFilters mkTraceReq reqs (BR_CutRangeSet current (map trRange reqs)).

(** ** The main data of a block *)

Record BlockMainData : Type := mkMain {
  bmLogs : list Log;
  bmTraces : list Trace;
  bmIntervals : list IntervalConfig;
  bmExact : bool;
  bmHeader : option EvmHeader
}.

Definition no_main : BlockMainData := mkMain [] [] [] false None.

Definition Main_Size (d : BlockMainData) : Z := Z.of_nat (length (bmLogs d)) + Z.of_nat (length (bmTraces d)) + Z.of_nat (length (bmIntervals d)).
Definition Main_IsEmpty (d : BlockMainData) : bool :=
  (Main_Size d =? 0) && negb (bmExact d) && match bmHeader d with None => true | Some _ => false end.

Definition with_header (h : EvmHeader) : BlockMainData := mkMain [] [] [] false (Some h).
Definition with_logs (l : list Log) : BlockMainData := mkMain l [] [] false None.
Definition with_traces (l : list Trace) : BlockMainData := mkMain [] l [] false None.

Definition add_log (l : Log) (d : BlockMainData) : BlockMainData := mkMain (bmLogs d ++ [l]) (bmTraces d) (bmIntervals d) (bmExact d) (bmHeader d).
Definition add_trace (t : Trace) (d : BlockMainData) : BlockMainData := mkMain (bmLogs d) (bmTraces d ++ [t]) (bmIntervals d) (bmExact d) (bmHeader d).

(** ** Links *)

Definition linkIndex (links : list BlockLink) : gmap Z BlockLink := foldl (fun dict link => <[blNumber link := link]> dict) ∅ links.

Definition checkLinksReachEnd (links : list BlockLink) (end_ : Z) : unit + EvmErr :=
  match last links with
  | Some link => if blNumber link <? end_ then inr (Retryable "the endpoint's head is behind, will retry") else inl ()
  | None => inl ()
  end.

Definition emptyEntriesFromLinks (links : list BlockLink) : gmap Z BlockMainData :=
  foldl (fun result link => <[blNumber link := with_header (headerFromLink link)]> result) ∅ links.

(** The zero trace, read from a JSON null, has no [Raw] to patch. *)
Definition setTraceBlockHash (t : Trace) (blockHash : string) : Trace + EvmErr :=
  if bool_decide (trRaw t = EmptyString) then inr (Retryable "patch blockHash into trace failed")
  else inl (mkTrace (trRaw t) (Some blockHash) (trBlockNumber t) blockHash (trTransactionHash t) (trTransactionIndex t) (trError t) (trAddress t) (trSignature t)).

Definition checkTipCovered (entries : gmap Z BlockMainData) (end_ : Z) : unit + EvmErr :=
  match entries !! end_ with
  | Some entry => match bmHeader entry with Some _ => inl () | None => inr (Retryable "the Ex response did not cover the tip, will retry") end
  | None => inr (Retryable "the Ex response did not cover the tip, will retry")
  end.

Definition checkTracesBlockHash (traces : list Trace) (blockHash : string) : unit + EvmErr :=
  if bool_decide (blockHash = EmptyString) then inl ()
  else if forallb (fun t => bool_decide (trBlockHash t = blockHash)) traces then inl ()
  else inr (Retryable "the endpoint answered from a different fork, will retry").

(** The loop that sets the hash of every trace. *)
Fixpoint set_hashes (hash : string) (traces : list Trace) : list Trace + EvmErr :=
  match traces with
  | [] => inl []
  | t :: rest => let? t' := setTraceBlockHash t hash in let? l := set_hashes hash rest in inl (t' :: l)
  end.

Definition tracesFromExForBlock (resp : ExResponse Trace) (blockNumber : Z) (blockHash : string) : list Trace + EvmErr :=
  let? links := Links (exPart resp) in
  match linkIndex links !! blockNumber with
  | None => let? _ := checkTracesBlockHash (exItems resp) blockHash in inl (exItems resp)
  | Some link =>
      if negb (bool_decide (blockHash = EmptyString)) && negb (bool_decide (blHash link = blockHash))
      then inr (Retryable "the endpoint answered from a different fork, will retry")
      else set_hashes (blHash link) (exItems resp)
  end.

(** [errgroup] over the blocks of a range. *)
Fixpoint each_block {A} (f : Z -> A + EvmErr) (blocks : list Z) : gmap Z A + EvmErr :=
  match blocks with
  | [] => inl ∅
  | bn :: rest => let? a := f bn in let? m := each_block f rest in inl (<[bn := a]> m)
  end.

Section Queries.
Context `{Client}.

(** The limits come from the environment. *)
Context (ethGetLogsMaxAddressLen ethGetLogsMaxTopicLen : Z).

(** ** Logs *)

(** A set that is too big is not sent: the logs are filtered afterwards. *)
Definition bounded (limit : Z) (s : list string) : list string := if limit <? Z.of_nat (length s) then [] else s.

(** Adds the logs to the entries of their blocks, with the identity the link gives. *)
Definition place_log (dict : gmap Z BlockLink) (result : gmap Z BlockMainData) (lg : Log) : gmap Z BlockMainData :=
  let lg := match dict !! lBlockNumber lg with Some link => set_block (blHash link) (blTimestamp link) lg | None => lg end in
  <[lBlockNumber lg := add_log lg (default no_main (result !! lBlockNumber lg))]> result.

Definition buildLogEntriesFromEx (req : LogRequirement) (resp : ExResponse Log) (end_ : Z) : gmap Z BlockMainData + EvmErr :=
  let? links := Links (exPart resp) in
  let? _ := checkLinksReachEnd links end_ in
  let? logs := FilterLogs (exItems resp) [lrFilter req] in
  inl (foldl (place_log (linkIndex links)) (emptyEntriesFromLinks links) logs).

Definition tip_logs (req : LogRequirement) (address : list string) (topics : list (list string)) (bn : Z) : BlockMainData + EvmErr :=
  let? h := cl_GetHeader bn in
  let? logs :=
    (match cl_GetLogsByBlockHash (ehHash h) address topics with
     | inr MethodNotSupported => cl_GetLogs bn bn address topics
     | r => r
     end) in
  let? logs := FilterLogs logs [lrFilter req] in
  inl (mkMain logs [] [] false (Some h)).

Definition fetchLogsAtTip (req : LogRequirement) (start end_ : Z) (address : list string) (topics : list (list string)) : gmap Z BlockMainData + EvmErr :=
  each_block (tip_logs req address topics) (seqZ start (end_ - start + 1)).

(** The query of the fetcher that [BuildLogFetcher] makes. *)
Definition log_query (req : LogRequirement) (start end_ : Z) (latest : BlockHeader) : gmap Z BlockMainData + EvmErr :=
  let address := bounded ethGetLogsMaxAddressLen (lfAddress (lrFilter req)) in
  let topics := map (bounded ethGetLogsMaxTopicLen) (lfTopics (lrFilter req)) in
  match cl_GetLogsEx start end_ address topics with
  | inl resp =>
      let? entries := buildLogEntriesFromEx req resp end_ in
      let? _ := (if end_ =? GetBlockNumber latest then checkTipCovered entries end_ else inl ()) in
      inl entries
  | inr MethodNotSupported =>
      if end_ =? GetBlockNumber latest then fetchLogsAtTip req start end_ address topics
      else
        let? allLogs := cl_GetLogs start end_ address topics in
        let? allLogs := FilterLogs allLogs [lrFilter req] in
        inl (with_logs <$> Group lBlockNumber allLogs)
  | inr e => inr e
  end.

(** ** Traces *)

(** The loop over the traces of an Ex answer. *)
Fixpoint place_traces (filter_of : TraceFilter) (dict : gmap Z BlockLink) (result : gmap Z BlockMainData) (traces : list Trace) : gmap Z BlockMainData + EvmErr :=
  match traces with
  | [] => inl result
  | t :: rest =>
      let? t := (match dict !! trBlockNumber t with Some link => setTraceBlockHash t (blHash link) | None => inl t end) in
      place_traces filter_of dict
        (if TraceFilter_Check filter_of t then <[trBlockNumber t := add_trace t (default no_main (result !! trBlockNumber t))]> result else result) rest
  end.

Definition buildTraceEntriesFromEx (req : TraceRequirement) (resp : ExResponse Trace) (end_ : Z) : gmap Z BlockMainData + EvmErr :=
  let? links := Links (exPart resp) in
  let? _ := checkLinksReachEnd links end_ in
  place_traces (trFilter req) (linkIndex links) (emptyEntriesFromLinks links) (exItems resp).

Definition tip_traces (req : TraceRequirement) (bn : Z) : BlockMainData + EvmErr :=
  let? h := cl_GetHeader bn in
  let? traces := cl_GetTraces bn bn (tfAddress (trFilter req)) in
  if forallb (fun t => bool_decide (trBlockHash t = ehHash h)) traces
  then inl (mkMain [] (filter (fun t => TraceFilter_Check (trFilter req) t = true) traces) [] false (Some h))
  else inr (Retryable "the endpoint answered from a different fork, will retry").

Definition fetchTracesAtTip (req : TraceRequirement) (start end_ : Z) : gmap Z BlockMainData + EvmErr :=
  each_block (tip_traces req) (seqZ start (end_ - start + 1)).

Definition trace_query (req : TraceRequirement) (start end_ : Z) (latest : BlockHeader) : gmap Z BlockMainData + EvmErr :=
  match cl_GetTracesEx start end_ (tfAddress (trFilter req)) with
  | inl resp =>
      let? entries := buildTraceEntriesFromEx req resp end_ in
      let? _ := (if end_ =? GetBlockNumber latest then checkTipCovered entries end_ else inl ()) in
      inl entries
  | inr MethodNotSupported =>
      if end_ =? GetBlockNumber latest then fetchTracesAtTip req start end_
      else
        let? allTraces := cl_GetTraces start end_ (tfAddress (trFilter req)) in
        inl (with_traces <$> Group trBlockNumber (filter (fun t => TraceFilter_Check (trFilter req) t = true) allTraces))
  | inr e => inr e
  end.

(** ** Intervals *)

Definition header_times (n : Z) : Z + EvmErr := let? h := cl_GetHeader n in inl (ehTime h).

Definition interval_query (first : Z) (req : IntervalRequirement) (start end_ : Z) (latest : BlockHeader) : Outcome (gmap Z BlockMainData + EvmErr) :=
  let! r := QueryInterval header_times start end_ first latest req in
  Ok (let? bns := r in
      inl (foldl (fun result bn => <[bn := mkMain [] [] [rConfig req] false None]> result) ∅ bns)).
End Queries.

(** ** All the data of a block *)

Record DataRequirement : Type := mkData {
  drLog : list LogRequirement;
  drTrace : list TraceRequirement;
  drInterval : list IntervalRequirement;
  drExact : list Z
}.

(** The loop of the merge function over the data of the fetchers. *)
Fixpoint merge_boxes (data : BlockMainData) (from : list BlockMainData) : BlockMainData * option string :=
  match from with
  | [] => (data, None)
  | box :: rest =>
      let d hdr := mkMain (bmLogs data ++ bmLogs box) (bmTraces data ++ bmTraces box) (bmIntervals data ++ bmIntervals box) (bmExact data) hdr in
      match bmHeader box, bmHeader data with
      | None, _ => merge_boxes (d (bmHeader data)) rest
      | Some h, None => merge_boxes (d (Some h)) rest
      | Some h, Some h0 =>
          if negb (bool_decide (ehHash h0 = ehHash h)) || negb (bool_decide (ehParent h0 = ehParent h))
          then (d (Some h0), Some "fetchers disagree on the identity of a block"%string)
          else merge_boxes (d (Some h0)) rest
      end
  end.

(** The merge function of [BuildBlockMainDataFetcher]. *)
Definition merge_main (exact : gset Z) (bn : Z) (from : list BlockMainData) : option BlockMainData * option string :=
  let ex := bool_decide (bn ∈ exact) in
  match merge_boxes (mkMain [] [] [] ex None) from with
  | (_, Some e) => (None, Some e)
  | (d, None) => (if (0 <? Z.of_nat (length from)) || ex then Some d else None, None)
  end.

(** The requirements the fetchers are made for. *)
Definition merge_requirements_of (sortSlice : (IntervalRequirement -> IntervalRequirement -> bool) -> list IntervalRequirement -> list IntervalRequirement)
    (req : DataRequirement) (current : Z) : Outcome DataRequirement :=
  let! l := MergeLogRequirements current (drLog req) in
  let! t := MergeTraceRequirement current (drTrace req) in
  Ok (mkData l t (MergeIntervalRequirements sortSlice (drInterval req)) (drExact req)).

(** The range of the fetcher of a requirement. *)
Definition fetch_range (current : Z) (r : BlockRange) : BlockRange := mkBlockRange (Z.max current (StartBlock r)) (EndBlock r).
