(* ===== verification/EvmFilter.v ===== *)
(** * Links and filters

    Links survive the way through an Ex answer; merged filters accept at least what each of
    the filters accepts, both here and at the node. *)
From Stdlib Require Import ZArith Lia String.
From stdpp Require Import base numbers option sorting gmap list strings.
From S2P Require Import Prelude RangeBase RangeSet BlockRange Sparsify Errors Checkpoint Intervals EvmChain EvmData.

(** ** Links *)

(** Each link follows the one before it. *)
Fixpoint chained (prev : option BlockLink) (links : list BlockLink) : Prop :=
  match links with
  | [] => True
  | link :: rest => (forall p, prev = Some p -> blNumber link = blNumber p +! 1 /\ blParentHash link = blHash p) /\ chained (Some link) rest
  end.

Lemma link_loop_spec prev part links part' :
  link_loop prev part links = inl part' <->
  chained prev links /\ part' = mkLinkPart (LinkFromBlock part) (BlockHashLink part ++ map blHash links) (BlockTimestamp part ++ map blTimestamp links).
Proof.
  revert prev part. induction links as [|link links IH]; intros prev part; cbn [link_loop chained map].
  { rewrite !app_nil_r. destruct part. cbn. split; [intros [= <-]; done|intros [_ ->]; done]. }
  destruct prev as [p|]; cbn.
  - destruct (Z.eqb_spec (blNumber link) (blNumber p +! 1)) as [E|E]; cbn; [|split; [done|intros [[H _] _]; by destruct (H p eq_refl)]].
    destruct (bool_decide_reflect (blParentHash link = blHash p)) as [E'|E']; cbn; [|split; [done|intros [[H _] _]; by destruct (H p eq_refl)]].
    rewrite IH. cbn. rewrite <- !app_assoc. cbn. split; intros [H1 H2]; (split; [|done]); [split; [|done]; intros q [= <-]; done|by destruct H1].
  - rewrite IH. cbn. rewrite <- !app_assoc. cbn. split; intros [H1 H2]; (split; [|done]); [split; [|done]; by intros q ?|by destruct H1].
Qed.

Lemma links_from_chained links n parent :
  (forall link, head links = Some link -> blNumber link = n /\ blParentHash link = parent) -> chained None links ->
  links_from n parent (map blHash links) (map blTimestamp links) = links.
Proof.
  intros Hh. assert (Hc : forall prev ls m q, (forall link, head ls = Some link -> blNumber link = m /\ blParentHash link = q) -> chained prev ls -> links_from m q (map blHash ls) (map blTimestamp ls) = ls).
  { clear. intros prev ls. revert prev. induction ls as [|link ls IH]; intros prev m q Hh Hc; [done|]. cbn. destruct (Hh link eq_refl) as [<- <-].
    destruct Hc as [_ Hc]. rewrite (IH (Some link)); [by destruct link| |done]. intros x Hx. destruct ls as [|y ls]; [done|]. injection Hx as ->. by apply Hc. }
  by apply Hc.
Qed.

Lemma NewBlockHashLinkPart_spec links part : NewBlockHashLinkPart links = inl part -> chained None links /\ Links part = inl links.
Proof.
  unfold NewBlockHashLinkPart. destruct links as [|link links]; [intros [= <-]; done|]. intros E. apply link_loop_spec in E as [Hc ->]. split; [done|].
  unfold Links. cbn [LinkFromBlock BlockHashLink BlockTimestamp app length map]. rewrite !length_map. rewrite (proj2 (Z.eqb_eq _ _)) by lia. cbn [negb]. f_equal.
  apply (links_from_chained (link :: links)); [|done]. by intros x [= <-].
Qed.

Lemma NewBlockHashLinkPart_total links : chained None links -> exists part, NewBlockHashLinkPart links = inl part.
Proof.
  intros Hc. destruct links as [|link links]; [by eexists|]. eexists. cbn [NewBlockHashLinkPart]. apply link_loop_spec. by split.
Qed.

(** The links of consecutive blocks of a chain; [prev] is that of the block before. *)
Lemma chained_seq (ident : Z -> BlockLink) (m : nat) from prev :
  0 <= from -> from + Z.of_nat m < 2 ^ 63 -> (prev = None \/ prev = Some (ident (from - 1)) /\ 0 < from) ->
  (forall n, 0 <= n -> blNumber (ident n) = n) -> (forall n, 0 < n -> blParentHash (ident n) = blHash (ident (n - 1))) ->
  chained prev (map ident (seqZ from (Z.of_nat m))).
Proof.
  intros H0 Hmax Hprev Hn Hp. revert from prev H0 Hmax Hprev. induction m as [|m IH]; intros from prev H0 Hmax Hprev; [done|].
  rewrite seqZ_cons by lia. cbn [map chained]. split.
  - intros p ->. destruct Hprev as [?|[[= ->] Hlt]]; [done|]. rewrite !Hn, Hp by lia. split; [|done]. rewrite add64_small; unfold two64; lia.
  - replace (Z.pred (Z.of_nat (S m))) with (Z.of_nat m) by lia. apply IH; [lia|lia|]. right. split; [do 2 f_equal; lia|lia].
Qed.

(** ** Filters *)

Lemma topic_at_spec i filters s0 s f :
  topic_at i s0 filters = Some s -> f ∈ filters ->
  s = ∅ \/ exists t, lfTopics f !! i = Some t /\ t <> [] /\ s0 ∪ list_to_set t ⊆ s.
Proof.
  revert s0. induction filters as [|g filters IH]; intros s0 E Hf; [by apply elem_of_nil in Hf|]. cbn in E.
  destruct (lfTopics g !! i) as [[|x t]|] eqn:Eg; [injection E as <-; by left| |done].
  assert (Hsub : forall s1, topic_at i s1 filters = Some s -> s = ∅ \/ s1 ⊆ s).
  { clear. induction filters as [|h filters IH]; intros s1 E; cbn in E; [injection E as <-; by right|].
    destruct (lfTopics h !! i) as [[|x t]|]; [injection E as <-; by left| |done]. destruct (IH _ E) as [?|?]; [by left|right; set_solver]. }
  apply elem_of_cons in Hf as [->|Hf].
  - destruct (Hsub _ E) as [?|?]; [by left|]. right. exists (x :: t). split_and!; [done|done|set_solver].
  - destruct (IH _ E Hf) as [?|(t' & ? & ? & ?)]; [by left|]. right. exists t'. split_and!; [done|done|set_solver].
Qed.

(** At each position, all topics or at least those of the filter. *)
Definition wider (asked asked' : list (list string)) : Prop :=
  forall i s, asked' !! i = Some s -> s = [] \/ exists t, asked !! i = Some t /\ t <> [] /\ t ⊆ s.

Lemma wider_cons s asked s' asked' : wider (s :: asked) (s' :: asked') <-> (s' = [] \/ s <> [] /\ s ⊆ s') /\ wider asked asked'.
Proof.
  split.
  - intros H. split.
    + destruct (H 0%nat s' eq_refl) as [?|(t & [= <-] & ? & ?)]; [by left|by right].
    + intros i x Hi. apply (H (S i) x Hi).
  - intros [H0 H] [|i] x Hi; [|by apply H]. injection Hi as <-. destruct H0 as [?|[? ?]]; [by left|]. right. by exists s.
Qed.

Lemma wider_nil s' asked' : wider [] (s' :: asked') -> s' = [] /\ wider [] asked'.
Proof.
  intros H. split; [|intros i x Hi; apply (H (S i) x Hi)]. destruct (H 0%nat s' eq_refl) as [?|(t & ? & _)]; done.
Qed.

Lemma topics_pass_wider topics asked asked' : wider asked asked' -> topics_pass topics asked = true -> topics_pass topics asked' = true.
Proof.
  revert topics asked. induction asked' as [|s' asked' IH]; intros topics asked Hw Hp; [by destruct topics|]. destruct topics as [|t topics]; [done|]. cbn.
  destruct asked as [|s asked].
  - apply wider_nil in Hw as [-> Hw]. rewrite bool_decide_true by done. apply (IH topics []); [done|by destruct topics].
  - apply wider_cons in Hw as [Hs Hw]. cbn in Hp. apply andb_true_iff in Hp as [H1 H2]. rewrite (IH topics asked) by done. rewrite andb_true_r.
    destruct Hs as [->|[Hs Hss]]; [by rewrite bool_decide_true|]. rewrite (bool_decide_false (s = [])) in H1 by done. cbn in H1. apply bool_decide_eq_true in H1.
    apply orb_true_iff. right. apply bool_decide_eq_true. by apply Hss.
Qed.

Lemma topics_match_wider topics asked asked' : wider asked asked' -> topics_match asked topics = true -> topics_match asked' topics = true.
Proof.
  revert topics asked. induction asked' as [|s' asked' IH]; intros topics asked Hw Hp; [done|]. cbn. destruct asked as [|s asked].
  - apply wider_nil in Hw as [-> Hw]. rewrite bool_decide_true by done. by apply (IH (tail topics) []).
  - apply wider_cons in Hw as [Hs Hw]. cbn in Hp. apply andb_true_iff in Hp as [H1 H2]. rewrite (IH (tail topics) asked) by done. rewrite andb_true_r.
    destruct Hs as [->|[Hs Hss]]; [by rewrite bool_decide_true|]. rewrite (bool_decide_false (s = [])) in H1 by done. cbn in H1. destruct topics as [|t topics]; [done|].
    apply bool_decide_eq_true in H1. apply orb_true_iff. right. apply bool_decide_eq_true. by apply Hss.
Qed.

(** What the node accepts passes here. *)
Lemma topics_match_pass topics asked : topics_match asked topics = true -> topics_pass topics asked = true.
Proof.
  revert topics. induction asked as [|s asked IH]; intros topics; [by destruct topics|]. destruct topics as [|t topics]; [done|]. cbn. intros [H1 H2]%andb_true_iff.
  rewrite H1. by apply IH.
Qed.

Lemma topics_loop_spec fuel i f filters acc :
  (i <= length (lfTopics f))%nat -> (length (lfTopics f) < i + fuel)%nat ->
  exists l, topics_loop fuel i (f :: filters) acc = Ok (acc ++ l) /\ forall k s, l !! k = Some s -> exists t, topic_at (i + k) ∅ (f :: filters) = Some t /\ s = elements t.
Proof.
  revert i acc. induction fuel as [|fuel IH]; intros i acc Hi Hl; [lia|]. cbn [topics_loop]. destruct (topic_at i ∅ (f :: filters)) as [t|] eqn:Et.
  - assert (i < length (lfTopics f))%nat by (cbn in Et; destruct (lfTopics f !! i) eqn:E; [by apply lookup_lt_Some in E|done]).
    destruct (IH (S i) (acc ++ [elements t])) as (l & -> & Hk); [lia|lia|]. exists (elements t :: l). rewrite <- app_assoc. split; [done|].
    intros [|k] s Hs; [injection Hs as <-; exists t; by rewrite Nat.add_0_r|]. destruct (Hk k s Hs) as (t' & E & ->). exists t'. by rewrite Nat.add_succ_r.
  - exists []. rewrite app_nil_r. split; [done|]. by intros k s Hk.
Qed.

Lemma collect_or_all_spec {F} (get : F -> list string) s0 filters f :
  f ∈ filters -> collect_or_all get s0 filters = ∅ \/ get f <> [] /\ list_to_set (get f) ⊆ collect_or_all get s0 filters.
Proof.
  assert (Hsub : forall s1 l, collect_or_all get s1 l = ∅ \/ s1 ⊆ collect_or_all get s1 l).
  { intros s1 l. revert s1. induction l as [|h l IH]; intros s1; cbn; [by right|]. destruct (get h) as [|x t]; [by left|].
    destruct (IH (s1 ∪ list_to_set (x :: t))) as [?|?]; [by left|right; set_solver]. }
  revert s0. induction filters as [|g filters IH]; intros s0 Hf; [by apply elem_of_nil in Hf|]. cbn. destruct (get g) as [|x t] eqn:Eg; [by left|].
  apply elem_of_cons in Hf as [->|Hf].
  - rewrite Eg. destruct (Hsub (s0 ∪ list_to_set (x :: t)) filters) as [?|?]; [by left|right]. split; [done|set_solver].
  - by apply IH.
Qed.

(** What a filter merged from others promises. *)
Record wider_filter (f r : LogFilter) : Prop := mkWider {
  wf_topics : wider (lfTopics f) (lfTopics r);
  wf_address : lfAddress r = [] \/ lfAddress f <> [] /\ lfAddress f ⊆ lfAddress r;
  wf_erc20 : lfERC20 r = true -> lfERC20 f = true
}.

Lemma elements_nil_or (s : gset string) l : s = ∅ \/ l <> [] /\ list_to_set l ⊆ s -> elements s = [] \/ l <> [] /\ l ⊆ elements s.
Proof. intros [->|[H1 H2]]; [left; apply elements_empty|right]. split; [done|]. intros x Hx. apply elem_of_elements. set_solver. Qed.

Lemma MergeLogFilers_wider filters : filters <> [] -> exists r, MergeLogFilers filters = Ok r /\ forall f, f ∈ filters -> wider_filter f r.
Proof.
  destruct filters as [|f0 filters]; [done|]. intros _. unfold MergeLogFilers.
  destruct (topics_loop_spec (S (length (lfTopics f0))) 0 f0 filters []) as (l & -> & Hl); [lia|lia|]. cbn [obind app]. eexists. split; [done|].
  intros f Hf. split; cbn [lfTopics lfAddress lfERC20].
  - intros i s Hi. destruct (Hl i s Hi) as (t & Et & ->). cbn in Et. destruct (topic_at_spec i (f0 :: filters) ∅ t f Et Hf) as [->|(t' & H1 & H2 & H3)]; [left; apply elements_empty|].
    right. exists t'. split_and!; [done|done|]. intros x Hx. apply elem_of_elements. set_solver.
  - apply elements_nil_or, collect_or_all_spec, Hf.
  - intros Hall. rewrite forallb_forall in Hall. apply Hall. by apply list_elem_of_In.
Qed.

Lemma long_or_nil {A} (l : list A) : (0 <? Z.of_nat (length l)) = false -> l = [].
Proof. destruct l; [done|]. rewrite Z.ltb_ge. cbn. lia. Qed.

Lemma LogFilter_Merge_wider f a : wider_filter f (LogFilter_Merge f a) /\ wider_filter a (LogFilter_Merge f a).
Proof.
  assert (Hd : forall s t : list string, ((0 <? Z.of_nat (length s)) && (0 <? Z.of_nat (length t)) = true -> s ⊆ dump [s; t] /\ t ⊆ dump [s; t])).
  { intros s t _. unfold dump. split; intros x Hx; apply elem_of_elements, elem_of_list_to_set; cbn; rewrite app_nil_r, elem_of_app; tauto. }
  assert (Hne : forall s t : list string, ((0 <? Z.of_nat (length s)) && (0 <? Z.of_nat (length t)) = true -> s <> [] /\ t <> [])).
  { intros [|x s] [|y t]; cbn; done. }
  split; split; cbn [lfTopics lfAddress lfERC20 LogFilter_Merge].
  1,4: intros i s Hi; apply lookup_zip_with_Some in Hi as (x & y & -> & Hx & Hy); destruct (_ && _) eqn:E; [|by left]; right;
    destruct (Hd x y E), (Hne x y E); eauto.
  1,3: destruct (_ && _) eqn:E; [|by left]; right; destruct (Hd _ _ E), (Hne _ _ E); done.
  all: by intros [? ?]%andb_true_iff.
Qed.

Lemma wider_filter_refl f : wider_filter f f.
Proof.
  split; [|destruct (lfAddress f); [by left|right; done]|done]. intros i [|x s] Hi; [by left|]. right. by exists (x :: s).
Qed.

Lemma wider_filter_trans f g h : wider_filter f g -> wider_filter g h -> wider_filter f h.
Proof.
  intros [H1 H2 H3] [G1 G2 G3]. split; [|destruct G2 as [?|[? ?]]; [by left|]; destruct H2 as [E|[? ?]]; [congruence|right; split; [done|by etrans]]|auto].
  intros i s Hi. destruct (G1 i s Hi) as [?|(t & Ht & Hne & Hsub)]; [by left|]. destruct (H1 i t Ht) as [?|(u & Hu & ? & ?)]; [done|]. right. exists u. split_and!; [done|done|by etrans].
Qed.

Section Check.
Context `{Client}.

Lemma BuildChecker_wider f r log : wider_filter f r -> BuildChecker f log = inl true -> BuildChecker r log = inl true.
Proof.
  intros [Ht Ha He]. unfold BuildChecker. destruct (topics_pass (lTopics log) (lfTopics f)) eqn:Et; cbn; [|done].
  rewrite (topics_pass_wider _ _ _ Ht Et). cbn. destruct (address_pass (lfAddress f) (lAddress log)) eqn:Ea; cbn; [|done].
  assert (address_pass (lfAddress r) (lAddress log) = true) as ->.
  { unfold address_pass in *. destruct Ha as [->|[Hne Hs]]; [by rewrite bool_decide_true|]. rewrite (bool_decide_false (lfAddress f = [])) in Ea by done. cbn in Ea.
    apply bool_decide_eq_true in Ea. apply orb_true_iff. right. apply bool_decide_eq_true. by apply Hs. }
  cbn. destruct (lfERC20 r); [|done]. by rewrite He.
Qed.

Lemma any_checker_true filters log : any_checker filters log = inl true -> exists f, f ∈ filters /\ BuildChecker f log = inl true.
Proof.
  induction filters as [|f filters IH]; cbn; [done|]. destruct (BuildChecker f log) as [[]|e] eqn:E; cbn; [|intros Hc|done].
  - intros _. exists f. split; [by left|done].
  - destruct (IH Hc) as (g & Hg & Eg). exists g. split; [by right|done].
Qed.

(** ** Filtering with errors *)

Definition ok_true {A} (f : A -> bool + EvmErr) (x : A) : Prop := f x = inl true.
#[export] Instance ok_true_dec {A} (f : A -> bool + EvmErr) x : Decision (ok_true f x).
Proof. unfold ok_true. destruct (f x) as [[]|]; [by left|by right|by right]. Defined.

Lemma FilterArrWithErr_spec {A} (f : A -> bool + EvmErr) l r : FilterArrWithErr f l = inl r -> r = filter (ok_true f) l /\ forall x, x ∈ l -> exists b, f x = inl b.
Proof.
  revert r. induction l as [|x l IH]; intros r; cbn [FilterArrWithErr]; [intros [= <-]; split; [done|by intros y ?%elem_of_nil]|]. destruct (f x) as [b|e] eqn:E; cbn [ebind]; [|done].
  destruct (FilterArrWithErr f l) as [r'|e] eqn:Er; cbn [ebind]; [|done]. intros [= <-]. destruct (IH r' eq_refl) as [-> Hall]. split.
  - rewrite filter_cons. destruct b; [rewrite decide_True by done|rewrite decide_False by (unfold ok_true; congruence)]; done.
  - intros y [->|Hy]%elem_of_cons; [by exists b|by apply Hall].
Qed.

Lemma FilterArrWithErr_total {A} (f : A -> bool + EvmErr) l : (forall x, x ∈ l -> exists b, f x = inl b) -> FilterArrWithErr f l = inl (filter (ok_true f) l).
Proof.
  induction l as [|x l IH]; intros Hl; [done|]. cbn [FilterArrWithErr]. destruct (Hl x ltac:(by left)) as [b E]. rewrite E. cbn [ebind]. rewrite IH by (intros y Hy; apply Hl; by right). cbn [ebind].
  rewrite filter_cons. destruct b; [rewrite decide_True by done|rewrite decide_False by (unfold ok_true; congruence)]; done.
Qed.
End Check.
