(* ===== verification/EvmSpec.v ===== *)
(** * The queries against a truthful node

    A node is truthful when its answers are those of one chain. Then every query of the
    fetchers gives, for each block, exactly the logs that the node and the filter accept, with
    the identity of their block, on all three ways to ask. *)
From Stdlib Require Import ZArith Lia String.
From stdpp Require Import base numbers option sorting gmap list strings.
From S2P Require Import Prelude RangeBase RangeSet BlockRange Sparsify Errors Checkpoint Intervals EvmChain EvmData EvmFilter.

(** The call does not fail. *)
Definition is_inl {A} (r : A + EvmErr) : Prop := match r with inl _ => True | inr _ => False end.

(** ** Links and their blocks *)

Lemma length_links_from n parent hashes times : length hashes = length times -> length (links_from n parent hashes times) = length times.
Proof. revert n parent times. induction hashes as [|h hashes IH]; intros n parent [|t times]; cbn; [done|done|done|]. intros [= ?]. f_equal. by apply IH. Qed.

Lemma links_from_number n parent hashes times i link : u64 n -> links_from n parent hashes times !! i = Some link -> blNumber link = wrap (n + Z.of_nat i).
Proof.
  revert n parent times i. induction hashes as [|h hashes IH]; intros n parent [|t times] i Hn; cbn; [done|done|done|]. destruct i as [|i].
  - intros [= <-]. cbn. by rewrite Z.add_0_r, wrap_small.
  - cbn. intros Hi. rewrite (IH (n +! 1) h times i (u64_add64 _ _) Hi). unfold add64. rewrite wrap_add_l. f_equal. lia.
Qed.

(** A block that an answer claims to cover has a link in it. *)
Lemma Covers_link part links n : (forall x, LinkFromBlock part = Some x -> u64 x) -> Links part = inl links -> Covers part n = true -> exists link, link ∈ links /\ blNumber link = n.
Proof.
  intros Hu. unfold Links, Covers. destruct (LinkFromBlock part) as [from|]; [|done]. specialize (Hu from eq_refl).
  destruct (Z.eqb_spec (Z.of_nat (length (BlockHashLink part))) (Z.of_nat (length (BlockTimestamp part)) + 1)) as [El|]; [|done]. cbn [negb].
  destruct (BlockHashLink part) as [|parent hashes]; [cbn in El; lia|]. intros [= <-] [H1 H2]%andb_true_iff. cbn in El. set (times := BlockTimestamp part) in *.
  assert (Hk : n - from < Z.of_nat (length times) /\ n < two64).
  { unfold add64, wrap in H2. pose proof (Z.mod_pos_bound (from + Z.of_nat (length times)) two64 ltac:(done)).
    pose proof (Z.mod_le (from + Z.of_nat (length times)) two64 ltac:(unfold u64 in Hu; lia) ltac:(done)). lia. }
  destruct (lookup_lt_is_Some_2 (links_from from parent hashes times) (Z.to_nat (n - from))) as [link Hl]; [rewrite length_links_from; lia|].
  exists link. split; [by eapply list_elem_of_lookup_2|]. rewrite (links_from_number _ _ _ _ _ _ Hu Hl). rewrite wrap_small; [lia|]. unfold u64 in *. lia.
Qed.

Lemma linkIndex_app links link : linkIndex (links ++ [link]) = <[blNumber link := link]> (linkIndex links).
Proof. unfold linkIndex. by rewrite foldl_app. Qed.

Lemma linkIndex_Some links n link : linkIndex links !! n = Some link -> link ∈ links /\ blNumber link = n.
Proof.
  induction links as [|x links IH] using rev_ind; [done|]. rewrite linkIndex_app. intros [[<- <-]|[_ Hl]]%lookup_insert_Some.
  - split; [apply elem_of_app; right; by left|done].
  - destruct (IH Hl). split; [apply elem_of_app; by left|done].
Qed.

Lemma linkIndex_is_Some links link : link ∈ links -> is_Some (linkIndex links !! blNumber link).
Proof.
  induction links as [|x links IH] using rev_ind; [by intros ?%elem_of_nil|]. rewrite linkIndex_app. intros [Hl|Hl]%elem_of_app.
  - destruct (decide (blNumber x = blNumber link)) as [E|E]; [rewrite E, lookup_insert_eq; by eexists|rewrite lookup_insert_ne by done; by apply IH].
  - apply list_elem_of_singleton in Hl as ->. rewrite lookup_insert_eq. by eexists.
Qed.

Lemma emptyEntries_index links : emptyEntriesFromLinks links = (fun link => with_header (headerFromLink link)) <$> linkIndex links.
Proof.
  induction links as [|x links IH] using rev_ind; [unfold linkIndex; cbn; by rewrite fmap_empty|]. rewrite linkIndex_app, fmap_insert, <- IH.
  unfold emptyEntriesFromLinks. by rewrite foldl_app.
Qed.

Lemma links_seen_spec seen links :
  (forall link, link ∈ links -> seen !! blNumber link = None) -> NoDup (map blNumber links) <-> is_inl (links_seen seen links) .
Proof.
  revert seen. induction links as [|link links IH]; intros seen Hs; [split; [done|constructor]|]. cbn. rewrite (Hs link) by (by left). rewrite NoDup_cons.
  destruct (decide (blNumber link ∈ map blNumber links)) as [Hin|Hin].
  - split; [by intros [? _]|]. intros Hok. exfalso. apply list_elem_of_fmap in Hin as (x & Ex & Hx).
    assert (Hbad : forall l sn, x ∈ l -> is_Some (sn !! blNumber x) -> ~ is_inl (links_seen sn l)).
    { clear. induction l as [|y l IH]; intros sn Hx [v Hv]; [by apply elem_of_nil in Hx|]. cbn. destruct (sn !! blNumber y) eqn:Ey; [by intros []|]. apply elem_of_cons in Hx as [->|Hx]; [congruence|].
      apply IH; [done|]. rewrite lookup_insert_ne by (intros E; rewrite E in Ey; congruence). by exists v. }
    eapply Hbad; [exact Hx| |exact Hok]. rewrite <- Ex, lookup_insert_eq. by eexists.
  - rewrite <- IH; [tauto|]. intros x Hx. rewrite lookup_insert_ne; [apply Hs; by right|]. intros E. apply Hin. rewrite E. by apply (list_elem_of_fmap_2 blNumber).
Qed.

Lemma links_seen_dom seen links seen' n : links_seen seen links = inl seen' -> is_Some (seen' !! n) <-> is_Some (seen !! n) \/ n ∈ map blNumber links.
Proof.
  revert seen. induction links as [|link links IH]; intros seen; cbn; [intros [= <-]; rewrite elem_of_nil; tauto|]. destruct (seen !! blNumber link) eqn:E; [done|].
  intros Hl. rewrite (IH _ Hl), elem_of_cons. destruct (decide (blNumber link = n)) as [<-|Hne]; [rewrite lookup_insert_eq|rewrite lookup_insert_ne by done]; naive_solver.
Qed.

(** Rows of the store are accepted when there is one for every block and none twice. *)
Lemma checkStoreLinks_spec links s e :
  checkStoreLinks links s e = inl () <-> NoDup (map blNumber links) /\ forall n, s <= n <= e -> n ∈ map blNumber links.
Proof.
  unfold checkStoreLinks. pose proof (links_seen_spec ∅ links ltac:(done)) as Hs. destruct (links_seen ∅ links) as [seen|] eqn:El; cbn [ebind]; [|split; [done|intros [H _]; by apply Hs in H]].
  pose proof (links_seen_dom ∅ links seen) as Hd. destruct (forallb _ _) eqn:Ef.
  - split; [|done]. intros _. split; [by apply Hs|]. intros n Hn. rewrite forallb_forall in Ef. specialize (Ef n ltac:(apply list_elem_of_In, elem_of_seqZ; lia)).
    apply bool_decide_eq_true in Ef. apply (Hd n El) in Ef as [Hx|?]; [rewrite lookup_empty in Hx; by destruct Hx|done].
  - split; [done|]. intros [_ Hall]. exfalso. rewrite <- not_true_iff_false in Ef. apply Ef. apply forallb_forall. intros n Hn%list_elem_of_In%elem_of_seqZ.
    apply bool_decide_eq_true, (Hd n El). right. apply Hall. lia.
Qed.

(** ** Grouping by block *)

Definition entry (m : gmap Z BlockMainData) (n : Z) : BlockMainData := default no_main (m !! n).

Lemma entry_insert m k d n : entry (<[k := d]> m) n = if decide (k = n) then d else entry m n.
Proof. unfold entry. case_decide; [subst k; by rewrite lookup_insert_eq|by rewrite lookup_insert_ne]. Qed.

Lemma Group_lookup {A} (key : A -> Z) l n : Group key l !! n = match filter (fun x => key x = n) l with [] => None | l' => Some l' end.
Proof.
  induction l as [|x l IH] using rev_ind; [done|]. unfold Group in *. rewrite foldl_app. cbn [foldl]. rewrite filter_app.
  destruct (decide (key x = n)) as [<-|Hn].
  - rewrite lookup_insert_eq, IH. rewrite filter_cons_True by done. by destruct (filter _ l).
  - rewrite lookup_insert_ne by done. rewrite IH, filter_cons_False by done. rewrite filter_nil. by rewrite app_nil_r.
Qed.

Lemma filter_every {A} (P : A -> Prop) `{!forall x, Decision (P x)} (l : list A) : (forall x, x ∈ l -> P x) -> filter P l = l.
Proof. induction l as [|x l IH]; intros Hl; [done|]. rewrite filter_cons_True by (apply Hl; by left). f_equal. apply IH. intros y Hy. apply Hl. by right. Qed.

Lemma filter_nobody {A} (P : A -> Prop) `{!forall x, Decision (P x)} (l : list A) : (forall x, x ∈ l -> ~ P x) -> filter P l = [].
Proof. induction l as [|x l IH]; intros Hl; [done|]. rewrite filter_cons_False by (apply Hl; by left). apply IH. intros y Hy. apply Hl. by right. Qed.

(** The items of each block of a range, one after the other. *)
Lemma at_block {A} (key : A -> Z) (f : Z -> list A) s k n :
  (forall m x, s <= m < s + k -> x ∈ f m -> key x = m) ->
  filter (fun x => key x = n) (concat (map f (seqZ s k))) = if (s <=? n) && (n <? s + k) then f n else [].
Proof.
  intros Hf. destruct (Z_le_gt_dec k 0) as [Hk|Hk]. { rewrite seqZ_nil by lia. destruct (Z.leb_spec s n), (Z.ltb_spec n (s + k)); try done; lia. }
  assert (exists m, k = Z.of_nat m) as [m ->] by (exists (Z.to_nat k); lia). clear Hk. revert s Hf. induction m as [|m IH]; intros s Hf.
  { destruct (Z.leb_spec s n), (Z.ltb_spec n (s + Z.of_nat 0)); try done; lia. }
  rewrite seqZ_cons by lia. cbn [map concat]. rewrite filter_app. replace (Z.pred (Z.of_nat (S m))) with (Z.of_nat m) by lia.
  rewrite IH by (intros x y Hx; apply Hf; lia). destruct (decide (s = n)) as [->|Hsn].
  - rewrite (proj2 (Z.leb_gt (Z.succ n) n)), Z.leb_refl, (proj2 (Z.ltb_lt n (n + _))) by lia. cbn [andb]. rewrite app_nil_r.
    apply filter_every. intros x Hx. apply Hf; [lia|done].
  - rewrite (filter_nobody _ (f s)) by (intros x Hx; rewrite (Hf s x); [done|lia|done]). rewrite app_nil_l.
    replace (Z.succ s <=? n) with (s <=? n) by (destruct (Z.leb_spec s n), (Z.leb_spec (Z.succ s) n); try done; lia).
    replace (Z.succ s + Z.of_nat m) with (s + Z.of_nat (S m)) by lia. done.
Qed.

(** ** Placing logs *)

Definition fix_log (dict : gmap Z BlockLink) (l : Log) : Log :=
  match dict !! lBlockNumber l with Some link => set_block (blHash link) (blTimestamp link) l | None => l end.

Lemma fix_log_number dict l : lBlockNumber (fix_log dict l) = lBlockNumber l.
Proof. unfold fix_log. by destruct (_ !! _). Qed.

Lemma place_logs dict logs res n :
  let d := entry (foldl (place_log dict) res logs) n in
  bmLogs d = bmLogs (entry res n) ++ map (fix_log dict) (filter (fun l => lBlockNumber l = n) logs) /\
  bmTraces d = bmTraces (entry res n) /\ bmIntervals d = bmIntervals (entry res n) /\ bmExact d = bmExact (entry res n) /\ bmHeader d = bmHeader (entry res n).
Proof.
  revert res. induction logs as [|l logs IH]; intros res; cbn [foldl]; [cbn; by rewrite app_nil_r|].
  destruct (IH (place_log dict res l)) as (H1 & H2 & H3 & H4 & H5). cbn zeta. rewrite H1, H2, H3, H4, H5. clear -l.
  assert (E : place_log dict res l = <[lBlockNumber l := add_log (fix_log dict l) (entry res (lBlockNumber l))]> res).
  { unfold place_log. fold (fix_log dict l). by rewrite fix_log_number. }
  rewrite E, entry_insert. case_decide as Hn.
  - subst n. rewrite filter_cons_True by done. cbn. by rewrite <- app_assoc.
  - by rewrite filter_cons_False by done.
Qed.

Lemma place_logs_None dict logs res n : foldl (place_log dict) res logs !! n = None <-> res !! n = None /\ filter (fun l => lBlockNumber l = n) logs = [].
Proof.
  revert res. induction logs as [|l logs IH]; intros res; cbn [foldl]; [tauto|]. rewrite IH. unfold place_log at 1. fold (fix_log dict l). rewrite fix_log_number.
  destruct (decide (lBlockNumber l = n)) as [<-|Hn].
  - rewrite lookup_insert_eq, filter_cons_True by done. split; [by intros [? _]|by intros [_ ?]].
  - by rewrite lookup_insert_ne, filter_cons_False by done.
Qed.

Lemma each_block_spec {A} (f : Z -> A + EvmErr) blocks m n : each_block f blocks = inl m -> (n ∈ blocks -> exists a, f n = inl a /\ m !! n = Some a) /\ (n ∉ blocks -> m !! n = None).
Proof.
  revert m. induction blocks as [|b blocks IH]; intros m; cbn [each_block].
  { intros [= <-]. split; [by intros ?%elem_of_nil|done]. }
  destruct (f b) as [a|e] eqn:Eb; cbn [ebind]; [|done]. destruct (each_block f blocks) as [m'|e] eqn:Em; cbn [ebind]; [|done]. intros [= <-].
  destruct (IH m' eq_refl) as [H1 H2]. destruct (decide (b = n)) as [->|Hn].
  - rewrite lookup_insert_eq. split; [by exists a|]. intros Hx. exfalso. apply Hx. by left.
  - rewrite lookup_insert_ne by done. split; [intros [->|Hx]%elem_of_cons; [done|by apply H1]|]. intros Hx. apply H2. intros Hy. apply Hx. by right.
Qed.

Lemma map_id_on {A} (f : A -> A) l : (forall x, x ∈ l -> f x = x) -> map f l = l.
Proof. induction l as [|x l IH]; intros Hf; [done|]. cbn. rewrite Hf by (by left). f_equal. apply IH. intros y Hy. apply Hf. by right. Qed.

(** ** A truthful node *)

Section Truthful.
Context `{Client} (HexToAddress HexToHash : string -> string).
Context (chain_logs : Z -> list Log) (ident : Z -> BlockLink) (tip : Z).

Definition args_of (address : list string) (topics : list (list string)) : EthGetLogsArgs := mkGetLogs (map HexToAddress address) (map (map HexToHash) topics).

Definition asked_logs (args : EthGetLogsArgs) (n : Z) : list Log := filter (fun l => Checker args l = true) (chain_logs n).
Definition range_logs (args : EthGetLogsArgs) (s e : Z) : list Log := concat (map (asked_logs args) (seqZ s (e - s + 1))).

(** A log of the chain says where it is from, and its texts are in the form the parsers of
    hex texts give. *)
Record true_log (n : Z) (l : Log) : Prop := mkTrueLog {
  tl_number : lBlockNumber l = n;
  tl_hash : lBlockHash l = blHash (ident n);
  tl_time : lBlockTimestamp l = blTimestamp (ident n);
  tl_address : HexToAddress (ToLower (lAddress l)) = lAddress l;
  tl_topics t : t ∈ lTopics l -> HexToHash t = t
}.

(** The answer of an Ex method: the logs up to a block [t], the last one asked for or before
    it, with the identities of the blocks from [from] to [t]. A node without any identity has
    all the logs; only near the tip it may miss some. *)
Definition ex_answer {ITEM} (strip : BlockHashLinkPart -> ITEM -> ITEM) (items : Z -> list ITEM) (s e : Z) (resp : ExResponse ITEM) : Prop :=
  exists from t, s <= from /\ from <= t + 1 /\ t <= e /\
    (forall x, LinkFromBlock (exPart resp) = Some x -> u64 x) /\
    Links (exPart resp) = inl (map ident (seqZ from (t - from + 1))) /\
    exItems resp = map (strip (exPart resp)) (items t) /\
    (from = t + 1 -> t = e \/ e = tip).

Record truthful : Prop := mkTruthful {
  tn_logs n l : l ∈ chain_logs n -> true_log n l;
  tn_ident n : 0 <= n -> blNumber (ident n) = n;
  tn_GetLogs s e address topics l : cl_GetLogs s e address topics = inl l -> l = range_logs (args_of address topics) s e;
  tn_ByHash n address topics l :
    0 <= n -> cl_GetLogsByBlockHash (blHash (ident n)) address topics = inl l -> l = asked_logs (args_of address topics) n;
  tn_Ex s e address topics resp :
    cl_GetLogsEx s e address topics = inl resp -> ex_answer strip_log (range_logs (args_of address topics) s) s e resp;
  tn_header n h : cl_GetHeader n = inl h -> ehNumber h = n /\ ehHash h = blHash (ident n) /\ ehParent h = blParentHash (ident n)
}.

(** A header with the identity of the block. *)
Definition is_block (n : Z) (h : EvmHeader) : Prop := ehNumber h = n /\ ehHash h = blHash (ident n) /\ ehParent h = blParentHash (ident n).

(** ** What a log query gives *)

Context (maxAddressLen maxTopicLen : Z).

Definition req_args (req : LogRequirement) : EthGetLogsArgs :=
  args_of (bounded maxAddressLen (lfAddress (lrFilter req))) (map (bounded maxTopicLen) (lfTopics (lrFilter req))).

(** The logs that reach the fetcher of the requirement: those the node is asked for and the
    filter accepts. *)
Definition taken (req : LogRequirement) (l : Log) : Prop := Checker (req_args req) l = true /\ BuildChecker (lrFilter req) l = inl true.
#[export] Instance taken_dec req l : Decision (taken req l).
Proof. unfold taken. apply and_dec; [apply _|]. apply (ok_true_dec (BuildChecker (lrFilter req))). Defined.

(** The entry of a block: its logs that are taken, and no identity but its own. *)
Record log_entry (req : LogRequirement) (n : Z) (d : BlockMainData) : Prop := mkLogEntry {
  le_logs : bmLogs d = filter (taken req) (chain_logs n);
  le_traces : bmTraces d = [];
  le_intervals : bmIntervals d = [];
  le_exact : bmExact d = false;
  le_header h : bmHeader d = Some h -> is_block n h
}.

Lemma any_checker_one f l : any_checker [f] l = BuildChecker f l.
Proof. cbn. destruct (BuildChecker f l) as [[]|]; done. Qed.

Lemma BuildChecker_same f l l' : lTopics l = lTopics l' -> lAddress l = lAddress l' -> BuildChecker f l = BuildChecker f l'.
Proof. intros E1 E2. unfold BuildChecker. by rewrite E1, E2. Qed.

(** Filtering the logs of the node gives those taken. *)
Lemma taken_filter req (l : list Log) : filter (ok_true (any_checker [lrFilter req])) (filter (fun l => Checker (req_args req) l = true) l) = filter (taken req) l.
Proof.
  rewrite list_filter_filter. apply list_filter_iff. intros x. unfold taken, ok_true. rewrite any_checker_one. tauto.
Qed.

Lemma FilterLogs_range req s e l :
  FilterLogs (range_logs (req_args req) s e) [lrFilter req] = inl l -> l = concat (map (fun n => filter (taken req) (chain_logs n)) (seqZ s (e - s + 1))).
Proof.
  intros E. unfold FilterLogs in E. apply FilterArrWithErr_spec in E as [-> _]. unfold range_logs. induction (seqZ s (e - s + 1)) as [|n ns IH]; [done|].
  cbn [map concat]. rewrite filter_app, IH. f_equal. apply taken_filter.
Qed.

(** The stripped log is checked as the log itself. *)
Lemma FilterLogs_stripped req part logs l :
  FilterLogs (map (strip_log part) logs) [lrFilter req] = inl l -> exists l', FilterLogs logs [lrFilter req] = inl l' /\ l = map (strip_log part) l'.
Proof.
  assert (Hs : forall x, any_checker [lrFilter req] (strip_log part x) = any_checker [lrFilter req] x).
  { intros x. rewrite !any_checker_one. apply BuildChecker_same; unfold strip_log; by destruct (Covers _ _). }
  unfold FilterLogs. revert l. induction logs as [|x logs IH]; intros l; cbn [map FilterArrWithErr]; [intros [= <-]; by exists []|].
  rewrite Hs. destruct (any_checker _ x) as [b|e]; cbn [ebind]; [|done]. destruct (FilterArrWithErr _ (map _ logs)) as [r|e]; cbn [ebind]; [|done].
  intros [= <-]. destruct (IH r eq_refl) as (r' & -> & ->). cbn [ebind]. eexists. split; [done|]. by destruct b.
Qed.

(** The identity that was stripped comes back. *)
Lemma fix_stripped part links n l :
  truthful -> 0 <= n -> l ∈ chain_logs n -> (forall x, LinkFromBlock part = Some x -> u64 x) -> Links part = inl links ->
  (forall link, link ∈ links -> link = ident (blNumber link)) -> fix_log (linkIndex links) (strip_log part l) = l.
Proof.
  intros Ht Hn Hl Hu Hlinks Hid. destruct (tn_logs Ht n l Hl) as [E1 E2 E3 _ _]. unfold fix_log.
  assert (lBlockNumber (strip_log part l) = n) as -> by (unfold strip_log; by destruct (Covers _ _)). destruct (linkIndex links !! n) as [link|] eqn:El.
  - apply linkIndex_Some in El as [Hin En]. rewrite (Hid link Hin), En. unfold strip_log. destruct (Covers part (lBlockNumber l)); unfold set_block; cbn; rewrite <- E2, <- E3; by destruct l.
  - unfold strip_log. destruct (Covers part (lBlockNumber l)) eqn:Ec; [|done]. exfalso. destruct (Covers_link part links _ Hu Hlinks Ec) as (link & Hin & En).
    destruct (linkIndex_is_Some links link Hin) as [x Hx]. rewrite En, E1 in Hx. congruence.
Qed.

Lemma entry_of_links links n : let d := entry (emptyEntriesFromLinks links) n in
  bmLogs d = [] /\ bmTraces d = [] /\ bmIntervals d = [] /\ bmExact d = false /\ bmHeader d = headerFromLink <$> (linkIndex links !! n).
Proof. unfold entry. rewrite emptyEntries_index, lookup_fmap. by destruct (linkIndex links !! n). Qed.

Lemma filter_map_number part n (l : list Log) : filter (fun x => lBlockNumber x = n) (map (strip_log part) l) = map (strip_log part) (filter (fun x => lBlockNumber x = n) l).
Proof.
  assert (Hn : forall x, lBlockNumber (strip_log part x) = lBlockNumber x) by (intros x; unfold strip_log; by destruct (Covers _ _)).
  induction l as [|x l IH]; [done|]. cbn [map]. rewrite !filter_cons, IH, Hn. by case_decide.
Qed.

(** The entries of an answer that reaches the end. *)
Lemma ex_entries req s e resp links l :
  truthful -> 0 <= s -> s <= e -> (forall x, LinkFromBlock (exPart resp) = Some x -> u64 x) ->
  Links (exPart resp) = inl links -> (forall link, link ∈ links -> link = ident (blNumber link) /\ s <= blNumber link <= e) ->
  exItems resp = map (strip_log (exPart resp)) (range_logs (req_args req) s e) ->
  FilterLogs (exItems resp) [lrFilter req] = inl l ->
  let m := foldl (place_log (linkIndex links)) (emptyEntriesFromLinks links) l in
  forall n, (s <= n <= e -> log_entry req n (entry m n)) /\ (~ s <= n <= e -> m !! n = None).
Proof.
  intros Ht Hs He Hu Hl Hid Hitems El m n. rewrite Hitems in El. apply FilterLogs_stripped in El as (l' & El & ->). apply FilterLogs_range in El.
  assert (Hat : filter (fun x => lBlockNumber x = n) l' = if (s <=? n) && (n <? s + (e - s + 1)) then filter (taken req) (chain_logs n) else []).
  { subst l'. apply (at_block lBlockNumber (fun k => filter (taken req) (chain_logs k))). intros k x _ [_ Hx]%list_elem_of_filter. by apply (tl_number k x), (tn_logs Ht). }
  destruct (place_logs (linkIndex links) (map (strip_log (exPart resp)) l') (emptyEntriesFromLinks links) n) as (P1 & P2 & P3 & P4 & P5).
  destruct (entry_of_links links n) as (E1 & E2 & E3 & E4 & E5). rewrite filter_map_number, Hat, E1 in P1. rewrite E2 in P2. rewrite E3 in P3. rewrite E4 in P4. rewrite E5 in P5.
  split.
  - intros Hn. split; [|exact P2|exact P3|exact P4|].
    + unfold m. rewrite P1. rewrite (proj2 (Z.leb_le _ _)), (proj2 (Z.ltb_lt _ _)) by lia. cbn [andb app]. rewrite map_map. apply map_id_on. intros x [_ Hx]%list_elem_of_filter.
      apply (fix_stripped (exPart resp) links n x Ht ltac:(lia) Hx Hu Hl). intros link Hin. by apply Hid.
    + intros h Hh. unfold m in Hh. rewrite P5 in Hh. destruct (linkIndex links !! n) as [link|] eqn:Ei; [|done]. injection Hh as <-. apply linkIndex_Some in Ei as [Hin En].
      destruct (Hid link Hin) as [E _]. rewrite En in E. subst link. split; [exact En|done].
  - intros Hn. apply place_logs_None. split.
    + rewrite emptyEntries_index, lookup_fmap. destruct (linkIndex links !! n) as [link|] eqn:Ei; [|done]. apply linkIndex_Some in Ei as [Hin En]. destruct (Hid link Hin). lia.
    + rewrite filter_map_number, Hat. destruct (Z.leb_spec s n), (Z.ltb_spec n (s + (e - s + 1))); cbn; try done. lia.
Qed.

Lemma last_ident from t : from <= t -> last (map ident (seqZ from (t - from + 1))) = Some (ident t).
Proof.
  intros Hft. rewrite seqZ_app by lia. rewrite map_app. replace (from + (t - from)) with t by lia. rewrite (seqZ_cons t 1) by lia. change (Z.pred 1) with 0. change (map ident (t :: seqZ (Z.succ t) 0)) with [ident t]. by rewrite last_snoc.
Qed.

(** An answer the checks accept reaches the end of the range. *)
Lemma ex_reaches_end {ITEM} (strip : BlockHashLinkPart -> ITEM -> ITEM) items s e resp links m :
  truthful -> 0 <= s -> ex_answer strip items s e resp -> Links (exPart resp) = inl links -> checkLinksReachEnd links e = inl () ->
  (forall n, linkIndex links !! n = None -> bmHeader (entry m n) = None) -> (e = tip -> checkTipCovered m e = inl ()) ->
  (forall link, link ∈ links -> link = ident (blNumber link) /\ s <= blNumber link <= e) /\ exItems resp = map (strip (exPart resp)) (items e).
Proof.
  intros Ht Hs (from & t & H1 & H2 & H3 & _ & Hlinks & Hitems & Hnone) Hl Hend Hhdr Htip. rewrite Hlinks in Hl. injection Hl as <-.
  assert (t = e) as ->.
  { unfold checkLinksReachEnd in Hend. destruct (Z_le_gt_dec from t) as [Hft|Hft].
    - rewrite last_ident in Hend by done. rewrite (tn_ident Ht t) in Hend by lia. destruct (Z.ltb_spec t e); [done|lia].
    - destruct (Hnone ltac:(lia)) as [?|Ee]; [done|]. exfalso. specialize (Htip Ee). unfold checkTipCovered in Htip. specialize (Hhdr e).
      rewrite seqZ_nil in Hhdr by lia. specialize (Hhdr eq_refl). unfold entry in Hhdr. destruct (m !! e) as [d|]; [|done]. cbn in Hhdr. by rewrite Hhdr in Htip. }
  split; [|done]. intros link Hin. apply list_elem_of_fmap in Hin as (k & -> & Hk). apply elem_of_seqZ in Hk. rewrite (tn_ident Ht k) by lia. split; [done|lia].
Qed.

Lemma log_query_spec req s e latest m :
  truthful -> 0 <= s -> s <= e -> GetBlockNumber latest = tip -> log_query maxAddressLen maxTopicLen req s e latest = inl m ->
  forall n, (s <= n <= e -> log_entry req n (entry m n)) /\ (~ s <= n <= e -> m !! n = None).
Proof.
  intros Ht Hs He Hlat. unfold log_query. set (address := bounded maxAddressLen _). set (topics := map (bounded maxTopicLen) _).
  assert (Hargs : args_of address topics = req_args req) by done. clearbody address topics.
  destruct (cl_GetLogsEx s e address topics) as [resp|err] eqn:Eex.
  - pose proof (tn_Ex Ht _ _ _ _ _ Eex) as Hans. rewrite Hargs in Hans. unfold buildLogEntriesFromEx. destruct (Links (exPart resp)) as [links|?] eqn:El; cbn [ebind]; [|done].
    destruct (checkLinksReachEnd links e) as [[]|?] eqn:Er; cbn [ebind]; [|done]. destruct (FilterLogs (exItems resp) [lrFilter req]) as [l|?] eqn:Ef; cbn [ebind]; [|done].
    set (m' := foldl _ _ l). destruct (if e =? GetBlockNumber latest then checkTipCovered m' e else inl ()) as [[]|?] eqn:Etip; cbn [ebind]; [|done]. intros [= <-].
    destruct (ex_reaches_end strip_log (range_logs (req_args req) s) s e resp links m' Ht Hs Hans El Er) as [Hid Hitems].
    + intros n Hn. destruct (place_logs (linkIndex links) l (emptyEntriesFromLinks links) n) as (_ & _ & _ & _ & P5). unfold m'. rewrite P5.
      destruct (entry_of_links links n) as (_ & _ & _ & _ & ->). by rewrite Hn.
    + intros ->. by rewrite Hlat, Z.eqb_refl in Etip.
    + destruct Hans as (_ & _ & _ & _ & _ & Hu & _). by apply (ex_entries req s e resp links l).
  - destruct err; [|done|done]. destruct (e =? GetBlockNumber latest).
    + intros Em n. destruct (each_block_spec _ _ _ n Em) as [H1 H2]. rewrite elem_of_seqZ in H1, H2. split; [|intros Hn; apply H2; lia]. intros Hn.
      destruct (H1 ltac:(lia)) as (d & Ed & Hd). unfold entry. rewrite Hd. cbn [default from_option id]. unfold tip_logs in Ed.
      destruct (cl_GetHeader n) as [h|?] eqn:Eh; cbn [ebind] in Ed; [|done]. pose proof (tn_header Ht n h Eh) as Hh.
      match type of Ed with (let? logs := ?q in _) = _ => destruct q as [logs|?] eqn:Eq end; cbn [ebind] in Ed; [|done].
      assert (logs = asked_logs (req_args req) n) as ->.
      { destruct Hh as (_ & Ehash & _). rewrite Ehash in Eq. destruct (cl_GetLogsByBlockHash (blHash (ident n)) address topics) as [l1|[]] eqn:Eb; try done.
        - injection Eq as <-. rewrite <- Hargs. by apply (tn_ByHash Ht); [lia|].
        - apply (tn_GetLogs Ht) in Eq. rewrite Eq, Hargs. unfold range_logs. replace (n - n + 1) with 1 by lia. rewrite (seqZ_cons n 1) by lia. cbn. by rewrite app_nil_r. }
      destruct (FilterLogs _ _) as [l|?] eqn:Ef; cbn [ebind] in Ed; [|done]. injection Ed as <-. unfold FilterLogs in Ef. apply FilterArrWithErr_spec in Ef as [-> _].
      split; cbn; [apply taken_filter|done..|]. by intros ? [= <-].
    + destruct (cl_GetLogs s e address topics) as [l|?] eqn:El; cbn [ebind]; [|done]. apply (tn_GetLogs Ht) in El. rewrite Hargs in El. subst l.
      destruct (FilterLogs _ _) as [l|?] eqn:Ef; cbn [ebind]; [|done]. intros [= <-] n. apply FilterLogs_range in Ef.
      assert (Hat : filter (fun x => lBlockNumber x = n) l = if (s <=? n) && (n <? s + (e - s + 1)) then filter (taken req) (chain_logs n) else []).
      { subst l. apply (at_block lBlockNumber (fun k => filter (taken req) (chain_logs k))). intros k x _ [_ Hx]%list_elem_of_filter. by apply (tl_number k x), (tn_logs Ht). }
      unfold entry. rewrite lookup_fmap, Group_lookup, Hat. split; intros Hn.
      * rewrite (proj2 (Z.leb_le _ _)), (proj2 (Z.ltb_lt _ _)) by lia. cbn [andb]. by destruct (filter (taken req) (chain_logs n)) eqn:E; split; cbn.
      * destruct (Z.leb_spec s n), (Z.ltb_spec n (s + (e - s + 1))); cbn; try done. lia.
Qed.

(** ** Queries that are answered *)

Definition supported {A} (r : A + EvmErr) : Prop := match r with inl _ => True | inr MethodNotSupported => True | inr _ => False end.

(** The node answers: with the identities of all blocks, or without the Ex method. *)
Definition answered (req : LogRequirement) (s e : Z) : Prop :=
  let address := bounded maxAddressLen (lfAddress (lrFilter req)) in
  let topics := map (bounded maxTopicLen) (lfTopics (lrFilter req)) in
  (forall a, is_inl (cl_IsERC20Address a)) /\
  ((exists resp, cl_GetLogsEx s e address topics = inl resp /\ Links (exPart resp) = inl (map ident (seqZ s (e - s + 1)))) \/
   (cl_GetLogsEx s e address topics = inr MethodNotSupported /\ is_inl (cl_GetLogs s e address topics) /\
    forall n, s <= n <= e -> is_inl (cl_GetHeader n) /\ is_inl (cl_GetLogs n n address topics) /\ forall hash, supported (cl_GetLogsByBlockHash hash address topics))).

Lemma each_block_total {A} (f : Z -> A + EvmErr) blocks : (forall n, n ∈ blocks -> is_inl (f n)) -> is_inl (each_block f blocks).
Proof.
  induction blocks as [|b blocks IH]; intros Hf; [done|]. cbn. destruct (f b) eqn:E; [|specialize (Hf b ltac:(by left)); by rewrite E in Hf].
  cbn. specialize (IH ltac:(intros n Hn; apply Hf; by right)). by destruct (each_block f blocks).
Qed.

Lemma FilterLogs_total logs fs : (forall a, is_inl (cl_IsERC20Address a)) -> is_inl (FilterLogs logs fs).
Proof.
  intros He. assert (Hb : forall f l, is_inl (BuildChecker f l)) by (intros f l; unfold BuildChecker; repeat case_match; try done; apply He).
  assert (Ha : forall l, is_inl (any_checker fs l)).
  { intros l. induction fs as [|f fs IH]; cbn; [done|]. specialize (Hb f l). destruct (BuildChecker f l) as [[]|]; cbn; done. }
  unfold FilterLogs. rewrite FilterArrWithErr_total; [done|]. intros x _. specialize (Ha x). destruct (any_checker fs x) as [b|]; [by exists b|done].
Qed.

Lemma log_query_total req s e latest : truthful -> 0 <= s -> s <= e -> answered req s e -> is_inl (log_query maxAddressLen maxTopicLen req s e latest).
Proof.
  intros Ht Hs He [Herc Hans]. unfold log_query. set (address := bounded maxAddressLen _) in *. set (topics := map (bounded maxTopicLen) _) in *.
  destruct Hans as [(resp & -> & Hl)|(-> & Hlogs & Hall)].
  - unfold buildLogEntriesFromEx. rewrite Hl. cbn [ebind]. unfold checkLinksReachEnd. rewrite last_ident by done. rewrite (tn_ident Ht e), Z.ltb_irrefl by lia. cbn [ebind].
    pose proof (FilterLogs_total (exItems resp) [lrFilter req] Herc) as Hf. destruct (FilterLogs _ _) as [l|]; cbn [ebind]; [|done]. destruct (e =? GetBlockNumber latest); [|done].
    set (links := map ident _). set (m := foldl _ _ l). assert (checkTipCovered m e = inl ()) as ->; [|done]. unfold checkTipCovered.
    destruct (place_logs (linkIndex links) l (emptyEntriesFromLinks links) e) as (_ & _ & _ & _ & P5). destruct (entry_of_links links e) as (_ & _ & _ & _ & E5).
    destruct (linkIndex_is_Some links (ident e)) as [link Hlink]; [apply (list_elem_of_fmap_2 ident), elem_of_seqZ; lia|]. rewrite (tn_ident Ht e) in Hlink by lia.
    fold m in P5. rewrite E5, Hlink in P5. unfold entry in P5. destruct (m !! e) as [d|]; [|done]. cbn in P5. by rewrite P5.
  - destruct (e =? GetBlockNumber latest).
    + apply each_block_total. intros n Hn%elem_of_seqZ. destruct (Hall n ltac:(lia)) as (Hh & Hg & Hby). unfold tip_logs. destruct (cl_GetHeader n) as [h|]; cbn [ebind]; [|done].
      match goal with |- is_inl (let? logs := ?q in _) => assert (Hq : is_inl q) end.
      { specialize (Hby (ehHash h)). destruct (cl_GetLogsByBlockHash (ehHash h) address topics) as [?|[]]; done. }
      match goal with |- is_inl (let? logs := ?q in _) => destruct q as [logs|]; [|done] end. cbn [ebind].
      pose proof (FilterLogs_total logs [lrFilter req] Herc) as Hf. by destruct (FilterLogs _ _).
    + destruct (cl_GetLogs s e address topics) as [l|]; cbn [ebind]; [|done]. pose proof (FilterLogs_total l [lrFilter req] Herc) as Hf. by destruct (FilterLogs _ _).
Qed.
End Truthful.
