(* ===== verification/EvmBlock.v ===== *)
(** * The further data of a block: [driver/controller/data/evm/block_extend.go], [client.go]

    What the agents need beyond the main data (transactions, receipts, traces) is merged into
    one requirement for the block and fetched at once. Every answer is compared with the hash
    of the block, so that nothing of another fork is taken. The goroutines of the fetch are run
    one after the other: transactions, receipts, traces. *)
From Stdlib Require Import ZArith Lia String.
From stdpp Require Import base numbers option sorting gmap list strings.
From S2P Require Import Prelude RangeBase RangeSet BlockRange Sparsify Errors Checkpoint Intervals EvmChain EvmData.

(** ** Requirements *)

Record BlockExtendRequirement : Type := mkExtend {
  AllTransactions : bool;
  SpecialTransactions : list string;
  AllTransactionReceipts : bool;
  SpecialTransactionReceipts : list string;
  AllTransactionReceiptLogs : bool;
  SpecialTransactionReceiptLogs : list string;
  AllTraces : bool
}.

Definition no_extend : BlockExtendRequirement := mkExtend false [] false [] false [] false.

(** [utils.GetMapKeys(utils.BuildSet(...))]. *)
Definition distinct (l : list string) : list string := elements (list_to_set l : gset string).

Definition Trim (r : BlockExtendRequirement) : BlockExtendRequirement :=
  mkExtend
    (AllTransactions r) (if AllTransactions r then [] else distinct (SpecialTransactions r))
    (AllTransactionReceipts r) (if AllTransactionReceipts r then [] else distinct (SpecialTransactionReceipts r))
    (AllTransactionReceiptLogs r) (if AllTransactionReceiptLogs r then [] else distinct (SpecialTransactionReceiptLogs r))
    (AllTraces r).

Definition Extend_Merge (r a : BlockExtendRequirement) : BlockExtendRequirement :=
  Trim (mkExtend
    (AllTransactions r || AllTransactions a) (SpecialTransactions r ++ SpecialTransactions a)
    (AllTransactionReceipts r || AllTransactionReceipts a) (SpecialTransactionReceipts r ++ SpecialTransactionReceipts a)
    (AllTransactionReceiptLogs r || AllTransactionReceiptLogs a) (SpecialTransactionReceiptLogs r ++ SpecialTransactionReceiptLogs a)
    (AllTraces r || AllTraces a)).

Definition Extend_IsEmpty (r : BlockExtendRequirement) : bool :=
  negb (AllTransactions r) && bool_decide (SpecialTransactions r = []) &&
  negb (AllTransactionReceipts r) && bool_decide (SpecialTransactionReceipts r = []) &&
  negb (AllTransactionReceiptLogs r) && bool_decide (SpecialTransactionReceiptLogs r = []) &&
  negb (AllTraces r).

(** ** Data *)

(** The fields that are looked at, and the rest as text. *)
Record RPCTransaction : Type := mkTx { txHash : string; txBlockHash : string; txText : string }.
Record ExtendedReceipt : Type := mkReceipt { rcTxHash : string; rcBlockHash : string; rcLogs : list Log; rcText : string }.

Record BlockExtendData : Type := mkExtendData {
  Transactions : gmap string RPCTransaction;
  Receipts : gmap string ExtendedReceipt;
  Traces : gmap string (list Trace)
}.

Definition no_extend_data : BlockExtendData := mkExtendData ∅ ∅ ∅.

(** The calls of the node; a null answer is no value. *)
Class Node : Type := {
  rpc_getBlockByNumber : Z -> option (string * list RPCTransaction) + EvmErr;
  rpc_getTransactionByHash : string -> option RPCTransaction + EvmErr;
  rpc_getBlockReceipts : Z -> list ExtendedReceipt + EvmErr;
  rpc_getTransactionReceipt : string -> option ExtendedReceipt + EvmErr
}.

Definition checkBlockTxsMatch (expected got : list string) : unit + EvmErr :=
  if negb (Z.of_nat (length got) =? Z.of_nat (length expected)) then inr (Retryable "the endpoint answered from a different fork, will retry")
  else if forallb (fun hash => bool_decide (hash ∈ expected)) got then inl ()
  else inr (Retryable "the endpoint answered from a different fork, will retry").

(** An expected hash that is empty is not compared. *)
Definition hash_fits (blockHash got : string) : bool := bool_decide (blockHash = EmptyString) || bool_decide (got = blockHash).

Definition other_fork : EvmErr := Retryable "the endpoint answered from a different fork, will retry".
Definition not_found : EvmErr := Retryable "not found".

(** What the keys give, for each of those kept. *)
Definition keep_map {A} (key : A -> string) (keep : option (list string)) (l : list A) : gmap string A :=
  foldl (fun m a => if match keep with Some ks => bool_decide (key a ∈ ks) | None => true end then <[key a := a]> m else m) ∅ l.

(** The check that nothing asked for is missing. *)
Definition all_found {A} (keep : option (list string)) (m : gmap string A) : unit + EvmErr :=
  match keep with
  | None => inl ()
  | Some ks => if forallb (fun k => bool_decide (is_Some (m !! k))) ks then inl () else inr not_found
  end.

Section GetBlock.
Context `{Client, Node}.
Context (fullBlockFetchThreshold : Z) (receiptsUnsupported : bool).

Section Block.
Context (blockNumber : Z) (blockHash : string) (allTxHashes : option (list string)).

Definition fetchFullBlockTxs (keep : option (list string)) : gmap string RPCTransaction + EvmErr :=
  let? block := rpc_getBlockByNumber blockNumber in
  match block with
  | None =>
      if negb (bool_decide (blockHash = EmptyString)) || bool_decide (is_Some allTxHashes) then inr not_found
      else let? _ := all_found keep (∅ : gmap string RPCTransaction) in inl ∅
  | Some (hash, txs) =>
      if negb (hash_fits blockHash hash) then inr other_fork
      else
        let? _ := (match allTxHashes with Some expected => checkBlockTxsMatch expected (map txHash txs) | None => inl () end) in
        let m := keep_map txHash keep txs in
        let? _ := all_found keep m in
        inl m
  end.

(** One request for each hash. *)
Fixpoint each_hash {A} (get : string -> option A + EvmErr) (block_of : A -> string) (hashes : list string) : gmap string A + EvmErr :=
  match hashes with
  | [] => inl ∅
  | h :: rest =>
      let? a := get h in
      match a with
      | None => inr not_found
      | Some a =>
          if negb (hash_fits blockHash (block_of a)) then inr other_fork
          else let? m := each_hash get block_of rest in inl (<[h := a]> m)
      end
  end.

Definition get_transactions (req : BlockExtendRequirement) : gmap string RPCTransaction + EvmErr :=
  if AllTransactions req then fetchFullBlockTxs None
  else if fullBlockFetchThreshold <=? Z.of_nat (length (SpecialTransactions req)) then fetchFullBlockTxs (Some (SpecialTransactions req))
  else each_hash rpc_getTransactionByHash txBlockHash (SpecialTransactions req).

(** A receipt the node does not have is read as the zero receipt. *)
Definition zero_receipt : ExtendedReceipt := mkReceipt zero_hash zero_hash [] EmptyString.

Fixpoint receipts_one_by_one (hashes : list string) : list ExtendedReceipt + EvmErr :=
  match hashes with
  | [] => inl []
  | h :: rest =>
      let? r := rpc_getTransactionReceipt h in
      let? l := receipts_one_by_one rest in
      inl (default zero_receipt r :: l)
  end.

Definition GetBlockReceipts : list ExtendedReceipt + EvmErr :=
  match (if receiptsUnsupported then inr MethodNotSupported else rpc_getBlockReceipts blockNumber) with
  | inr MethodNotSupported =>
      let? h := cl_GetHeader blockNumber in
      receipts_one_by_one (default [] (ehTxHashes h))
  | r => r
  end.

Definition fetchFullBlockReceipts (keep : option (list string)) : gmap string ExtendedReceipt + EvmErr :=
  let? receipts := GetBlockReceipts in
  if negb (forallb (fun r => hash_fits blockHash (rcBlockHash r)) receipts) then inr other_fork
  else
    let? _ := (match allTxHashes with Some expected => checkBlockTxsMatch expected (map rcTxHash receipts) | None => inl () end) in
    let m := keep_map rcTxHash keep receipts in
    let? _ := all_found keep m in
    inl m.

Definition get_receipts (req : BlockExtendRequirement) : gmap string ExtendedReceipt + EvmErr :=
  if AllTransactionReceipts req then fetchFullBlockReceipts None
  else if (fullBlockFetchThreshold <=? Z.of_nat (length (SpecialTransactionReceipts req))) && negb receiptsUnsupported
  then fetchFullBlockReceipts (Some (SpecialTransactionReceipts req))
  else each_hash rpc_getTransactionReceipt rcBlockHash (SpecialTransactionReceipts req).

Definition group_traces (traces : list Trace) : gmap string (list Trace) :=
  foldl (fun m t => <[trTransactionHash t := default [] (m !! trTransactionHash t) ++ [t]]> m) ∅ traces.

Definition get_traces (req : BlockExtendRequirement) : gmap string (list Trace) + EvmErr :=
  if AllTraces req then
    let? traces :=
      (match cl_GetTracesEx blockNumber blockNumber [] with
       | inl resp => tracesFromExForBlock resp blockNumber blockHash
       | inr MethodNotSupported =>
           let? traces := cl_GetTraces blockNumber blockNumber [] in
           let? _ := checkTracesBlockHash traces blockHash in
           inl traces
       | inr e => inr e
       end) in
    inl (group_traces traces)
  else inl ∅.

(** The logs of receipts are dropped where nobody needs them. *)
Definition drop_logs (req : BlockExtendRequirement) (receipts : gmap string ExtendedReceipt) : gmap string ExtendedReceipt :=
  if AllTransactionReceiptLogs req then receipts
  else map_imap (fun h r => Some (if bool_decide (h ∈ SpecialTransactionReceiptLogs req) then r else mkReceipt (rcTxHash r) (rcBlockHash r) [] (rcText r))) receipts.

Definition GetBlock (req : BlockExtendRequirement) : BlockExtendData + EvmErr :=
  if Extend_IsEmpty req then inl no_extend_data
  else
    let? txs := get_transactions req in
    let? receipts := get_receipts req in
    let? traces := get_traces req in
    inl (mkExtendData txs (drop_logs req receipts) traces).
End Block.
End GetBlock.
