(* ===== verification/EvmHandler.v ===== *)
(** * The handlers of an EVM chain: [driver/controller/handler.go], [standard], [standard/evm]

    A handler controller turns the configuration of the processor into agents, says which
    data they need, and makes the tasks of a block from its data: each agent binds the data
    its filter accepts, and the bindings are sorted into the order of execution. JSON texts of
    logs, transactions and receipts are made by parameters. *)
From Stdlib Require Import ZArith Lia String.
From stdpp Require Import base numbers option sorting gmap list strings.
From S2P Require Import Prelude RangeBase RangeSet BlockRange Sparsify Errors Checkpoint Intervals EvmChain EvmData EvmBlock.

(** ** Agents *)

Record HandlerID : Type := mkHandlerID { hDataSource : string; hDataSourceID : Z; hType : string; hName : string; hID : Z }.

(** The getters of a nil configuration give false. *)
Record EthFetchConfig : Type := mkFetch { fTransaction : bool; fReceipt : bool; fReceiptLogs : bool; fBlock : bool; fTrace : bool }.

Inductive AgentKind : Type :=
| AgentLog (filters : list LogFilter)
| AgentTrace (f : TraceFilter)
| AgentTransaction
| AgentInterval (c : IntervalConfig).

Record EvmAgent : Type := mkAgent { agID : HandlerID; agRange : BlockRange; agFetch : EthFetchConfig; agKind : AgentKind }.

Definition GetHandleAgentsBlockRange (agents : list EvmAgent) : BlockRange :=
  foldl (fun r ag => BR_Cover r (agRange ag)) EmptyBlockRange agents.

(** ** What the agents need *)

(** [utils.Reduce] over the filters of a log agent, which has at least one. *)
Definition Reduce {A} (f : A -> A -> A) (zero : A) (l : list A) : A := match l with [] => zero | a :: rest => foldl f a rest end.

Definition add_requirement (dr : DataRequirement) (ag : EvmAgent) : DataRequirement :=
  match agKind ag with
  | AgentTransaction =>
      mkData (drLog dr) (drTrace dr) (drInterval dr ++ [mkRequirement (agRange ag) (mkInterval (Some (mkBlockInterval 1 1)) None)]) (drExact dr)
  | AgentInterval c => mkData (drLog dr) (drTrace dr) (drInterval dr ++ [mkRequirement (agRange ag) c]) (drExact dr)
  | AgentTrace f => mkData (drLog dr) (drTrace dr ++ [mkTraceReq (agRange ag) f]) (drInterval dr) (drExact dr)
  | AgentLog fs =>
      mkData (drLog dr ++ [mkLogReq (agRange ag) (Reduce LogFilter_Merge (mkLogFilter [] [] false) fs)]) (drTrace dr) (drInterval dr) (drExact dr)
  end.

Definition getDataRequirement (agents : list EvmAgent) : DataRequirement := foldl add_requirement (mkData [] [] [] []) agents.

Definition day : Z := time_Minute * 60 * 24.

Definition BuildReportRequirements (agents : list EvmAgent) (current : Z) : list IntervalRequirement :=
  let endBlock := EndBlock (GetHandleAgentsBlockRange agents) in
  mkRequirement (mkBlockRange current endBlock) (mkInterval None (Some (mkTimeInterval day time_Minute))) ::
  match endBlock with
  | Some e => [mkRequirement (mkBlockRange e endBlock) (mkInterval (Some (mkBlockInterval 1 1)) None)]
  | None => []
  end.

(** ** The tasks of a block *)

Inductive HandlerType : Type := ETH_TRACE | ETH_LOG | ETH_TRANSACTION | ETH_BLOCK.

Definition executeOrder (t : HandlerType) : Z := match t with ETH_TRACE => 1 | ETH_LOG => 2 | ETH_TRANSACTION => 3 | ETH_BLOCK => 4 end.

(** The payload of a binding: its own text, then those of the block, the transaction and the
    receipt where they are asked for. *)
Record Payload : Type := mkPayload { pRaw : string; pBlock : option string; pTransaction : option string; pReceipt : option string }.

Record BindingDataInner : Type := mkInner { iType : HandlerType; iTxIndex : Z; iTxInnerIndex : Z; iData : Payload; iDataSize : Z }.

Record bindingData : Type := mkBinding { bdBlock : Z; bdHandler : HandlerID; bdType : HandlerType; bdData : Payload; bdTxIndex : Z; bdTxInnerIndex : Z }.

(** [utils.Cmp]; the first comparison that is not equal decides. *)
Definition Cmp (a b : Z) : comparison := a ?= b.
Definition then_cmp (a b : comparison) : comparison := match a with Eq => b | c => c end.

Definition binding_Cmp (byProcessor : bool) (b x : bindingData) : comparison :=
  then_cmp (Cmp (bdBlock b) (bdBlock x))
  (then_cmp (Cmp (bdTxIndex b) (bdTxIndex x))
  (if byProcessor then
     then_cmp (Cmp (hDataSourceID (bdHandler b)) (hDataSourceID (bdHandler x)))
     (then_cmp (Cmp (executeOrder (bdType b)) (executeOrder (bdType x)))
     (then_cmp (Cmp (hID (bdHandler b)) (hID (bdHandler x))) (Cmp (bdTxInnerIndex b) (bdTxInnerIndex x))))
   else
     then_cmp (Cmp (executeOrder (bdType b)) (executeOrder (bdType x)))
     (then_cmp (Cmp (bdTxInnerIndex b) (bdTxInnerIndex x)) (Cmp (hID (bdHandler b)) (hID (bdHandler x)))))).

(** [sort.SliceStable]: each element goes in before the first later one that is not less. *)
Fixpoint insert_stable {A} (less : A -> A -> bool) (a : A) (l : list A) : list A :=
  match l with
  | [] => [a]
  | b :: rest => if less b a then b :: insert_stable less a rest else a :: l
  end.

Definition SliceStable {A} (less : A -> A -> bool) (l : list A) : list A := foldr (insert_stable less) [] l.

Definition binding_less (byProcessor : bool) (b x : bindingData) : bool := match binding_Cmp byProcessor b x with Lt => true | _ => false end.

(** The data of a block: its header and main data, and the further data. *)
Record EvmBlockData : Type := mkBlockData { edHeader : EvmHeader; edMain : BlockMainData; edExtend : BlockExtendData }.

Section Handler.
Context `{Client}.

(** ** What else the agents need *)

(** One hash for each transaction, where it is asked for. *)
Definition of_transactions (f : EthFetchConfig) (hashes : list string) : BlockExtendRequirement :=
  let l := distinct hashes in
  mkExtend false (if fTransaction f then l else []) false (if fReceipt f then l else []) false (if fReceiptLogs f then l else []) false.

(** [HandlerAgentLog.GetExtendRequirements]; every agent leaves out the blocks outside its range. *)
Definition log_extend (ag : EvmAgent) (fs : list LogFilter) (d : EvmBlockData) : BlockExtendRequirement + EvmErr :=
  let f := agFetch ag in
  if negb (BR_Contains (agRange ag) (ehNumber (edHeader d))) then inl no_extend
  else if negb (fTransaction f) && negb (fReceipt f) && negb (fReceiptLogs f) then inl no_extend
  else let? logs := FilterLogs (bmLogs (edMain d)) fs in inl (of_transactions f (map lTxHash logs)).

Definition trace_extend (ag : EvmAgent) (tf : TraceFilter) (d : EvmBlockData) : BlockExtendRequirement :=
  let f := agFetch ag in
  if negb (BR_Contains (agRange ag) (ehNumber (edHeader d))) then no_extend
  else if negb (fTransaction f) && negb (fReceipt f) && negb (fReceiptLogs f) then no_extend
  else of_transactions f (map trTransactionHash (filter (fun t => TraceFilter_Check tf t = true) (bmTraces (edMain d)))).

Definition transaction_extend (ag : EvmAgent) (d : EvmBlockData) : BlockExtendRequirement :=
  let f := agFetch ag in
  if negb (BR_Contains (agRange ag) (ehNumber (edHeader d))) then no_extend
  else mkExtend true [] (fReceipt f) [] (fReceiptLogs f) [] false.

(** The first guard does not look at [fTrace]. *)
Definition interval_extend (ag : EvmAgent) (c : IntervalConfig) (d : EvmBlockData) : BlockExtendRequirement :=
  let f := agFetch ag in
  if negb (BR_Contains (agRange ag) (ehNumber (edHeader d))) then no_extend
  else if negb (fTransaction f) && negb (fReceipt f) && negb (fReceiptLogs f) then no_extend
  else if negb (ContainsInterval (bmIntervals (edMain d)) c) then no_extend
  else mkExtend (fTransaction f) [] (fReceipt f) [] (fReceiptLogs f) [] (fTrace f).

Definition GetExtendRequirements (ag : EvmAgent) (d : EvmBlockData) : BlockExtendRequirement + EvmErr :=
  match agKind ag with
  | AgentTransaction => inl (transaction_extend ag d)
  | AgentLog fs => log_extend ag fs d
  | AgentTrace tf => inl (trace_extend ag tf d)
  | AgentInterval c => inl (interval_extend ag c d)
  end.

Fixpoint extend_loop (agents : list EvmAgent) (d : EvmBlockData) (req : BlockExtendRequirement) : BlockExtendRequirement + EvmErr :=
  match agents with
  | [] => inl req
  | ag :: rest => let? ar := GetExtendRequirements ag d in extend_loop rest d (Extend_Merge req ar)
  end.

Definition getBlockExtendRequirements (agents : list EvmAgent) (d : EvmBlockData) : BlockExtendRequirement + EvmErr := extend_loop agents d no_extend.

(** ** Bindings *)

(** [json.Marshal] of a log, a transaction and a receipt, and the splicing of transactions,
    receipts and traces into the text of a block, which fails where that is no object. *)
Context (marshal_log : Log -> string) (marshal_tx : RPCTransaction -> string) (marshal_receipt : ExtendedReceipt -> string).
Context (splice : string -> option (list string) -> option (list string) -> option (list string) -> string + EvmErr).

Definition getTransactionJSON (d : EvmBlockData) (h : string) : string :=
  match Transactions (edExtend d) !! h with Some tx => marshal_tx tx | None => EmptyString end.

Definition getReceiptJSON (d : EvmBlockData) (h : string) (withLogs : bool) : string :=
  match Receipts (edExtend d) !! h with
  | Some r => marshal_receipt (if withLogs then r else mkReceipt (rcTxHash r) (rcBlockHash r) [] (rcText r))
  | None => EmptyString
  end.

Definition size_of (s : option string) : Z := match s with Some s => Z.of_nat (String.length s) | None => 0 end.

(** What comes with a log or a trace of a transaction. *)
Definition payload_of (d : EvmBlockData) (f : EthFetchConfig) (raw h : string) : Payload :=
  mkPayload raw
    (if fBlock f then Some (ehRaw (edHeader d)) else None)
    (if fTransaction f then Some (getTransactionJSON d h) else None)
    (if fReceipt f then Some (getReceiptJSON d h (fReceiptLogs f)) else None).

Definition payload_size (p : Payload) : Z := Z.of_nat (String.length (pRaw p)) + size_of (pBlock p) + size_of (pTransaction p) + size_of (pReceipt p).

Definition inner_of (ty : HandlerType) (txIndex txInnerIndex : Z) (p : Payload) : BindingDataInner := mkInner ty txIndex txInnerIndex p (payload_size p).

Definition maxInt64 : Z := 2 ^ 63 - 1.

(** The transactions of the block with their positions. *)
Definition transaction_binding (ag : EvmAgent) (d : EvmBlockData) (i : nat) (h : string) : BindingDataInner :=
  inner_of ETH_TRANSACTION (Z.of_nat i) 0
    (mkPayload (getTransactionJSON d h) (Some (ehRaw (edHeader d))) None
       (if fReceipt (agFetch ag) then Some (getReceiptJSON d h (fReceiptLogs (agFetch ag))) else None)).

Definition log_bindings (f : EthFetchConfig) (fs : list LogFilter) (d : EvmBlockData) : list BindingDataInner + EvmErr :=
  let? logs := FilterLogs (bmLogs (edMain d)) fs in
  inl (map (fun l => inner_of ETH_LOG (lTxIndex l) (lIndex l) (payload_of d f (marshal_log l) (lTxHash l))) logs).

Definition trace_bindings (f : EthFetchConfig) (tf : TraceFilter) (d : EvmBlockData) : list BindingDataInner :=
  map (fun t => inner_of ETH_TRACE (trTransactionIndex t) 0 (payload_of d f (trRaw t) (trTransactionHash t)))
    (filter (fun t => TraceFilter_Check tf t = true) (bmTraces (edMain d))).

(** The text of the block, with the transactions, the receipts and the traces where they are
    asked for. *)
Definition interval_bindings (f : EthFetchConfig) (c : IntervalConfig) (d : EvmBlockData) : list BindingDataInner + EvmErr :=
  if negb (ContainsInterval (bmIntervals (edMain d)) c) then inl []
  else
    let hashes := default [] (ehTxHashes (edHeader d)) in
    let? raw :=
      (if fTransaction f || fReceipt f || fTrace f then
         splice (ehRaw (edHeader d))
           (if fTransaction f then Some (map (getTransactionJSON d) hashes) else None)
           (if fReceipt f then Some (map (fun h => getReceiptJSON d h (fReceiptLogs f)) hashes) else None)
           (if fTrace f then Some (concat (map (fun h => map trRaw (default [] (Traces (edExtend d) !! h))) hashes)) else None)
       else inl (ehRaw (edHeader d))) in
    inl [inner_of ETH_BLOCK maxInt64 0 (mkPayload raw None None None)].

Definition BuildBindingDataList (ag : EvmAgent) (d : EvmBlockData) : list BindingDataInner + EvmErr :=
  let f := agFetch ag in
  match agKind ag with
  | AgentLog fs => log_bindings f fs d
  | AgentTrace tf => inl (trace_bindings f tf d)
  | AgentTransaction => inl (imap (transaction_binding ag d) (default [] (ehTxHashes (edHeader d))))
  | AgentInterval c => interval_bindings f c d
  end.

Definition bind_inner (d : EvmBlockData) (ag : EvmAgent) (i : BindingDataInner) : bindingData :=
  mkBinding (ehNumber (edHeader d)) (agID ag) (iType i) (iData i) (iTxIndex i) (iTxInnerIndex i).

(** The loop of [BuildTaskList] over the agents: the bindings and their total size. *)
Fixpoint bindings_of (agents : list EvmAgent) (d : EvmBlockData) : (list bindingData * Z) + EvmErr :=
  match agents with
  | [] => inl ([], 0)
  | ag :: rest =>
      if negb (BR_Contains (agRange ag) (ehNumber (edHeader d))) then bindings_of rest d
      else
        let? inners := BuildBindingDataList ag d in
        let? (l, size) := bindings_of rest d in
        inl (map (bind_inner d ag) inners ++ l, foldr (fun i acc => iDataSize i + acc) 0 inners + size)
  end.

Definition BuildTaskList (byProcessor : bool) (agents : list EvmAgent) (d : EvmBlockData) : (list bindingData * Z) + EvmErr :=
  let? (l, size) := bindings_of agents d in
  inl (SliceStable (binding_less byProcessor) l, size).

(** ** From the main data to the tasks *)

Context (getBlock : Z -> string -> option (list string) -> BlockExtendRequirement -> BlockExtendData + EvmErr).

Definition same_block (h : EvmHeader) (hash parent : string) : bool := bool_decide (ehHash h = hash) && bool_decide (ehParent h = parent).

(** The header of the block: that of the data when it makes no task, or the one of the client,
    which the data have to agree with. *)
Definition block_header (n : Z) (from : BlockMainData) : EvmHeader + EvmErr :=
  match bmHeader from with
  | Some h =>
      if (Main_Size from =? 0) && negb (bmExact from) then inl h
      else
        let? full := cl_GetHeader n in
        if same_block h (ehHash full) (ehParent full) then inl full
        else inr (Permanent "main data of a block claim another identity than the fetched header")
  | None => cl_GetHeader n
  end.

(** The transfer function of [BuildBlockDataFetcher]: the data of the block and its tasks. *)
Definition build_block_data (byProcessor : bool) (agents : list EvmAgent) (n : Z) (from : BlockMainData) : option (EvmBlockData * list bindingData * Z) + EvmErr :=
  if Main_IsEmpty from then inl None
  else
    let? h := block_header n from in
    if negb (forallb (fun l => bool_decide (lBlockHash l = ehHash h)) (bmLogs from)) then inr (Permanent "invalid block hash of the log")
    else if negb (forallb (fun t => bool_decide (trBlockHash t = ehHash h)) (bmTraces from)) then inr (Permanent "invalid block hash of the trace")
    else
      let d := mkBlockData h from no_extend_data in
      let? r := getBlockExtendRequirements agents d in
      let? ext := getBlock n (ehHash h) (ehTxHashes h) r in
      let d := mkBlockData h from ext in
      let? (tasks, size) := BuildTaskList byProcessor agents d in
      inl (Some (d, tasks, size)).
End Handler.
