(* ===== verification/EvmConfig.v ===== *)
(** * The agents of a configuration: [driver/controller/standard], [standard/evm/handler.go], [data/contract.go]

    The configuration that the processor gives, after the templates are set, becomes the
    agents of the handler controller. The block a contract starts at is searched for once and
    kept with the checkpoints. *)
From Stdlib Require Import ZArith Lia String.
From stdpp Require Import base numbers option sorting gmap list strings pretty.
From S2P Require Import Prelude RangeBase RangeSet RangeSetOps RangeCut BlockRange Sparsify Errors Checkpoint Intervals EvmChain EvmData EvmBlock EvmHandler.

(** ** The first block of a contract *)

Section Search.
Context (checker : Z -> bool + EvmErr).

(** The powers of two around the range; the last shift gives zero. *)
Fixpoint powers_loop (fuel : nat) (p start end_ low high : Z) : Outcome (Z * Z) :=
  match fuel with
  | O => Diverge
  | S fuel =>
      if 0 <? p then
        let low := if p <=? start then p else low in
        if end_ <=? p then Ok (low, p) else powers_loop fuel (p *! 2) start end_ low high
      else Ok (low, high)
  end.

Definition internalChecker (start end_ bn : Z) : bool + EvmErr :=
  if bn <? start then inl false else if end_ <=? bn then inl true else checker bn.

Fixpoint start_loop (fuel : nat) (start end_ low high : Z) : Outcome (Z + EvmErr) :=
  match fuel with
  | O => Diverge
  | S fuel =>
      if low <? high then
        let mid := (low +! high) / 2 in
        match internalChecker start end_ mid with
        | inr e => Ok (inr e)
        | inl true => start_loop fuel start end_ low mid
        | inl false => start_loop fuel start end_ (mid +! 1) high
        end
      else Ok (inl low)
  end.

(** Sixty-five rounds are enough for both loops. *)
Definition BinarySearchContractStart (start end_ : Z) : Outcome (option Z + EvmErr) :=
  match checker end_ with
  | inr e => Ok (inr e)
  | inl false => Ok (inl None)
  | inl true =>
      let! (low, high) := powers_loop 66 1 start end_ start end_ in
      let! r := start_loop 66 start end_ low high in
      Ok (match r with inl x => inl (Some x) | inr e => inr e end)
  end.
End Search.

(** A negative number counts back from the latest block. *)
Definition GetFirst (firstConfig latest : Z) : Z := wrap (Z.max 0 (if firstConfig <? 0 then wrap_int64 (to_int64 latest + firstConfig) else firstConfig)).

(** ** The configuration *)

Inductive AddressOrType : Type := ByType (erc20 : bool) | ByAddress (address : string) | NoAddress.

Record ProtoLogFilter : Type := mkProtoFilter { plTopics : list (list string); plAddress : AddressOrType }.
Record LogHandlerConfig : Type := mkLogConfig { lcName : string; lcID : Z; lcFilters : list ProtoLogFilter; lcFetch : EthFetchConfig }.
Record TraceHandlerConfig : Type := mkTraceConfig { tcName : string; tcID : Z; tcSignature : string; tcFetch : EthFetchConfig }.
Record TransactionHandlerConfig : Type := mkTxConfig { xcName : string; xcID : Z; xcFetch : EthFetchConfig }.
Record HandleInterval : Type := mkHandleInterval { hiBackfill : Z; hiRecent : Z }.
Record OnIntervalConfig : Type := mkOnInterval {
  icName : string; icID : Z; icSlot : Z; icSlotInterval : option HandleInterval; icMinutes : Z; icMinutesInterval : option HandleInterval; icFetch : EthFetchConfig
}.
Record AccountConfig : Type := mkAccount { acAddress : string; acStart : Z; acEnd : Z; acLogs : list LogHandlerConfig }.
Record ContractConfig : Type := mkContract {
  ccAddress : string; ccStart : Z; ccEnd : Z; ccLogs : list LogHandlerConfig; ccTraces : list TraceHandlerConfig;
  ccTransactions : list TransactionHandlerConfig; ccIntervals : list OnIntervalConfig
}.

Definition AdjustAddress (address : string) : string := if bool_decide (address = EmptyString) || bool_decide (address = "*"%string) then EmptyString else address.
Definition AdjustEndBlock (endBlock : Z) : option Z := if endBlock =? 0 then None else Some endBlock.
Definition BuildDataSource (chainType chainID srcType address : string) : string :=
  chainType +:+ ":" +:+ chainID +:+ ":" +:+ srcType +:+ (if bool_decide (address = EmptyString) then EmptyString else ":" +:+ address).

(** [uint64(x)] of an [int32], and [time.Duration(x) * time.Minute]. *)
Definition backfill_of (i : option HandleInterval) : Z := match i with Some i => hiBackfill i | None => 0 end.
Definition recent_of (i : option HandleInterval) : Z := match i with Some i => hiRecent i | None => 0 end.

Definition NewIntervalConfig (minBackfillSlotInterval minBackfillTimeInterval : Z) (c : OnIntervalConfig) : option IntervalConfig :=
  if (0 <? icSlot c) || bool_decide (is_Some (icSlotInterval c)) then
    Some (mkInterval (Some (mkBlockInterval
      (Z.max (Z.max (wrap (backfill_of (icSlotInterval c))) (wrap (icSlot c))) minBackfillSlotInterval)
      (Z.max (Z.max (wrap (recent_of (icSlotInterval c))) (wrap (icSlot c))) 1))) None)
  else if (0 <? icMinutes c) || bool_decide (is_Some (icMinutesInterval c)) then
    Some (mkInterval None (Some (mkTimeInterval
      (Z.max (Z.max (backfill_of (icMinutesInterval c) * time_Minute) (icMinutes c * time_Minute)) minBackfillTimeInterval)
      (Z.max (Z.max (recent_of (icMinutesInterval c) * time_Minute) (icMinutes c * time_Minute)) time_Minute))))
  else None.

(** Configurations that are refused give no filters. *)
Definition new_log_filter (accountLogFilter : bool) (contractAddress : string) (f : ProtoLogFilter) : option LogFilter :=
  if accountLogFilter then
    match plAddress f with
    | ByType true => Some (mkLogFilter (plTopics f) [] true)
    | ByType false => None
    | ByAddress a => Some (mkLogFilter (plTopics f) [ToLower a] false)
    | NoAddress => None
    end
  else Some (mkLogFilter (plTopics f) (if bool_decide (contractAddress = EmptyString) then [] else [ToLower contractAddress]) false).

Definition NewLogFilters (filters : list ProtoLogFilter) (accountLogFilter : bool) (contractAddress : string) : option (list LogFilter) :=
  match filters with [] => None | _ => mapM (new_log_filter accountLogFilter contractAddress) filters end.

(** ** Building the agents *)

Definition cbind {A B} (x : A + ExternalError) (f : A -> B + ExternalError) : B + ExternalError :=
  match x with inl a => f a | inr e => inr e end.

Declare Scope config_scope.
Delimit Scope config_scope with config.
Notation "'let&' x ':=' c 'in' k" := (cbind c (fun x => k))
  (at level 10, x pattern, c at level 100, k at level 200) : config_scope.
Open Scope config_scope.

Section Build.
Context (chainID : string) (minSlot minTime : Z).

(** [BaseHandlerController.GetAddressStart] with the state it keeps; [loader] searches. *)
Context (skipValidation : bool) (contractStart : string -> Z -> Z -> option Z + EvmErr).

Definition GetAddressStart (starts : gmap string Z) (address : string) (start latest : Z) : (Z * gmap string Z) + EvmErr :=
  if skipValidation then inl (start, starts)
  else if bool_decide (address = EmptyString) then inl (start, starts)
  else
    match starts !! address with
    | Some s => inl (s, starts)
    | None =>
        let? found := contractStart address start latest in
        let s := match found with Some s => s | None => latest +! 1 end in
        inl (s, <[address := s]> starts)
    end.

Definition agent_of (source : string) (sourceID : Z) (ty name : string) (id : Z) (range : BlockRange) (fetch : EthFetchConfig) (kind : AgentKind) : EvmAgent :=
  mkAgent (mkHandlerID source sourceID ty name id) range fetch kind.

Definition bad_config (msg : string) : ExternalError := mkExternalError ErrCodeUnexpectedProcessorConfig msg.

(** The agents of the log handlers of an account or a contract. *)
Fixpoint log_agents (source : string) (sourceID : Z) (range : BlockRange) (account : bool) (address : string) (l : list LogHandlerConfig) : list EvmAgent + ExternalError :=
  match l with
  | [] => inl []
  | c :: rest =>
      match NewLogFilters (lcFilters c) account address with
      | None => inr (bad_config "unexpected config for a log handler")
      | Some fs =>
          let& more := log_agents source sourceID range account address rest in
          inl (agent_of source sourceID "log" (lcName c) (lcID c) range (lcFetch c) (AgentLog fs) :: more)
      end
  end.

Definition trace_agent (source : string) (sourceID : Z) (range : BlockRange) (address : string) (c : TraceHandlerConfig) : EvmAgent :=
  agent_of source sourceID "trace" (tcName c) (tcID c) range (tcFetch c)
    (AgentTrace (mkTraceFilter (if bool_decide (tcSignature c = EmptyString) then [] else [tcSignature c])
                   (if bool_decide (address = EmptyString) then [] else [ToLower address]))).

Fixpoint interval_agents (source : string) (sourceID : Z) (range : BlockRange) (l : list OnIntervalConfig) : list EvmAgent + ExternalError :=
  match l with
  | [] => inl []
  | c :: rest =>
      match NewIntervalConfig minSlot minTime c with
      | None => inr (bad_config "unexpected config for an interval handler")
      | Some i =>
          let& more := interval_agents source sourceID range rest in
          inl (agent_of source sourceID "interval" (icName c) (icID c) range (icFetch c) (AgentInterval i) :: more)
      end
  end.

Definition account_agents (first sourceID : Z) (c : AccountConfig) : list EvmAgent + ExternalError :=
  let address := AdjustAddress (acAddress c) in
  log_agents (BuildDataSource "EVM" chainID "Account" address) sourceID (mkBlockRange (Z.max (acStart c) first) (AdjustEndBlock (acEnd c))) true EmptyString (acLogs c).

(** One contract: its agents, the starts known, and whether there is a transaction handler. *)
Definition contract_agents (first latest sourceID : Z) (starts : gmap string Z) (hasTxn : bool) (c : ContractConfig) : (list EvmAgent * gmap string Z * bool) + ExternalError :=
  let address := AdjustAddress (ccAddress c) in
  let source := BuildDataSource "EVM" chainID "Contract" address in
  match GetAddressStart starts address (Z.max (ccStart c) first) latest with
  | inr _ => inr (mkExternalError ErrCodeGetContractStartBlockFailed "get start block failed")
  | inl (start, starts) =>
      let range := mkBlockRange start (AdjustEndBlock (ccEnd c)) in
      let& logs := log_agents source sourceID range false address (ccLogs c) in
      let traces := map (trace_agent source sourceID range address) (ccTraces c) in
      let& (txs, hasTxn) :=
        (match ccTransactions c with
         | [] => inl ([], hasTxn)
         | x :: more =>
             if negb (bool_decide (address = EmptyString)) then inr (bad_config "transaction handler only support global processor")
             else if bool_decide (more <> []) || hasTxn then inr (bad_config "there can only be one transaction handler")
             else inl ([agent_of source sourceID "transaction" (xcName x) (xcID x) range (xcFetch x) AgentTransaction], true)
         end) in
      let& intervals := interval_agents source sourceID range (ccIntervals c) in
      inl (logs ++ traces ++ txs ++ intervals, starts, hasTxn)
  end.

Fixpoint accounts_loop (first i : Z) (l : list AccountConfig) : list EvmAgent + ExternalError :=
  match l with
  | [] => inl []
  | c :: rest =>
      let& a := account_agents first i c in
      let& more := accounts_loop first (i + 1) rest in
      inl (a ++ more)
  end.

Fixpoint contracts_loop (first latest i : Z) (starts : gmap string Z) (hasTxn : bool) (l : list ContractConfig) : (list EvmAgent * gmap string Z) + ExternalError :=
  match l with
  | [] => inl ([], starts)
  | c :: rest =>
      let& (a, starts, hasTxn) := contract_agents first latest i starts hasTxn c in
      let& (more, starts) := contracts_loop first latest (i + 1) starts hasTxn rest in
      inl (a ++ more, starts)
  end.

Definition buildAgents (first latest : Z) (starts : gmap string Z) (accounts : list AccountConfig) (contracts : list ContractConfig) : (list EvmAgent * gmap string Z) + ExternalError :=
  let& a := accounts_loop first 0 accounts in
  let& (b, starts) := contracts_loop first latest 0 starts false contracts in
  inl (a ++ b, starts).
End Build.

(** ** Templates back to the processor: [convert.go] *)

(** The instances with one identity, in the order of their blocks. *)
Definition by_uniq_id (templates : TemplateMap) : gmap string (list TemplateInstance) :=
  foldl (fun dict t => <[UniqID t := default [] (dict !! UniqID t) ++ [t]]> dict) ∅
    (concat (map (fun bn => default [] (templates !! bn)) (ordered_keys (dom templates)))).

(** The blocks at which the instance is on. *)
Definition instance_on (tpls : list TemplateInstance) : BlockRangeSet :=
  foldl (fun on t => if Removed t then BRS_Remove on (tplRange t) else BRS_Union on (tplRange t)) EmptyBlockRangeSet tpls.

(** The instance that is told to the processor, with the last range it is on. *)
Definition told (tpls : list TemplateInstance) : option TemplateInstance :=
  match tpls with
  | [] => None
  | t :: _ =>
      let on := instance_on tpls in
      if BR_IsEmpty (brng on) then None
      else Some (mkTemplateInstance (TemplateID t) (TemplateName t) (Address t) (Labels t) false (BRS_Last on))
  end.

(** The order of the result. When the ends are equal they are compared, which never
    decides; when they are not, they are passed over. *)
Definition template_less (a b : TemplateInstance) : bool :=
  if negb (StartBlock (tplRange a) =? StartBlock (tplRange b)) then StartBlock (tplRange a) <? StartBlock (tplRange b)
  else if BR_EqualNilAsInf (EndBlock (tplRange a)) (EndBlock (tplRange b)) then BR_LessNilAsInf (EndBlock (tplRange a)) (EndBlock (tplRange b))
  else if negb (TemplateID a =? TemplateID b) then TemplateID a <? TemplateID b
  else if negb (bool_decide (Address a = Address b)) then String.ltb (Address a) (Address b)
  else String.ltb (Labels a) (Labels b).

(** What is told of all templates, up to the conversion into messages. *)
Definition ConvertTemplateInstanceBack (sortSlice : (TemplateInstance -> TemplateInstance -> bool) -> list TemplateInstance -> list TemplateInstance)
    (templates : TemplateMap) : list TemplateInstance :=
  sortSlice template_less (omap (fun kv => told kv.2) (map_to_list (by_uniq_id templates))).
