(* ===== verification/EvmBlockSpec.v ===== *)
(** * Where contracts start, which templates are told, and the further data of a block

    The binary search finds the block a contract was created at; each template is told with the
    last range it is on; what [GetBlock] returns has everything that was asked for, and nothing
    that names another block. *)
From Stdlib Require Import ZArith Lia String.
From stdpp Require Import base numbers option sorting gmap list strings.
From S2P Require Import Prelude RangeBase RangeSet RangeSetOps RangeCut BlockRange BlockSet Sparsify Errors Checkpoint Intervals CheckpointCtrl CheckpointSave CheckpointOps CheckpointTemplates EvmChain EvmData EvmFilter EvmSpec EvmBlock EvmHandler EvmConfig.

(** ** The powers of two *)

Lemma powers_step k : 0 <= k < 62 -> 2 ^ k *! 2 = 2 ^ (k + 1).
Proof. intros Hk. unfold mul64. rewrite Z.pow_add_r by lia. apply wrap_small. pose proof (Z.pow_le_mono_r 2 k 61 ltac:(lia) ltac:(lia)). unfold u64, two64. lia. Qed.

Lemma powers_loop_spec fuel k start end_ low high :
  0 <= k <= 62 -> 62 < k + Z.of_nat fuel -> 0 <= low <= start -> end_ <= 2 ^ 62 ->
  exists low' high', powers_loop fuel (2 ^ k) start end_ low high = Ok (low', high') /\ 0 <= low' <= start /\ end_ <= high' /\ high' <= 2 ^ 62 /\ 0 <= high'.
Proof.
  revert k low. induction fuel as [|fuel IH]; intros k low Hk Hf Hlow He; [lia|]. cbn [powers_loop]. assert (0 < 2 ^ k) by (apply Z.pow_pos_nonneg; lia).
  rewrite (proj2 (Z.ltb_lt 0 (2 ^ k))) by done. set (low1 := if 2 ^ k <=? start then 2 ^ k else low).
  assert (0 <= low1 <= start) by (unfold low1; destruct (Z.leb_spec (2 ^ k) start); lia). destruct (Z.leb_spec end_ (2 ^ k)) as [Hle|Hgt].
  - exists low1, (2 ^ k). pose proof (Z.pow_le_mono_r 2 k 62 ltac:(lia) ltac:(lia)). split_and!; try done; lia.
  - assert (k < 62) by (destruct (Z.eq_dec k 62) as [->|]; lia). rewrite powers_step by lia. apply IH; lia.
Qed.

(** The powers reach the end before the start. *)
Lemma powers_loop_early fuel j k start end_ low high :
  (j <= k)%nat -> (k < 62)%nat -> (k - j < fuel)%nat -> 2 ^ Z.of_nat k <= start -> end_ <= 2 ^ Z.of_nat k -> (forall i, (i < k)%nat -> 2 ^ Z.of_nat i < end_) ->
  powers_loop fuel (2 ^ Z.of_nat j) start end_ low high = Ok (2 ^ Z.of_nat k, 2 ^ Z.of_nat k).
Proof.
  intros Hjk Hk. revert j low Hjk. induction fuel as [|fuel IH]; intros j low Hjk Hf Hs He Hall; [lia|]. cbn [powers_loop].
  rewrite (proj2 (Z.ltb_lt 0 _)) by (apply Z.pow_pos_nonneg; lia). pose proof (Z.pow_le_mono_r 2 (Z.of_nat j) (Z.of_nat k) ltac:(lia) ltac:(lia)).
  rewrite (proj2 (Z.leb_le (2 ^ Z.of_nat j) start)) by lia. destruct (decide (j = k)) as [->|Hne]; [by rewrite (proj2 (Z.leb_le end_ _)) by lia|].
  rewrite (proj2 (Z.leb_gt end_ _)) by (apply Hall; lia). rewrite powers_step by lia. replace (Z.of_nat j + 1) with (Z.of_nat (S j)) by lia. apply IH; [lia|lia|done..].
Qed.

(** ** The search *)

Section Start.
Context (checker : Z -> bool + EvmErr) (created start end_ : Z).
Context (Hcheck : forall n, start <= n <= end_ -> checker n = inl (created <=? n)).

Lemma internalChecker_spec n : 0 <= start -> start <= end_ -> created <= end_ -> internalChecker checker start end_ n = inl (Z.max start created <=? n).
Proof.
  intros H0 Hse Hce. unfold internalChecker. destruct (Z.ltb_spec n start); [by rewrite (proj2 (Z.leb_gt _ _)) by lia|].
  destruct (Z.leb_spec end_ n); [by rewrite (proj2 (Z.leb_le _ _)) by lia|]. rewrite Hcheck by lia. f_equal.
  destruct (Z.leb_spec created n), (Z.leb_spec (Z.max start created) n); try done; lia.
Qed.

Lemma start_loop_spec fuel low high :
  0 <= start -> start <= end_ -> created <= end_ -> 0 <= low -> low <= Z.max start created -> Z.max start created <= high -> high <= 2 ^ 62 -> high - low < 2 ^ Z.of_nat fuel ->
  start_loop checker (S fuel) start end_ low high = Ok (inl (Z.max start created)).
Proof.
  intros H0 Hse Hce. revert low high. induction fuel as [|fuel IH]; intros low high Hl0 Hl Hh Hm Hf.
  { cbn in Hf. cbn [start_loop]. rewrite (proj2 (Z.ltb_ge _ _)) by lia. do 2 f_equal. lia. }
  change (start_loop checker (S (S fuel)) start end_ low high) with
    (if low <? high then
       let mid := (low +! high) / 2 in
       match internalChecker checker start end_ mid with
       | inr e => Ok (inr e)
       | inl true => start_loop checker (S fuel) start end_ low mid
       | inl false => start_loop checker (S fuel) start end_ (mid +! 1) high
       end
     else Ok (inl low)).
  destruct (Z.ltb_spec low high); [|do 2 f_equal; lia]. rewrite Nat2Z.inj_succ, Z.pow_succ_r in Hf by lia. rewrite add64_small by (unfold two64; lia).
  pose proof (Z.div_mod (low + high) 2 ltac:(lia)). pose proof (Z.mod_pos_bound (low + high) 2 ltac:(lia)). set (mid := (low + high) / 2) in *. cbn zeta.
  rewrite internalChecker_spec by done. destruct (Z.leb_spec (Z.max start created) mid); [apply IH; lia|]. rewrite add64_small by (unfold two64; lia). apply IH; lia.
Qed.

Lemma BinarySearchContractStart_spec :
  0 <= start -> start <= end_ -> end_ <= 2 ^ 62 ->
  BinarySearchContractStart checker start end_ = Ok (inl (if created <=? end_ then Some (Z.max start created) else None)).
Proof.
  intros H0 Hse He. unfold BinarySearchContractStart. rewrite Hcheck by lia. destruct (Z.leb_spec created end_) as [Hc|Hc]; [|done].
  destruct (powers_loop_spec 66 0 start end_ start end_) as (low & high & E & Hlow & Hhigh & Hmax & Hpos); [lia|lia|lia|done|]. rewrite Z.pow_0_r in E. rewrite E. cbn [obind].
  rewrite (start_loop_spec 65) by (try lia; change (Z.of_nat 65) with 65; lia). done.
Qed.
End Start.

Lemma start_loop_done checker fuel start end_ x : start_loop checker (S fuel) start end_ x x = Ok (inl x).
Proof. cbn [start_loop]. by rewrite Z.ltb_irrefl. Qed.

(** A start after the end is not kept when a power of two lies between them. *)
Lemma BinarySearchContractStart_early checker start end_ k :
  checker end_ = inl true -> (k < 62)%nat -> 2 ^ Z.of_nat k <= start -> end_ <= 2 ^ Z.of_nat k -> (forall i, (i < k)%nat -> 2 ^ Z.of_nat i < end_) ->
  BinarySearchContractStart checker start end_ = Ok (inl (Some (2 ^ Z.of_nat k))).
Proof.
  intros Hc Hk Hs He Hall. unfold BinarySearchContractStart. rewrite Hc. replace 1 with (2 ^ Z.of_nat 0) by done.
  rewrite (powers_loop_early 66 0 k) by (done || lia). cbn [obind]. by rewrite (start_loop_done checker 65).
Qed.

(** ** Templates *)

Lemma by_uniq_id_lookup l id :
  foldl (fun dict t => <[UniqID t := default [] (dict !! UniqID t) ++ [t]]> dict) (∅ : gmap string (list TemplateInstance)) l !! id =
  match filter (fun t => UniqID t = id) l with [] => None | l' => Some l' end.
Proof.
  induction l as [|t l IH] using rev_ind; [done|]. rewrite foldl_app, filter_app. cbn [foldl]. destruct (decide (UniqID t = id)) as [<-|Hn].
  - rewrite lookup_insert_eq, IH, filter_cons_True by done. by destruct (filter _ l).
  - rewrite lookup_insert_ne by done. rewrite IH, filter_cons_False by done. rewrite filter_nil. by rewrite app_nil_r.
Qed.

(** The last range of a chain has the numbers from its start on; the one before is left out. *)
Lemma chain_last lb l x :
  chain lb l -> last l = Some x ->
  (forall n, in_range x n <-> in_ranges l n /\ Start x <= n) /\ ~ in_ranges l (Start x - 1) /\ lb < Start x /\ in_range x (Start x).
Proof.
  revert lb. induction l as [|r t IH]; intros lb Hc Hl; [done|]. destruct Hc as (H1 & H2 & H3). unfold in_ranges. setoid_rewrite Exists_cons.
  destruct t as [|r' t'].
  - injection Hl as <-. setoid_rewrite Exists_nil. split_and!; [|unfold in_range; intros [?|?]; [lia|done]|done|split; [lia|done]]. intros n. unfold in_range. intuition lia.
  - rewrite last_cons_cons in Hl. destruct (REnd r) as [e|] eqn:Er; [|done]. destruct (IH _ H3 Hl) as (I1 & I2 & I3 & I4). cbn in H2.
    split_and!; [| |lia|done].
    + intros n. rewrite I1. unfold in_ranges, in_range. rewrite Er. cbn. intuition lia.
    + intros [[Hr1 Hr2]|Ht]; [|done]. rewrite Er in Hr2. cbn in Hr2. lia.
Qed.

Definition tpl_event (t : TemplateInstance) : bool * BlockRange := (Removed t, tplRange t).

Lemma instance_on_replay tpls : instance_on tpls = replay (map tpl_event tpls).
Proof.
  unfold instance_on, replay. change ns_empty with EmptyBlockRangeSet. generalize EmptyBlockRangeSet.
  induction tpls as [|t tpls IH]; intros on; [reflexivity|]. cbn [foldl map]. rewrite IH. reflexivity.
Qed.

Lemma tpl_events_usable tpls : Forall usable_tpl tpls -> Forall (fun ev : bool * BlockRange => ns_range_wf ev.2) (map tpl_event tpls).
Proof. intros H. induction H; cbn; constructor; auto. Qed.

(** The last range of a well-formed set. *)
Lemma BRS_Last_spec s :
  wf_set (to_set s) -> BR_IsEmpty (brng s) = false ->
  (forall n, in_range (to_range (BRS_Last s)) n <-> in_set (to_set s) n /\ StartBlock (BRS_Last s) <= n) /\ ~ in_set (to_set s) (StartBlock (BRS_Last s) - 1) /\ in_range (to_range (BRS_Last s)) (StartBlock (BRS_Last s)).
Proof.
  intros Hw He. assert (He' : IsEmpty (rng (to_set s)) = false) by exact He. destruct (GetRanges_chain _ Hw) as [Hc Hm].
  destruct (chain_last _ _ _ Hc (Last_GetRanges _ He')) as (L1 & L2 & _ & L4). rewrite <- to_range_BRS_Last in L1, L2, L4.
  split_and!; [|by rewrite <- Hm|done]. intros n. by rewrite L1, Hm.
Qed.

(** What is told of one identity. *)
Lemma told_spec tpls :
  Forall usable_tpl tpls ->
  match told tpls with
  | None => forall n, decided (map tpl_event tpls) n = false
  | Some r =>
      Removed r = false /\ (exists t, head tpls = Some t /\ UniqID r = UniqID t /\ TemplateName r = TemplateName t) /\
      (forall n, in_range (to_range (tplRange r)) n <-> decided (map tpl_event tpls) n = true /\ StartBlock (tplRange r) <= n) /\
      decided (map tpl_event tpls) (StartBlock (tplRange r) - 1) = false /\ (exists n, in_range (to_range (tplRange r)) n)
  end.
Proof.
  intros Hu%tpl_events_usable. pose proof (replay_wf _ Hu) as Hw. assert (Hm := fun n => replay_mem _ n Hu). rewrite <- instance_on_replay in Hw, Hm.
  destruct tpls as [|t tpls]; [done|]. unfold told. destruct (BR_IsEmpty (brng (instance_on (t :: tpls)))) eqn:Ee.
  - intros n. apply not_true_is_false. rewrite <- Hm. by apply wf_set_empty.
  - destruct (BRS_Last_spec _ Hw Ee) as (L1 & L2 & L3). cbn [Removed tplRange]. split_and!; [done|by exists t| | |].
    + intros n. rewrite L1. by rewrite <- Hm.
    + apply not_true_is_false. by rewrite <- Hm.
    + eexists. exact L3.
Qed.

Definition kept (keep : option (list string)) (h : string) : Prop := match keep with Some ks => h ∈ ks | None => True end.

Section Keep.
Context {A : Type} (key : A -> string) (keep : option (list string)).

Lemma keep_map_snoc l a : keep_map key keep (l ++ [a]) = if match keep with Some ks => bool_decide (key a ∈ ks) | None => true end then <[key a := a]> (keep_map key keep l) else keep_map key keep l.
Proof. unfold keep_map. by rewrite foldl_app. Qed.

Lemma keep_map_Some l h a : keep_map key keep l !! h = Some a -> a ∈ l /\ key a = h.
Proof.
  induction l as [|x l IH] using rev_ind; [done|]. rewrite keep_map_snoc. case_match.
  - intros [[<- <-]|[_ Hl]]%lookup_insert_Some; [split; [apply elem_of_app; right; by left|done]|]. destruct (IH Hl). split; [apply elem_of_app; by left|done].
  - intros Hl. destruct (IH Hl). split; [apply elem_of_app; by left|done].
Qed.

Lemma keep_map_is_Some l a : a ∈ l -> kept keep (key a) -> is_Some (keep_map key keep l !! key a).
Proof.
  induction l as [|x l IH] using rev_ind; [by intros ?%elem_of_nil|]. rewrite keep_map_snoc. intros [Hl|Hl]%elem_of_app Hk.
  - case_match; [|by apply IH]. destruct (decide (key x = key a)) as [E|E]; [rewrite E, lookup_insert_eq; by eexists|rewrite lookup_insert_ne by done; by apply IH].
  - apply list_elem_of_singleton in Hl as ->. replace (match keep with Some ks => bool_decide (key x ∈ ks) | None => true end) with true; [rewrite lookup_insert_eq; by eexists|].
    destruct keep; [by rewrite bool_decide_true|done].
Qed.

Lemma all_found_spec (m : gmap string A) ks : all_found (Some ks) m = inl () -> forall h, h ∈ ks -> is_Some (m !! h).
Proof.
  cbn. destruct (forallb _ ks) eqn:E; [|done]. intros _ h Hh. rewrite forallb_forall in E. specialize (E h ltac:(by apply list_elem_of_In)). by apply bool_decide_eq_true in E.
Qed.
End Keep.

Lemma hash_fits_spec hash got : hash <> EmptyString -> hash_fits hash got = true <-> got = hash.
Proof. intros Hne. unfold hash_fits. rewrite (bool_decide_false (hash = EmptyString)) by done. cbn. apply bool_decide_eq_true. Qed.

Lemma each_hash_spec {A} hash (get : string -> option A + EvmErr) block_of hashes m :
  hash <> EmptyString -> each_hash hash get block_of hashes = inl m ->
  (forall h, h ∈ hashes -> is_Some (m !! h)) /\ (forall h a, m !! h = Some a -> block_of a = hash).
Proof.
  intros Hne. revert m. induction hashes as [|h hashes IH]; intros m; cbn [each_hash]; [intros [= <-]; split; [by intros h ?%elem_of_nil|done]|].
  destruct (get h) as [[a|]|] eqn:Eg; cbn [ebind]; [|done|done]. destruct (hash_fits hash (block_of a)) eqn:Ef; cbn [negb]; [|done].
  destruct (each_hash hash get block_of hashes) as [m'|]; cbn [ebind]; [|done]. intros [= <-]. destruct (IH m' eq_refl) as [H1 H2]. split.
  - intros x [->|Hx]%elem_of_cons; [rewrite lookup_insert_eq; by eexists|]. destruct (decide (h = x)) as [->|]; [rewrite lookup_insert_eq; by eexists|rewrite lookup_insert_ne by done; by apply H1].
  - intros x b [[_ <-]|[_ Hx]]%lookup_insert_Some; [by apply hash_fits_spec|by apply (H2 x)].
Qed.

(** Answers without repeats that pass the check are those of the header. *)
Lemma checkBlockTxsMatch_spec expected got : checkBlockTxsMatch expected got = inl () -> NoDup got -> got ≡ₚ expected.
Proof.
  unfold checkBlockTxsMatch. destruct (Z.eqb_spec (Z.of_nat (length got)) (Z.of_nat (length expected))) as [El|]; [|done]. cbn [negb]. destruct (forallb _ got) eqn:E; [|done]. intros _ Hn.
  assert (Hsub : got ⊆ expected). { intros x Hx. rewrite forallb_forall in E. specialize (E x ltac:(by apply list_elem_of_In)). by apply bool_decide_eq_true in E. }
  apply submseteq_length_Permutation; [by apply NoDup_submseteq|lia].
Qed.

Section GetBlock.
Context `{Client, Node} (threshold : Z) (unsupported : bool) (n : Z) (hash : string) (all : option (list string)).
Context (Hne : hash <> EmptyString).

Lemma fetchFullBlockTxs_spec keep m :
  fetchFullBlockTxs n hash all keep = inl m ->
  exists txs, rpc_getBlockByNumber n = inl (Some (hash, txs)) /\ m = keep_map txHash keep txs /\
    (forall expected, all = Some expected -> checkBlockTxsMatch expected (map txHash txs) = inl ()) /\ (forall ks h, keep = Some ks -> h ∈ ks -> is_Some (m !! h)).
Proof.
  unfold fetchFullBlockTxs. destruct (rpc_getBlockByNumber n) as [[[h txs]|]|] eqn:Eb; cbn [ebind]; [|rewrite (bool_decide_false (hash = EmptyString)) by done; done|done].
  destruct (hash_fits hash h) eqn:Ef; cbn [negb]; [|done]. apply hash_fits_spec in Ef as ->; [|done].
  destruct (match all with Some expected => checkBlockTxsMatch expected (map txHash txs) | None => inl () end) as [[]|] eqn:Em; cbn [ebind]; [|done].
  destruct (all_found keep (keep_map txHash keep txs)) as [[]|] eqn:Ea; cbn [ebind]; [|done]. intros [= <-]. exists txs. split_and!; [done|done|by intros expected ->|].
  intros ks h -> Hh. by apply (all_found_spec _ ks).
Qed.

Lemma get_transactions_spec req m :
  get_transactions threshold n hash all req = inl m ->
  (AllTransactions req = false -> forall h, h ∈ SpecialTransactions req -> is_Some (m !! h)) /\
  (AllTransactions req = true -> exists txs, rpc_getBlockByNumber n = inl (Some (hash, txs)) /\ m = keep_map txHash None txs /\
     forall expected, all = Some expected -> checkBlockTxsMatch expected (map txHash txs) = inl ()).
Proof.
  unfold get_transactions. destruct (AllTransactions req).
  - intros (txs & ? & ? & ? & _)%fetchFullBlockTxs_spec. split; [done|]. intros _. by exists txs.
  - intros E. split; [|done]. intros _ h Hh. destruct (threshold <=? _).
    + apply fetchFullBlockTxs_spec in E as (txs & _ & _ & _ & Hall). by apply (Hall (SpecialTransactions req)).
    + apply each_hash_spec in E as [H1 _]; [|done]. by apply H1.
Qed.

Lemma fetchFullBlockReceipts_spec keep m :
  fetchFullBlockReceipts unsupported n hash all keep = inl m ->
  (forall h r, m !! h = Some r -> rcBlockHash r = hash) /\ (forall ks h, keep = Some ks -> h ∈ ks -> is_Some (m !! h)).
Proof.
  unfold fetchFullBlockReceipts. destruct (GetBlockReceipts unsupported n) as [rs|]; cbn [ebind]; [|done]. destruct (forallb _ rs) eqn:Ef; cbn [negb]; [|done].
  destruct (match all with Some expected => checkBlockTxsMatch expected (map rcTxHash rs) | None => inl () end) as [[]|] eqn:Em; cbn [ebind]; [|done].
  destruct (all_found keep (keep_map rcTxHash keep rs)) as [[]|] eqn:Ea; cbn [ebind]; [|done]. intros [= <-]. split.
  - intros h r [Hr _]%keep_map_Some. rewrite forallb_forall in Ef. specialize (Ef r ltac:(by apply list_elem_of_In)). by apply hash_fits_spec in Ef.
  - intros ks h -> Hh. by apply (all_found_spec _ ks).
Qed.

Lemma get_receipts_spec req m :
  get_receipts threshold unsupported n hash all req = inl m ->
  (AllTransactionReceipts req = false -> forall h, h ∈ SpecialTransactionReceipts req -> is_Some (m !! h)) /\ (forall h r, m !! h = Some r -> rcBlockHash r = hash).
Proof.
  unfold get_receipts. destruct (AllTransactionReceipts req).
  - intros [H1 _]%fetchFullBlockReceipts_spec. done.
  - destruct (_ && _).
    + intros [H1 H2]%fetchFullBlockReceipts_spec. split; [|done]. intros _ h Hh. by apply (H2 (SpecialTransactionReceipts req)).
    + intros [H1 H2]%each_hash_spec; [|done]. split; [by intros _|done].
Qed.

Lemma drop_logs_lookup req m h : drop_logs req m !! h = (fun r => if AllTransactionReceiptLogs req || bool_decide (h ∈ SpecialTransactionReceiptLogs req) then r else mkReceipt (rcTxHash r) (rcBlockHash r) [] (rcText r)) <$> m !! h.
Proof.
  unfold drop_logs. destruct (AllTransactionReceiptLogs req); cbn [orb]; [by destruct (m !! h)|]. rewrite map_lookup_imap. by destruct (m !! h).
Qed.
End GetBlock.

(** ** Merged requirements *)

(** The hash is asked for, one way or the other. *)
Definition asks (all : bool) (special : list string) (h : string) : Prop := all = true \/ h ∈ special.

Lemma Extend_Merge_asks r a h :
  (asks (AllTransactions (Extend_Merge r a)) (SpecialTransactions (Extend_Merge r a)) h <-> asks (AllTransactions r) (SpecialTransactions r) h \/ asks (AllTransactions a) (SpecialTransactions a) h) /\
  (asks (AllTransactionReceipts (Extend_Merge r a)) (SpecialTransactionReceipts (Extend_Merge r a)) h <-> asks (AllTransactionReceipts r) (SpecialTransactionReceipts r) h \/ asks (AllTransactionReceipts a) (SpecialTransactionReceipts a) h) /\
  (asks (AllTransactionReceiptLogs (Extend_Merge r a)) (SpecialTransactionReceiptLogs (Extend_Merge r a)) h <-> asks (AllTransactionReceiptLogs r) (SpecialTransactionReceiptLogs r) h \/ asks (AllTransactionReceiptLogs a) (SpecialTransactionReceiptLogs a) h).
Proof.
  assert (Hone : forall (b c : bool) (l k : list string), asks (b || c) (if b || c then [] else distinct (l ++ k)) h <-> asks b l h \/ asks c k h).
  { intros b c l k. unfold asks, distinct. destruct b, c; cbn; rewrite ?elem_of_elements, ?elem_of_list_to_set, ?elem_of_app, ?elem_of_nil; naive_solver. }
  split_and!; apply Hone.
Qed.
