(* ===== verification/EvmTasks.v ===== *)
(** * From the logs of the chain to the tasks of the handlers

    Requirements are merged on disjoint ranges without loss; the data of a block come from the
    one fetcher whose range has it; what an agent makes of them is what it would make of the
    logs of the chain; and the tasks of the block are the bindings of all agents, in the order
    of execution. *)
From Stdlib Require Import ZArith Lia String.
From stdpp Require Import base numbers option sorting gmap list strings.
From S2P Require Import Prelude RangeBase RangeSet RangeSetOps RangeCut BlockRange Sparsify Errors Checkpoint Intervals EvmChain EvmData EvmFilter EvmSpec EvmBlock EvmHandler.

(** ** Merging over pieces *)

Section MergeOn.
Context {F R : Type} (range : R -> BlockRange) (filter_of : R -> F) (merge : list F -> Outcome F) (make : BlockRange -> F -> R).
Context (Hrange : forall r f, range (make r f) = r) (Hmerge : forall fs, fs <> [] -> exists f, merge fs = Ok f).
Context (reqs : list R).

(** The filters of the requirements that include a piece. *)
Definition filters_on (r : BlockRange) : list F := map filter_of (filter (fun req => BR_Include (range req) r = true) reqs).

Lemma merge_on_spec pieces : exists l, merge_on range filter_of merge make reqs pieces = Ok l /\
  map range l `sublist_of` pieces /\
  (forall x, x ∈ l -> exists f, filters_on (range x) <> [] /\ merge (filters_on (range x)) = Ok f /\ x = make (range x) f) /\
  (forall r, r ∈ pieces -> filters_on r <> [] -> exists f, merge (filters_on r) = Ok f /\ make r f ∈ l).
Proof.
  induction pieces as [|r pieces (l & E & H1 & H2 & H3)]; cbn [merge_on].
  { exists []. split; [done|]. split; [done|]. split; [by intros x ?%elem_of_nil|by intros r ?%elem_of_nil]. }
  fold (filters_on r). destruct (filters_on r) as [|f0 fs] eqn:Ef.
  - exists l. split; [done|]. split; [by apply sublist_cons|]. split; [done|]. intros r' [->|Hr']%elem_of_cons Hne; [done|by apply H3].
  - destruct (Hmerge (f0 :: fs)) as [f Em]; [done|]. rewrite Em. cbn [obind]. rewrite E. cbn [obind]. exists (make r f :: l). split; [done|]. split; [cbn; rewrite Hrange; by apply sublist_skip|]. split.
    + intros x [->|Hx]%elem_of_cons; [|by apply H2]. rewrite Hrange. exists f. by rewrite Ef.
    + intros r' [->|Hr']%elem_of_cons Hne; [exists f; rewrite Ef; split; [done|by left]|]. destruct (H3 r' Hr' Hne) as (f' & ? & ?). exists f'. split; [done|by right].
Qed.
End MergeOn.

(** ** The pieces *)

Definition contains (r : BlockRange) (n : Z) : Prop := BR_Contains r n = true.

Lemma contains_range r n : contains r n <-> in_range (to_range r) n.
Proof. unfold contains. by rewrite BR_Contains_eq, Range_Contains_spec. Qed.

Lemma BR_Include_spec r a : BR_Include r a = true <-> forall n, contains a n -> contains r n.
Proof. rewrite BR_Include_eq, Range_Include_spec. setoid_rewrite contains_range. done. Qed.

(** Ranges of blocks that can be cut: none ends at the largest number. *)
Definition cuttable (rs : list BlockRange) : Prop := Forall wf_range (map to_range rs) /\ no_max (map to_range rs).

Definition before_range (p q : BlockRange) : Prop := exists e, EndBlock p = Some e /\ e < StartBlock q.

Lemma BR_CutRangeSet_spec start rs :
  u64 start -> cuttable rs ->
  let out := BR_CutRangeSet start rs in
  StronglySorted before_range out /\
  (forall p r n, p ∈ out -> r ∈ rs -> contains p n -> contains r n -> BR_Include r p = true) /\
  (forall r n, r ∈ rs -> start <= n -> contains r n -> exists p, p ∈ out /\ contains p n).
Proof.
  intros Hst [Hw Hm] out. destruct (CutRangeSet_spec start (map to_range rs) Hst Hw Hm) as (H1 & _ & H3 & H4). rewrite <- BR_CutRangeSet_eq in *. fold out in H1, H3, H4. split_and!.
  - clear -H1. induction out as [|p out IH]; [constructor|]. cbn in H1. apply StronglySorted_inv in H1 as [H1 Hf]. constructor; [by apply IH|].
    rewrite Forall_map in Hf. exact Hf.
  - intros p r n Hp Hr Hpn Hrn. apply BR_Include_spec. intros m Hm'. apply contains_range. rewrite contains_range in *.
    apply (H3 (to_range p) (to_range r) n m); [by apply (list_elem_of_fmap_2 to_range)|by apply (list_elem_of_fmap_2 to_range)|done..].
  - intros r n Hr Hn Hrn. specialize (H4 (to_range r) n ltac:(by apply (list_elem_of_fmap_2 to_range)) Hn ltac:(by apply contains_range)).
    apply Exists_exists in H4 as (p & Hp & Hpn). apply list_elem_of_fmap in Hp as (q & -> & Hq). exists q. split; [done|]. by apply contains_range.
Qed.

(** Of ranges in order, one at most has a block. *)
Lemma sorted_unique out p q n : StronglySorted before_range out -> p ∈ out -> q ∈ out -> contains p n -> contains q n -> p = q.
Proof.
  assert (Hd : forall a b, before_range a b -> contains a n -> contains b n -> False).
  { intros a b (e & He & Hlt) Ha Hb. rewrite contains_range in *. destruct Ha as [_ Ha], Hb as [Hb _]. cbn in Ha, Hb. rewrite He in Ha. cbn in Ha. lia. }
  induction 1 as [|x out Hs IH Hf]; [by intros ?%elem_of_nil|]. rewrite Forall_forall in Hf. intros [->|Hp]%elem_of_cons [->|Hq]%elem_of_cons Hpn Hqn; [done| | |by apply IH].
  - exfalso. by apply (Hd x q); [apply Hf|..].
  - exfalso. by apply (Hd x p); [apply Hf|..].
Qed.

(** What merging promises: ranges in order, and for every block of a requirement the one
    merged requirement that has it, with a filter that is wider. *)
Definition merged_well {F R} (range : R -> BlockRange) (filter_of : R -> F) (wider_of : F -> F -> Prop) (current : Z) (reqs out : list R) : Prop :=
  StronglySorted before_range (map range out) /\
  (forall r n, r ∈ out -> contains (range r) n -> exists req, req ∈ reqs /\ contains (range req) n) /\
  (forall req n, req ∈ reqs -> current <= n -> contains (range req) n ->
     exists r, r ∈ out /\ contains (range r) n /\ wider_of (filter_of req) (filter_of r) /\ forall r', r' ∈ out -> contains (range r') n -> r' = r).

Lemma merge_on_well {F R} (range : R -> BlockRange) (filter_of : R -> F) merge make (wider_of : F -> F -> Prop) current reqs :
  (forall r f, range (make r f) = r) -> (forall r f, filter_of (make r f) = f) ->
  (forall fs, fs <> [] -> exists f, merge fs = Ok f /\ forall g, g ∈ fs -> wider_of g f) ->
  u64 current -> cuttable (map range reqs) ->
  exists out, merge_on range filter_of merge make reqs (BR_CutRangeSet current (map range reqs)) = Ok out /\ merged_well range filter_of wider_of current reqs out.
Proof.
  intros Hrange Hfilter Hmerge Hu Hcut. destruct (BR_CutRangeSet_spec current (map range reqs) Hu Hcut) as (S1 & S2 & S3). set (pieces := BR_CutRangeSet current (map range reqs)) in *.
  destruct (merge_on_spec range filter_of merge make Hrange ltac:(intros fs Hfs; destruct (Hmerge fs Hfs) as (f & E & _); by exists f) reqs pieces) as (out & E & Hsub & Hin & Hall).
  exists out. split; [done|]. assert (Hsorted : StronglySorted before_range (map range out)) by (by eapply StronglySorted_sublist).
  split_and!; [done| |].
  - intros r n Hr Hn. destruct (Hin r Hr) as (f & Hne & _). unfold filters_on in Hne. destruct (filter _ reqs) as [|req l] eqn:Ef; [done|].
    assert (Hreq : req ∈ filter (fun req => BR_Include (range req) (range r) = true) reqs) by (rewrite Ef; by left). apply list_elem_of_filter in Hreq as [Hi Hreq].
    exists req. split; [done|]. by apply (proj1 (BR_Include_spec _ _) Hi).
  - intros req n Hreq Hn Hc. destruct (S3 (range req) n ltac:(by apply (list_elem_of_fmap_2 range)) Hn Hc) as (p & Hp & Hpn).
    pose proof (S2 p (range req) n Hp ltac:(by apply (list_elem_of_fmap_2 range)) Hpn Hc) as Hinc.
    assert (Hf : filter_of req ∈ filters_on range filter_of reqs p) by (apply (list_elem_of_fmap_2 filter_of), list_elem_of_filter; done).
    destruct (Hall p Hp) as (f & Ef & Hout); [intros En; rewrite En in Hf; by apply elem_of_nil in Hf|].
    destruct (Hmerge (filters_on range filter_of reqs p)) as (f' & Ef' & Hw); [intros En; rewrite En in Hf; by apply elem_of_nil in Hf|]. rewrite Ef in Ef'. injection Ef' as <-.
    exists (make p f). rewrite Hrange, Hfilter. split_and!; [done|done|by apply Hw|]. intros r' Hr' Hc'.
    assert (range r' = p) as Er. { apply (sorted_unique (map range out) (range r') p n); [done|by apply (list_elem_of_fmap_2 range)| |done|done]. rewrite <- (Hrange p f). by apply (list_elem_of_fmap_2 range). }
    destruct (Hin r' Hr') as (f' & _ & Ef' & Er'). rewrite Er in Er', Ef'. rewrite Ef in Ef'. by injection Ef' as <-.
Qed.

Lemma MergeLogRequirements_spec current reqs :
  u64 current -> cuttable (map lrRange reqs) -> exists out, MergeLogRequirements current reqs = Ok out /\ merged_well lrRange lrFilter wider_filter current reqs out.
Proof. apply merge_on_well; [done|done|]. apply MergeLogFilers_wider. Qed.

(** ** Traces *)

(** Every trace that passes the one passes the other. *)
Record wider_traces (f r : TraceFilter) : Prop := mkWiderTraces {
  wt_signature : tfSignature r = [] \/ tfSignature f <> [] /\ tfSignature f ⊆ tfSignature r;
  wt_address : tfAddress r = [] \/ tfAddress f <> [] /\ tfAddress f ⊆ tfAddress r
}.

Lemma MergeTraceFilters_wider filters : filters <> [] -> exists r, MergeTraceFilters filters = Ok r /\ forall f, f ∈ filters -> wider_traces f r.
Proof.
  destruct filters as [|f0 filters]; [done|]. intros _. eexists. split; [done|]. intros f Hf. split; apply elements_nil_or, collect_or_all_spec, Hf.
Qed.

Lemma TraceFilter_Check_wider f r t : wider_traces f r -> TraceFilter_Check f t = true -> TraceFilter_Check r t = true.
Proof.
  intros [Hs Ha]. unfold TraceFilter_Check. destruct (bool_decide (trError t = EmptyString)); cbn; [|done].
  assert (Hone : forall (l l' : list string) x, l' = [] \/ l <> [] /\ l ⊆ l' -> negb (bool_decide (l = [])) && negb (bool_decide (x ∈ l)) = false -> negb (bool_decide (l' = [])) && negb (bool_decide (x ∈ l')) = false).
  { intros l l' x [->|[Hne Hsub]]; [by rewrite (bool_decide_true ([] = []))|]. rewrite (bool_decide_false (l = [])) by done. cbn. intros Hx%negb_false_iff%bool_decide_eq_true.
    rewrite (bool_decide_true (x ∈ l')) by (by apply Hsub). by rewrite andb_false_r. }
  destruct (negb (bool_decide (tfAddress f = [])) && _) eqn:Ea; [done|]. rewrite (Hone _ _ _ Ha Ea). destruct (negb (bool_decide (tfSignature f = [])) && _) eqn:Es; [done|].
  by rewrite (Hone _ _ _ Hs Es).
Qed.

Lemma MergeTraceRequirement_spec current reqs :
  u64 current -> cuttable (map trRange reqs) -> exists out, MergeTraceRequirement current reqs = Ok out /\ merged_well trRange trFilter wider_traces current reqs out.
Proof. apply merge_on_well; [done|done|]. apply MergeTraceFilters_wider. Qed.

(** ** The merge function *)

Lemma merge_boxes_spec d from d' :
  merge_boxes d from = (d', None) ->
  bmLogs d' = bmLogs d ++ concat (map bmLogs from) /\ bmTraces d' = bmTraces d ++ concat (map bmTraces from) /\
  bmIntervals d' = bmIntervals d ++ concat (map bmIntervals from) /\ bmExact d' = bmExact d /\
  (forall h, bmHeader d = Some h -> bmHeader d' = Some h) /\
  (forall h, bmHeader d' = Some h -> bmHeader d = Some h \/ exists box, box ∈ from /\ bmHeader box = Some h) /\
  (forall box h, box ∈ from -> bmHeader box = Some h -> exists h', bmHeader d' = Some h' /\ ehHash h' = ehHash h /\ ehParent h' = ehParent h).
Proof.
  revert d. induction from as [|box from IH]; intros d; cbn [merge_boxes].
  { intros [= <-]. cbn. rewrite !app_nil_r. split_and!; try done; [intros h Hh; by left|by intros box h ?%elem_of_nil]. }
  destruct (bmHeader box) as [h|] eqn:Eb; [destruct (bmHeader d) as [h0|] eqn:Ed; [destruct (_ || _) eqn:Ec; [done|]|]|].
  all: intros E; destruct (IH _ E) as (H1 & H2 & H3 & H4 & H5 & H6 & H7); cbn in H1, H2, H3, H4, H5, H6, H7; rewrite H1, H2, H3, H4; cbn; rewrite <- !app_assoc;
    split_and!; try done.
  - apply orb_false_iff in Ec as [Ec1 Ec2]. apply negb_false_iff, bool_decide_eq_true in Ec1, Ec2. intros x Hx. destruct (H6 x Hx) as [?|(b & ? & ?)]; [by left|right; exists b; split; [by right|done]].
  - apply orb_false_iff in Ec as [Ec1 Ec2]. apply negb_false_iff, bool_decide_eq_true in Ec1, Ec2. intros b x [->|Hb]%elem_of_cons Hx; [|by apply (H7 b)].
    rewrite Eb in Hx. injection Hx as <-. exists h0. by rewrite (H5 h0 eq_refl).
  - intros x Hx. destruct (H6 x Hx) as [[= <-]|(b & ? & ?)]; right; [exists box; split; [by left|done]|exists b; split; [by right|done]].
  - intros b x [->|Hb]%elem_of_cons Hx; [|by apply (H7 b)]. rewrite Eb in Hx. injection Hx as <-. exists h. by rewrite (H5 h eq_refl).
  - intros x Hx. destruct (H6 x Hx) as [?|(b & ? & ?)]; [by left|right; exists b; split; [by right|done]].
  - intros b x [->|Hb]%elem_of_cons Hx; [congruence|by apply (H7 b)].
Qed.

(** ** One fetcher for each block *)

Lemma only_one {A R} (range : R -> BlockRange) (g : R -> list A) (out : list R) (r : R) n :
  StronglySorted before_range (map range out) -> r ∈ out -> contains (range r) n -> (forall x, x ∈ out -> ~ contains (range x) n -> g x = []) -> concat (map g out) = g r.
Proof.
  intros Hs Hr Hc Hg. assert (Hd : forall a b, before_range a b -> contains a n -> contains b n -> False).
  { intros a b (e & He & Hlt) Ha Hb. rewrite contains_range in *. destruct Ha as [_ Ha], Hb as [Hb _]. cbn in Ha, Hb. rewrite He in Ha. cbn in Ha. lia. }
  induction out as [|x out IH]; [by apply elem_of_nil in Hr|]. cbn in *. apply StronglySorted_inv in Hs as [Hs Hf]. rewrite Forall_map, Forall_forall in Hf.
  apply elem_of_cons in Hr as [->|Hr].
  - assert (concat (map g out) = []) as ->; [|by rewrite app_nil_r]. assert (Hnone : forall y, y ∈ out -> g y = []).
    { intros y Hy. apply Hg; [by right|]. intros Hyc. by apply (Hd (range x) (range y)); [apply Hf|..]. }
    clear -Hnone. induction out as [|y out IH]; [done|]. cbn. rewrite Hnone by (by left). apply IH. intros z Hz. apply Hnone. by right.
  - rewrite (Hg x); [|by left|]. 2:{ intros Hx. by apply (Hd (range x) (range r)); [apply Hf|..]. }
    apply IH; [done|done|]. intros y Hy. apply Hg. by right.
Qed.

(** ** Sorting *)

Section Sorting.
Context {A : Type} (less : A -> A -> bool).

Lemma insert_stable_perm a l : insert_stable less a l ≡ₚ a :: l.
Proof. induction l as [|b l IH]; [done|]. cbn. destruct (less b a); [|done]. rewrite IH. apply Permutation_swap. Qed.

Lemma SliceStable_perm l : SliceStable less l ≡ₚ l.
Proof. induction l as [|a l IH]; [done|]. cbn. rewrite insert_stable_perm. by f_equiv. Qed.

Context (Hasym : forall a b, less a b = true -> less b a = false) (Htrans : forall a b c, less b a = false -> less c b = false -> less c a = false).

(** No later element is less than an earlier one. *)
Definition in_order (a b : A) : Prop := less b a = false.

Lemma insert_stable_sorted a l : StronglySorted in_order l -> StronglySorted in_order (insert_stable less a l).
Proof.
  induction 1 as [|b l Hs IH Hf]; [repeat constructor|]. cbn. destruct (less b a) eqn:E.
  - constructor; [done|]. apply Forall_forall. intros x Hx. rewrite insert_stable_perm in Hx. apply elem_of_cons in Hx as [->|Hx]; [by apply Hasym|]. rewrite Forall_forall in Hf. by apply Hf.
  - constructor; [by constructor|]. constructor; [done|]. rewrite Forall_forall in *. intros x Hx. unfold in_order in *. by apply (Htrans a b x); [|apply Hf].
Qed.

Lemma SliceStable_sorted l : StronglySorted in_order (SliceStable less l).
Proof. induction l as [|a l IH]; [constructor|]. cbn. by apply insert_stable_sorted. Qed.

(** Elements that compare as equal keep their order. *)
Definition same (x y : A) : Prop := less x y = false /\ less y x = false.

Lemma insert_stable_same x a l : StronglySorted in_order l -> filter (same x) (insert_stable less a l) = filter (same x) (a :: l).
Proof.
  induction 1 as [|b l Hs IH Hf]; [done|]. cbn [insert_stable]. destruct (less b a) eqn:E; [|done]. rewrite (filter_cons _ b), IH, !filter_cons.
  destruct (decide (same x a)) as [Ha|Ha], (decide (same x b)) as [Hb|Hb]; try done. exfalso. destruct Ha as [Ha1 Ha2], Hb as [Hb1 Hb2].
  assert (less b a = false); [|congruence]. by apply (Htrans a x b).
Qed.

Lemma SliceStable_same x l : filter (same x) (SliceStable less l) = filter (same x) l.
Proof. induction l as [|a l IH]; [done|]. cbn [SliceStable foldr]. rewrite insert_stable_same by apply SliceStable_sorted. rewrite !filter_cons. unfold SliceStable in IH. by rewrite IH. Qed.
End Sorting.

Lemma StronglySorted_weaken {A} (R S : relation A) l : (forall a b, R a b -> S a b) -> StronglySorted R l -> StronglySorted S l.
Proof. intros HRS. induction 1 as [|a l Hs IH Hf]; constructor; [done|]. eapply Forall_impl; [exact Hf|]. intros b. apply HRS. Qed.

(** ** The order of execution *)

Lemma then_cmp_opp a b : CompOpp (then_cmp a b) = then_cmp (CompOpp a) (CompOpp b).
Proof. by destruct a. Qed.

(** The keys the bindings are compared by, in order. *)
Definition order_key (byProcessor : bool) (b : bindingData) : list Z :=
  [bdBlock b; bdTxIndex b] ++
  (if byProcessor then [hDataSourceID (bdHandler b); executeOrder (bdType b); hID (bdHandler b); bdTxInnerIndex b]
   else [executeOrder (bdType b); bdTxInnerIndex b; hID (bdHandler b)]).

Fixpoint lex (k l : list Z) : comparison :=
  match k, l with
  | a :: k, b :: l => match a ?= b with Eq => lex k l | c => c end
  | _, _ => Eq
  end.

Lemma binding_Cmp_lex m a b : binding_Cmp m a b = lex (order_key m a) (order_key m b).
Proof. unfold binding_Cmp, Cmp, then_cmp, order_key. destruct m; cbn; repeat (destruct (_ ?= _)); done. Qed.

Lemma lex_opp k l : length k = length l -> lex l k = CompOpp (lex k l).
Proof.
  revert l. induction k as [|a k IH]; intros [|b l]; cbn; try done. intros [= Hl]. rewrite (Z.compare_antisym a b). destruct (a ?= b); cbn; [by apply IH|done|done].
Qed.

Lemma lex_ge_trans k l m : length k = length l -> length l = length m -> lex l k <> Lt -> lex m l <> Lt -> lex m k <> Lt.
Proof.
  revert l m. induction k as [|a k IH]; intros [|b l] [|c m]; cbn; try done. intros [= H1] [= H2].
  destruct (Z.compare_spec b a), (Z.compare_spec c b), (Z.compare_spec c a); subst; try lia; try done. by apply IH.
Qed.

Lemma order_key_length m a b : length (order_key m a) = length (order_key m b).
Proof. by destruct m. Qed.

Lemma binding_less_spec m a b : binding_less m a b = true <-> lex (order_key m a) (order_key m b) = Lt.
Proof. unfold binding_less. rewrite binding_Cmp_lex. by destruct (lex _ _). Qed.

Lemma binding_less_asym m a b : binding_less m a b = true -> binding_less m b a = false.
Proof. rewrite binding_less_spec. intros E. apply not_true_iff_false. rewrite binding_less_spec, lex_opp, E by apply order_key_length. done. Qed.

Lemma binding_less_trans m a b c : binding_less m b a = false -> binding_less m c b = false -> binding_less m c a = false.
Proof. rewrite <- !not_true_iff_false, !binding_less_spec. apply lex_ge_trans; apply order_key_length. Qed.

(** ** The bindings of the agents *)

Section Bindings.
Context `{Client}.
Context (marshal_log : Log -> string) (marshal_tx : RPCTransaction -> string) (marshal_receipt : ExtendedReceipt -> string).
Context (splice : string -> option (list string) -> option (list string) -> option (list string) -> string + EvmErr).

Abbreviation bindings := (bindings_of marshal_log marshal_tx marshal_receipt splice).
Abbreviation binding_list := (BuildBindingDataList marshal_log marshal_tx marshal_receipt splice).

Lemma bindings_of_agent agents d l size ag :
  bindings agents d = inl (l, size) -> ag ∈ agents -> contains (agRange ag) (ehNumber (edHeader d)) ->
  exists inners, binding_list ag d = inl inners /\ map (bind_inner d ag) inners ⊆ l.
Proof.
  revert l size. induction agents as [|a agents IH]; intros l size E Hin Hc; [by apply elem_of_nil in Hin|]. cbn [bindings_of] in E.
  destruct (BR_Contains (agRange a) (ehNumber (edHeader d))) eqn:Ea; cbn [negb] in E.
  - destruct (binding_list a d) as [inners|?] eqn:El; cbn [ebind] in E; [|done]. destruct (bindings agents d) as [[l' s']|?] eqn:Er; cbn [ebind] in E; [|done]. injection E as <- <-.
    apply elem_of_cons in Hin as [->|Hin].
    + exists inners. split; [done|]. intros x Hx. apply elem_of_app. by left.
    + destruct (IH l' s' eq_refl Hin Hc) as (inners' & ? & Hsub). exists inners'. split; [done|]. intros x Hx. apply elem_of_app. right. by apply Hsub.
  - apply elem_of_cons in Hin as [->|Hin]; [unfold contains in Hc; congruence|]. by apply (IH l size).
Qed.

Lemma bindings_from agents d l size b :
  bindings agents d = inl (l, size) -> b ∈ l ->
  exists ag inners i, ag ∈ agents /\ contains (agRange ag) (ehNumber (edHeader d)) /\ binding_list ag d = inl inners /\ i ∈ inners /\ b = bind_inner d ag i.
Proof.
  revert l size. induction agents as [|a agents IH]; intros l size E Hb; cbn [bindings_of] in E; [injection E as <- <-; by apply elem_of_nil in Hb|].
  destruct (BR_Contains (agRange a) (ehNumber (edHeader d))) eqn:Ea; cbn [negb] in E.
  - destruct (binding_list a d) as [inners|?] eqn:El; cbn [ebind] in E; [|done]. destruct (bindings agents d) as [[l' s']|?] eqn:Er; cbn [ebind] in E; [|done]. injection E as <- <-.
    apply elem_of_app in Hb as [Hb|Hb].
    + apply list_elem_of_fmap in Hb as (i & -> & Hi). exists a, inners, i. split_and!; [by left|done..].
    + destruct (IH l' s' eq_refl Hb) as (ag & inners' & i & ? & ?). exists ag, inners', i. split; [by right|done].
  - destruct (IH l size E Hb) as (ag & inners' & i & ? & ?). exists ag, inners', i. split; [by right|done].
Qed.
End Bindings.

(** ** What an agent asks for *)

Lemma getDataRequirement_log agents ag fs :
  ag ∈ agents -> agKind ag = AgentLog fs -> mkLogReq (agRange ag) (Reduce LogFilter_Merge (mkLogFilter [] [] false) fs) ∈ drLog (getDataRequirement agents).
Proof.
  intros Hin Hk. unfold getDataRequirement. induction agents as [|a agents IH] using rev_ind; [by apply elem_of_nil in Hin|]. rewrite foldl_app. cbn [foldl].
  set (dr := foldl _ _ agents) in *. apply elem_of_app in Hin as [Hin|Hin].
  - specialize (IH Hin). unfold add_requirement. destruct (agKind a); cbn; try done. apply elem_of_app. by left.
  - apply list_elem_of_singleton in Hin as ->. unfold add_requirement. rewrite Hk. cbn. apply elem_of_app. right. by left.
Qed.

Lemma Reduce_wider fs f : f ∈ fs -> wider_filter f (Reduce LogFilter_Merge (mkLogFilter [] [] false) fs).
Proof.
  destruct fs as [|f0 fs]; [by intros ?%elem_of_nil|]. cbn. assert (Hgen : forall l acc, wider_filter acc (foldl LogFilter_Merge acc l)).
  { induction l as [|g l IH]; intros acc; cbn; [apply wider_filter_refl|]. eapply wider_filter_trans; [apply (LogFilter_Merge_wider acc g)|apply IH]. }
  intros [->|Hf]%elem_of_cons; [apply Hgen|]. revert f0. induction fs as [|g fs IH]; intros f0; [by apply elem_of_nil in Hf|]. cbn.
  apply elem_of_cons in Hf as [->|Hf]; [|by apply IH]. eapply wider_filter_trans; [apply (LogFilter_Merge_wider f0 g)|apply Hgen].
Qed.

(** ** What reaches an agent *)

Section Reaches.
Context `{Client} (HexToAddress HexToHash : string -> string).
Context (chain_logs : Z -> list Log) (ident : Z -> BlockLink) (maxAddressLen maxTopicLen : Z).

(** The log matches the filter as the node understands it: a topic asked for has to be
    there. *)
Definition strictly (f : LogFilter) (l : Log) : Prop := topics_match (lfTopics f) (lTopics l) = true /\ BuildChecker f l = inl true.

Lemma topics_match_args asked ts :
  topics_match asked ts = true -> (forall t, t ∈ ts -> HexToHash t = t) -> topics_match (map (map HexToHash) (map (bounded maxTopicLen) asked)) ts = true.
Proof.
  revert ts. induction asked as [|s asked IH]; intros ts; [done|]. cbn [map topics_match]. intros [H1 H2]%andb_true_iff Ht. apply andb_true_iff. split.
  - unfold bounded. destruct (maxTopicLen <? Z.of_nat (length s)); [reflexivity|]. destruct s as [|x s]; [reflexivity|].
    rewrite (bool_decide_false (x :: s = [])) in H1 by done. cbn [orb] in H1. destruct ts as [|t ts]; [done|]. apply bool_decide_eq_true in H1. apply orb_true_iff. right.
    apply bool_decide_eq_true. rewrite <- (Ht t) by (by left). by apply (list_elem_of_fmap_2 HexToHash).
  - apply IH; [done|]. intros t Hin. apply Ht. destruct ts; [done|by right].
Qed.

Lemma Checker_wider f req n l :
  wider_filter f (lrFilter req) -> strictly f l -> true_log HexToAddress HexToHash ident n l -> Checker (req_args HexToAddress HexToHash maxAddressLen maxTopicLen req) l = true.
Proof.
  intros Hw [Hm Hb] [_ _ _ Ha Ht]. unfold Checker, req_args, args_of. cbn [Addresses ArgTopics]. apply andb_true_iff. split.
  - unfold bounded. destruct (maxAddressLen <? _); [reflexivity|]. destruct (wf_address _ _ Hw) as [->|[Hne Hsub]]; [reflexivity|].
    apply orb_true_iff. right. apply bool_decide_eq_true. unfold BuildChecker in Hb. destruct (topics_pass _ _); [|done]. cbn in Hb. destruct (address_pass _ _) eqn:Ep; [|done].
    unfold address_pass in Ep. rewrite (bool_decide_false (lfAddress f = [])) in Ep by done. cbn in Ep. apply bool_decide_eq_true in Ep.
    rewrite <- Ha. apply (list_elem_of_fmap_2 HexToAddress). by apply Hsub.
  - apply topics_match_args; [|done]. by apply (topics_match_wider _ (lfTopics f)); [apply wf_topics|].
Qed.

(** What the filters of an agent leave of the logs taken for it. *)
Lemma agent_logs req fs n L :
  (forall l, l ∈ chain_logs n -> true_log HexToAddress HexToHash ident n l) -> (forall f, f ∈ fs -> wider_filter f (lrFilter req)) ->
  FilterLogs (filter (taken HexToAddress HexToHash maxAddressLen maxTopicLen req) (chain_logs n)) fs = inl L ->
  L `sublist_of` chain_logs n /\
  (forall l, l ∈ chain_logs n -> (exists f, f ∈ fs /\ strictly f l) -> l ∈ L) /\
  (forall l, l ∈ L -> exists f, f ∈ fs /\ BuildChecker f l = inl true).
Proof.
  intros Htrue Hw E. unfold FilterLogs in E. apply FilterArrWithErr_spec in E as [-> Hall]. split_and!.
  - etrans; [apply sublist_filter|apply sublist_filter].
  - intros l Hl (f & Hf & Hs). apply list_elem_of_filter. assert (Ht : taken HexToAddress HexToHash maxAddressLen maxTopicLen req l).
    { split; [by apply (Checker_wider f req n); [apply Hw|..|apply Htrue]|]. apply (BuildChecker_wider f); [by apply Hw|apply Hs]. }
    assert (Hin : l ∈ filter (taken HexToAddress HexToHash maxAddressLen maxTopicLen req) (chain_logs n)) by (by apply list_elem_of_filter). split; [|done].
    destruct (Hall l Hin) as [b Eb]. unfold ok_true. rewrite Eb. f_equal. destruct Hs as [_ Hs]. clear -Eb Hf Hs. induction fs as [|g fs IH]; [by apply elem_of_nil in Hf|].
    cbn in Eb. apply elem_of_cons in Hf as [->|Hf]; [rewrite Hs in Eb; cbn in Eb; by injection Eb|]. destruct (BuildChecker g l) as [[]|]; cbn in Eb; [by injection Eb|by apply IH|done].
  - intros l [Hl _]%list_elem_of_filter. by apply any_checker_true.
Qed.
End Reaches.
