(* ===== verification/Samples.v ===== *)
(** * Concrete instances

    A codec and a world that satisfy the interfaces of the checkpoint controller, and
    small checkpoints, templates and blocks. They show that the hypotheses of the
    theorems can hold together. *)
From Stdlib Require Import ZArith Lia Ascii.
From stdpp Require Import base numbers option strings countable gmap list.
From S2P Require Import Prelude Errors BlockRange Checkpoint CheckpointCtrl CheckpointSave CheckpointStore Progress.

(** ** A codec: values as binary numerals *)

Fixpoint pos_str (p : positive) : string :=
  match p with
  | xH => "H"
  | xO q => String "O" (pos_str q)
  | xI q => String "I" (pos_str q)
  end.

Fixpoint str_pos (s : string) : option positive :=
  match s with
  | EmptyString => None
  | String c t =>
      if Ascii.eqb c "H" then Some xH
      else if Ascii.eqb c "O" then xO <$> str_pos t
      else xI <$> str_pos t
  end.

Lemma str_pos_str p : str_pos (pos_str p) = Some p.
Proof. induction p as [p IH|p IH|]; simpl; by rewrite ?IH. Qed.

Lemma pos_str_nonempty p : pos_str p <> EmptyString.
Proof. by destruct p. Qed.

#[global] Instance BlockRange_countable : Countable BlockRange :=
  inj_countable' (fun r => (StartBlock r, EndBlock r)) (fun p => mkBlockRange p.1 p.2) ltac:(by intros []).

(** Records as lists of numerals, one for each field. *)
#[global] Instance TemplateInstance_countable : Countable TemplateInstance.
Proof.
  refine (inj_countable
    (fun t => [encode (TemplateID t); encode (TemplateName t); encode (Address t); encode (Labels t);
               encode (Removed t); encode (tplRange t)])
    (fun l => match l with
              | [a; b; c; d; e; f] =>
                  a ← decode a; b ← decode b; c ← decode c; d ← decode d; e ← decode e; f ← decode f;
                  Some (mkTemplateInstance a b c d e f)
              | _ => None
              end) _).
  intros []. cbn -[encode decode]. repeat (rewrite decode_encode; cbn -[encode decode]). done.
Defined.

#[global] Instance Checkpoint_eq_dec : EqDecision Checkpoint.
Proof. solve_decision. Defined.

#[global] Instance Checkpoint_countable : Countable Checkpoint.
Proof.
  refine (inj_countable
    (fun k => [encode (BlockNumber k); encode (BlockHash k); encode (BlockParentHash k); encode (BlockTime k);
               encode (TotalBindings k); encode (LatestBlockNumber k); encode (LatestBlockHash k);
               encode (LatestBlockParentHash k); encode (LatestBlockTime k); encode (FullBlockRange k);
               encode (CheckpointData k)])
    (fun l => match l with
              | [a; b; c; d; e; f; g; h; i; j; k] =>
                  a ← decode a; b ← decode b; c ← decode c; d ← decode d; e ← decode e; f ← decode f;
                  g ← decode g; h ← decode h; i ← decode i; j ← decode j; k ← decode k;
                  Some (mkCheckpoint a b c d e f g h i j k)
              | _ => None
              end) _).
  intros []. cbn -[encode decode]. repeat (rewrite decode_encode; cbn -[encode decode]). done.
Defined.

Definition dump_any {A} `{Countable A} (x : A) : option string := Some (pos_str (encode x)).
Definition load_any {A} `{Countable A} (s : string) : option A := str_pos s ≫= decode.

Lemma load_dump_any {A} `{Countable A} (x : A) b : dump_any x = Some b -> load_any b = Some x.
Proof. intros [= <-]. unfold load_any. rewrite str_pos_str. simpl. apply decode_encode. Qed.

#[refine, global] Instance sample_codec : Codec := {
  Dump_checkpoints := dump_any;
  Load_checkpoints := load_any;
  Dump_templates := dump_any;
  Load_templates := load_any;
  Marshal_stat := dump_any
}.
Proof.
  - intros l b. apply load_dump_any.
  - intros t b. apply load_dump_any.
  - intros l b [= <-]. apply pos_str_nonempty.
  - intros t b [= <-]. apply pos_str_nonempty.
Defined.

(** ** Blocks, checkpoints and templates *)

Definition header (n : Z) : BlockHeader := mkBlockHeader n "p" "h" (n * time_Second).

Definition sample_bar : ProgressBar := mkProgressBar (header 1000) (mkBlockRange 1 None).

Definition summary (n : Z) : BlockDataSummary := mkBlockDataSummary (header n) 2 ∅.

Definition ck (n : Z) : Checkpoint := new_checkpoint (summary n) sample_bar.

Definition tpl (removed : bool) (a : Z) (b : option Z) : TemplateInstance :=
  mkTemplateInstance 1 "T" "0xa" EmptyString removed (mkBlockRange a b).

(** ** A world whose store holds the checkpoints [cks] *)

Definition empty_state : ChainState :=
  mkChainState (-1) 0 EmptyString 0 0 0 EmptyString EmptyString UNKNOWN None EmptyString.

Definition blank_world (updates : list bool) : World :=
  mkWorld empty_state None updates (fun _ => 10000 * time_Minute) 0 [].

(** The world after the store has saved [cks]; [updates] are the answers to come. *)
Definition world_with (cks : list Checkpoint) (updates : list bool) : World :=
  (checkpointStore_Save cks ∅ ∅ (blank_world (false :: updates))).2.

Definition sample_ctrl (cks : list Checkpoint) : Ctrl :=
  NewCheckpointController 0 time_Second 1000 cks (Some ∅).

Lemma world_with_stored cks updates : (length cks <= 2)%nat -> stored (world_with cks updates) = Some (cks, ∅).
Proof.
  intros Hl. assert (Hs : exists w', checkpointStore_Save cks ∅ ∅ (blank_world (false :: updates)) = (SaveOk, w')).
  { unfold checkpointStore_Save, SetCheckpoints. rewrite bool_decide_eq_false_2 by lia. simpl.
    destruct (last cks); eexists; reflexivity. }
  destruct Hs as [w' Hs]. unfold world_with. rewrite Hs. by apply checkpointStore_Save_loads in Hs as [Hs _].
Qed.
