(* ===== verification/RangeProps.v ===== *)
(** * Properties of the range library and of sparsifying

    The results on [common/range], on the copy of it in [driver/controller/range.go] and
    on [common/sparsify], each with a concrete instance of its hypotheses. *)
From Stdlib Require Import ZArith Lia.
From stdpp Require Import base numbers option strings sorting gmap list.
From S2P Require Import Prelude RangeBase RangeSet RangeSetOps RangeCut RangeText BlockRange BlockSet Sparsify.

(** [1..10] without [4..5]. *)
Definition sample_set : RangeSet := mkRangeSet (mkRange 1 (Some 10)) [(4, 5)].

(** The hypotheses on small sets and ranges are decided by arithmetic. *)
Ltac wf_solve :=
  repeat match goal with
  | |- wf_set _ => split
  | |- wf_range _ => split
  | |- usable _ => split
  | |- Forall _ [] => constructor
  | |- Forall _ (_ :: _) => constructor
  | |- u64 _ => unfold u64, two64; simpl; lia
  end; simpl; unfold u64, two64, maxU64; first [lia | congruence | done | idtac].

(** [RangeSet.Remove] computes the set difference and keeps the set well formed. *)
Theorem range_set_remove rs a :
  wf_set rs -> wf_range a -> (REnd (rng rs) = None -> REnd a <> Some maxU64) ->
  wf_set (RangeSet_Remove rs a) /\
  forall n, in_set (RangeSet_Remove rs a) n <-> in_set rs n /\ ~ in_range a n.
Proof. apply RangeSet_Remove_correct. Qed.

Lemma range_set_remove_witness :
  wf_set (RangeSet_Remove sample_set (mkRange 3 (Some 7))) /\
  RangeSet_Remove sample_set (mkRange 3 (Some 7)) = mkRangeSet (mkRange 1 (Some 10)) [(3, 7)].
Proof. split; [refine (proj1 (range_set_remove sample_set (mkRange 3 (Some 7)) _ _ _)); wf_solve|reflexivity]. Defined.

(** [RangeSet.Union] computes the set union and keeps the set well formed. *)
Theorem range_set_union rs a :
  wf_set rs -> wf_range a ->
  wf_set (RangeSet_Union rs a) /\
  forall n, in_set (RangeSet_Union rs a) n <-> in_set rs n \/ in_range a n.
Proof. apply RangeSet_Union_correct. Qed.

Lemma range_set_union_witness :
  wf_set (RangeSet_Union sample_set (mkRange 5 (Some 20))) /\
  RangeSet_Union sample_set (mkRange 5 (Some 20)) = mkRangeSet (mkRange 1 (Some 20)) [(4, 4)].
Proof. split; [refine (proj1 (range_set_union sample_set (mkRange 5 (Some 20)) _ _)); wf_solve|reflexivity]. Defined.

(** [RangeSet.Intersection] computes the set intersection and keeps the set well
    formed. *)
Theorem range_set_intersection rs a :
  wf_set rs -> wf_range a ->
  wf_set (RangeSet_Intersection rs a) /\
  forall n, in_set (RangeSet_Intersection rs a) n <-> in_set rs n /\ in_range a n.
Proof. apply RangeSet_Intersection_correct. Qed.

Lemma range_set_intersection_witness :
  wf_set (RangeSet_Intersection sample_set (mkRange 4 None)) /\
  RangeSet_Intersection sample_set (mkRange 4 None) = mkRangeSet (mkRange 6 (Some 10)) [].
Proof. split; [refine (proj1 (range_set_intersection sample_set (mkRange 4 None) _ _)); wf_solve|reflexivity]. Defined.

(** [NewRangeSet] of ranges in any order, overlapping or not, is a well-formed set
    with exactly their numbers; empty ranges have to be [EmptyRange] and no range may end
    at the largest [uint64]. *)
Theorem new_range_set l :
  Forall wf_range l -> Forall canonical l -> no_max l ->
  wf_set (NewRangeSet l) /\ forall n, in_set (NewRangeSet l) n <-> in_ranges l n.
Proof. apply NewRangeSet_correct. Qed.

Lemma new_range_set_witness :
  wf_set (NewRangeSet [mkRange 8 (Some 9); mkRange 1 (Some 3); mkRange 2 (Some 4)]) /\
  NewRangeSet [mkRange 8 (Some 9); mkRange 1 (Some 3); mkRange 2 (Some 4)]
  = mkRangeSet (mkRange 1 (Some 9)) [(5, 7)].
Proof.
  split; [|reflexivity]. refine (proj1 (new_range_set [mkRange 8 (Some 9); mkRange 1 (Some 3); mkRange 2 (Some 4)] _ _ _)).
  - wf_solve.
  - repeat constructor.
  - unfold no_max. wf_solve.
Defined.

(** A set can be taken apart into its ranges and put together again: [GetRanges]
    lists the same numbers as non-adjacent ranges in order, and [NewRangeSet] of them is
    the set. *)
Theorem get_ranges_round_trip rs :
  wf_set rs -> IsEmpty (rng rs) = false ->
  chain (-1) (GetRanges rs) /\ (forall n, in_ranges (GetRanges rs) n <-> in_set rs n) /\
  of_ranges (GetRanges rs) = rs.
Proof.
  intros Hw He. destruct (GetRanges_chain rs Hw) as [Hc Hm]. split_and!; [done|done|].
  by apply of_ranges_GetRanges.
Qed.

Lemma get_ranges_round_trip_witness :
  GetRanges sample_set = [mkRange 1 (Some 3); mkRange 6 (Some 10)] /\
  of_ranges (GetRanges sample_set) = sample_set.
Proof. split; [reflexivity|]. refine (proj2 (proj2 (get_ranges_round_trip sample_set _ _))); wf_solve. Defined.

(** The text format of ranges and range sets: what is printed is read back as the same
    range or set (an empty one as the empty one), and whatever else is read is a range of
    [uint64] numbers or refused. *)
Theorem range_text_round_trip r rs d :
  wf_range r -> wf_set rs ->
  RangeParser_Unmarshal (RangeParser_Marshal r) = Some (if IsEmpty r then EmptyRange else r) /\
  SetParser_Unmarshal (SetParser_Marshal rs) = Some (if IsEmpty (rng rs) then EmptyRangeSet else rs) /\
  (forall r', RangeParser_Unmarshal d = Some r' -> wf_range r').
Proof.
  intros Hr Hs. split_and!; [by apply Unmarshal_Marshal_range|by apply Unmarshal_Marshal_set|by intros r'; apply Unmarshal_wf].
Qed.

Lemma range_text_round_trip_witness :
  SetParser_Marshal sample_set = lit "1,3|6,10" /\ SetParser_Unmarshal (lit "1,3|6,10") = Some sample_set.
Proof.
  split; [reflexivity|].
  destruct (range_text_round_trip (mkRange 7 None) sample_set (lit "x")) as (_ & H & _); [wf_solve|wf_solve|exact H].
Defined.

(** [RangeSet.Equal] decides whether two well-formed sets have the same numbers: the
    representation is canonical. *)
Theorem range_set_equal rs a :
  wf_set rs -> wf_set a -> RangeSet_Equal rs a = true <-> forall n, in_set rs n <-> in_set a n.
Proof. apply RangeSet_Equal_correct. Qed.

Lemma range_set_equal_witness :
  RangeSet_Equal sample_set sample_set = true <-> forall n, in_set sample_set n <-> in_set sample_set n.
Proof. apply (range_set_equal sample_set sample_set); wf_solve. Defined.

(** The operations on two sets, [IntersectionSet], [UnionSet] and [RemoveSet], compute
    intersection, union and difference and keep the sets well formed. *)
Theorem set_algebra rs a :
  wf_set rs -> wf_set a -> REnd (rng a) <> Some maxU64 ->
  (wf_set (IntersectionSet rs a) /\ forall n, in_set (IntersectionSet rs a) n <-> in_set rs n /\ in_set a n) /\
  (wf_set (UnionSet rs a) /\ forall n, in_set (UnionSet rs a) n <-> in_set rs n \/ in_set a n) /\
  (wf_set (RemoveSet rs a) /\ forall n, in_set (RemoveSet rs a) n <-> in_set rs n /\ ~ in_set a n).
Proof.
  intros. split_and!; try (by apply IntersectionSet_correct); try (by apply UnionSet_correct);
    by apply RemoveSet_correct.
Qed.

Lemma set_algebra_witness :
  wf_set (RemoveSet sample_set (mkRangeSet (mkRange 2 (Some 8)) [(3, 6)])) /\
  RemoveSet sample_set (mkRangeSet (mkRange 2 (Some 8)) [(3, 6)])
  = mkRangeSet (mkRange 1 (Some 10)) [(2, 2); (4, 5); (7, 8)].
Proof.
  split; [|reflexivity].
  refine (proj1 (proj2 (proj2 (set_algebra sample_set (mkRangeSet (mkRange 2 (Some 8)) [(3, 6)]) _ _ _)))); wf_solve.
Defined.

(** [FindContains] finds the range of the set that includes a given range exactly
    when the set includes it. *)
Theorem find_contains rs r :
  wf_set rs -> IsEmpty r = false ->
  (FindContains rs r).2 = RangeSet_Include rs r /\
  ((FindContains rs r).2 = true ->
   (FindContains rs r).1 ∈ GetRanges rs /\ Range_Include (FindContains rs r).1 r = true).
Proof. apply FindContains_correct. Qed.

Lemma find_contains_witness :
  (FindContains sample_set (mkRange 7 (Some 8))).2 = RangeSet_Include sample_set (mkRange 7 (Some 8)) /\
  FindContains sample_set (mkRange 7 (Some 8)) = (mkRange 6 (Some 10), true).
Proof. split; [refine (proj1 (find_contains sample_set (mkRange 7 (Some 8)) _ _)); wf_solve|reflexivity]. Defined.

(** [Range.CutByFixedSize] cuts a finite range at the multiples of the size (from the
    base) into pieces that tile it, each within one slot; asked for [num] pieces it returns
    the first [num] of them. *)
Theorem cut_by_fixed_size r e base size :
  REnd r = Some e -> wf_range r -> 0 < size -> 0 <= base -> base <= Start r -> Start r <= e ->
  e + size < two64 ->
  exists l, Range_CutByFixedSize r base size 0 = Ok l /\
    tiles (Start r) e l /\ Forall (in_slot base size) l /\
    forall num, 0 < num -> Range_CutByFixedSize r base size num = Ok (take (Z.to_nat num) l).
Proof.
  intros H1 H2 H3 H4 H5 H6 H7.
  destruct (Range_CutByFixedSize_cuts r e base size H1 H2 H3 H4 H5 H6 H7) as (l & Hc & Hl & Hn).
  exists l. destruct (cuts_tiles base size (Start r) e l H3 ltac:(lia) Hc). auto.
Qed.

Lemma cut_by_fixed_size_witness :
  (exists l, Range_CutByFixedSize (mkRange 5 (Some 17)) 0 10 0 = Ok l /\ tiles 5 17 l) /\
  Range_CutByFixedSize (mkRange 5 (Some 17)) 0 10 0 = Ok [mkRange 5 (Some 9); mkRange 10 (Some 17)].
Proof.
  split; [|reflexivity].
  destruct (cut_by_fixed_size (mkRange 5 (Some 17)) 17 0 10) as (l & Hl & Ht & _); wf_solve. eauto.
Defined.

(** The producer of the cutter sends exactly the pieces [CutAll] returns, one by one,
    and ends. *)
Theorem producer_sends_all c e fuel s :
  0 < CutSize c -> e + CutSize c < two64 -> u64 s -> s <= e -> (Z.to_nat (e + 1 - s) < fuel)%nat ->
  BuildProducer fuel c (mkRange s (Some e)) = Cutter_CutAll c (mkRange s (Some e)).
Proof. intros. by apply BuildProducer_CutAll. Qed.

Lemma producer_sends_all_witness :
  BuildProducer 20 (mkRangeCutter 10 true) (mkRange 5 (Some 17))
    = Cutter_CutAll (mkRangeCutter 10 true) (mkRange 5 (Some 17)) /\
  Cutter_CutAll (mkRangeCutter 10 true) (mkRange 5 (Some 17)) = Ok [mkRange 5 (Some 9); mkRange 10 (Some 17)].
Proof.
  split; [|reflexivity].
  apply (producer_sends_all (mkRangeCutter 10 true) 17 20 5); unfold u64, two64; simpl; lia.
Defined.

(** [CutRangeSet] cuts overlapping ranges at their end points: the pieces are
    ascending and disjoint, none is cut by a range, and together they have every number of
    the ranges from [start] on. *)
Theorem cut_range_set start rs :
  u64 start -> Forall wf_range rs -> no_max rs ->
  let out := CutRangeSet start rs in
  StronglySorted (fun p q => exists e, REnd p = Some e /\ e < Start q) out /\
  (forall p, p ∈ out -> start <= Start p /\ IsEmpty p = false) /\
  (forall p r n m, p ∈ out -> r ∈ rs -> in_range p n -> in_range r n ->
     in_range p m -> in_range r m) /\
  (forall r n, r ∈ rs -> start <= n -> in_range r n -> in_ranges out n).
Proof. apply CutRangeSet_spec. Qed.

Lemma cut_range_set_witness :
  StronglySorted (fun p q => exists e, REnd p = Some e /\ e < Start q)
    (CutRangeSet 2 [mkRange 1 (Some 9); mkRange 5 None]) /\
  CutRangeSet 2 [mkRange 1 (Some 9); mkRange 5 None]
  = [mkRange 2 (Some 4); mkRange 5 (Some 9); mkRange 10 None].
Proof.
  split; [|vm_compute; reflexivity].
  refine (proj1 (cut_range_set 2 [mkRange 1 (Some 9); mkRange 5 None] _ _ _)); unfold no_max; wf_solve.
Defined.

(** The controller's [BlockRangeSet] computes what [RangeSet] of [common/range]
    computes: every operation commutes with the translation. *)
Theorem block_range_set_agrees rs a b n start l :
  to_set (BRS_Remove rs a) = RangeSet_Remove (to_set rs) (to_range a) /\
  to_set (BRS_Union rs a) = RangeSet_Union (to_set rs) (to_range a) /\
  to_set (BRS_Intersection rs a) = RangeSet_Intersection (to_set rs) (to_range a) /\
  BRS_Include rs a = RangeSet_Include (to_set rs) (to_range a) /\
  BRS_Contains rs n = RangeSet_Contains (to_set rs) n /\
  BRS_Equal rs b = RangeSet_Equal (to_set rs) (to_set b) /\
  to_range (BRS_Last rs) = Last (to_set rs) /\
  map to_range (BR_CutRangeSet start l) = CutRangeSet start (map to_range l).
Proof.
  split_and!.
  - apply to_set_BRS_Remove.
  - apply to_set_BRS_Union.
  - apply to_set_BRS_Intersection.
  - apply BRS_Include_eq.
  - apply BRS_Contains_eq.
  - apply BRS_Equal_eq.
  - apply to_range_BRS_Last.
  - apply BR_CutRangeSet_eq.
Qed.

(** C38: sparsifying leaves a number of items logarithmic in the spread of their numbers,
    among them the first and the last. *)
Theorem sparsify_logarithmic {T} (num : T -> Z) (l : list T) :
  in_order num l -> (2 < length l)%nat -> span num l (length l - 1) < 2 ^ 63 ->
  exists l', Sparsify num l = Ok l' /\ l' `sublist_of` l /\ head l' = head l /\ last l' = last l /\
    Z.of_nat (length l') <= Z.log2 (span num l (length l - 1)) + 4.
Proof.
  intros Ho Hl Hs. unfold Sparsify, Sparsify_Remove.
  destruct (RemoveWithMultiplier_ok num l 1 2) as (r & Hr & Hin).
  pose proof (Sparsify_length_bound num l 1 2 r Ho ltac:(lia) ltac:(lia) Hl ltac:(unfold two64; lia) Hr).
  rewrite Hr. cbn [obind]. eexists. split; [reflexivity|]. rewrite RemoveByIndex_keep in *. split_and!; [..|done].
  - apply keep_sublist.
  - apply keep_head. intros Hj. specialize (Hin _ Hj). lia.
  - destruct (last l) as [x|] eqn:El; [|by apply last_None in El as ->].
    apply keep_last; [done|]. intros Hj. specialize (Hin _ Hj). lia.
Qed.

Definition eleven : list Z := [0; 1; 2; 3; 4; 5; 6; 7; 8; 9; 10].

Lemma eleven_in_order : in_order (fun x => x) eleven.
Proof.
  assert (H : forall i, (i < 11)%nat -> num_at (fun x => x) eleven i = Z.of_nat i).
  { intros i Hi. do 11 (destruct i as [|i]; [reflexivity|]). lia. }
  split; intros i; [intros Hi|intros j Hij Hj]; simpl length in *; rewrite !H by lia; [unfold u64, two64|]; lia.
Qed.

Lemma sparsify_logarithmic_witness :
  (exists l', Sparsify (fun x => x) eleven = Ok l' /\ Z.of_nat (length l') <= Z.log2 10 + 4) /\
  Sparsify (fun x => x) eleven = Ok [0; 3; 7; 9; 10].
Proof.
  split; [|vm_compute; reflexivity].
  destruct (sparsify_logarithmic (fun x => x) eleven) as (l' & Hl & _ & _ & _ & Hb).
  - apply eleven_in_order.
  - simpl. lia.
  - vm_compute. reflexivity.
  - exists l'. split; [exact Hl|exact Hb].
Defined.

(** The in-place loop of [RemoveByIndex] returns exactly the items whose index is not
    in the set, in order; [RemoveSubSeq] cuts out the subsequence. *)
Theorem compaction_in_place {T} (arr : list T) (remove : gset nat) (from num : nat) :
  (from + num <= length arr)%nat ->
  RemoveByIndex arr remove = keep remove 0 arr /\
  RemoveSubSeq arr from (Z.of_nat num) = Ok (take from arr ++ drop (from + num) arr).
Proof.
  intros Hl. split; [apply RemoveByIndex_keep|].
  rewrite RemoveSubSeq_drop; rewrite ?Nat2Z.id; [done|lia|done].
Qed.

Lemma compaction_in_place_witness :
  RemoveByIndex eleven {[1%nat; 3%nat]} = keep {[1%nat; 3%nat]} 0 eleven /\
  RemoveByIndex eleven {[1%nat; 3%nat]} = [0; 2; 4; 5; 6; 7; 8; 9; 10].
Proof.
  split; [|vm_compute; reflexivity].
  refine (proj1 (compaction_in_place eleven {[1%nat; 3%nat]} 2 3 _)). simpl. lia.
Defined.

(** A range that ends at the largest [uint64] makes [GetDistance] wrap, and
    [NewRangeSet] then builds a hole over numbers the range has; an empty range that is not
    [EmptyRange] is extended to the next range. *)
Theorem new_range_set_limits :
  (NewRangeSet [mkRange 0 (Some maxU64); mkRange 5 None] = mkRangeSet (mkRange 0 None) [(0, 4)] /\
   ~ in_set (NewRangeSet [mkRange 0 (Some maxU64); mkRange 5 None]) 3) /\
  NewRangeSet [mkRange 5 (Some 3); mkRange 7 (Some 9)] = mkRangeSet (mkRange 5 (Some 9)) [].
Proof.
  split_and!; [apply NewRangeSet_max_wraps| |apply NewRangeSet_empty_front].
  rewrite NewRangeSet_max_wraps. intros [_ Hh]. simpl in Hh. apply Forall_cons in Hh as [Hh _].
  unfold outside in Hh. simpl in Hh. lia.
Qed.
