(* ===== verification/ControllerProps.v ===== *)
(** * Properties of the checkpoint controller and its store *)
From Stdlib Require Import ZArith Lia.
From stdpp Require Import base numbers option strings sorting gmap list.
From S2P Require Import Prelude RangeBase RangeSet RangeSetOps RangeCut BlockRange BlockSet Sparsify Errors Checkpoint CheckpointCtrl CheckpointSave CheckpointOps CheckpointTemplates CheckpointStore Samples.

(** ** Facts about the sample states *)

Lemma by_block_two : by_block [ck 5; ck 8].
Proof. unfold by_block. simpl. repeat constructor. Qed.

Lemma block_ok_ck n : 0 <= n < 2 ^ 62 -> block_ok (ck n).
Proof. done. Qed.

(** A controller that loaded the checkpoints of blocks 5 and 8 from its store. *)
Definition loaded : CState World := mkCState (sample_ctrl [ck 5; ck 8]) (world_with [ck 5; ck 8] []).

Lemma loaded_inv : Inv loaded.
Proof.
  apply NewCheckpointController_inv; [apply by_block_two|..].
  - repeat constructor; simpl; lia.
  - by apply world_with_stored.
Qed.

(** The result and the state after a call that returns. *)
Definition after {A} (o : Outcome (A * CState World)) : CState World :=
  match o with Ok (_, s) => s | _ => loaded end.



Lemma loaded_next : next_block (ctrl loaded) (BlockNumber (new_checkpoint (summary 9) sample_bar)).
Proof. split; simpl; [lia|]. repeat constructor. Qed.

(** ** Saving *)



(** C4: along every sequence of calls of the controller (getting ready, making
    checkpoints, saving, rolling back, declaring templates), as long as the store does not
    fail, the invariant holds and the store holds exactly the checkpoints the controller
    counts as saved. *)
Theorem controller_invariant {W} `{Hs : Services W} `{!StoreLaws W} (s s' : CState W) :
  rtc step s s' -> Inv s -> Inv s'.
Proof. apply steps_inv. Qed.

Lemma controller_invariant_witness :
  exists s1 s2, step loaded s1 /\ step s1 s2 /\ Inv s2 /\ length (checkpoints (ctrl s2)) = 3%nat /\
    savedCheckpoints (ctrl s2) = 3%nat.
Proof.
  exists (after (MakeCheckpoint (summary 9) sample_bar loaded)).
  set (s1 := after (MakeCheckpoint (summary 9) sample_bar loaded)).
  exists (after (Save true s1)).
  assert (H1 : step loaded s1).
  { apply (step_make loaded (summary 9) sample_bar false None); [apply loaded_next|vm_compute; reflexivity|done]. }
  assert (H2 : step s1 (after (Save true s1))).
  { apply (step_save s1 true None); [vm_compute; reflexivity|done]. }
  split_and!; [done|done| |vm_compute; reflexivity|vm_compute; reflexivity].
  apply (controller_invariant loaded); [|apply loaded_inv]. eapply rtc_l; [exact H1|]. by apply rtc_once.
Defined.

(** C16: when [KeepSave] ends because every checkpoint has been made, every checkpoint is
    saved and in the store (unless the controller had been stopped meanwhile). *)
Theorem keep_save_saves_all {W} `{Hs : Services W} `{!StoreLaws W} events (s : CState W) :
  Inv s ->
  exists r s', KeepSave events s = Ok (r, s') /\ ctrl_ok (ctrl s') /\
    (r = KeepSaveNil -> stopped (ctrl s') = false ->
     savedCheckpoints (ctrl s') = length (checkpoints (ctrl s')) /\
     match stored (world s') with
     | Some (cks, _) => cks = checkpoints (ctrl s')
     | None => checkpoints (ctrl s') = []
     end).
Proof.
  intros [Hok Hsy]. destruct (KeepSave_spec events s Hok) as (r & s' & E & Hok' & Hall & Hsync).
  exists r, s'. split_and!; [done..|]. intros -> Hst. destruct (Hall eq_refl) as [?|Hn]; [congruence|].
  split; [done|]. specialize (Hsync ltac:(done) Hsy). unfold synced in Hsync. rewrite Hn in Hsync.
  destruct (stored (world s')) as [[cks t]|]; [by rewrite firstn_all in Hsync|].
  by apply length_zero_iff_nil.
Qed.

Lemma keep_save_saves_all_witness :
  exists r s', KeepSave [Tick; AllMade] loaded = Ok (r, s') /\ ctrl_ok (ctrl s').
Proof.
  destruct (keep_save_saves_all [Tick; AllMade] loaded loaded_inv) as (r & s' & E & Hok & _).
  exists r, s'. by split.
Defined.

(** C37: what the checkpoint store saves it loads again, and remembers as the latest; it
    refuses checkpoints as too big only when there are more than two; a failed save leaves
    what can be loaded as it was. *)
Theorem store_round_trip `{Codec} cks t stat w r w' :
  checkpointStore_Save cks t stat w = (r, w') ->
  match r with
  | SaveOk => (checkpointStore_Load w').1 = Some (cks, t) /\ w_latestCheckpoint w' = last cks
  | SaveTooBig => (2 < length cks)%nat /\ (checkpointStore_Load w').1 = (checkpointStore_Load w).1
  | SaveErr _ => (checkpointStore_Load w').1 = (checkpointStore_Load w).1
  end.
Proof.
  intros Hs. destruct r.
  - by apply checkpointStore_Save_loads in Hs.
  - split.
    + destruct (decide (length cks <= 2)%nat) as [Hl|]; [|lia].
      by apply (checkpointStore_Save_small _ t stat w w' Hl) in Hs.
    + eapply (loadable_chainState w w'), checkpointStore_Save_failed; [exact Hs|done].
  - eapply (loadable_chainState w w'), checkpointStore_Save_failed; [exact Hs|done].
Qed.

Lemma store_round_trip_witness :
  (checkpointStore_Load (world_with [ck 5; ck 8] [])).1 = Some ([ck 5; ck 8], ∅).
Proof.
  refine (proj1 (store_round_trip [ck 5; ck 8] ∅ ∅ (blank_world [false]) SaveOk (world_with [ck 5; ck 8] []) _)).
  vm_compute. reflexivity.
Defined.

(** ** Reorganisations and new checkpoints *)



(** For a block after all checkpoints, [MakeCheckpoint] returns and keeps the
    invariant: it ignores the block when stopped; with new templates at the block it
    confirms them, stops, and keeps the checkpoint only if no template starts at the block
    itself; otherwise it appends the checkpoint and saves when a trigger asks for it. *)
Theorem make_checkpoint_outcomes {W} `{Hs : Services W} `{!StoreLaws W} b p (s : CState W) :
  ctrl_ok (ctrl s) -> next_block (ctrl s) (BlockNumber (new_checkpoint b p)) ->
  exists ch e s', MakeCheckpoint b p s = Ok ((ch, e), s') /\ ctrl_ok (ctrl s') /\
    made b p (ctrl s) (world s) ch e (ctrl s') (world s').
Proof. apply MakeCheckpoint_spec. Qed.

Lemma make_checkpoint_outcomes_witness :
  exists ch e s', MakeCheckpoint (summary 9) sample_bar loaded = Ok ((ch, e), s') /\ ctrl_ok (ctrl s').
Proof.
  destruct (make_checkpoint_outcomes (summary 9) sample_bar loaded (inv_ok _ loaded_inv) loaded_next)
    as (ch & e & s' & E & Hok & _). exists ch, e, s'. by split.
Defined.

(** ** Templates *)



(** [NewTemplateInstance] changes nothing but the unsaved templates of its block: it
    appends exactly the accepted instances, and fails with the code of a refused template
    only when one of the requested instances is refused. *)
Theorem new_template_instance_effect {W} `{Hs : Services W} bn ts (s : CState W) :
  stopped (ctrl s) = false ->
  exists e c', NewTemplateInstance bn ts s = Ok (e, mkCState c' (world s)) /\
    only_unsaved bn (ctrl s) c' /\
    match e with
    | None =>
        tpls_at (unsavedTemplates c') bn =
        tpls_at (unsavedTemplates (ctrl s)) bn ++ taken (exists_with_id (ctrl s) bn) bn ts
    | Some err =>
        ecode err = ErrCodeCreateTemplateFailed /\
        exists t, t ∈ ts /\
          judge (exists_with_id (ctrl s) bn (UniqID (adjust_start bn t))) bn (adjust_start bn t) = TplInvalid
    end.
Proof.
  intros Hst. unfold NewTemplateInstance, mbind, SM_bind, cget. cbn [obind]. rewrite Hst.
  apply NewTemplateInstance_loop_spec.
Qed.

Lemma new_template_instance_effect_witness :
  exists e c', NewTemplateInstance 9 [tpl false 5 None] loaded = Ok (e, mkCState c' (world loaded)) /\
    tpls_at (unsavedTemplates (ctrl (after (NewTemplateInstance 9 [tpl false 5 None] loaded)))) 9 = [tpl false 9 None].
Proof.
  destruct (new_template_instance_effect 9 [tpl false 5 None] loaded eq_refl) as (e & c' & E & _).
  exists e, c'. split; [exact E|vm_compute; reflexivity].
Defined.

(** ** Where the code does not do what it says *)

(** When the store fails to save, the controller still counts the checkpoint it could
    not store as saved: [savedCheckpoints] is advanced before the call of the store, and
    the rollback keeps [checkpoints[:savedCheckpoints]]. Here the store, whose update
    fails, holds the checkpoints of blocks 5 and 8, and the controller takes block 9 for
    saved. *)
Theorem failed_save_counts_as_saved :
  let s := mkCState (set_checkpoints [ck 5; ck 8; ck 9] (sample_ctrl [ck 5; ck 8])) (world_with [ck 5; ck 8] [true]) in
  exists err s', save true true s = Ok (Some err, s') /\ ecode err = ErrCodeSaveCheckpointFailed /\
    option_map (fun p => map BlockNumber p.1) (stored (world s')) = Some [5; 8] /\
    map BlockNumber (take (savedCheckpoints (ctrl s')) (checkpoints (ctrl s'))) = [5; 8; 9].
Proof.
  eexists _, _. split_and!; [vm_compute; reflexivity|vm_compute; reflexivity..].
Qed.


(** Instances requested in one call are only checked against the ones that existed
    before the call: two of them are accepted although together they leave a hole. *)
Theorem one_call_can_leave_hole :
  let s' := after (NewTemplateInstance 9 [tpl false 10 (Some 20); tpl false 30 (Some 40)] loaded) in
  tpls_at (unsavedTemplates (ctrl s')) 9 = [tpl false 10 (Some 20); tpl false 30 (Some 40)] /\
  BHoles (enabled (exists_with_id (ctrl s') 9 (UniqID (tpl false 10 None)))) = [(21, 29)].
Proof. split; vm_compute; reflexivity. Qed.
