(* ===== verification/RunProps.v ===== *)
(** * Properties of a run: the goroutines, the retry loop, the block builder *)
From Stdlib Require Import ZArith Lia.
From stdpp Require Import base numbers option strings sorting gmap list.
From S2P Require Import Prelude Errors RangeBase BlockRange Sparsify Checkpoint Progress ProgressSys BlockBuilder CheckpointCtrl CheckpointStore Samples.

(** ** A small run: blocks 1, 2 and 3 with two tasks each *)

Definition sample_panel (b : Z) : BlockPanel := mkBlockPanel b (Some (summary b)) 2 sample_bar.

(** Making a checkpoint counts. *)
Definition counting (d : BlockDataSummary) (p : ProgressBar) (n : nat) : (bool * option ExternalError) * nat :=
  ((false, None), S n).

Definition sample_start : Sys := sys_init 1 0%nat.

(** The producer has announced block 1, a worker has done one of its tasks. *)
Definition sample_middle : Sys :=
  mkSys 2 false (fn_set (fn_set (fun _ => 0%nat) 1 2) 1 1)
    [BlockStart (sample_panel 1); BlockTaskDone 1] (mkMaker ∅ 1 0%nat []) Running.

Lemma sample_steps : rtc (sys_step counting sample_panel 4 10) sample_start sample_middle.
Proof.
  eapply rtc_l; [apply (sys_start counting sample_panel 4 10 sample_start); simpl; lia|].
  apply rtc_once.
  refine (sys_task counting sample_panel 4 10
    (mkSys 2 false (fn_set (fun _ => 0%nat) 1 2) [BlockStart (sample_panel 1)] (mkMaker ∅ 1 0%nat []) Running)
    1 1 eq_refl).
Qed.



(** C7: the checkpoint goroutine never dereferences nil and never blocks on the semaphore:
    in every state a run can get into it takes the next message and returns. *)
Theorem run_never_panics {S} (make : BlockDataSummary -> ProgressBar -> S -> (bool * option ExternalError) * S)
    panel first last cap s (σ : Sys) msg q :
  (forall b, bpBlockNumber (panel b) = b) -> (forall b, 0 <= bpTaskCount (panel b)) ->
  0 <= first -> first <= last -> last < maxU64 ->
  rtc (sys_step make panel last cap) (sys_init first s) σ -> status σ = Running ->
  queue σ = msg :: q ->
  exists st m', on_message make msg (maker σ) = Ok (st, m').
Proof.
  intros Hn Ht Hf Hl Hm Hr Hst Hq.
  assert (Hg : good panel first last σ) by (by eapply sys_reach_good).
  unfold good in Hg. rewrite Hst in Hg. destruct Hg as (base & seen & final & Hi).
  edestruct (inv_consume make panel first last) as (st & m' & E & _); eauto.
Qed.

Lemma run_never_panics_witness :
  exists st m', on_message counting (BlockStart (sample_panel 1)) (maker sample_middle) = Ok (st, m').
Proof.
  refine (run_never_panics counting sample_panel 1 4 10 0%nat sample_middle
            (BlockStart (sample_panel 1)) [BlockTaskDone 1] _ _ _ _ _ _ _ _).
  - done.
  - simpl. lia.
  - lia.
  - lia.
  - unfold maxU64. lia.
  - apply sample_steps.
  - reflexivity.
  - reflexivity.
Defined.

(** C8: at every moment of a run the checkpoints made are those of an initial segment of
    the blocks, in order, and of every block of the segment all tasks are done and
    reported; the tokens held in the semaphore are the blocks announced after it. *)
Theorem run_checkpoints_in_order {S} (make : BlockDataSummary -> ProgressBar -> S -> (bool * option ExternalError) * S)
    panel first last cap s (σ : Sys) :
  (forall b, bpBlockNumber (panel b) = b) -> (forall b, 0 <= bpTaskCount (panel b)) ->
  0 <= first -> first <= last -> last < maxU64 ->
  rtc (sys_step make panel last cap) (sys_init first s) σ -> status σ = Running ->
  exists base, first <= base <= next σ /\ made_log (maker σ) = summaries panel first base /\
    (forall b, first <= b < base -> todo σ b = 0%nat /\ BlockTaskDone b ∉ queue σ) /\
    Z.of_nat (tokens (maker σ)) = next σ - base.
Proof.
  intros Hn Ht Hf Hl Hm Hr Hst.
  assert (Hg : good panel first last σ) by (by eapply sys_reach_good).
  unfold good in Hg. rewrite Hst in Hg. destruct Hg as (base & seen & final & [Ho _ _ _ Hd _ _ _ _ _ Htk Hlog]).
  exists base. split_and!; [lia|lia|done| |done]. intros b Hb. specialize (Hd b Hb).
  unfold remaining in Hd. pose proof (count_done_nonneg b (queue σ)). split; [lia|].
  intros Hin. assert (Hc : 0 < count_done b (queue σ)); [|lia].
  clear -Hin. induction (queue σ) as [|m q IH]; [by apply not_elem_of_nil in Hin|].
  apply elem_of_cons in Hin as [<-|Hin].
  - simpl. rewrite Z.eqb_refl. pose proof (count_done_nonneg b q). lia.
  - specialize (IH Hin). destruct m; simpl; try done. bcase; lia.
Qed.

Lemma run_checkpoints_in_order_witness :
  exists base, 1 <= base <= next sample_middle /\ made_log (maker sample_middle) = summaries sample_panel 1 base /\
    (forall b, 1 <= b < base -> todo sample_middle b = 0%nat /\ BlockTaskDone b ∉ queue sample_middle) /\
    Z.of_nat (tokens (maker sample_middle)) = next sample_middle - base.
Proof.
  refine (run_checkpoints_in_order counting sample_panel 1 4 10 0%nat sample_middle _ _ _ _ _ _ _).
  - done.
  - simpl. lia.
  - lia.
  - lia.
  - unfold maxU64. lia.
  - apply sample_steps.
  - reflexivity.
Defined.



(** A run that keeps failing with the same driver or user run-time error is retried
    ten times and then given up; other errors are not retried. *)
Theorem main_gives_up e n :
  0 < ecode e ->
  (IsDriverError e || IsUserRuntimeError e = true ->
   Main (replicate n (RunExternal e, false, false)) = if bool_decide (11 <= n)%nat then Some (MainError e) else None) /\
  (IsDriverError e || IsUserRuntimeError e = false -> forall env,
   Main ((RunExternal e, false, false) :: env) = Some (MainError e)).
Proof.
  intros Hc. split; [intros Hcl; by apply Main_dup|]. intros Hcl env. unfold Main. simpl. by rewrite Hcl.
Qed.

Lemma main_gives_up_witness :
  Main (replicate 11 (RunExternal (mkExternalError ErrCodeFetchDataFailed "x"), false, false))
  = Some (MainError (mkExternalError ErrCodeFetchDataFailed "x")).
Proof. refine (proj1 (main_gives_up (mkExternalError ErrCodeFetchDataFailed "x") 11 _) _); done. Defined.

(** The error classes: every code is of exactly one of the classes system, driver and
    user; run-time and billing errors are user errors; the codes are pairwise different. *)
Theorem error_code_classes e :
  (IsSystemError e || IsDriverError e || IsUserError e = true)%bool /\
  (IsSystemError e && IsDriverError e = false)%bool /\
  (IsSystemError e && IsUserError e = false)%bool /\
  (IsDriverError e && IsUserError e = false)%bool /\
  (IsUserRuntimeError e = true -> IsUserError e = true /\ IsBillingError e = false) /\
  (IsBillingError e = true -> IsUserError e = true) /\ NoDup all_codes.
Proof. pose proof (error_classes e). split_and!; try tauto. apply all_codes_NoDup. Qed.

(** ** The block builder *)

(** A chain on which block 8 has another hash than the one recorded. *)
Definition sample_chain (n : Z) : BlockHeader + string :=
  inl (mkBlockHeader n "p" (if n <? 8 then "h" else "x") 0).



(** Every call of [Next] returns and keeps the builder's invariant (recorded headers
    in block order, below the current block): it ends the walk outside the full range,
    passes on a fetch error, reports a reorganisation, or moves on by one block, with the
    block's header recorded as the newest. *)
Theorem next_walk getHeader get b :
  builder_ok b -> currentBlockNumber b + 1 < maxU64 -> fetcher_ok get -> answers getHeader (headerList b) ->
  exists r b' calls, Next getHeader get b = Ok (r, b', calls) /\ builder_ok b' /\
    next_outcome getHeader get b r b'.
Proof. apply Next_spec. Qed.

Definition sample_builder : Builder := mkBuilder true (mkBlockRange 1 None) 7 [header 3; header 6].

Definition sample_get (n : Z) : FetchAnswer := FetchOk (Some (mkBlockHeader n "h" "h" 0)) (Some (header 1000)).

Lemma next_walk_witness :
  exists r b' calls, Next sample_chain sample_get sample_builder = Ok (r, b', calls) /\ builder_ok b'.
Proof.
  destruct (next_walk sample_chain sample_get sample_builder) as (r & b' & calls & E & Hok & _).
  - split; simpl; [repeat constructor|repeat (constructor; [simpl; lia|]); constructor|unfold maxU64; lia|lia].
  - simpl. unfold maxU64. lia.
  - intros n d l [= <- <-]. split; [done|by eexists].
  - repeat (constructor; [eexists; split; reflexivity|]). constructor.
  - exists r, b', calls. by split.
Defined.
