(* ===== verification/FetcherProps.v ===== *)
(** * Properties of the fetchers *)
From Stdlib Require Import ZArith Lia.
From stdpp Require Import base numbers option strings gmap list.
From S2P Require Import Prelude RangeBase BlockRange Checkpoint CheckpointCtrl CheckpointStore Samples Fetcher FetcherSpec Transfer FetcherStack.

(** ** A small fetcher: even blocks have data, their own number *)

Definition sample_src (n : Z) : option Z := if Z.even n then Some n else None.
Definition unit_size (d : Z) : Z := 1.

Definition sample_fcfg : FetcherConfig :=
  mkFetcherConfig 2 100 50 0 0 0 3 (fun x => x) (fun x => x) (fun x => x * 2).

Definition sample_f0 : FetcherState Z := NewFetcher sample_fcfg (mkBlockRange 1 None) (header 1000).

(** After the query of blocks 1 and 2. *)
Definition sample_f1 : FetcherState Z :=
  (growth_end unit_size sample_fcfg sample_f0 1 (QueryGot 2 {[2 := 2]} 0)).1.

Lemma sample_f0_inv : fetcher_inv unit_size sample_src sample_f0 None.
Proof. apply NewFetcher_inv; simpl; lia. Qed.

Lemma sample_fsteps : rtc (fstep unit_size sample_fcfg sample_src) (sample_f0, None) (sample_f1, None).
Proof.
  eapply rtc_l; [apply (fstep_begin _ _ _ sample_f0 1 2 (header 1000)); reflexivity|].
  apply rtc_once. eapply (fstep_end _ _ _ sample_f0 1 2 (QueryGot 2 {[2 := 2]} 0)); [reflexivity|].
  split; [lia|]. intros n. destruct (Z.leb_spec 1 n), (Z.leb_spec n 2); simpl;
    try (apply lookup_singleton_ne; lia).
  assert (n = 1 \/ n = 2) as [-> | ->] by lia; reflexivity.
Qed.

(** C6: along every interleaving of the growth goroutine with updates of the latest block,
    moves of the start and breaks, [Get] returns exactly the data of the source for the
    blocks of the range, and waits only for blocks that are not fetched yet; the buffer
    never holds other data, and its size is counted exactly. *)
Theorem fetcher_serves_source {D} (Size : D -> Z) cfg src f0 f inflight n :
  1 <= minQuerySize cfg < 2 ^ 62 -> fetcher_inv Size src f0 None ->
  rtc (fstep Size cfg src) (f0, None) (f, inflight) ->
  match Get f n with
  | PollData d lat => lat = latest f /\ d = if BR_Contains (full f) n then src n else None
  | PollErr e lat => lat = latest f /\ (brokenErr f = Some e \/ fetchingFailed f = Some e)
  | PollWait gen => gen = fetchingDone f /\ fetchingStart f <= n /\ fetchingFailed f = None /\ brokenErr f = None
  end /\ totalSize f = sumSize Size (data f).
Proof.
  intros Hmin Hi Hr. pose proof (fsteps_inv Size cfg src Hmin _ _ Hr Hi) as Hf. simpl in Hf.
  split; [by eapply Get_spec|by destruct Hf].
Qed.

Lemma fetcher_serves_source_witness :
  Get sample_f1 2 = PollData (Some 2) (header 1000) /\ totalSize sample_f1 = sumSize unit_size (data sample_f1).
Proof.
  split; [vm_compute; reflexivity|].
  refine (proj2 (fetcher_serves_source unit_size sample_fcfg sample_src sample_f0 sample_f1 None 2 _ _ _)).
  - simpl. lia.
  - apply sample_f0_inv.
  - apply sample_fsteps.
Defined.

(** The retry loop of a query ends, whatever the answers: after an error the range is
    halved down to the minimal size and then the retries are used up; the range that was
    got, or failed, is a non-empty initial part of the range asked for. *)
Theorem query_loop_ends {D} cfg (ask : nat -> Z -> @QueryAnswer D) start end_ :
  1 <= minQuerySize cfg < 2 ^ 62 -> 0 <= maxRetry cfg < 2 ^ 62 -> 0 <= start <= end_ -> end_ < 2 ^ 62 ->
  exists r, growth_query cfg ask (Z.to_nat (maxRetry cfg + 65)) 0 start end_ (maxRetry cfg) None = Ok r /\
    match r with
    | QueryGot e res used => start <= e <= end_ /\ exists k, ask k e = QueryOk res used
    | QueryFailed e _ => start <= e <= end_
    | QueryAborted => True
    end.
Proof.
  intros Hmin Hr Hs He. apply growth_query_spec; [done|done|done|lia|].
  unfold query_steps. assert (Z.log2 (end_ - start + 1) <= 62).
  { change 62 with (Z.log2 (2 ^ 62)). apply Z.log2_le_mono. lia. }
  bcase; lia.
Qed.

Lemma query_loop_ends_witness :
  exists r, growth_query (D := Z) sample_fcfg (fun _ _ => QueryErr "x") (Z.to_nat 68) 0 1 40 3 None = Ok r /\
    growth_query (D := Z) sample_fcfg (fun _ _ => QueryErr "x") (Z.to_nat 68) 0 1 40 3 None = Ok (QueryFailed 2 "x").
Proof.
  destruct (query_loop_ends (D := Z) sample_fcfg (fun _ _ => QueryErr "x") 1 40) as (r & E & _); [simpl; lia..|].
  exists r. split; [exact E|vm_compute; reflexivity].
Defined.

(** ** A small transfer fetcher: doubling *)

Definition sample_tcfg : TransferConfig := mkTransferConfig 3 100 100 1.
Definition doubled (n : Z) : option Z := (fun x => x * 2) <$> sample_src n.

Definition sample_t0 : TransferState Z := TransferFetcher (mkBlockRange 1 None) (header 1000).
Definition sample_t1 : TransferState Z := set_fetchStart 4 sample_t0.

(** Blocks 1, 2 and 3 are started; 2 finishes before 1. *)
Definition sample_t3 : TransferState Z :=
  transfer_done unit_size (transfer_done unit_size sample_t1 2 (TransferOk (Some 4))) 1 (TransferOk None).

Lemma sample_tsteps : rtc (tstep unit_size sample_tcfg doubled) sample_t0 sample_t3.
Proof.
  eapply rtc_l; [apply (tstep_growth _ _ _ sample_t0 [1; 2; 3] sample_t1); vm_compute; reflexivity|].
  eapply rtc_l; [apply (tstep_done _ _ _ sample_t1 2 (TransferOk (Some 4)))|].
  { split; simpl; [lia|set_solver]. }
  { by intros d [= <-]. }
  apply rtc_once. apply (tstep_done _ _ _ (transfer_done unit_size sample_t1 2 (TransferOk (Some 4))) 1 (TransferOk None)).
  { split; [vm_compute; split; congruence|]. vm_compute. intros H. discriminate H. }
  { by intros d [= <-]. }
Qed.

Lemma sample_t0_inv : transfer_inv unit_size sample_tcfg doubled sample_t0.
Proof. apply TransferFetcher_inv; simpl; lia. Qed.

(** The transfer fetcher over the plain one: growth starts blocks 1, 2 and 3; block 2 is
    got from upstream and finishes before block 1. *)
Definition double (n x : Z) : option Z := Some (x * 2).

#[local] Instance sample_plain : Fetching (Plain (D := Z)) Z.
Proof. refine (Plain_Fetching unit_size sample_fcfg _). simpl. lia. Defined.

Definition stack0 : Stacked (U := Plain) (F := Z) (T := Z) := Stacked_new (sample_f1, None) (header 1000).
Definition stack1 : Stacked (U := Plain) (F := Z) (T := Z) := mkStacked (sample_f1, None) ∅ sample_t1.
Definition stack2 : Stacked (U := Plain) (F := Z) (T := Z) :=
  mkStacked (sample_f1, None) {[2 := inr (Some 2)]} sample_t1.
Definition stack3 : Stacked (U := Plain) (F := Z) (T := Z) :=
  mkStacked (sample_f1, None) (<[1 := inr None]> {[2 := inr (Some 2)]}) sample_t1.
Definition answers (x : Z) (k : nat) : TransferAnswer Z := AnswerOk (Some (x * 2)).
Definition stack4 : Stacked (U := Plain) (F := Z) (T := Z) :=
  mkStacked (sample_f1, None) (delete 2 (<[1 := inr None]> {[2 := inr (Some 2)]}))
    (transfer_done unit_size sample_t1 2 (transfer_query 0 sample_tcfg (inr (Some 2)) answers)).
Definition stack5 : Stacked (U := Plain) (F := Z) (T := Z) :=
  mkStacked (sample_f1, None) (delete 1 (pending stack4))
    (transfer_done unit_size (own stack4) 1 (transfer_query 0 sample_tcfg (inr None) answers)).

Lemma stack_runs : rtc (stack_run unit_size 0 sample_tcfg double sample_src) stack0 stack5.
Proof.
  assert (Hans : forall n, transfers double n answers) by (by intros n x k d [= <-]).
  eapply (rtc_l _ _ stack1).
  { apply run_step. apply (stacked_growth _ _ _ _ _ stack0 [1; 2; 3]). vm_compute. reflexivity. }
  eapply (rtc_l _ _ stack2).
  { apply run_step. apply (stacked_fetch _ _ _ _ _ stack1 2 (inr (Some 2))); [|reflexivity..].
    split; simpl; [lia|set_solver]. }
  eapply (rtc_l _ _ stack3).
  { apply run_step. apply (stacked_fetch _ _ _ _ _ stack2 1 (inr None)); [|reflexivity..].
    split; simpl; [lia|set_solver]. }
  eapply (rtc_l _ _ stack4).
  { apply run_step. by apply (stacked_done _ _ _ _ _ stack3 2 (inr (Some 2)) answers). }
  apply rtc_once, run_step. by apply (stacked_done _ _ _ _ _ stack4 1 (inr None) answers).
Qed.

Lemma stack0_inv : stacked_inv unit_size sample_tcfg double sample_src stack0.
Proof.
  apply Stacked_new_inv; simpl; try lia.
  apply (fsteps_inv unit_size sample_fcfg sample_src ltac:(simpl; lia) _ _ sample_fsteps sample_f0_inv).
Qed.

(** C9: along every interleaving of the transfers (several blocks at a time, finishing in
    any order, some failing) with growth, the goroutines of the upstream, whatever kind of
    fetcher it is, updates, moves up to the ready blocks and breaks, [Get] of the transfer
    fetcher returns what the transfer function makes of the upstream's source, or the error of
    a failed block at or before it. *)
Theorem transfer_serves_source {U F T} `{Fetching U F} (Size : T -> Z) zero cfg tf src f0 f n :
  1 <= maxConcurrency cfg < 2 ^ 62 -> 0 <= tMaxRetry cfg ->
  stacked_inv Size cfg tf src f0 -> rtc (stack_run Size zero cfg tf src) f0 f ->
  match transfer_Get (own f) n with
  | PollData d lat => lat = tLatest (own f) /\
      d = if BR_Contains (tFull (own f)) n then fg_view src n ≫= tf n else None
  | PollErr e lat => lat = tLatest (own f) /\
      (tBrokenErr (own f) = Some e \/ exists at_, fetchFailed (own f) = Some (e, at_) /\ at_ <= n)
  | PollWait gen => gen = readyEndMoved (own f) /\ readyEnd (own f) <= n /\ tBrokenErr (own f) = None
  end.
Proof.
  intros Hc Hr Hi Hrun. apply (transfer_Get_spec Size cfg (through tf src)).
  by destruct (stack_runs_inv Size zero cfg Hc Hr tf src f0 f Hrun Hi).
Qed.

Lemma transfer_serves_source_witness :
  transfer_Get (own stack5) 2 = PollData (Some 4) (header 1000) /\
  (header 1000 = tLatest (own stack5) /\
   Some 4 = if BR_Contains (tFull (own stack5)) 2 then sample_src 2 ≫= double 2 else None).
Proof.
  assert (E : transfer_Get (own stack5) 2 = PollData (Some 4) (header 1000)) by (vm_compute; reflexivity).
  split; [exact E|].
  pose proof (transfer_serves_source unit_size 0 sample_tcfg double sample_src stack0 stack5 2) as H.
  rewrite E in H. apply H; [simpl; lia|simpl; lia|apply stack0_inv|apply stack_runs].
Defined.

(** Growth starts the transfers of the next blocks, none that is running already, and
    never more than [maxConcurrency] blocks are between the ready range and the blocks not
    started. *)
Theorem transfer_window {T} (Size : T -> Z) cfg g f0 f started f' :
  1 <= maxConcurrency cfg < 2 ^ 62 -> transfer_inv Size cfg g f0 -> rtc (tstep Size cfg g) f0 f ->
  transfer_growth cfg f = Some (started, f') ->
  fetchStart f' - readyEnd f' <= maxConcurrency cfg /\ NoDup started /\
  (forall bn, bn ∈ started -> running f' bn /\ ~ running f bn) /\
  (forall bn, running f' bn -> running f bn \/ bn ∈ started).
Proof.
  intros Hc Hi Hr Hg. assert (Hf : transfer_inv Size cfg g f) by (eapply tsteps_inv; eauto).
  destruct (transfer_growth_inv Size cfg g Hc f started f' Hf Hg) as ([_ _ _ Hw _ _ _ _] & -> & Hs & Hb).
  split_and!; [done|apply NoDup_seqZ|done|done].
Qed.

Lemma transfer_window_witness :
  exists started f', transfer_growth sample_tcfg sample_t3 = Some (started, f') /\
    started = [4; 5] /\ fetchStart f' - readyEnd f' <= 3.
Proof.
  assert (E : exists f', transfer_growth sample_tcfg sample_t3 = Some ([4; 5], f')) by (eexists; vm_compute; reflexivity).
  destruct E as [f' E]. exists [4; 5], f'. split_and!; [exact E|done|].
  refine (proj1 (transfer_window unit_size sample_tcfg doubled sample_t0 sample_t3 [4; 5] f' _ _ _ E)).
  - simpl. lia.
  - apply sample_t0_inv.
  - apply sample_tsteps.
Defined.




(** [Broken] of the plain fetcher does not wake a reader that is waiting: its channel
    is not closed and the growth goroutine goes on as before, while a reader that calls
    [Get] anew gets the error at once. *)
Theorem broken_does_not_wake {D} cfg (f : FetcherState D) n gen e :
  Get f n = PollWait gen ->
  Get (Broken f e) n = PollErr e (latest f) /\ fetchingDone (Broken f e) = gen /\
  growth_begin cfg (Broken f e) = growth_begin cfg f.
Proof. apply Broken_not_woken. Qed.

Lemma broken_does_not_wake_witness :
  Get sample_f1 7 = PollWait 1 /\ Get (Broken sample_f1 "gone") 7 = PollErr "gone" (header 1000).
Proof.
  assert (E : Get sample_f1 7 = PollWait 1) by (vm_compute; reflexivity).
  split; [exact E|]. refine (proj1 (broken_does_not_wake sample_fcfg sample_f1 7 1 "gone" E)).
Defined.
