(* ===== verification/SinkProps.v ===== *)
(** * What the sinks promise: the theorems

    Each theorem with a hypothesis has a concrete instance: a checkpoint store that keeps
    what it is given, a time series store that is the list of its rows and a topic that is the
    list of its messages. *)
From Stdlib Require Import ZArith Lia.
From stdpp Require Import base numbers option strings sorting gmap list.
From S2P Require Import Prelude RangeBase RangeSet RangeSetOps RangeCut BlockCache BlockRange Sparsify Errors Checkpoint CheckpointCtrl Sinks CheckpointSave CheckpointOps CheckpointTemplates SinkSafety SinkWorld CheckpointStore Progress Samples.
Import TimeSeriesLog WebhookEvents.

Section Theorems.
Context {B Row S P : Type} `{HB : Services B} `{!StoreLaws B}
  `{HS : TimeSeries.Store Row S} `{!TSStoreLaws Row S} `{HT : Webhook.Topic P}.
Variable publish_order : list string -> list string.


(** C10: While the controller runs, no row is lost or written twice: for every block the
    store and the cache together have the rows that were inserted and not rolled back. *)
Theorem no_row_lost_or_doubled (w0 : SinkWorld B Row S P) delay interval maxKeep s b :
  empty_world publish_order w0 -> reached publish_order w0 delay interval maxKeep (true, s) -> stopped (ctrl s) = false ->
  rows_at (timeSeriesStore (world s)) b ++ flat rows_of (cached_at (TimeSeries.cached (timeSeries (world s))) b)
    ≡ₚ log (ideal (world s)) b.
Proof. apply running_rows. Qed.
End Theorems.

(** A webhook commit publishes every message of the blocks up to its block exactly
    once and clears them; when publishing fails it has published some and keeps them all.
    The numbers of the events ascend and tell the block. *)
Theorem webhook_commit {P} `{HT : Webhook.Topic P} `{!TopicLaws P} order n t c (p : P) :
  (forall l, order l ≡ₚ l) -> within_limit c n -> (forall bn, bn ∈ dom (Webhook.cached c) -> 0 <= bn) ->
  (n + 1) * Webhook.MaxMessagesPerBlock < two64 ->
  (let '((st, e), (c', p')) := Webhook.Commit order n t (c, p) in
   match e with
   | None => published p' ≡ₚ published p ++ events c n /\
             Webhook.cached c' = drop_upto (Webhook.cached c) n /\ Webhook.committed c' = Some n /\
             (forall name, default 0 (st !! name) = count_name name (events c n))
   | Some err => ecode err = ErrCodeSendWebhookDataFailed /\ c' = c /\
             exists part rest, events c n ≡ₚ part ++ rest /\ published p' ≡ₚ published p ++ part
   end) /\
  StronglySorted Z.lt (map (fun e => Webhook.EventID e.2) (events c n)) /\
  Forall (fun e => exists bn, bn <= n /\ bn * Webhook.MaxMessagesPerBlock < Webhook.EventID e.2 < (bn + 1) * Webhook.MaxMessagesPerBlock)
    (events c n).
Proof. intros Ho Hw Hn Hu. split; [by apply Commit_publishes|by apply events_ids]. Qed.

(** ** Instances *)

(** A world with a checkpoint store only. *)
Record Held : Type := mkHeld { held : list Checkpoint * TemplateMap }.

#[global] Instance held_services : Services Held := {
  time_Now w := (10000 * time_Minute, w);
  store_Save cks tpls _ _ := (SaveOk, mkHeld (cks, tpls));
  store_SaveError _ w := (None, w);
  quota_CheckOverQuota w := (QuotaWithin, w);
  quota_SaveUsage _ _ w := (None, w);
  ts_Commit _ _ w := ((∅, None), w);
  entity_Commit _ _ w := (((∅, ∅), None), w);
  webhook_Commit _ _ w := ((∅, None), w);
  sink_Reset _ _ w := (None, w);
  sink_CachedTooMuch _ _ _ := false
}.

#[refine, global] Instance held_laws : StoreLaws Held := { stored w := Some (held w) }.
Proof.
  - by intros cks tpls st w w' [= <-].
  - by intros cks tpls st w r w' [= <- <-].
  - done.
  - done.
  - done.
  - done.
  - done.
  - done.
  - done.
  - done.
Defined.

Definition SRow : Type := (Z * string)%type.

#[global] Instance row_store : TimeSeries.Store SRow (list (Stored SRow)) := {
  TimeSeries.AppendData data _ s := (None, s ++ flat rows_of data);
  TimeSeries.DeleteData n s := (None, filter (fun r => r.2.1 <= n) s)
}.

#[refine, global] Instance row_store_laws : TSStoreLaws SRow (list (Stored SRow)) := { slot := fst; rows s := s }.
Proof.
  - by intros data t s s' [= <-].
  - done.
  - by intros n s s' [= <-].
  - done.
Defined.

#[global] Instance message_list : Webhook.Topic (list (string * Webhook.SingleWebhookMessage)) := {
  Webhook.Publish ch ms p := (None, p ++ map (pair ch) ms)
}.

#[refine, global] Instance message_list_laws : TopicLaws (list (string * Webhook.SingleWebhookMessage)) := { published p := p }.
Proof.
  - by intros ch ms p p' [= <-].
  - done.
Defined.

Abbreviation SampleWorld := (SinkWorld Held SRow (list (Stored SRow)) (list (string * Webhook.SingleWebhookMessage))).

Definition first_world : SampleWorld :=
  mkSinkWorld (mkHeld ([], ∅)) TimeSeries.newTimeSeriesController [] log_empty (Webhook.newWebhookController 1) [].

Lemma first_world_empty : empty_world id first_world.
Proof. split_and!; [|done|done|done]. by intros cks t [= <- _]. Qed.

(** ** A run: two rows for block 5, a checkpoint, a save, a crash *)

(** An equation that the kernel checks by evaluating both sides. *)
Ltac by_kernel := match goal with |- _ = ?r => vm_cast_no_check (eq_refl r) end.

#[local] Instance sample_services : Services SampleWorld := SinkWorld_services id.

Definition after_call {A} (r : Outcome (A * CState SampleWorld)) (d : CState SampleWorld) : CState SampleWorld :=
  match r with Ok (_, s) => s | _ => d end.

Definition with_rows (s : CState SampleWorld) : CState SampleWorld :=
  mkCState (ctrl s) (insert_rows 5 0 [TimeSeries.mkDataset "metric" "m" [(5, "x"); (5, "y")]] (world s)).

Definition started : CState SampleWorld := mkCState (loaded_ctrl 0 1 1000 first_world) first_world.
Definition made_ready : CState SampleWorld := after_call (Ready all_sinks ∅ started) started.
Definition inserted : CState SampleWorld := with_rows made_ready.



Lemma reached_inserted : reached id first_world 0 1 1000 (true, inserted).
Proof.
  eapply rtc_l; [apply (d_ready _ _ false all_sinks ∅ started None made_ready); [reflexivity|by_kernel]|].
  eapply rtc_l; [|apply rtc_refl].
  apply (d_work _ _ true (ctrl made_ready) (world made_ready)). apply work_rows.
  - assert (mark (ideal (world made_ready)) = -1) as -> by by_kernel. lia.
  - repeat constructor.
Qed.




Lemma no_row_lost_or_doubled_witness :
  rows_at (timeSeriesStore (world inserted)) 5 ++
    flat rows_of (cached_at (TimeSeries.cached (timeSeries (world inserted))) 5) ≡ₚ log (ideal (world inserted)) 5.
Proof. apply (no_row_lost_or_doubled id first_world 0 1 1000 inserted 5 first_world_empty reached_inserted). by_kernel. Defined.

Definition sample_message (ch payload : string) : Webhook.WebhookMessage := Webhook.mkWebhookMessage "n" ch 0 payload.

Definition sample_webhook : Webhook.Controller :=
  Webhook.Insert 7 1 [sample_message "b" "3"] (Webhook.Insert 7 0 [sample_message "a" "2"]
    (Webhook.Insert 5 0 [sample_message "a" "1"] (Webhook.newWebhookController 1))).

Lemma webhook_commit_witness :
  StronglySorted Z.lt (map (fun e => Webhook.EventID e.2) (events sample_webhook 6)) /\
  map (fun e => Webhook.EventID e.2) (events sample_webhook 7) = [50000001; 70000001; 70000002].
Proof.
  destruct (webhook_commit id 6 0 sample_webhook []) as (_ & H & _).
  - intros l. reflexivity.
  - intros bn Hbn. destruct (decide (bn = 5)) as [->|H5]; [by vm_compute|]. destruct (decide (bn = 7)) as [->|H7]; [lia|].
    unfold sample_webhook, Webhook.Insert. cbn [Webhook.cached]. rewrite !cached_at_Insert_ne by done. by vm_compute.
  - intros bn. assert (Webhook.cached sample_webhook = cache_Insert (cache_Insert (cache_Insert ∅ 5 0 [sample_message "a" "1"]) 7 0 [sample_message "a" "2"]) 7 1 [sample_message "b" "3"]) as -> by by_kernel.
    unfold cache_Insert, PutIntoK2Map. rewrite !dom_insert_L, dom_empty_L. set_unfold. lia.
  - unfold Webhook.MaxMessagesPerBlock, two64. lia.
  - split; [exact H|reflexivity].
Defined.
