(* ===== verification/EntityProps.v ===== *)
(** * What the entity controller promises: the theorems

    Each theorem with a hypothesis has a concrete instance. *)
From Stdlib Require Import ZArith Lia QArith Ascii String Relations.
From stdpp Require Import base numbers option strings pretty sorting gmap list.
From S2P Require Import Prelude BlockCache RangeText EntityValue EntityHistory EntityMerge EntityTyping EntityCtrl EntitySpec EntityWrite EntityCommit EntityRefine EntitySamples.
#[local] Open Scope Z_scope.

(** On an integer field, operators with integer operands compose: executing the
    operator two of them are merged into gives what the two give one after the other, as
    long as the results fit the field. *)
Theorem integer_operators_compose `{HD : Decimal} `{!DecimalLaws} typ v m1 a1 m2 a2 mi1 ai1 mi2 ai2 :
  integral m1 mi1 -> integral a1 ai1 -> integral m2 mi2 -> integral a2 ai2 ->
  operator_scalar typ = Ok "BigInt" \/
  operator_scalar typ = Ok "Int8" /\ fits64 (origin_int64 v * mi1 + ai1) /\ fits64 ((origin_int64 v * mi1 + ai1) * mi2 + ai2) ->
  exact_at typ (num_op m1 a1) (num_op m2 a2) v.
Proof.
  intros H1 H2 H3 H4 [Ht|(Ht & F1 & F2)]; [by apply (merge_BigInt typ v m1 a1 m2 a2 mi1 ai1 mi2 ai2)|].
  by apply (merge_Int8 typ v m1 a1 m2 a2 mi1 ai1 mi2 ai2).
Qed.

(** On a decimal field any two operators compose, up to the representation of the
    result. *)
Theorem decimal_operators_compose `{HD : Decimal} `{!DecimalLaws} typ v m1 a1 m2 a2 :
  operator_scalar typ = Ok "BigDecimal" ->
  exists x y, (let! op := mergeOperator typ (num_op m1 a1) (num_op m2 a2) in calcOperator typ v op) = Ok x /\
    (let! w := calcOperator typ v (num_op m1 a1) in calcOperator typ w (num_op m2 a2)) = Ok y /\ veq x y.
Proof. apply merge_BigDecimal. Qed.

(** On an integer field, operators with fractional operands do not compose: merging
    rounds the operands where executing does not. Twice the factor 1.5 makes 5 of 2, and
    the merged operator makes 8 of it. *)
Theorem fractional_operators_differ :
  exists m a v1 v2, let op := num_op m a in let t := NonNull (Scalar "Int8") in
    checkNumCalcValueTypeMatch t m = true /\ checkNumCalcValueTypeMatch t a = true /\
    (let! op2 := mergeOperator t op op in calcOperator t (VInt64 2) op2) = Ok v1 /\
    (let! w := calcOperator t (VInt64 2) op in calcOperator t w op) = Ok v2 /\ v1 <> v2.
Proof.
  exists (RBigdecimal (mkBigDecimal (buildBigInteger 15) (-1))), (RInt 0), (VInt64 8), (VInt64 5). by split_and!.
Qed.

(** An integer survives its protobuf message exactly, a decimal up to the
    representation, and a type survives being broken into its layers. *)
Theorem value_messages_round_trip `{HD : Decimal} `{!DecimalLaws} z d t :
  GetBigInt (NewBigIntValue z) = Some z /\
  (exists d', GetBigDecimal (NewBigDecimalValue d) = Some d' /\ Qeq (dval d') (dval d)) /\
  Join (BreakType t) = Ok t.
Proof.
  split_and!; [simpl; by rewrite fromBigInt_build| |apply Join_BreakType].
  eexists. split; [reflexivity|apply fromBigDecimal_build].
Qed.

Section Theorems.
Context `{HD : Decimal} {St : Type} `{HSt : !ChainStore St} `{HL : !ChainStoreLaws St}.

(** After any run of writes, reads, commits, reorgs, restarts and recoveries from a
    commit that failed, a read of an entity
    returns the value that the writes up to the block make, one after the other, in a table
    that knows neither merging, operators executed in place, commits nor a store; with a
    store that works the read succeeds. *)
Theorem entity_reads_table (st : St) A s e id n :
  slog st = [] -> sclean st -> clos_refl_trans_1n _ estep (empty_table, NewController st) (A, s) ->
  in_table e -> (forall b, b ∈ entity_log s e id -> GenBlockNumber b <= n) ->
  exists r s', getEntity (st_GetEntityType e) id n false s = Ok (r, s') /\
    (forall box, r = inl box -> table_value A e id n = Ok (box ≫= Data)) /\
    (StoreWorks (St := St) -> exists box, r = inl box).
Proof.
  intros Hl Hcl Hrun Ht Hn. pose proof (run_implements (empty_table, NewController st) (A, s) (implements_empty st Hl Hcl) Hrun) as Him. cbn in Him.
  destruct (read_matches A s e id n Him Ht) as (r & s' & E & Hr & Hw). exists r, s'. split_and!; [done| |done].
  intros box Hb. destruct (Hr box Hb) as [_ Hv]. by apply Hv.
Qed.


(** A commit ends; where it succeeds, the changes beyond the block are what remains,
    the store has the data of the entities at each of their blocks, and every value at or
    beyond the block is as before. In any case the store has at most been added boxes of
    changed entities, each at the block of a change. *)
Theorem entity_commit n t (s : EState (St := St)) :
  store_ok (store s) -> plain_elsewhere (changes s) ->
  changes_ok (changes s) -> fits (changes s) -> (forall e id, exists v, value s e id n = Ok v) ->
  exists stat r s', Commit n t s = Ok ((stat, r), s') /\
    added s s' /\
    (r = None -> committed_to n s s') /\ (r <> None -> committed s' = committed s).
Proof.
  intros Hso Hp Hc Hf Hv. destruct (Commit_spec n t s Hso Hp Hc Hf Hv) as (stat & r & s' & E & H1 & H2 & H3 & _). by exists stat, r, s'.
Qed.

(** C31: The boxes two changes of a block are merged into do to the data before the block
    what the two changes do one after the other, wherever the operators of a field compose
    exactly; in particular they can be merged whenever they can be executed. *)
Theorem block_changes_merge et e n prev r1 r2 :
  box_ok et e -> box_ok et n -> ID (ebox e) = ID (ebox n) -> Entity (ebox e) = Entity (ebox n) -> ops_exact et prev e n ->
  exec_box et prev e = Ok r1 -> exec_box et (default ∅ r1) n = Ok r2 ->
  exists m, Merge et e n = Ok m /\ box_ok et m /\ gen m = gen n /\ exec_box et prev m = Ok r2.
Proof.
  intros He Hn Hid Hen Hex E1 E2. destruct (Merge_total et e n prev r1 r2) as [m Em]; [done..|].
  exists m. split_and!; [done|by apply (Merge_box_ok et e n m)|by eapply Merge_gen|exact (Merge_sequential et e n m prev r1 r2 He Hn Em E1 E2 Hex)].
Qed.

(** The values of the fields have the Go types of the schema: the zero values have
    them, and executing a box and merging two boxes keep them. *)
Theorem field_values_typed et e n m prev d :
  box_typed et e -> box_typed et n -> data_typed et prev ->
  (Merge et e n = Ok m -> box_typed et m) /\ (exec_box et prev e = Ok d -> opt_typed et d) /\
  (forall t v, zero_value t = Ok v -> has_type t v = true).
Proof.
  intros He Hn Hp. split_and!; [by apply Merge_typed|by apply exec_box_typed|apply zero_value_typed].
Qed.

(** A commit of a time series gives every box without a number of its own a number
    above the largest stored one, ascending in the order of the blocks, and none of the
    numbers that were given; the other boxes are not changed. *)
Theorem time_series_numbers entity maxID set l :
  0 <= maxID -> maxID + Z.of_nat (length (all_boxes set)) * (Z.of_nat (size (manual_ids set)) + 1) < 2 ^ 63 ->
  time_series_boxes entity maxID set = Ok (inl l) ->
  let boxes := merge_sort by_gen (all_boxes set) in
  boxes ≡ₚ all_boxes set /\ Sorted by_gen boxes /\ Forall2 (numbered (manual_ids set) maxID) boxes l /\
  (exists ns, fresh_ids boxes l = map FormatInt ns /\ StronglySorted Z.lt ns /\ Forall (fun n => maxID < n) ns) /\
  Forall (fun id => maxID < ParseInt id) (elements (manual_ids set)).
Proof.
  intros Hm Hroom Hl boxes. unfold time_series_boxes in Hl. case_bool_decide as Hman; [done|]. fold boxes in Hl.
  destruct (assign_ids (manual_ids set) maxID boxes) as [l'| |] eqn:E; cbn [obind] in Hl; try done. injection Hl as ->.
  destruct (assign_ids_spec (manual_ids set) maxID boxes l) as [H1 H2]; [lia|by unfold boxes; rewrite merge_sort_Permutation|done|].
  split_and!; [apply merge_sort_Permutation|by apply Sorted_merge_sort, by_gen_total|done|done|].
  apply not_Exists_Forall in Hman; [|intros id; apply _]. eapply Forall_impl; [exact Hman|]. simpl. lia.
Qed.

(** A history is kept in the order of the blocks, with one box for a block: a pushed
    box goes to its place, or into the box of its block; the latest box up to a block, the
    number of boxes and the cut at a block are found by binary search. *)
Theorem history_in_order et nw ch n :
  hist_ok ch ->
  Count ch n = length (upto n ch) /\ Latest ch n = last (upto n ch) /\ Split ch n = (upto n ch, beyond n ch) /\
  (forall r ch', Push et nw ch = Ok (r, ch') -> hist_ok ch') /\
  ((forall b, b ∈ ch -> gen b <> gen nw) -> Push et nw ch = Ok ((false, nw), upto (gen nw) ch ++ nw :: beyond (gen nw) ch)).
Proof.
  intros Hs. split_and!; [by apply Count_length|by apply Latest_last|by apply Split_spec|by intros r ch'; apply Push_hist_ok|].
  intros Hne. destruct (Push_spec et nw ch Hs) as [(lo & hi & -> & Hlo & Hhi & ->)|(lo & old & hi & -> & Hg & _)].
  - rewrite (upto_split _ _ _ _ Hlo Hhi), (proj2 (Z.ltb_ge _ _)) by lia.
    rewrite (upto_empty _ hi), app_nil_r by done. rewrite beyond_split; [done|eapply Forall_impl; [exact Hlo|simpl; lia]|done].
  - destruct (Hne old); [|done]. apply elem_of_app. right. by left.
Qed.
End Theorems.

(** ** A run on the sample store *)


Abbreviation LState := (EState (St := LogStore)).

Definition run0 : Table * LState := (empty_table, NewController (mkLogStore [])).

(** The token after the writes of block 5, and after that of block 7. *)
Definition token_at_5 : UncommittedEntityBox :=
  mkUncommitted (token_box "a" 5 (Some {[ "id" := VString "a"; "balance" := VBigIntP (Some 110); "count" := VInt64 1 ]})) ∅.

Definition run1 : Table * LState :=
  (table_write "Token" (set_balance "a" 5 100) run0.1, mkEState (changed [set_balance "a" 5 100]) None 0 (mkLogStore [])).
Definition run2 : Table * LState :=
  (table_write "Token" (change_balance "a" 5 1 10) run1.1, mkEState (changed [token_at_5]) None 0 (mkLogStore [])).
Definition run3 : Table * LState := (run2.1, mkEState ∅ (Some 6) 0 (mkLogStore [ebox token_at_5])).
Definition run4 : Table * LState :=
  (table_write "Token" (change_balance "a" 7 2 0) run3.1,
   mkEState (changed [change_balance "a" 7 2 0]) (Some 6) 0 (mkLogStore [ebox token_at_5])).

(** What a write makes of the value at its block. *)
Definition write_result (A : Table) (box : UncommittedEntityBox) : option (gmap string Value) :=
  match (let! v0 := table_value A "Token" (ID (ebox box)) (gen box) in exec_box token_type (default ∅ v0) box) with
  | Ok v => v
  | _ => None
  end.

Lemma first_write : can_write run0.1 run0.2 "Token" (set_balance "a" 5 100) (write_result run0.1 (set_balance "a" 5 100)).
Proof.
  split; [done|by vm_compute|apply set_balance_ok|done|..].
  - by intros b ?%not_elem_of_nil.
  - by intros b ?%not_elem_of_nil.
  - intros lo old hi p Hh. by destruct lo.
  - reflexivity.
Qed.

Lemma second_write : can_write run1.1 run1.2 "Token" (change_balance "a" 5 1 10) (write_result run1.1 (change_balance "a" 5 1 10)).
Proof.
  split; [done|by vm_compute|apply change_balance_ok|done|..].
  - intros b Hb. assert (run1.1 "Token" "a" = [set_balance "a" 5 100]) as E by reflexivity.
    cbn [ID ebox change_balance token_box] in Hb. rewrite E, list_elem_of_singleton in Hb. subst. by vm_compute.
  - by intros b ?%not_elem_of_nil.
  - intros lo old hi p Hh. assert (history (changes run1.2) "Token" "a" = [set_balance "a" 5 100]) as E by reflexivity.
    pose proof (eq_trans (eq_sym Hh) E) as Hone. destruct lo as [|? [|]]; [|exfalso; clear -Hone; done..].
    injection Hone as -> _. intros _ _. apply (set_balance_change "a" 5 100 1 10).
  - reflexivity.
Qed.

Lemma third_write : can_write run3.1 run3.2 "Token" (change_balance "a" 7 2 0) (write_result run3.1 (change_balance "a" 7 2 0)).
Proof.
  split; [done|done|apply change_balance_ok|..].
  - intros c Hc. assert (committed run3.2 = Some 6) as E by reflexivity. rewrite E in Hc. injection Hc as <-. reflexivity.
  - intros b Hb. assert (run3.1 "Token" "a" = [set_balance "a" 5 100; change_balance "a" 5 1 10]) as E by reflexivity.
    cbn [ID ebox change_balance token_box] in Hb. rewrite E, elem_of_cons, list_elem_of_singleton in Hb. by destruct Hb as [->| ->].
  - intros b Hb. assert (map GenBlockNumber (entity_log run3.2 "Token" "a") = [5]) as E by reflexivity.
    apply (list_elem_of_fmap_2 GenBlockNumber) in Hb. cbn [ID ebox change_balance token_box] in Hb.
    change (GenBlockNumber b ∈ map GenBlockNumber (entity_log run3.2 "Token" "a")) in Hb. rewrite E, list_elem_of_singleton in Hb.
    rewrite Hb. done.
  - intros lo old hi p Hh. assert (history (changes run3.2) "Token" "a" = []) as E by reflexivity.
    pose proof (eq_trans (eq_sym Hh) E) as Hnil. exfalso. clear -Hnil. by destruct lo.
  - reflexivity.
Qed.

Lemma sample_commit : can_commit run2.2 6.
Proof.
  split_and!.
  - intros e. assert (changes run2.2 = {[ "Token" := {[ "a" := history (changes run2.2) "Token" "a" ]} ]}) as -> by reflexivity.
    destruct (decide (e = "Token")) as [->|Hne]; [rewrite lookup_singleton_eq|rewrite lookup_singleton_ne by done]; cbn [from_option id]; rewrite ?map_size_singleton, ?map_size_empty; lia.
  - assert (committed run2.2 = None) as -> by reflexivity. done.
  - intros e id b _. unfold entity_log. assert (slog (store run2.2) = []) as -> by reflexivity. by intros ?%not_elem_of_nil.
Qed.

Lemma sample_run2 : clos_refl_trans_1n _ estep run0 (run2.1, run2.2).
Proof.
  eapply Relation_Operators.rt1n_trans; [apply (es_write _ _ "Token" (set_balance "a" 5 100) _ run1.2 first_write); reflexivity|].
  eapply Relation_Operators.rt1n_trans; [apply (es_write _ _ "Token" (change_balance "a" 5 1 10) _ run2.2 second_write); reflexivity|].
  apply Relation_Operators.rt1n_refl.
Qed.

Lemma sample_run3 : clos_refl_trans_1n _ estep run0 (run3.1, run3.2).
Proof.
  apply clos_rt_rt1n. eapply rt_trans; [apply clos_rt1n_rt, sample_run2|]. apply rt_step.
  apply (es_commit _ _ 6 0 (mkCommitStat {[ "Token" := 1 ]} {[ "Token" := 0 ]}) run3.2 sample_commit). reflexivity.
Qed.

Lemma sample_run4 : clos_refl_trans_1n _ estep run0 (run4.1, run4.2).
Proof.
  apply clos_rt_rt1n. eapply rt_trans; [apply clos_rt1n_rt, sample_run3|]. apply rt_step.
  apply (es_write _ _ "Token" (change_balance "a" 7 2 0) _ run4.2 third_write). reflexivity.
Qed.

Lemma log_store_works : StoreWorks (St := LogStore).
Proof. split; intros; cbn; eauto. Qed.

(** ** Instances of the theorems *)

Lemma integer_operators_compose_witness :
  exact_at (NonNull (Scalar "Int8")) (num_op (RInt 2) (RInt 1)) (num_op (RInt64 3) (NewBigIntValue (-4))) (VInt64 10).
Proof.
  apply (integer_operators_compose _ _ _ _ _ _ 2 1 3 (-4));
    [apply integral_Int|apply integral_Int|apply integral_Int64|apply integral_New|].
  right. unfold fits64. cbn [origin_int64]. split; [reflexivity|lia].
Defined.

Lemma decimal_operators_compose_witness :
  exists x y, let t := Scalar "BigDecimal" in let op := num_op (RBigdecimal (mkBigDecimal (buildBigInteger 15) (-1))) (RInt 1) in
    (let! o := mergeOperator t op op in calcOperator t (VDecP None) o) = Ok x /\
    (let! w := calcOperator t (VDecP None) op in calcOperator t w op) = Ok y /\ veq x y.
Proof. apply (decimal_operators_compose (Scalar "BigDecimal") (VDecP None)). reflexivity. Defined.

Lemma entity_reads_table_witness :
  exists box s' d, getEntity token_type "a" 8 false run4.2 = Ok (inl (Some box), s') /\ Data box = Some d /\
    d !! "balance" = Some (VBigIntP (Some 220)).
Proof.
  destruct (entity_reads_table (mkLogStore []) run4.1 run4.2 "Token" "a" 8) as (r & s' & E & Hv & Hw);
    [reflexivity|exact I|exact sample_run4|split; reflexivity| |].
  - intros b Hb. apply (list_elem_of_fmap_2 GenBlockNumber) in Hb.
    assert (map GenBlockNumber (entity_log run4.2 "Token" "a") = [5]) as El by reflexivity.
    change (GenBlockNumber b ∈ map GenBlockNumber (entity_log run4.2 "Token" "a")) in Hb.
    rewrite El, list_elem_of_singleton in Hb. rewrite Hb. lia.
  - destruct (Hw log_store_works) as [box ->]. specialize (Hv box eq_refl).
    assert (Hd : (match table_value run4.1 "Token" "a" 8 with Ok (Some d) => d !! "balance" | _ => None end) = Some (VBigIntP (Some 220))) by reflexivity.
    rewrite Hv in Hd. destruct box as [box|]; [|discriminate Hd]. exists box, s'.
    change (Some box ≫= Data) with (Data box) in Hd. destruct (Data box) as [d|]; [|discriminate Hd]. exists d.
    split; [exact E|]. split; [reflexivity|exact Hd].
Defined.


Lemma entity_commit_witness : exists stat r s', Commit 6 0 run2.2 = Ok ((stat, r), s') /\ exists w, slog (store s') = slog (store run2.2) ++ w.
Proof.
  assert (H0 : implements empty_table (NewController (mkLogStore []))) by (apply implements_empty; [reflexivity|exact I]).
  pose proof (run_implements run0 (run2.1, run2.2) H0 sample_run2) as Him.
  destruct (entity_commit 6 0 run2.2) as (stat & r & s' & E & Hw & _).
  - exact (im_store _ _ Him).
  - exact (implements_elsewhere _ _ Him).
  - exact (im_ok _ _ Him).
  - exact (proj1 sample_commit).
  - intros e id. exact (implements_defined run2.1 run2.2 e id 6 Him).
  - exists stat, r, s'. split; [exact E|]. destruct Hw as [(w & Hw & _) _]. exists w. exact Hw.
Defined.

(** The data of a token. *)
Definition token_data (x n : Z) : gmap string Value :=
  {[ "id" := VString "a"; "balance" := VBigIntP (Some x); "count" := VInt64 n ]}.

Lemma sample_ops_exact : ops_exact token_type (token_data 10 1) (change_balance "a" 5 2 0) (change_balance "a" 5 3 5).
Proof.
  intros f t op1 op2 v H1 H2 Ht Hv. cbn [Operators change_balance] in H1, H2.
  apply lookup_insert_Some in H1 as [[<- <-]|[Hne H1]].
  - rewrite lookup_insert_eq in H2. injection H2 as <-. injection Ht as <-.
    assert (Ev : token_data 10 1 !! "balance" = Some (VBigIntP (Some 10))) by reflexivity. rewrite Ev in Hv. injection Hv as <-.
    apply (merge_BigInt _ _ _ _ _ _ 2 0 3 5); [done|apply integral_New..].
  - rewrite lookup_insert_ne in H2 by done. apply lookup_singleton_Some in H1 as [<- <-]. rewrite lookup_singleton_eq in H2.
    injection H2 as <-. injection Ht as <-.
    assert (Ev : token_data 10 1 !! "count" = Some (VInt64 1)) by reflexivity. rewrite Ev in Hv. injection Hv as <-.
    apply (merge_Int8 _ _ _ _ _ _ 1 1 1 1); [done|apply integral_Int..|unfold fits64; cbn [origin_int64]; lia|unfold fits64; cbn [origin_int64]; lia].
Qed.

Lemma block_changes_merge_witness :
  exists m d, Merge token_type (change_balance "a" 5 2 0) (change_balance "a" 5 3 5) = Ok m /\
    exec_box token_type (token_data 10 1) m = Ok (Some d) /\ d !! "balance" = Some (VBigIntP (Some 65)).
Proof.
  destruct (block_changes_merge token_type (change_balance "a" 5 2 0) (change_balance "a" 5 3 5) (token_data 10 1)
    (Some (token_data 20 2)) (Some (token_data 65 3))) as (m & E & _ & _ & Hx).
  - apply change_balance_ok.
  - apply change_balance_ok.
  - reflexivity.
  - reflexivity.
  - exact sample_ops_exact.
  - reflexivity.
  - reflexivity.
  - exists m, (token_data 65 3). split; [exact E|]. split; [exact Hx|]. reflexivity.
Defined.

Lemma change_balance_typed n m a : box_typed token_type (change_balance "a" n m a).
Proof. intros d [= <-] f v [<- <-]%lookup_singleton_Some. by eexists. Qed.

Lemma token_data_typed x n : data_typed token_type (token_data x n).
Proof.
  intros f v Hv. unfold token_data in Hv. apply lookup_insert_Some in Hv as [[<- <-]|[_ Hv]]; [by eexists|].
  apply lookup_insert_Some in Hv as [[<- <-]|[_ Hv]]; [by eexists|]. apply lookup_singleton_Some in Hv as [<- <-]. by eexists.
Qed.

Lemma field_values_typed_witness : opt_typed token_type (Some (token_data 20 2)).
Proof.
  destruct (field_values_typed token_type (change_balance "a" 5 2 0) (change_balance "a" 5 3 5) (change_balance "a" 5 3 5)
    (token_data 10 1) (Some (token_data 20 2))) as (_ & H & _);
    [apply change_balance_typed|apply change_balance_typed|apply token_data_typed|].
  apply H. reflexivity.
Defined.

Definition sample_swaps : gmap string (list UncommittedEntityBox) :=
  {[ "@1" := [swap "@1" 3 7]; "2" := [swap "2" 3 1]; "@2" := [swap "@2" 4 1] ]}.

Definition sample_numbered : list EntityBox :=
  match time_series_boxes "Swap" 0 sample_swaps with Ok (inl l) => l | _ => [] end.

Lemma time_series_numbers_witness :
  map ID sample_numbered = ["2"; "1"; "3"] /\
  exists ns, fresh_ids (merge_sort by_gen (all_boxes sample_swaps)) sample_numbered = map FormatInt ns /\
    StronglySorted Z.lt ns /\ Forall (fun n => 0 < n) ns.
Proof.
  destruct (time_series_numbers "Swap" 0 sample_swaps sample_numbered) as (_ & _ & _ & H & _).
  - lia.
  - assert (length (all_boxes sample_swaps) = 3%nat) as -> by reflexivity. assert (size (manual_ids sample_swaps) = 1%nat) as -> by reflexivity. lia.
  - reflexivity.
  - split; [reflexivity|exact H].
Defined.

Lemma history_in_order_witness :
  Push token_type (set_balance "a" 7 1) [set_balance "a" 5 1; set_balance "a" 9 1] =
  Ok ((false, set_balance "a" 7 1), [set_balance "a" 5 1; set_balance "a" 7 1; set_balance "a" 9 1]).
Proof.
  destruct (history_in_order token_type (set_balance "a" 7 1) [set_balance "a" 5 1; set_balance "a" 9 1] 6) as (_ & _ & _ & _ & H).
  - repeat constructor.
  - rewrite H; [reflexivity|]. intros b [->|[->|[]%not_elem_of_nil]%elem_of_cons]%elem_of_cons; done.
Defined.
