(* ===== verification/StackProps.v ===== *)
(** * What the entity stack promises: the theorems

    The controller on the chain store on the entity tables; the filters, the structures of
    the processor and the patterns. Each theorem with a hypothesis has a concrete
    instance. *)
From Stdlib Require Import ZArith Lia QArith Ascii String Relations.
From stdpp Require Import base numbers option strings pretty sorting gmap list.
From S2P Require Import Prelude BlockCache RangeText EntityValue EntityHistory EntityMerge EntityTyping EntityCtrl EntityRich EntityStruct LikePattern EntityFilter EntitySql ChainStore EntityTable EntitySpec ChainStoreSpec ChainStoreList TableRows TableSpec TableRead TableWrite TableReorg ChainStack EntityWrite EntityCommit EntityRefine EntityList EntityPages EntitySamples.
#[local] Open Scope Z_scope.

(** ** The stack *)

Section Stack.
Context `{HD : Decimal} `{HC : !Conversions} {L : Type} `{HLru : !LRU L} `{HLL : !LRULaws L} `{HS : !Store} `{HOk : !StoreOk}.

(** The columns of an entity that is not deleted are its fields. *)
Lemma live_columns e log cs b :
  b ∈ live_boxes e log -> default ∅ (Data b) !! EntityPrimaryFieldName = Some (VString (ID b)) -> selected_all (box_columns b) cs = selected_all (row_of (Data b)) cs.
Proof.
  intros (id & _ & Hb)%list_elem_of_omap Hid. assert (Hlive : is_Some (Data b)).
  { unfold live_box in Hb. destruct (last (of_entity e id log)) as [b'|]; [|done]. cbn in Hb. unfold live in Hb. destruct (Data b') eqn:E; [|done]. injection Hb as <-. by rewrite E. }
  destruct Hlive as [d Hdata]. apply selected_all_ext. intros f. unfold box_columns, columns, row_of. rewrite Hdata in *. cbn [rowBox plain_row] in *.
  case_bool_decide as Hf; [|by rewrite Hdata]. subst f. cbn [default from_option Datatypes.id] in *. by rewrite Hid.
Qed.


(** C17: Writing keeps the tables in order, in whichever layout and however far it gets: each
    change has its row, with the row that cancels the one before in a versioned table, and
    the table beside it with the latest rows lacks cancelled pairs only. What is written is
    appended, all of it where no error is returned. *)
Theorem set_entities_keeps_tables e boxes checker getter t n err t' :
  store_setEntities (sch_type e) boxes checker getter t = ((n, err), t') -> Forall (fun b => Entity b = e) boxes ->
  tables_ok t -> (forall id, ascending (of_entity e id (table_log t ++ boxes))) -> getter_right e (table_log t) getter ->
  tables_ok t' /\
  exists part, table_log t' = table_log t ++ part /\ (forall b, b ∈ part -> b ∈ boxes) /\
    (err = None -> IsCache (sch_type e) = false -> forall id, of_entity e id part = of_entity e id boxes).
Proof.
  intros Hs Hb Hok Hasc Hg. destruct (setEntities_rows _ _ _ _ _ _ _ _ Hs Hb) as (part & H1 & H2 & H3 & H4). split; [by apply H4|].
  exists part. split_and!; [done|done|]. intros Hn Hc id. apply H3; [done|done|]. specialize (Hasc id). rewrite of_entity_app in Hasc.
  by eapply ascending_app_r.
Qed.

(** C11: A reorg of tables that are right up to its block at least removes exactly what is
    beyond the block where it succeeds, and leaves the tables in order: rows of the latest
    table that an earlier failure has lost are found missing by the count and written
    again. Where it fails the tables are right up to the block still, so that another reorg
    can succeed. *)
Theorem reorg_repairs_tables m n t err t' :
  store_reorg n t = (err, t') -> n <= m -> tables_base m t ->
  tables_base n t' /\ upto_gen n (table_log t') = upto_gen n (table_log t) /\
  (err = None -> tables_ok t' /\ table_log t' = upto_gen n (table_log t)) /\
  ((Failure -> False) -> err = None).
Proof.
  intros Hr Hm Hb. pose proof (reorg_rows n t err t' Hr) as (H1 & _ & H3 & H4). destruct (H1 m Hm Hb) as [H5 H6]. split_and!; [done|done|auto|].
  intros Hno. unfold store_reorg in Hr. destruct (reorg_entities_works Hno sch_entities n t) as [t1 E1]. rewrite E1 in Hr.
  destruct (elsewhere_works Hno (length sch_aggregations) t1) as [t2 E2]. rewrite E2 in Hr. by injection Hr as <- <-.
Qed.

(** The condition of the table decides as that of the data. *)
Lemma live_match e log fs cs b :
  b ∈ live_boxes e log -> default ∅ (Data b) !! EntityPrimaryFieldName = Some (VString (ID b)) -> buildConditions HugeIDSetSize fs = inl cs ->
  sql_match (EntityStoreLaws := entity_tables_laws) fs b = selected_all (row_of (Data b)) cs.
Proof. intros Hb Hid Hcs. cbn [sql_match entity_tables_laws]. unfold table_match. rewrite <- (selected_filters _ _ _ Hcs). by apply (live_columns e log). Qed.


(** The chain store lists as the controller asks. *)
#[global] Instance stack_lister_laws `{HDL : !DecimalLaws} `{HCL : !ConversionLaws} : ChainListerLaws (St := ChainStoreState (L := L) (Db := Tables)).
Proof.
  refine {| lister_works := (Failure -> False) /\ (forall et data, store_CheckValue et data = true) |}. intros e fs limit pass c Hp [[Hd Hc] Ho] Hb Hfs. cbn [slog chain_store_laws] in *.
  destruct (builds_all HugeIDSetSize fs Hb) as [cs Hcs].
  destruct (ListEntities_answers (HDb := entity_tables) (HDL := entity_tables_laws) e fs limit pass c Hp Hd Ho Hc) as (r & c' & E & Hl & Hd' & Hc' & Hr & Hw).
  - intros b Hlb. destruct (Hfs b Hlb) as (Hf & Hid & Hck). split; [done|]. rewrite (live_match e (clog c) fs cs b Hlb Hid Hcs).
    rewrite (filters_agree HugeIDSetSize fs (Data b) cs Hf Hcs) in Hck. by injection Hck.
  - exists r, c'. split_and!; [done|done| |done|]; [split; [done|]; cbn [slog chain_store_laws]; by rewrite Hl|]. intros [Hno Hck]. apply Hw.
    + apply (tryLoadFullCache_works (entity_tables_work Hno Hck)).
    + intros d. assert (Hsub : forall P `{!forall f, Decision (P f)}, forallb filter_builds (filter P fs) = true).
      { intros P HP. apply forallb_forall. intros f Hf. rewrite forallb_forall in Hb. apply Hb, list_elem_of_In. apply list_elem_of_In in Hf. by apply list_elem_of_filter in Hf as [_ ?]. }
      destruct (builds_all HugeIDSetSize (splitFilters fs).1 (Hsub _ _)) as [pk Hpk]. destruct (builds_all HugeIDSetSize (splitFilters fs).2 (Hsub _ _)) as [ot Hot].
      cbn [db_listEntities db_GetEntityType entity_tables]. exact (list_works Hno e fs cs pk ot true limit d Hcs Hpk Hot).
Defined.

End Stack.

(** ** Filters, structures and patterns *)


(** Every comparison of a field of type [Int8] that is not null panics. *)
Theorem int8_filters_panic `{HD : Decimal} `{HC : !Conversions} f data u w uw :
  is_order_op (fOp f) = true -> is_list_type (FieldType (fField f)) = false -> inner (FieldType (fField f)) = Scalar "Int8" ->
  unwrap (field_value f data) = Some u -> fValue f = [w] -> unwrap w = Some uw -> checkFilter f data = Panic.
Proof.
  intros Ho Hl Hi Hu Hv Hw. unfold checkFilter, one_value. rewrite Hv. fold (field_value f data). unfold is_list_type in Hl. rewrite Hl.
  rewrite (compare_Int8 _ _ _ u uw) by done. by destruct (fOp f).
Qed.

(** C32: The data of an entity survives the structure for the processor: each field comes
    back with the same value, bytes and decimals up to their representation. *)
Theorem entity_data_round_trip `{HD : Decimal} `{HC : !Conversions} `{HDL : !DecimalLaws} `{HCL : !ConversionLaws} et d :
  schema_ok et -> names_unique et -> data_sound et d ->
  exists r m, ToRichStruct et (Some d) = Ok (inl (Some r)) /\ FromRichStruct et (Some r) = Ok (inl (Some m, ∅)) /\
    dom m = dom d /\ forall f v t, d !! f = Some v -> field_type et f = Ok t -> exists w, m !! f = Some w /\ same_at t v w.
Proof. apply struct_round_trip. Qed.

(** An update of an entity from the processor is executed without panicking on whatever
    data is there; each field gets the value that was set, the old value times or plus what
    was given, or keeps its value (the zero value where it has none). *)
Theorem entity_update_applied `{HD : Decimal} `{HC : !Conversions} `{HDL : !DecimalLaws} `{HCL : !ConversionLaws} et fields m ops prev :
  schema_ok et -> FromEntityUpdateData et (Some fields) = Ok (inl (Some m, ops)) ->
  exists d, calc_all et prev ops m = Ok d /\ forall f, f ∈ stored_fields et \/ f ∈ dom fields -> updated_field et prev d f (fields !! f).
Proof.
  intros Hs Hu. destruct (update_total et fields m ops prev Hs Hu) as [d Hd]. exists d. split; [done|]. by apply (update_executes et fields m ops).
Qed.

(** The regular expression made of a pattern is well-formed and matches the texts that
    the pattern means, as long as they have no newline; with one it may not. *)
Theorem like_patterns :
  (forall p s, no_newline s -> MatchString (LikePatternToRegexp p) s = Some (like_match p s)) /\
  exists p s, MatchString (LikePatternToRegexp p) s = Some false /\ like_match p s = true.
Proof.
  split; [intros p s; apply like_regexp|]. exists ["%"%char], ["010"%char]. split; reflexivity.
Qed.

(** ** A run of the sample stack *)

(** Versioned tables of a database that does not fail. *)
#[global] Instance stack_store : Store := sample_store true Empty_set (fun f => match f with end).
#[global] Instance stack_store_ok : StoreOk := sample_store_ok true Empty_set _.

Abbreviation Stack := (ChainStoreState (L := SampleLRU) (Db := Tables)).
Abbreviation SState := (EState (St := Stack)).

Definition new_stack : Stack := mkChainStore (empty_tables []) (NewLRU 10) ∅ ∅ ∅ ∅ ∅ ∅ ∅ 1000 10.

Definition stack1 : Table * SState := (table_write "Token" (set_balance "a" 5 100) empty_table, mkEState (changed [set_balance "a" 5 100]) None 0 new_stack).

Definition stack_commit : CommitStat * SState := match Commit 6 0 stack1.2 with Ok ((st, _), s) => (st, s) | _ => (mkCommitStat ∅ ∅, stack1.2) end.
Definition stack2 : Table * SState := (stack1.1, stack_commit.2).





(** One token in the tables, one uncommitted. *)
Definition stack3 : Table * SState :=
  (table_write "Token" (set_balance "b" 9 130) stack2.1, match SetEntity (sch_type "Token") (set_balance "b" 9 130) stack2.2 with Ok (_, s) => s | _ => stack2.2 end).





Definition above (x : Z) : EntityFilter := mkFilter (field "balance" "BigInt") OpGt [VBigIntP (Some x)] None.




(** The pages: the uncommitted token first. *)
Example two_pages : match all_pages 5 "Token" 9 [above 50] EmptyString 1 stack3.2 with Ok (inl boxes, _) => map ID boxes | _ => [] end = ["b"; "a"].
Proof. reflexivity. Qed.

(** ** Tables of a database that fails *)

(** The statement with a failure may have taken effect. *)
Definition failing_store : Store := sample_store true bool (fun effect => effect).

Definition token (id : string) (n x : Z) : EntityBox := ebox (set_balance id n x).
Definition three_changes : list EntityBox := [token "a" 5 100; token "b" 5 30; token "a" 7 110].

(** The engine removes the first pair of rows of a token; the count of the ids fails. *)
Definition bad_events : list (Event (HS := failing_store)) :=
  let ok := mkEvent (HS := failing_store) [] None in
  [ok; ok; ok; ok; mkEvent (HS := failing_store) [("1", "Token", "a", 1)] None; ok; ok; ok; mkEvent (HS := failing_store) [] (Some false)].

Definition filled := store_setEntities (HS := failing_store) (stack_types "Token") three_changes None None (empty_tables (HS := failing_store) bad_events).
Definition broken := store_reorg (HS := failing_store) 5 filled.2.
Definition repaired := store_reorg (HS := failing_store) 5 broken.2.

Lemma three_changes_ascending e id : ascending (of_entity e id three_changes).
Proof.
  unfold of_entity, three_changes. destruct (decide (e = "Token")) as [->|He].
  - destruct (decide (id = "a")) as [->|Ha]; [by repeat constructor|]. destruct (decide (id = "b")) as [->|Hb]; [by repeat constructor|].
    rewrite filter_none; [constructor|]. intros b [->|[->|[->|Hin]%elem_of_cons]%elem_of_cons]%elem_of_cons [_ Hid]; [exact (Ha (eq_sym Hid))|exact (Hb (eq_sym Hid))|exact (Ha (eq_sym Hid))|by apply not_elem_of_nil in Hin].
  - rewrite filter_none; [constructor|]. intros b [->|[->|[->|Hin]%elem_of_cons]%elem_of_cons]%elem_of_cons [Hen _]; [exact (He (eq_sym Hen))..|by apply not_elem_of_nil in Hin].
Qed.

Lemma set_entities_keeps_tables_witness :
  filled.1 = (2, None) /\ tables_ok (HS := failing_store) filled.2 /\
  exists part, table_log (HS := failing_store) filled.2 = part /\ (forall b, b ∈ part -> b ∈ three_changes) /\
    (None = @None EntityError -> IsCache (stack_types "Token") = false -> forall id, of_entity "Token" id part = of_entity "Token" id three_changes).
Proof.
  split; [reflexivity|].
  apply (set_entities_keeps_tables (HS := failing_store) (HOk := sample_store_ok true bool _) "Token" three_changes None None (empty_tables (HS := failing_store) bad_events) 2 None filled.2).
  - reflexivity.
  - by repeat constructor.
  - apply (empty_tables_ok (HS := failing_store)).
  - intros id. apply three_changes_ascending.
  - by intros g [=].
Defined.

(** The number of rows in the latest table: the lost row of a token is found again. *)
Lemma reorg_repairs_tables_witness :
  length (latestRows (HS := failing_store) broken.2) = 1%nat /\ length (latestRows (HS := failing_store) repaired.2) = 2%nat /\
  tables_base (HS := failing_store) 5 repaired.2 /\
  upto_gen 5 (table_log (HS := failing_store) repaired.2) = upto_gen 5 (table_log (HS := failing_store) broken.2) /\
  (None = @None EntityError -> tables_ok (HS := failing_store) repaired.2 /\ table_log (HS := failing_store) repaired.2 = upto_gen 5 (table_log (HS := failing_store) broken.2)) /\
  ((bool -> False) -> None = @None EntityError).
Proof.
  split; [reflexivity|]. split; [reflexivity|].
  apply (reorg_repairs_tables (HS := failing_store) (HOk := sample_store_ok true bool _) 5 5 broken.2 None repaired.2); [reflexivity|lia|].
  destruct (reorg_rows (HS := failing_store) (HOk := sample_store_ok true bool _) 5 filled.2 broken.1 broken.2) as [Hbase _]; [apply (surjective_pairing broken)|].
  destruct (Hbase 7) as [Hb _]; [lia| |exact Hb]. apply (tables_ok_base (HS := failing_store)).
  destruct (setEntities_rows (HS := failing_store) (HOk := sample_store_ok true bool _) "Token" three_changes None None (empty_tables (HS := failing_store) bad_events) 2 None filled.2)
    as (part & _ & _ & _ & Hok); [reflexivity|by repeat constructor|].
  apply Hok; [apply (empty_tables_ok (HS := failing_store))|intros _ id; apply three_changes_ascending|by intros g [=]].
Defined.

(** ** Entities of the stack *)







Lemma int8_filters_panic_witness : checkFilter (mkFilter (field "count" "Int8") OpEq [VInt64 0] None) (Data (token "a" 7 110)) = Panic.
Proof. apply (int8_filters_panic _ _ (VInt64 0) (VInt64 0) (VInt64 0)); reflexivity. Defined.

Definition token_data : gmap string Value := {[ "id" := VString "a"; "balance" := VBigIntP (Some 110); "count" := VInt64 3 ]}.

Lemma token_schema_ok : schema_ok token_type /\ names_unique token_type.
Proof. split; [by repeat constructor|]. apply (bool_decide_unpack _). reflexivity. Qed.

Definition add_to_count : gmap string UpdateField := {[ "count" := mkUpdate OpAdd (RInt 2) ]}.

Lemma token_data_sound : data_sound token_type token_data.
Proof.
  split; [unfold token_data; rewrite !dom_insert_L, dom_singleton_L; reflexivity|].
  intros f v t Hf Ht. unfold token_data in Hf.
  destruct (decide (f = "id")) as [->|H1]; [injection Hf as <-; injection Ht as <-; done|].
  destruct (decide (f = "balance")) as [->|H2]; [injection Hf as <-; injection Ht as <-; done|].
  destruct (decide (f = "count")) as [->|H3]; [injection Hf as <-; injection Ht as <-; done|].
  by rewrite !lookup_insert_ne, lookup_singleton_ne in Hf by done.
Qed.

Lemma entity_data_round_trip_witness :
  exists r m, ToRichStruct token_type (Some token_data) = Ok (inl (Some r)) /\ FromRichStruct token_type (Some r) = Ok (inl (Some m, ∅)) /\
    dom m = dom token_data /\ forall f v t, token_data !! f = Some v -> field_type token_type f = Ok t -> exists w, m !! f = Some w /\ same_at t v w.
Proof. apply entity_data_round_trip; [apply token_schema_ok|apply token_schema_ok|apply token_data_sound]. Defined.

Lemma entity_update_applied_witness :
  exists m ops d, FromEntityUpdateData token_type (Some add_to_count) = Ok (inl (Some m, ops)) /\ calc_all token_type token_data ops m = Ok d /\
    forall f, f ∈ stored_fields token_type \/ f ∈ dom add_to_count -> updated_field token_type token_data d f (add_to_count !! f).
Proof.
  eexists _, _.
  destruct (entity_update_applied token_type add_to_count _ _ token_data (proj1 token_schema_ok) eq_refl) as (d & H1 & H2). exists d. split; [reflexivity|]. split; [exact H1|exact H2].
Defined.

(** The time series has a row that a read does not find: the ids were cached before the
    row was written, and writing a time series leaves the caches alone. *)
Definition swap_box : EntityBox := ebox (swap "5" 7 1).

Definition read_before : Stack := (GetEntity (stack_types "Swap") "5" new_stack).2.
Definition after_write : Stack := (SetEntities (stack_types "Swap") [swap_box] read_before).2.

(** A time series entity is read, then written; the write succeeds and the row is in
    the table, but the next read does not find it: a write of a time series does not
    update the cache of the ids that the first read has loaded. *)
Theorem time_series_read_is_stale :
  (GetEntity (stack_types "Swap") "5" new_stack).1 = inl (None, false) /\
  (SetEntities (stack_types "Swap") [swap_box] read_before).1 = (1, None) /\
  of_entity "Swap" "5" (clog after_write) = [swap_box] /\
  (GetEntity (stack_types "Swap") "5" after_write).1 = inl (None, true).
Proof. split_and!; reflexivity. Qed.
