(* ===== verification/UtilProps.v ===== *)
(** * Properties of the shared utilities

    The resource manager never gives more than it has and serves its queue in order; an
    interval query finds exactly the blocks of its interval; merging requirements loses
    none. *)
From Stdlib Require Import ZArith Lia String Relations.
From stdpp Require Import base numbers option sorting gmap list strings.
From S2P Require Import Prelude RangeBase RangeSet BlockRange Sparsify Errors Resources ResourceSpec Checkpoint Intervals IntervalSpec.

(** ** The resource manager *)

(** States the clients can reach. *)
Definition clients_reach (resourceCount : Z) (c : Clients) : Prop := clos_refl_trans_1n _ apply_step (no_clients resourceCount) c.

Lemma reach_ok n c : 0 <= n -> clients_reach n c -> clients_ok c.
Proof. intros Hn. apply apply_steps_ok. by apply no_clients_ok. Qed.

Lemma step_max c c' : clients_ok c -> apply_step c c' -> maxResource (mgr c') = maxResource (mgr c).
Proof.
  intros [Hc _] Hs. pose proof (cc_heap _ Hc) as Hh. destruct Hs as [c p num q Hn E|c p num ch q Hn E|c ch num Hb Hcl|c ch num q Hb E|c id num q Hi E]; cbn.
  1,2: destruct (Apply_begin_cases p num (mgr c) Hh) as [[_ E']|[(_ & _ & E')|(_ & l & _ & _ & E')]]; rewrite E' in E; try done; injection E; intros; by subst.
  - done.
  - unfold cancelWaiter, releaseLocked, grantLocked in E. repeat (case_match || (let r := fresh in destruct (removeWaiterAt _ _) as [r| |]; cbn [obind] in E)); try done; injection E; intros; by subst.
  - unfold release, releaseLocked, grantLocked in E. repeat (case_match || (let r := fresh in destruct (removeWaiterAt _ _) as [r| |]; cbn [obind] in E)); try done; injection E; intros; by subst.
Qed.

Lemma reach_max n c : 0 <= n -> clients_reach n c -> maxResource (mgr c) = n.
Proof.
  intros Hn Hr. assert (clos_refl_trans_n1 _ apply_step (no_clients n) c) as H1 by (by apply clos_rt_rtn1, clos_rt1n_rt).
  induction H1 as [|y z Hyz H1 IH]; [done|]. rewrite (step_max y z); [apply IH; by apply clos_rt_rt1n, clos_rtn1_rt| |done].
  apply (reach_ok n); [done|]. by apply clos_rt_rt1n, clos_rtn1_rt.
Qed.

(** C26: Whatever the clients do, the manager never gives more than it has: what is free,
    what clients hold and what is granted to clients not yet awake always add up to the
    capacity, and no part is negative. The first of the queue is the one of the lowest
    priority number, and among those the earliest; who waits is either queued or has its
    channel closed; nobody waits while no one has or is given resources; and every
    operation a client can call returns. *)
Theorem resource_manager_sound n c :
  0 <= n -> clients_reach n c ->
  0 <= curResource (mgr c) /\ 0 <= total (holding c) /\ 0 <= total (granted c) /\
  curResource (mgr c) + total (holding c) + total (granted c) = n /\
  (forall w v, head (waiters (mgr c)) = Some w -> v ∈ waiters (mgr c) -> wPriority w < wPriority v \/ wPriority w = wPriority v /\ wIndex w <= wIndex v) /\
  (forall ch num, (exists w, w ∈ waiters (mgr c) /\ wCh w = ch /\ wNum w = num) <-> blocked c !! ch = Some num /\ ch ∉ closed (mgr c)) /\
  (waiters (mgr c) <> [] -> holding c <> ∅ \/ granted c <> ∅) /\
  (forall p num, exists r, Apply_begin p num (mgr c) = Ok r) /\
  (forall id num, holding c !! id = Some num -> exists q, release num (mgr c) = Ok q) /\
  (forall ch num, blocked c !! ch = Some num -> exists q, cancelWaiter ch num (mgr c) = Ok q).
Proof.
  intros Hn Hr. pose proof (reach_ok n c Hn Hr) as Hok. pose proof (reach_max n c Hn Hr) as Hm. pose proof Hok as [Hc _].
  split_and!.
  - apply (cc_cur _ Hc).
  - apply total_nonneg. intros i v Hi. by apply (cc_held _ Hc i v).
  - apply total_nonneg. intros i v [Hi _]%granted_lookup. by apply (cc_blocked _ Hc i v).
  - rewrite <- Hm. apply (cc_sum _ Hc).
  - intros w v Hw Hv. apply before_spec. rewrite head_lookup in Hw. apply list_elem_of_lookup in Hv as [i Hi]. by apply (heap_first (waiters (mgr c)) w i v (cc_heap _ Hc)).
  - apply (cc_queue _ Hc).
  - by apply somebody_has.
  - intros p num. destruct (Apply_begin_cases p num (mgr c) (cc_heap _ Hc)) as [[_ ->]|[(_ & _ & ->)|(_ & l & _ & _ & ->)]]; by eexists.
  - intros id num Hi. destruct (released_ok c id num Hok Hi) as (q & E & _). by exists q.
  - intros ch num Hb. destruct (cancelled_ok c ch num Hok Hb) as (q & E & _). by exists q.
Qed.

(** Two resources: the first client takes both, two more queue for one each, the later with
    the lower priority number. *)
Definition crowd1 : Clients := mkClients (mkManager 2 0 1 [] ∅) {[ 0 := 2 ]} ∅.
Definition crowd2 : Clients := mkClients (mkManager 2 0 2 [mkWaiter 5 1 1 1] ∅) {[ 0 := 2 ]} {[ 1 := 1 ]}.
Definition crowd3 : Clients := mkClients (mkManager 2 0 3 [mkWaiter 3 2 1 2; mkWaiter 5 1 1 1] ∅) {[ 0 := 2 ]} (<[2 := 1]> {[ 1 := 1 ]}).
Definition crowd4 : Clients := mkClients (mkManager 2 1 3 [mkWaiter 5 1 1 1] {[ 2 ]}) ∅ (<[2 := 1]> {[ 1 := 1 ]}).

Lemma crowd_steps : apply_step (no_clients 2) crowd1 /\ apply_step crowd1 crowd2 /\ apply_step crowd2 crowd3 /\ apply_step crowd3 crowd4.
Proof.
  split_and!.
  - apply (as_served (no_clients 2) 0 2 (mkManager 2 0 1 [] ∅)); [lia|reflexivity].
  - apply (as_waiting crowd1 5 1 1 (mkManager 2 0 2 [mkWaiter 5 1 1 1] ∅)); [lia|reflexivity].
  - apply (as_waiting crowd2 3 1 2 (mkManager 2 0 3 [mkWaiter 3 2 1 2; mkWaiter 5 1 1 1] ∅)); [lia|reflexivity].
  - apply (as_released crowd3 0 2 (mkManager 2 1 3 [mkWaiter 5 1 1 1] {[ 2 ]})); reflexivity.
Qed.

Lemma crowd_reach : clients_reach 2 crowd3 /\ clients_reach 2 crowd4.
Proof.
  destruct crowd_steps as (H1 & H2 & H3 & H4). split; apply (Relation_Operators.rt1n_trans _ _ _ _ _ H1), (Relation_Operators.rt1n_trans _ _ _ _ _ H2), (Relation_Operators.rt1n_trans _ _ _ _ _ H3).
  - apply rt1n_refl.
  - apply (Relation_Operators.rt1n_trans _ _ _ _ _ H4), rt1n_refl.
Qed.

Lemma resource_manager_sound_witness : 0 <= curResource (mgr crowd3) /\ exists q, release 2 (mgr crowd3) = Ok q.
Proof.
  destruct (resource_manager_sound 2 crowd3 ltac:(lia) (proj1 crowd_reach)) as (H1 & _ & _ & _ & _ & _ & _ & _ & H2 & _).
  split; [exact H1|]. apply (H2 0 2). reflexivity.
Defined.

(** A release serves the first of the queue: when what is free then is enough for it,
    its channel is closed, its resources are taken and it leaves the queue, which otherwise
    stays as it was; when it is not enough, nobody is served, so that a large request is not
    starved by smaller ones behind it. *)
Theorem release_serves_first n c id num w :
  0 <= n -> clients_reach n c -> holding c !! id = Some num -> head (waiters (mgr c)) = Some w ->
  exists q, release num (mgr c) = Ok q /\
    (if wNum w <=? curResource (mgr c) + num then
       wCh w ∉ closed (mgr c) /\ closed q = ({[ wCh w ]} ∪ closed (mgr c)) /\ waiters (mgr c) ≡ₚ w :: waiters q /\
       curResource q = curResource (mgr c) + num - wNum w
     else closed q = closed (mgr c) /\ waiters q = waiters (mgr c) /\ curResource q = curResource (mgr c) + num).
Proof.
  intros Hn Hr Hi Hw. pose proof (reach_ok n c Hn Hr) as [Hc _]. unfold release, releaseLocked, grantLocked. cbn.
  destruct (waiters (mgr c)) as [|w' l] eqn:E; [done|]. injection Hw as ->. rewrite (Z.leb_antisym _ (wNum w)). destruct (_ <? wNum w) eqn:El; cbn.
  { eexists. split; [done|]. by cbn. }
  pose proof (cc_heap _ Hc) as Hh. rewrite E in Hh. destruct (heap_remove (w :: l) 0 w Hh eq_refl) as (l' & -> & Hp & _). cbn [obind].
  eexists. split; [done|]. cbn. split_and!; [|done|done|done]. apply (cc_queue _ Hc (wCh w) (wNum w)). exists w. rewrite E. split; [by left|done].
Qed.

Lemma release_serves_first_witness : exists q, release 2 (mgr crowd3) = Ok q /\ closed q = ({[ 2 ]} ∪ ∅).
Proof.
  destruct (release_serves_first 2 crowd3 0 2 (mkWaiter 3 2 1 2) ltac:(lia) (proj1 crowd_reach) eq_refl eq_refl) as (q & E & H). exists q. split; [exact E|]. apply H.
Defined.

(** One release serves one waiter only: two resources are released together while two
    clients wait for one each, and the second goes on waiting although what is free is
    enough for it, until somebody else releases or cancels. *)
Theorem release_wakes_one : exists c w,
  clients_reach 2 c /\ head (waiters (mgr c)) = Some w /\ wNum w <= curResource (mgr c) /\ wCh w ∉ closed (mgr c) /\ holding c = ∅.
Proof. exists crowd4, (mkWaiter 5 1 1 1). split_and!; [apply crowd_reach|reflexivity|cbn; lia|cbn; set_solver|reflexivity]. Qed.

(** ** Interval queries *)


(** Blocks every four seconds from block 1 on; windows of ten seconds, and of five near the
    head of the chain. *)
Definition clock (n : Z) : Z := n * 4000000000.
Definition clock_getter (n : Z) : Z + string := if n <? 1 then inr "no such block"%string else inl (clock n).
Definition by_time : IntervalRequirement := mkRequirement (mkBlockRange 1 None) (mkInterval None (Some (mkTimeInterval 10000000000 5000000000))).
Definition by_block : IntervalRequirement := mkRequirement (mkBlockRange 1 None) (mkInterval (Some (mkBlockInterval 6 4)) None).
Definition head_at (t : Z) : BlockHeader := mkBlockHeader 100 EmptyString EmptyString t.

Lemma clock_ascends first end_ : 1 <= first -> end_ < 2 ^ 62 -> ascending_times clock_getter clock first end_.
Proof.
  intros Hf He. split; [lia|done|..]; unfold clock_getter, clock, zero_time; intros; [|lia..]. by rewrite (proj2 (Z.ltb_ge _ _)) by lia.
Qed.


(** The first block opens a window, and away from the head only the backfill interval counts. *)
Example query_from_first : QueryInterval clock_getter 1 9 1 (head_at 600000000000) by_time = Ok (inl [5; 3; 8; 1]).
Proof. reflexivity. Qed.

Example query_by_block : QueryInterval clock_getter 1 13 1 (head_at 60000000000) by_block = Ok (inl [4; 6; 8; 12]).
Proof. reflexivity. Qed.

(** Near the head of the chain a query by time from the first block on asks for the time
    of the block before it, which only the backfill pass guards against: when there is no
    such block the whole query fails. *)
Theorem watching_asks_before_first {Err} (timeGetter : Z -> Z + Err) time first end_ latest req t err :
  ascending_times timeGetter time first end_ -> first <= end_ ->
  cBlock (rConfig req) = None -> cTime (rConfig req) = Some t -> in_watching time end_ latest (rConfig req) = true ->
  timeGetter (wrap (first - 1)) = inr err ->
  QueryInterval timeGetter first end_ first latest req = Ok (inr err).
Proof.
  intros Ha He Hb Ht Hw Herr. pose proof Ha as [H0 H1 H2 H3 H4]. unfold QueryInterval. rewrite Hb, Ht.
  unfold in_watching in Hw. apply andb_true_iff in Hw as [Hd Hw]. rewrite Hd, H2, Hw by lia. rewrite !small_int64 by lia.
  rewrite (FindStartPoints_spec _ _ _ _ _ (backfill_ascending timeGetter time first end_ first t Ha ltac:(lia) He)). cbn [obind].
  assert (FindStartPoints (watching_window timeGetter t) first end_ 0 = Ok (inr err)) as ->; [|done].
  unfold FindStartPoints. cbn [points_loop]. unfold FindFirstStartPoint. change ((0 <=? 0) || (0 <? 0)) with true. cbv iota. rewrite (proj2 (Z.ltb_ge end_ first)) by lia.
  rewrite wrap_int64_id by lia. unfold watching_window at 1. by rewrite Herr.
Qed.

Lemma watching_asks_before_first_witness : QueryInterval clock_getter 1 9 1 (head_at 60000000000) by_time = Ok (inr "no such block"%string).
Proof.
  apply (watching_asks_before_first clock_getter clock 1 9 (head_at 60000000000) by_time (mkTimeInterval 10000000000 5000000000));
    [apply clock_ascends; lia|lia|reflexivity..].
Defined.

(** Merging requirements loses none and makes none up, in whatever order the unstable
    sort leaves them: each one that has an interval is covered by one that stays, of the
    same kind, with an equal interval and a range that includes its range. *)
Theorem merge_requirements_cover sortSlice reqs :
  (forall less l, sortSlice less l ≡ₚ l) -> (forall r, r ∈ reqs -> configured r) ->
  (forall r, r ∈ MergeIntervalRequirements sortSlice reqs -> r ∈ reqs) /\
  (forall r, r ∈ reqs -> exists a, a ∈ MergeIntervalRequirements sortSlice reqs /\ covers a r).
Proof.
  intros Hs Hc. unfold MergeIntervalRequirements. split.
  - intros r Hr%merge_requirements_subset. by rewrite Hs in Hr.
  - intros r Hr. apply (merge_requirements_covers [] _ []); [by intros x ?%elem_of_nil| |cbn; by rewrite Hs].
    intros x Hx. apply Hc. by rewrite Hs in Hx.
Qed.

Lemma merge_requirements_cover_witness :
  exists a, a ∈ MergeIntervalRequirements (fun _ l => rev l) [mkRequirement (mkBlockRange 5 (Some 9)) (rConfig by_block); by_block] /\ covers a (mkRequirement (mkBlockRange 5 (Some 9)) (rConfig by_block)).
Proof.
  apply (merge_requirements_cover (fun _ l => rev l)).
  - intros _ l. symmetry. apply Permutation_rev.
  - intros r [->|[->|[]%elem_of_nil]%elem_of_cons]%elem_of_cons; left; discriminate.
  - left.
Defined.
